(** * Swim-lane layout engine: [txt_to_swimlanes.py]

    A shallow embedding of [parse_data], [calculate_vertical_order] and
    [create_drawio_xml], with the properties of the layout engine that the
    design document states about them.

    Conventions of the embedding.
    - A Python [str] is a Rocq [string]; the character classes used by
      [\S], [str.strip] and [str.lower] are the ASCII ones.
    - A Python [dict] is an insertion-ordered association list with unique
      keys ([dict V]); assignment to a present key keeps its position,
      assignment to an absent key appends.
    - A Python [int] is a [Z].
    - An exception is a [Raise] outcome; a loop that needs fuel reports
      [Diverge] when the fuel runs out. *)

From Stdlib Require Import List String Ascii ZArith Lia Bool Arith QArith Qround
DecimalString Qabs Lqa.
Import ListNotations.
Open Scope string_scope.
Open Scope list_scope.
Open Scope Z_scope.


(* ================================================================== *)
(** * Outcomes: values, exceptions, exhausted fuel *)

Inductive exn : Type :=
| KeyError
| ValueError
| ZeroDivisionError.

Inductive outcome (A : Type) : Type :=
| Ret (a : A)
| Raise (e : exn)
| Diverge.

Arguments Ret {A} a.
Arguments Raise {A} e.
Arguments Diverge {A}.

Definition bind {A B : Type} (m : outcome A) (k : A -> outcome B) : outcome B :=
  match m with
  | Ret a => k a
  | Raise e => Raise e
  | Diverge => Diverge
  end.

Notation "x <- m ;; k" := (bind m (fun x => k))
  (at level 61, m at next level, right associativity).
Notation "' p <- m ;; k" := (bind m (fun x => match x with p => k end))
  (at level 61, p pattern, m at next level, right associativity).

(** [for x in l: s = f(s, x)] with a body that may raise. *)
Fixpoint foldM {S X : Type} (f : S -> X -> outcome S) (l : list X) (s : S)
  : outcome S :=
  match l with
  | [] => Ret s
  | x :: l' => s' <- f s x ;; foldM f l' s'
  end.

(* ================================================================== *)
(** * Insertion-ordered dictionaries *)

Definition dict (V : Type) : Type := list (string * V).

Fixpoint dict_get {V : Type} (k : string) (d : dict V) : option V :=
  match d with
  | [] => None
  | (k', v) :: d' => if String.eqb k' k then Some v else dict_get k d'
  end.

(** [k in d] *)
Definition dict_mem {V : Type} (k : string) (d : dict V) : bool :=
  match dict_get k d with Some _ => true | None => false end.

(** [d[k] = v] *)
Fixpoint dict_set {V : Type} (k : string) (v : V) (d : dict V) : dict V :=
  match d with
  | [] => [(k, v)]
  | (k', v') :: d' =>
      if String.eqb k' k then (k', v) :: d' else (k', v') :: dict_set k v d'
  end.

(** [d[k]], raising [KeyError] on an absent key *)
Definition subscript {V : Type} (d : dict V) (k : string) : outcome V :=
  match dict_get k d with
  | Some v => Ret v
  | None => Raise KeyError
  end.

Definition keys {V : Type} (d : dict V) : list string := map fst d.
Definition values {V : Type} (d : dict V) : list V := map snd d.

(** [x in l] for a list of strings *)
Definition mem (x : string) (l : list string) : bool :=
  existsb (String.eqb x) l.

(* ================================================================== *)
(** * Strings: character classes, [strip], [lower] *)

(** Whitespace as [\s] and [str.strip] see it on ASCII:
    TAB, LF, VT, FF, CR, FS, GS, RS, US and SPACE. *)
Definition is_space (c : ascii) : bool :=
  let n := nat_of_ascii c in
  (((9 <=? n) && (n <=? 13)) || ((28 <=? n) && (n <=? 32)))%nat.

Fixpoint lstrip (s : string) : string :=
  match s with
  | EmptyString => EmptyString
  | String c s' => if is_space c then lstrip s' else s
  end.

Fixpoint rstrip (s : string) : string :=
  match s with
  | EmptyString => EmptyString
  | String c s' =>
      match rstrip s' with
      | EmptyString => if is_space c then EmptyString else String c EmptyString
      | r => String c r
      end
  end.

Definition strip (s : string) : string := rstrip (lstrip s).

Definition lower_ascii (c : ascii) : ascii :=
  let n := nat_of_ascii c in
  if ((65 <=? n) && (n <=? 90))%nat then ascii_of_nat (n + 32) else c.

Fixpoint lower (s : string) : string :=
  match s with
  | EmptyString => EmptyString
  | String c s' => String (lower_ascii c) (lower s')
  end.

(** Truthiness of a string: non-empty. *)
Definition nonempty (s : string) : bool :=
  match s with EmptyString => false | _ => true end.

(* ================================================================== *)
(** * [re.findall] with the triple pattern

    The pattern is: a group [\S+], the literal space-dash-dash-space, a
    group [\S+], the literal space-dash-dash-greater-space, and a group of
    any characters up to the end of the line.

    Both literals start with a space, which [\S] excludes, so a greedy
    [\S+] can only be followed by its literal when it took the whole run of
    non-space characters: at a given start the match is the one computed by
    [match_here], or there is none. The dot matches everything but a line
    feed. *)

Definition Triple : Type := (string * string * string)%type.

(** The longest prefix of non-space characters, and what follows it. *)
Fixpoint span_nonspace (s : string) : string * string :=
  match s with
  | EmptyString => (EmptyString, EmptyString)
  | String c s' =>
      if is_space c then (EmptyString, s)
      else let (a, r) := span_nonspace s' in (String c a, r)
  end.

(** The rest of the line: the longest prefix without a line feed. *)
Fixpoint span_line (s : string) : string :=
  match s with
  | EmptyString => EmptyString
  | String c s' =>
      if Ascii.eqb c "010"%char then EmptyString else String c (span_line s')
  end.

(** [s] with the literal [p] removed from its front. *)
Fixpoint strip_literal (p s : string) : option string :=
  match p, s with
  | EmptyString, _ => Some s
  | String a p', String b s' =>
      if Ascii.eqb a b then strip_literal p' s' else None
  | String _ _, EmptyString => None
  end.

(** A match starting at the first character of [s]: the three groups and
    the length of the matched text. *)
Definition match_here (s : string) : option (Triple * nat) :=
  let (g1, r1) := span_nonspace s in
  if nonempty g1 then
    match strip_literal " -- " r1 with
    | None => None
    | Some r2 =>
        let (g2, r3) := span_nonspace r2 in
        if nonempty g2 then
          match strip_literal " --> " r3 with
          | None => None
          | Some r4 =>
              let g3 := span_line r4 in
              Some ((g1, g2, g3),
                    (String.length g1 + 4 + String.length g2 + 5
                     + String.length g3)%nat)
          end
        else None
    end
  else None.

(** The scan of [findall]: non-overlapping matches, leftmost first. [skip]
    counts the characters of the current match still to be passed over. *)
Fixpoint findall_from (skip : nat) (s : string) : list Triple :=
  match s with
  | EmptyString => []
  | String _ s' =>
      match skip with
      | S k => findall_from k s'
      | O =>
          match match_here s with
          | Some (t, len) => t :: findall_from (Nat.pred len) s'
          | None => findall_from O s'
          end
      end
  end.

Definition findall (raw_data : string) : list Triple := findall_from O raw_data.

(* ================================================================== *)
(** * The structured graph built by [parse_data] *)

(** [{"stakeholders": [...], "next": [...]}] *)
Record ItemMeta : Type := mkMeta {
  stakeholders : list string;
  next : list string
}.

(** [{"items": {...}}] *)
Record Content : Type := mkContent {
  items : dict ItemMeta
}.

Definition DataStruct : Type := dict Content.

Record ParseState : Type := mkParse {
  data_struct : DataStruct;
  item_to_milestone : dict string;
  tooltips : dict string
}.

Definition parse_init : ParseState := mkParse [] [] [].

(** [if subj not in data_struct: data_struct[subj] = {"items": {}}] *)
Definition ensure_procedure (subj : string) (ds : DataStruct) : DataStruct :=
  if dict_mem subj ds then ds else dict_set subj (mkContent []) ds.

(** [data_struct[m]["items"][i] = meta] *)
Definition store_item (m i : string) (meta : ItemMeta) (ds : DataStruct)
  : outcome DataStruct :=
  c <- subscript ds m ;;
  Ret (dict_set m (mkContent (dict_set i meta (items c))) ds).

(** The body of the [for subj, pred, obj in triples] loop. *)
Definition process_triple (st : ParseState) (t : Triple) : outcome ParseState :=
  let '(subj0, pred, obj0) := t in
  let subj := strip subj0 in
  let pred_norm := lower (strip pred) in
  let obj := strip obj0 in
  let ds := data_struct st in
  let i2m := item_to_milestone st in
  if String.eqb pred_norm "sourcetext" then
    Ret (mkParse ds i2m (dict_set subj obj (tooltips st)))
  else if String.eqb pred_norm "type" && String.eqb obj "Procedure" then
    Ret (mkParse (ensure_procedure subj ds) i2m (tooltips st))
  else if String.eqb pred_norm "hassequenceditem" then
    let ds1 := ensure_procedure subj ds in
    c <- subscript ds1 subj ;;
    ds2 <- (if dict_mem obj (items c) then Ret ds1
            else store_item subj obj (mkMeta [] []) ds1) ;;
    Ret (mkParse ds2 (dict_set obj subj i2m) (tooltips st))
  else if String.eqb pred_norm "hasstakeholder" then
    match dict_get subj i2m with
    | None => Ret st
    | Some milestone_id =>
        if nonempty milestone_id then
          c <- subscript ds milestone_id ;;
          if dict_mem subj (items c) then
            c' <- subscript ds milestone_id ;;
            meta <- subscript (items c') subj ;;
            let sh_list := stakeholders meta in
            if mem obj sh_list then Ret st
            else
              ds' <- store_item milestone_id subj
                       (mkMeta (sh_list ++ [obj]) (next meta)) ds ;;
              Ret (mkParse ds' i2m (tooltips st))
          else Ret st
        else Ret st
    end
  else if String.eqb pred_norm "hasnext" then
    match dict_get subj i2m with
    | None => Ret st
    | Some milestone_id =>
        if nonempty milestone_id then
          c <- subscript ds milestone_id ;;
          if dict_mem subj (items c) then
            c' <- subscript ds milestone_id ;;
            meta <- subscript (items c') subj ;;
            ds' <- store_item milestone_id subj
                     (mkMeta (stakeholders meta) (next meta ++ [obj])) ds ;;
            Ret (mkParse ds' i2m (tooltips st))
          else Ret st
        else Ret st
    end
  else Ret st.

Definition parse_loop (triples : list Triple) (st : ParseState)
  : outcome ParseState :=
  foldM process_triple triples st.

(** [if not meta["stakeholders"]: meta["stakeholders"] = ["Unassigned"]] *)
Definition fallback_meta (meta : ItemMeta) : ItemMeta :=
  match stakeholders meta with
  | [] => mkMeta ["Unassigned"] (next meta)
  | _ => meta
  end.

Definition fallback_content (c : Content) : Content :=
  mkContent (map (fun '(item_id, meta) => (item_id, fallback_meta meta)) (items c)).

Definition fallback (ds : DataStruct) : DataStruct :=
  map (fun '(milestone_id, content) => (milestone_id, fallback_content content)) ds.

Definition parse_data (raw_data : string) : outcome (DataStruct * dict string) :=
  st <- parse_loop (findall raw_data) parse_init ;;
  Ret (fallback (data_struct st), tooltips st).


(* ================================================================== *)
(** * Level assignment: [calculate_vertical_order] *)

Definition Graph : Type := (dict (list string) * dict Z)%type.

(** [{item_id: v for item_id in items}] *)
Definition dict_const {V W : Type} (items : dict V) (w : W) : dict W :=
  map (fun '(item_id, _) => (item_id, w)) items.

(** The body of [for target in meta["next"]]. *)
Definition add_edge (item_id : string) (g : Graph) (target : string)
  : outcome Graph :=
  let (adj, in_degree) := g in
  if dict_mem target adj then
    l <- subscript adj item_id ;;
    n <- subscript in_degree target ;;
    Ret (dict_set item_id (l ++ [target]) adj,
         dict_set target (n + 1) in_degree)
  else Ret g.

Definition build_graph (items : dict ItemMeta) : outcome Graph :=
  foldM (fun g '(item_id, meta) => foldM (add_edge item_id) (next meta) g)
        items
        (dict_const items [], dict_const items 0).

(** The mutable state of the [while queue] loop. *)
Record Bfs : Type := mkBfs {
  levels : dict Z;
  in_degree : dict Z;
  queue : list string
}.

(** The body of [for v in adj[u]]. *)
Definition relax (u : string) (st : Bfs) (v : string) : outcome Bfs :=
  lv <- subscript (levels st) v ;;
  lu <- subscript (levels st) u ;;
  let levels' := dict_set v (Z.max lv (lu + 1)) (levels st) in
  d <- subscript (in_degree st) v ;;
  let in_degree' := dict_set v (d - 1) (in_degree st) in
  d' <- subscript in_degree' v ;;
  Ret (mkBfs levels' in_degree'
             (if d' =? 0 then queue st ++ [v] else queue st)).

(** One turn of the [while queue] loop on a non-empty queue: [u] is popped
    from the left, its successors are relaxed, and [u] is logged in the
    list of dequeued items that accompanies the state. *)
Definition bfs_iter (adj : dict (list string)) (u : string) (rest : list string)
  (st : Bfs) (done : list string) : outcome (Bfs * list string) :=
  vs <- subscript adj u ;;
  st' <- foldM (relax u) vs (mkBfs (levels st) (in_degree st) rest) ;;
  Ret (st', done ++ [u]).

Fixpoint bfs_loop (fuel : nat) (adj : dict (list string)) (st : Bfs)
  (done : list string) : outcome (Bfs * list string) :=
  match queue st with
  | [] => Ret (st, done)
  | u :: rest =>
      match fuel with
      | O => Diverge
      | S fuel' =>
          '(st', done') <- bfs_iter adj u rest st done ;;
          bfs_loop fuel' adj st' done'
      end
  end.

(** [deque([i for i in items if in_degree[i] == 0])] *)
Definition initial_queue (items : dict ItemMeta) (in_degree : dict Z)
  : outcome (list string) :=
  foldM (fun q '(i, _) =>
           d <- subscript in_degree i ;;
           Ret (if d =? 0 then q ++ [i] else q))
        items [].

Definition bfs_init (items : dict ItemMeta) : outcome (dict (list string) * Bfs) :=
  '(adj, in_degree) <- build_graph items ;;
  q <- initial_queue items in_degree ;;
  Ret (adj, mkBfs (dict_const items 0) in_degree q).

(** The run of [calculate_vertical_order] with its final loop state and
    the items dequeued, in order. Every item is dequeued at most once, so
    as many turns as there are items suffice. *)
Definition level_run (items : dict ItemMeta) : outcome (Bfs * list string) :=
  '(adj, st) <- bfs_init items ;;
  bfs_loop (List.length items) adj st [].

Definition calculate_vertical_order (items : dict ItemMeta) : outcome (dict Z) :=
  '(st, _) <- level_run items ;;
  Ret (levels st).

(** The successor graph the level assignment works on: the [next] entries
    of [u] that are items of the same procedure. *)
Definition succs (items : dict ItemMeta) (u : string) : list string :=
  match dict_get u items with
  | Some meta => filter (fun t => dict_mem t items) (next meta)
  | None => []
  end.

Definition edge (items : dict ItemMeta) (u v : string) : Prop :=
  In u (keys items) /\ In v (succs items u).

(** A path of at least one edge. *)
Inductive path (items : dict ItemMeta) : string -> string -> Prop :=
| path_edge u v : edge items u v -> path items u v
| path_step u v w : edge items u v -> path items v w -> path items u w.

Definition on_cycle (items : dict ItemMeta) (w : string) : Prop :=
  path items w w.

(** The states the loop passes through, at the head of each turn. *)
Inductive bfs_reach (adj : dict (list string))
  : Bfs * list string -> Bfs * list string -> Prop :=
| reach_here s : bfs_reach adj s s
| reach_turn st done u rest s' s'' :
    queue st = u :: rest ->
    bfs_iter adj u rest st done = Ret s' ->
    bfs_reach adj s' s'' ->
    bfs_reach adj (st, done) s''.

(* ================================================================== *)
(** * The diagram document *)

(** An [xml.etree.ElementTree] element: tag, attributes in insertion
    order, children in document order. No element of the diagram carries
    text. *)
Set Warnings "-register-all".

Inductive Element : Type :=
| Elem (tag : string) (attrib : dict string) (children : list Element).

Definition tag_of (e : Element) : string := let 'Elem t _ _ := e in t.
Definition attrib_of (e : Element) : dict string := let 'Elem _ a _ := e in a.
Definition children_of (e : Element) : list Element := let 'Elem _ _ c := e in c.

(** [e.get(k)] *)
Definition attr (k : string) (e : Element) : option string :=
  dict_get k (attrib_of e).

(** [str(n)] for an integer *)
Definition str (n : Z) : string := NilZero.string_of_int (Z.to_int n).

(** [s.replace("_", " ")] *)
Fixpoint underscores_to_spaces (s : string) : string :=
  match s with
  | EmptyString => EmptyString
  | String c s' =>
      String (if Ascii.eqb c "_"%char then " "%char else c)
             (underscores_to_spaces s')
  end.

(** [s.split(":")[-1]]: what follows the last colon; [acc] is the segment
    read so far. *)
Fixpoint last_segment (s acc : string) : string :=
  match s with
  | EmptyString => acc
  | String c s' =>
      if Ascii.eqb c ":"%char then last_segment s' EmptyString
      else last_segment s' (String.append acc (String c EmptyString))
  end.

(** [max(l)]: [ValueError] on an empty sequence *)
Definition py_max (l : list Z) : outcome Z :=
  match l with
  | [] => Raise ValueError
  | x :: l' => Ret (fold_left Z.max l' x)
  end.

(** [sorted(l)] on strings, by insertion *)
Fixpoint insert_sorted (x : string) (l : list string) : list string :=
  match l with
  | [] => [x]
  | y :: l' => if String.leb x y then x :: l else y :: insert_sorted x l'
  end.

Definition sorted (l : list string) : list string :=
  fold_right insert_sorted [] l.

(** [{k: f(k) for k in l}] *)
Definition dict_comp {V : Type} (f : string -> outcome V) (l : list string)
  : outcome (dict V) :=
  foldM (fun d k => v <- f k ;; Ret (dict_set k v d)) l [].

(** ** [defaultdict(lambda: defaultdict(int))]

    The outer keys are lane names, the inner keys levels. A read of a
    missing cell yields the default 0. *)

Definition zdict : Type := list (Z * Z).

Fixpoint zdict_get (k : Z) (d : zdict) : option Z :=
  match d with
  | [] => None
  | (k', v) :: d' => if k' =? k then Some v else zdict_get k d'
  end.

Fixpoint zdict_set (k v : Z) (d : zdict) : zdict :=
  match d with
  | [] => [(k, v)]
  | (k', v') :: d' =>
      if k' =? k then (k', v) :: d' else (k', v') :: zdict_set k v d'
  end.

Definition Cells : Type := dict zdict.

(** [cells[sh]] *)
Definition lane_cells (sh : string) (cells : Cells) : zdict :=
  match dict_get sh cells with Some d => d | None => [] end.

(** [cells[sh][lvl]] *)
Definition read_cell (sh : string) (lvl : Z) (cells : Cells) : Z :=
  match zdict_get lvl (lane_cells sh cells) with Some n => n | None => 0 end.

(** [cells[sh][lvl] += 1] *)
Definition incr_cell (sh : string) (lvl : Z) (cells : Cells) : Cells :=
  dict_set sh (zdict_set lvl (read_cell sh lvl cells + 1) (lane_cells sh cells))
           cells.

(** ** Layout constants *)

Definition x_start : Z := 50.
Definition y_start : Z := 50.
Definition item_width : Z := 160.
Definition item_height : Z := 60.
Definition vertical_spacing : Z := 100.
Definition h_padding : Z := 20.
Definition lane_header_height : Z := 30.
Definition pool_header_height : Z := 40.
Definition inter_pool_gap : Z := 100.
Definition node_slot_width : Z := item_width + h_padding.

Definition MULTI_COLORS : list string :=
  ["#fff2cc"; "#d5e8d4"; "#ffe6cc"; "#e1d5e7"; "#dae8fc";
   "#f8cecc"; "#fff9c4"; "#c8e6c9"; "#ffe0b2"; "#e8daef"].

Definition pool_style : string :=
  "swimlane;whiteSpace=wrap;html=1;childLayout=stackLayout;horizontal=1;startSize=40;horizontalStack=1;stackSpacing=0;stackAnywhere=0;collapsible=1;dropTarget=0;fontStyle=1;fontSize=14;fillColor=#dae8fc;strokeColor=#6c8ebf;".

Definition lane_style : string :=
  "swimlane;html=1;startSize=30;container=1;collapsible=0;dropTarget=0;fontStyle=1;fillColor=#f5f5f5;strokeColor=#666666;".

Definition node_style (fill_color : string) : string :=
  String.append "rounded=1;whiteSpace=wrap;html=1;fillColor="
    (String.append fill_color ";strokeColor=#333333;fontSize=11;arcSize=10;").

Definition flow_style : string :=
  "edgeStyle=orthogonalEdgeStyle;rounded=1;orthogonalLoop=1;jettySize=auto;html=1;strokeColor=#444444;curved=0;exitX=0.5;exitY=1;exitDx=0;exitDy=0;entryX=0.5;entryY=0;entryDx=0;entryDy=0;".

Definition geometry (x y width height : Z) : Element :=
  Elem "mxGeometry"
       [("x", str x); ("y", str y); ("width", str width);
        ("height", str height); ("as", "geometry")] [].

(** A vertex cell: directly under the root, or wrapped in an [object]
    element that carries the tooltip. [label] is the cell's visible text. *)
Definition vertex_cell (tooltip : option string) (id label style parent : string)
  (geom : Element) : Element :=
  match tooltip with
  | Some tip =>
      Elem "object" [("label", label); ("tooltip", tip); ("id", id)]
           [Elem "mxCell"
                 [("style", style); ("vertex", "1"); ("parent", parent)]
                 [geom]]
  | None =>
      Elem "mxCell"
           [("id", id); ("value", label); ("style", style); ("vertex", "1");
            ("parent", parent)]
           [geom]
  end.

Definition edge_cell (edge_id uuid_src uuid_tgt : string) : Element :=
  Elem "mxCell"
       [("id", edge_id); ("value", ""); ("style", flow_style); ("edge", "1");
        ("parent", "1"); ("source", uuid_src); ("target", uuid_tgt)]
       [Elem "mxGeometry" [("relative", "1"); ("as", "geometry")] []].

(** [int(x)] for a float: truncation towards zero *)
Definition Qtrunc (q : Q) : Z := Z.quot (Qnum q) (Z.pos (Qden q)).

(** The geometry written into one node copy, with the cell it belongs to.
    The emitter logs one record per node element it creates. *)
Record Placement : Type := mkPlacement {
  p_pool : string;
  p_item : string;
  p_lane : string;
  p_level : Z;
  p_slot : Z;
  p_total : Z;
  p_lane_width : Z;
  p_x : Z;
  p_y : Z
}.

(** The state of [create_drawio_xml] that outlives one procedure. *)
Record Emit : Type := mkEmit {
  root : list Element;
  id_map : dict (dict string);
  multi_item_color : dict string;
  color_counter : Z;
  current_x : Z;
  drawn : nat;
  placed : list Placement
}.

Definition emit (e : Element) (st : Emit) : Emit :=
  mkEmit (root st ++ [e]) (id_map st) (multi_item_color st) (color_counter st)
         (current_x st) (drawn st) (placed st).

(** [dict.get] with truthiness: a present, non-empty tooltip *)
Definition truthy_get (k : string) (d : dict string) : option string :=
  match dict_get k d with
  | Some s => if nonempty s then Some s else None
  | None => None
  end.

(** [for meta in items.values(): for sh in meta["stakeholders"]:
     if sh not in all_stakeholders: all_stakeholders.append(sh)] *)
Definition collect_stakeholders (items : dict ItemMeta) : list string :=
  fold_left
    (fun acc '(_, meta) =>
       fold_left (fun acc sh => if mem sh acc then acc else acc ++ [sh])
                 (stakeholders meta) acc)
    items [].

(** The first loop over the items: occupants per (lane, level) cell. *)
Definition count_cells (items : dict ItemMeta) (item_levels : dict Z)
  : outcome Cells :=
  foldM (fun cells '(item_id, item_meta) =>
           lvl <- subscript item_levels item_id ;;
           Ret (fold_left (fun cells sh => incr_cell sh lvl cells)
                          (stakeholders item_meta) cells))
        items [].

(** [max(cells[sh].values()) if cells[sh] else 1] *)
Definition max_nodes (cells : Cells) (sh : string) : outcome Z :=
  match lane_cells sh cells with
  | [] => Ret 1
  | d => py_max (map snd d)
  end.

(* ================================================================== *)
(** * [create_drawio_xml] *)

Section Emitter.

(** [uuid4 n] is the text of the [n]-th identifier that [uuid.uuid4()]
    returns in the run. *)
Variable uuid4 : nat -> string.

(** Rounding of a real result to the nearest float: every float operation
    is the exact operation followed by [rnd]. *)
Variable rnd : Q -> Q.

(** [str(uuid.uuid4())] *)
Definition draw (st : Emit) : string * Emit :=
  (uuid4 (drawn st),
   mkEmit (root st) (id_map st) (multi_item_color st) (color_counter st)
          (current_x st) (S (drawn st)) (placed st)).

(** [lw / total] on two integers *)
Definition int_truediv (a b : Z) : outcome Q :=
  if b =? 0 then Raise ZeroDivisionError
  else Ret (rnd (inject_Z a / inject_Z b)).

(** [slot_width * slot_index + (slot_width - item_width) / 2] *)
Definition x_pos (slot_width : Q) (slot_index : Z) : Q :=
  rnd (rnd (slot_width * rnd (inject_Z slot_index))
       + rnd (rnd (slot_width - inject_Z item_width) / inject_Z 2)).

(** [lane_header_height + 10 + lvl * vertical_spacing] *)
Definition y_pos (lvl : Z) : Z :=
  lane_header_height + 10 + lvl * vertical_spacing.

(** ** Pool and lanes of one procedure *)

Definition pool_cell (tooltips : dict string) (milestone_id pool_id : string)
  (x pool_width pool_height : Z) : Element :=
  vertex_cell (dict_get milestone_id tooltips) pool_id
              (underscores_to_spaces milestone_id) pool_style "1"
              (geometry x y_start pool_width pool_height).

Definition lane_cell (lane_id sh_name pool_id : string)
  (acc_lane_x lw pool_height : Z) : Element :=
  Elem "mxCell"
       [("id", lane_id); ("value", sh_name); ("style", lane_style);
        ("vertex", "1"); ("parent", pool_id)]
       [geometry acc_lane_x pool_header_height lw
                 (pool_height - pool_header_height)].

(** The state of [for sh_name in all_stakeholders]: the emitter state,
    [lane_ids] and [acc_lane_x]. *)
Definition LaneState : Type := (Emit * dict string * Z)%type.

Definition emit_lane (lane_widths : dict Z) (pool_id : string) (pool_height : Z)
  (s : LaneState) (sh_name : string) : outcome LaneState :=
  let '(st, lane_ids, acc_lane_x) := s in
  let (lane_id, st1) := draw st in
  lw <- subscript lane_widths sh_name ;;
  Ret (emit (lane_cell lane_id sh_name pool_id acc_lane_x lw pool_height) st1,
       dict_set sh_name lane_id lane_ids,
       acc_lane_x + lw).

(** ** Node placement *)

(** What one procedure's placement loop reads. *)
Record Lanes : Type := mkLanes {
  l_pool : string;
  l_tooltips : dict string;
  l_levels : dict Z;
  l_widths : dict Z;
  l_counts : Cells;
  l_ids : dict string
}.

(** [if is_multi and item_id not in multi_item_color: ...] *)
Definition assign_color (item_id : string) (is_multi : bool) (st : Emit)
  : Emit :=
  if is_multi && negb (dict_mem item_id (multi_item_color st)) then
    let color :=
      nth (Z.to_nat (color_counter st mod Z.of_nat (List.length MULTI_COLORS)))
          MULTI_COLORS EmptyString in
    mkEmit (root st) (id_map st)
           (dict_set item_id color (multi_item_color st))
           (color_counter st + 1) (current_x st) (drawn st) (placed st)
  else st.

(** [id_map.setdefault(item_id, {})] *)
Definition setdefault_id_map (item_id : string) (st : Emit) : Emit :=
  if dict_mem item_id (id_map st) then st
  else mkEmit (root st) (dict_set item_id [] (id_map st)) (multi_item_color st)
              (color_counter st) (current_x st) (drawn st) (placed st).

(** [id_map[item_id][sh_name] = node_uuid] *)
Definition record_copy (item_id sh_name node_uuid : string) (st : Emit)
  : outcome Emit :=
  copies <- subscript (id_map st) item_id ;;
  Ret (mkEmit (root st)
              (dict_set item_id (dict_set sh_name node_uuid copies) (id_map st))
              (multi_item_color st) (color_counter st) (current_x st)
              (drawn st) (placed st)).

Definition log_placement (p : Placement) (st : Emit) : Emit :=
  mkEmit (root st) (id_map st) (multi_item_color st) (color_counter st)
         (current_x st) (drawn st) (placed st ++ [p]).

(** The body of [for sh_name in item_meta["stakeholders"]]; the second
    component of the state is [lane_level_placed]. *)
Definition place_copy (L : Lanes) (item_id : string) (lvl : Z)
  (clean_name : string) (tooltip : option string) (is_multi : bool)
  (s : Emit * Cells) (sh_name : string) : outcome (Emit * Cells) :=
  let (st, lane_level_placed) := s in
  lw <- subscript (l_widths L) sh_name ;;
  let slot_index := read_cell sh_name lvl lane_level_placed in
  let lane_level_placed' := incr_cell sh_name lvl lane_level_placed in
  let total := read_cell sh_name lvl (l_counts L) in
  slot_width <- int_truediv lw total ;;
  let x := Qtrunc (x_pos slot_width slot_index) in
  let y := y_pos lvl in
  let (node_uuid, st1) := draw st in
  st2 <- record_copy item_id sh_name node_uuid st1 ;;
  fill_color <- (if is_multi then subscript (multi_item_color st2) item_id
                 else Ret "#ffffff") ;;
  lane_id <- subscript (l_ids L) sh_name ;;
  let node :=
    vertex_cell tooltip node_uuid clean_name (node_style fill_color) lane_id
                (geometry x y item_width item_height) in
  Ret (log_placement
         (mkPlacement (l_pool L) item_id sh_name lvl slot_index total lw x y)
         (emit node st2),
       lane_level_placed').

(** The body of [for item_id, item_meta in items.items()]. *)
Definition place_item (L : Lanes) (s : Emit * Cells)
  (it : string * ItemMeta) : outcome (Emit * Cells) :=
  let (item_id, item_meta) := it in
  let (st, lane_level_placed) := s in
  lvl <- subscript (l_levels L) item_id ;;
  let clean_name := underscores_to_spaces (last_segment item_id EmptyString) in
  let tooltip := truthy_get item_id (l_tooltips L) in
  let is_multi := (1 <? List.length (stakeholders item_meta))%nat in
  let st1 := setdefault_id_map item_id (assign_color item_id is_multi st) in
  foldM (place_copy L item_id lvl clean_name tooltip is_multi)
        (stakeholders item_meta) (st1, lane_level_placed).

(** The body of [for milestone_id, content in structured_data.items()] of
    the first pass. *)
Definition layout_procedure (tooltips : dict string) (st : Emit)
  (proc : string * Content) : outcome Emit :=
  let (milestone_id, content) := proc in
  match items content with
  | [] => Ret st
  | _ :: _ =>
      let items := items content in
      item_levels <- calculate_vertical_order items ;;
      max_level <- py_max (values item_levels) ;;
      let all_stakeholders := sorted (collect_stakeholders items) in
      lane_level_counts <- count_cells items item_levels ;;
      max_nodes_per_lane <- dict_comp (max_nodes lane_level_counts)
                                      all_stakeholders ;;
      lane_widths <- dict_comp
                       (fun sh => n <- subscript max_nodes_per_lane sh ;;
                                  Ret (n * node_slot_width + h_padding))
                       all_stakeholders ;;
      let pool_width := fold_left Z.add (values lane_widths) 0 in
      let pool_height :=
        (max_level + 1) * vertical_spacing + lane_header_height + 60 in
      let (pool_id, st1) := draw st in
      let st2 := emit (pool_cell tooltips milestone_id pool_id (current_x st1)
                                 pool_width pool_height) st1 in
      '(st3, lane_ids, _) <- foldM (emit_lane lane_widths pool_id pool_height)
                                   all_stakeholders (st2, [], 0) ;;
      let L := mkLanes milestone_id tooltips item_levels lane_widths
                       lane_level_counts lane_ids in
      '(st4, _) <- foldM (place_item L) items (st3, []) ;;
      Ret (mkEmit (root st4) (id_map st4) (multi_item_color st4)
                  (color_counter st4)
                  (current_x st4 + pool_width + inter_pool_gap)
                  (drawn st4) (placed st4))
  end.

(** ** Flow arrows *)

(** [for uuid_src in src_copies.values(): for uuid_tgt in tgt_copies.values()] *)
Definition emit_edge (uuid_src : string) (st : Emit) (uuid_tgt : string) : Emit :=
  let (edge_id, st1) := draw st in
  emit (edge_cell edge_id uuid_src uuid_tgt) st1.

Definition emit_edges (src_copies tgt_copies : dict string) (st : Emit) : Emit :=
  fold_left
    (fun st uuid_src => fold_left (emit_edge uuid_src) (values tgt_copies) st)
    (values src_copies) st.

(** The body of [for target_id in item_meta["next"]]. *)
Definition link (item_id : string) (st : Emit) (target_id : string)
  : outcome Emit :=
  if negb (dict_mem item_id (id_map st)) || negb (dict_mem target_id (id_map st))
  then Ret st
  else
    src_copies <- subscript (id_map st) item_id ;;
    tgt_copies <- subscript (id_map st) target_id ;;
    Ret (emit_edges src_copies tgt_copies st).

Definition link_item (st : Emit) (it : string * ItemMeta) : outcome Emit :=
  let (item_id, item_meta) := it in
  foldM (link item_id) (next item_meta) st.

Definition link_procedure (st : Emit) (proc : string * Content) : outcome Emit :=
  foldM link_item (items (snd proc)) st.

(** ** The whole run *)

(** The state after the diagram identifier is drawn and the two fixed
    cells are created. *)
Definition emit_init : Emit :=
  mkEmit [Elem "mxCell" [("id", "0")] [];
          Elem "mxCell" [("id", "1"); ("parent", "0")] []]
         [] [] 0 x_start 1 [].

Definition layout_pass (structured_data : DataStruct) (tooltips : dict string)
  : outcome Emit :=
  foldM (layout_procedure tooltips) structured_data emit_init.

Definition emit_run (structured_data : DataStruct) (tooltips : dict string)
  : outcome Emit :=
  st <- layout_pass structured_data tooltips ;;
  foldM link_procedure structured_data st.

(** The element tree that [tree.write] serialises. *)
Definition document (st : Emit) : Element :=
  Elem "mxfile" [("host", "app.diagrams.net"); ("version", "29.3.4")]
    [Elem "diagram" [("id", uuid4 0); ("name", "Page-1")]
       [Elem "mxGraphModel"
          [("dx", "1477"); ("dy", "806"); ("grid", "1"); ("gridSize", "10");
           ("guides", "1"); ("tooltips", "1"); ("connect", "1");
           ("arrows", "1"); ("fold", "1"); ("page", "1"); ("pageScale", "1");
           ("pageWidth", "827"); ("pageHeight", "1169")]
          [Elem "root" [] (root st)]]].

Definition create_drawio_xml (structured_data : DataStruct)
  (tooltips : dict string) : outcome Element :=
  st <- emit_run structured_data tooltips ;;
  Ret (document st).

End Emitter.

(* ================================================================== *)
(** * Vocabulary of the statements about [parse_data] *)

(** The normalised fields of a triple, as the loop body computes them. *)
Definition subj_of (t : Triple) : string := strip (fst (fst t)).
Definition pred_norm_of (t : Triple) : string := lower (strip (snd (fst t))).
Definition obj_of (t : Triple) : string := strip (snd t).

(** [t] is a [hasSequencedItem] triple that names the item [i]. *)
Definition names_item (i : string) (t : Triple) : Prop :=
  pred_norm_of t = "hassequenceditem" /\ obj_of t = i.


(** Every owner recorded in [item_to_milestone] is a procedure of the
    graph. *)
Definition owners_known (st : ParseState) : Prop :=
  forall i m, dict_get i (item_to_milestone st) = Some m ->
              dict_mem m (data_struct st) = true.

(** What one turn of the parsing loop may do to the state. *)
Inductive triple_effect (st : ParseState) (t : Triple) : ParseState -> Prop :=
| eff_none :
    triple_effect st t st
| eff_tooltip :
    triple_effect st t
      (mkParse (data_struct st) (item_to_milestone st)
               (dict_set (subj_of t) (obj_of t) (tooltips st)))
| eff_procedure :
    triple_effect st t
      (mkParse (ensure_procedure (subj_of t) (data_struct st))
               (item_to_milestone st) (tooltips st))
| eff_item_known :
    pred_norm_of t = "hassequenceditem" ->
    triple_effect st t
      (mkParse (ensure_procedure (subj_of t) (data_struct st))
               (dict_set (obj_of t) (subj_of t) (item_to_milestone st))
               (tooltips st))
| eff_item_new c :
    pred_norm_of t = "hassequenceditem" ->
    dict_get (subj_of t) (ensure_procedure (subj_of t) (data_struct st)) = Some c ->
    triple_effect st t
      (mkParse (dict_set (subj_of t)
                  (mkContent (dict_set (obj_of t) (mkMeta [] []) (items c)))
                  (ensure_procedure (subj_of t) (data_struct st)))
               (dict_set (obj_of t) (subj_of t) (item_to_milestone st))
               (tooltips st))
| eff_stakeholder m c meta :
    pred_norm_of t = "hasstakeholder" ->
    dict_get m (data_struct st) = Some c ->
    dict_get (subj_of t) (items c) = Some meta ->
    triple_effect st t
      (mkParse (dict_set m
                  (mkContent (dict_set (subj_of t)
                                (mkMeta (stakeholders meta ++ [obj_of t]) (next meta))
                                (items c)))
                  (data_struct st))
               (item_to_milestone st) (tooltips st))
| eff_next m c meta :
    pred_norm_of t = "hasnext" ->
    dict_get m (data_struct st) = Some c ->
    dict_get (subj_of t) (items c) = Some meta ->
    triple_effect st t
      (mkParse (dict_set m
                  (mkContent (dict_set (subj_of t)
                                (mkMeta (stakeholders meta) (next meta ++ [obj_of t]))
                                (items c)))
                  (data_struct st))
               (item_to_milestone st) (tooltips st)).


(* ================================================================== *)
(** * Vocabulary of the statements about the level assignment *)

(** Occurrences of [w] in [l]. *)
Fixpoint countZ (w : string) (l : list string) : Z :=
  match l with
  | [] => 0
  | x :: l' => (if String.eqb x w then 1 else 0) + countZ w l'
  end.

(** Edges into [w] from the items [us], with multiplicity. *)
Fixpoint indeg_from (items : dict ItemMeta) (us : list string) (w : string) : Z :=
  match us with
  | [] => 0
  | u :: us' => countZ w (succs items u) + indeg_from items us' w
  end.

(** Edges into [w] from the items not yet dequeued, [done] being the
    dequeued ones. *)
Definition remaining (items : dict ItemMeta) (done : list string) (w : string)
  : Z :=
  indeg_from items (filter (fun u => negb (mem u done)) (keys items)) w.

(** [levels[x]], read as 0 where absent. *)
Definition lev (st : Bfs) (x : string) : Z :=
  match dict_get x (levels st) with Some z => z | None => 0 end.

(** The invariant of the [while queue] loop, at the head of a turn. *)
Record bfs_inv (items : dict ItemMeta) (done : list string) (st : Bfs)
  : Prop := mkBfsInv {
  inv_keys_lev : keys (levels st) = keys items;
  inv_keys_deg : keys (in_degree st) = keys items;
  inv_deg : forall w, In w (keys items) ->
      dict_get w (in_degree st) = Some (remaining items done w);
  inv_nodup : NoDup (done ++ queue st);
  inv_sub : forall x, In x (done ++ queue st) -> In x (keys items);
  inv_zero : forall x, In x (done ++ queue st) -> remaining items done x = 0;
  inv_lev : forall u v, In u done -> In v (succs items u) ->
      lev st u + 1 <= lev st v;
  inv_just : forall w, In w (keys items) ->
      0 <= lev st w
      /\ (lev st w = 0
          \/ exists u, In u done /\ In w (succs items u)
                       /\ lev st w = lev st u + 1)
}.

(** A decidable check that a list of strings has no repetition. *)
Fixpoint nodupb (l : list string) : bool :=
  match l with
  | [] => true
  | x :: l' => negb (mem x l') && nodupb l'
  end.

(** Three items: [a] points into the two-cycle between [b] and [c]. *)
Definition cycle_with_entry : dict ItemMeta :=
  [("a", mkMeta ["ATC"] ["b"]);
   ("b", mkMeta ["ATC"] ["c"]);
   ("c", mkMeta ["ATC"] ["b"])].

(** The two steps of the design document's scenario. *)
Definition two_steps : dict ItemMeta :=
  [("S1", mkMeta ["ATC"] ["S2"]); ("S2", mkMeta ["Airline"] [])].

(* ================================================================== *)
(** * Vocabulary of the statements about the layout *)

(** One node copy to place: item, lane, level. *)
Definition Occ : Type := (string * string * Z)%type.

(** [levels[i]], read as 0 where absent. *)
Definition level_at (item_levels : dict Z) (i : string) : Z :=
  match dict_get i item_levels with Some z => z | None => 0 end.

(** The node copies of a procedure, in the order the loops over the items
    and their stakeholders visit them. *)
Definition occs_of (items : dict ItemMeta) (item_levels : dict Z) : list Occ :=
  flat_map (fun '(item_id, meta) =>
              map (fun sh => (item_id, sh, level_at item_levels item_id))
                  (stakeholders meta))
           items.

Definition in_cell (sh : string) (lvl : Z) (o : Occ) : bool :=
  let '(_, sh', lvl') := o in String.eqb sh' sh && (lvl' =? lvl).

(** Node copies of [l] in the (lane, level) cell. *)
Definition cell_count (sh : string) (lvl : Z) (l : list Occ) : Z :=
  Z.of_nat (List.length (filter (in_cell sh lvl) l)).

(** The procedures hold dictionaries: no item key is repeated. *)
Definition well_formed (structured_data : DataStruct) : Prop :=
  forall m c, In (m, c) structured_data -> NoDup (keys (items c)).

(* ================================================================== *)
(** * Vocabulary of the statements about the document *)

(** The style of the cell an element stands for: its own, or that of the
    [mxCell] wrapped in an [object]. *)
Definition style_of (e : Element) : option string :=
  match attr "style" e with
  | Some s => Some s
  | None =>
      match children_of e with
      | [c] => attr "style" c
      | _ => None
      end
  end.

(** A node copy: a rounded vertex. *)
Definition is_node (e : Element) : bool :=
  match style_of e with
  | Some s => String.prefix "rounded=1;" s
  | None => false
  end.

(** A flow arrow. *)
Definition is_edge (e : Element) : bool :=
  match attr "edge" e with Some _ => true | None => false end.

Definition count_elements (p : Element -> bool) (l : list Element) : nat :=
  List.length (filter p l).

(** [l] with [k] appended unless present: the keys of a dictionary after
    an assignment to [k]. *)
Definition add_key (k : string) (l : list string) : list string :=
  if mem k l then l else l ++ [k].

(** The lanes recorded for each item: [id_map] without the identifiers. *)
Definition shape (idm : dict (dict string)) : dict (list string) :=
  map (fun '(k, m) => (k, keys m)) idm.

(** What the emitter's state holds besides identifiers and geometry: the
    lanes of each item in [id_map], the colour bindings and their counter,
    the number of node copies and of arrows in the document. *)
Record Summary : Type := mkSummary {
  a_shape : dict (list string);
  a_colors : dict string;
  a_counter : Z;
  a_nodes : nat;
  a_edges : nat
}.

Definition summary (st : Emit) : Summary :=
  mkSummary (shape (id_map st)) (multi_item_color st) (color_counter st)
            (count_elements is_node (root st))
            (count_elements is_edge (root st)).

(** The summary, computed from the structured data alone. *)

Definition sum_color (item_id : string) (is_multi : bool) (a : Summary)
  : Summary :=
  if is_multi && negb (dict_mem item_id (a_colors a)) then
    mkSummary (a_shape a)
      (dict_set item_id
         (nth (Z.to_nat (a_counter a mod Z.of_nat (List.length MULTI_COLORS)))
              MULTI_COLORS EmptyString)
         (a_colors a))
      (a_counter a + 1) (a_nodes a) (a_edges a)
  else a.

Definition sum_setdefault (item_id : string) (a : Summary) : Summary :=
  if dict_mem item_id (a_shape a) then a
  else mkSummary (dict_set item_id [] (a_shape a)) (a_colors a) (a_counter a)
                 (a_nodes a) (a_edges a).

Definition lanes_of (item_id : string) (sh : dict (list string)) : list string :=
  match dict_get item_id sh with Some l => l | None => [] end.

Definition sum_copy (item_id : string) (a : Summary) (sh_name : string)
  : Summary :=
  mkSummary
    (dict_set item_id (add_key sh_name (lanes_of item_id (a_shape a)))
              (a_shape a))
    (a_colors a) (a_counter a) (S (a_nodes a)) (a_edges a).

Definition sum_item (a : Summary) (it : string * ItemMeta) : Summary :=
  let (item_id, item_meta) := it in
  fold_left (sum_copy item_id) (stakeholders item_meta)
    (sum_setdefault item_id
       (sum_color item_id (1 <? List.length (stakeholders item_meta))%nat a)).

Definition sum_procedure (a : Summary) (proc : string * Content) : Summary :=
  fold_left sum_item (items (snd proc)) a.

Definition sum_layout (structured_data : DataStruct) : Summary :=
  fold_left sum_procedure structured_data (mkSummary [] [] 0 0 0).

Definition sum_link (item_id : string) (a : Summary) (target_id : string)
  : Summary :=
  if negb (dict_mem item_id (a_shape a)) || negb (dict_mem target_id (a_shape a))
  then a
  else mkSummary (a_shape a) (a_colors a) (a_counter a) (a_nodes a)
         (a_edges a
          + List.length (lanes_of item_id (a_shape a))
            * List.length (lanes_of target_id (a_shape a)))%nat.

Definition sum_link_procedure (a : Summary) (proc : string * Content) : Summary :=
  fold_left (fun a '(item_id, item_meta) =>
               fold_left (sum_link item_id) (next item_meta) a)
            (items (snd proc)) a.

Definition sum_run (structured_data : DataStruct) : Summary :=
  fold_left sum_link_procedure structured_data (sum_layout structured_data).

(** The arrows from the copy [s] to the copies [tgts], the first one
    taking the [n]-th identifier of the run. *)
Fixpoint edge_row (uuid4 : nat -> string) (n : nat) (s : string)
  (tgts : list string) : list Element :=
  match tgts with
  | [] => []
  | t :: tgts' => edge_cell (uuid4 n) s t :: edge_row uuid4 (S n) s tgts'
  end.

(** The arrows between every copy of [srcs] and every copy of [tgts]. *)
Fixpoint edges_between (uuid4 : nat -> string) (n : nat)
  (srcs tgts : list string) : list Element :=
  match srcs with
  | [] => []
  | s :: srcs' =>
      edge_row uuid4 n s tgts
      ++ edges_between uuid4 (n + List.length tgts) srcs' tgts
  end.

(** The state with the elements [es] appended, each having taken one
    identifier. *)
Definition with_elements (es : list Element) (st : Emit) : Emit :=
  mkEmit (root st ++ es) (id_map st) (multi_item_color st) (color_counter st)
         (current_x st) (drawn st + List.length es) (placed st).

(** The document holds a node copy with identifier [u]. *)
Definition node_in (r : list Element) (u : string) : Prop :=
  exists n, In n r /\ is_node n = true /\ attr "id" n = Some u.

(** Every identifier recorded in [id_map] is that of a node copy of the
    document. *)
Definition copies_resolve (st : Emit) : Prop :=
  forall x copies sh u,
    dict_get x (id_map st) = Some copies -> In (sh, u) copies ->
    node_in (root st) u.

(** The lanes of the item [x], read off the structured data: the
    stakeholders of every occurrence of [x], in order, without
    repetition. *)
Definition add_keys (ks l : list string) : list string :=
  fold_left (fun l k => add_key k l) ks l.

Definition lanes_step (x : string) (acc : option (list string))
  (it : string * ItemMeta) : option (list string) :=
  if String.eqb (fst it) x
  then Some (add_keys (stakeholders (snd it))
                      (match acc with Some l => l | None => [] end))
  else acc.

Definition item_lanes (structured_data : DataStruct) (x : string)
  : option (list string) :=
  fold_left (fun acc (proc : string * Content) =>
               fold_left (lanes_step x) (items (snd proc)) acc)
            structured_data None.

(** [x] is an item of exactly one procedure of the data, with [meta]. *)
Definition sole_owner (structured_data : DataStruct) (x : string)
  (meta : ItemMeta) : Prop :=
  exists pre m c post,
    structured_data = pre ++ (m, c) :: post
    /\ In (x, meta) (items c)
    /\ (forall m' c', In (m', c') (pre ++ post) -> ~ In x (keys (items c'))).

(* ================================================================== *)
(** * Sample runs *)

(** A supply of identifiers: the tag followed by the draw's number. *)
Definition numbered (tag : string) (n : nat) : string :=
  String.append tag (str (Z.of_nat n)).

(** Arithmetic without rounding error. *)
Definition exact (q : Q) : Q := q.

Definition newline : string := String "010"%char EmptyString.

Definition lines (l : list string) : string := String.concat newline l.

(** An item with stakeholders A, B pointing to an item with stakeholders
    C, D, E, in one procedure. *)
Definition fan_out_text : string :=
  lines ["P1 -- type --> Procedure";
         "P1 -- hasSequencedItem --> S1";
         "P1 -- hasSequencedItem --> S2";
         "S1 -- hasStakeholder --> A";
         "S1 -- hasStakeholder --> B";
         "S2 -- hasStakeholder --> C";
         "S2 -- hasStakeholder --> D";
         "S2 -- hasStakeholder --> E";
         "S1 -- hasNext --> S2"].

Definition fan_out : DataStruct :=
  [("P1", mkContent [("S1", mkMeta ["A"; "B"] ["S2"]);
                     ("S2", mkMeta ["C"; "D"; "E"] [])])].

(** The item S1 is listed by two procedures, with one stakeholder in each;
    S0 points to it. *)
Definition shared_item_text : string :=
  lines ["P1 -- hasSequencedItem --> S1";
         "S1 -- hasStakeholder --> A";
         "P2 -- hasSequencedItem --> S1";
         "S1 -- hasStakeholder --> B";
         "P2 -- hasSequencedItem --> S0";
         "S0 -- hasNext --> S1"].

Definition shared_item : DataStruct :=
  [("P1", mkContent [("S1", mkMeta ["A"] [])]);
   ("P2", mkContent [("S1", mkMeta ["B"] []);
                     ("S0", mkMeta ["Unassigned"] ["S1"])])].

(** S1 of procedure P1 points to S2, an item of procedure P2 only. *)
Definition cross_procedure : DataStruct :=
  [("P1", mkContent [("S1", mkMeta ["ATC"] ["S2"])]);
   ("P2", mkContent [("S2", mkMeta ["Airline"; "Ground"] [])])].

(** A decidable check of [well_formed]. *)
Definition well_formedb (structured_data : DataStruct) : bool :=
  forallb (fun proc : string * Content => nodupb (keys (items (snd proc))))
          structured_data.

(** The [id] attribute of the document's [diagram] element. *)
Definition diagram_id (doc : Element) : option string :=
  match children_of doc with
  | d :: _ => attr "id" d
  | [] => None
  end.

(* ================================================================== *)
(** * Vocabulary of the statements about placement *)

(** [lane_widths[sh]], read as 0 where absent. *)
Definition width_at (L : Lanes) (sh : string) : Z :=
  match dict_get sh (l_widths L) with Some w => w | None => 0 end.

(** The placements the loop logs for the node copies [os], the copies
    [seen] having been placed before them. *)
Fixpoint expected_log (rnd : Q -> Q) (L : Lanes) (seen os : list Occ)
  : list Placement :=
  match os with
  | [] => []
  | (i, sh, lvl) :: os' =>
      let lw := width_at L sh in
      let total := read_cell sh lvl (l_counts L) in
      let slot := cell_count sh lvl seen in
      mkPlacement (l_pool L) i sh lvl slot total lw
        (Qtrunc (x_pos rnd (rnd (inject_Z lw / inject_Z total)%Q) slot))
        (y_pos lvl)
      :: expected_log rnd L (seen ++ [(i, sh, lvl)]) os'
  end.

(** The placement lies in the (lane, level) cell. *)
Definition placed_in (sh : string) (lvl : Z) (p : Placement) : bool :=
  String.eqb (p_lane p) sh && (p_level p =? lvl).

(** [from], [from + 1], ..., [len] integers in all. *)
Fixpoint zseq (from : Z) (len : nat) : list Z :=
  match len with
  | O => []
  | S len' => from :: zseq (from + 1) len'
  end.

(** The [i]-th of the [n] slots that divide a lane of width [lw]: the
    half-open interval from [slot_lo] to [slot_hi]. *)
Definition slot_lo (lw n i : Z) : Q :=
  (inject_Z i * (inject_Z lw / inject_Z n))%Q.
Definition slot_hi (lw n i : Z) : Q :=
  (inject_Z (i + 1) * (inject_Z lw / inject_Z n))%Q.

(** Every float operation rounds with a relative error of at most [u]. *)
Definition rounds_within (u : Q) (rnd : Q -> Q) : Prop :=
  forall q, (Qabs (rnd q - q) <= u * Qabs q)%Q.

(** Three steps of one stakeholder; the first two have no predecessor and
    share the cell (ATC, 0). *)
Definition shared_cell : Content :=
  mkContent [("S1", mkMeta ["ATC"] ["S3"]);
             ("S2", mkMeta ["ATC"] ["S3"]);
             ("S3", mkMeta ["ATC"] [])].

(* ================================================================== *)
(** * Vocabulary of the further statements about the level assignment *)

(** A path of exactly [n] edges of the successor graph, [n >= 1]. *)
Inductive path_len (items : dict ItemMeta) : nat -> string -> string -> Prop :=
| path_len_edge u v : edge items u v -> path_len items 1 u v
| path_len_step n u v w :
    edge items u v -> path_len items n v w -> path_len items (S n) u w.

(** The successor graph has no cycle. *)
Definition acyclic (items : dict ItemMeta) : Prop :=
  forall w, ~ on_cycle items w.

(** Every item without an edge still to come is queued or dequeued. *)
Definition queued_when_free (items : dict ItemMeta) (done : list string)
  (st : Bfs) : Prop :=
  forall w, In w (keys items) -> remaining items done w = 0 ->
            In w (done ++ queue st).

(** Consecutive elements of the list are joined by an edge. *)
Fixpoint chain (items : dict ItemMeta) (l : list string) : Prop :=
  match l with
  | [] => True
  | x :: l' =>
      match l' with
      | [] => True
      | y :: _ => edge items x y /\ chain items l'
      end
  end.

(** A diamond: [a] points to [b] and [c], both point to [d]; [a] also
    points to [d] directly. *)
Definition diamond : dict ItemMeta :=
  [("a", mkMeta ["ATC"] ["b"; "c"; "d"]);
   ("b", mkMeta ["ATC"] ["d"]);
   ("c", mkMeta ["Airline"] ["d"]);
   ("d", mkMeta ["ATC"] [])].

(** A decidable check that [rk] ranks the items topologically: every edge
    goes to a strictly greater rank. *)
Definition ranked_byb (items : dict ItemMeta) (rk : dict Z) : bool :=
  forallb (fun u => forallb (fun v => level_at rk u <? level_at rk v)
                            (succs items u))
          (keys items).

(* ================================================================== *)
(** * Vocabulary of the further statements about [parse_data] *)

(** [t] is a [SourceText] triple about [s]. *)
Definition describes (s : string) (t : Triple) : Prop :=
  pred_norm_of t = "sourcetext" /\ subj_of t = s.

Definition describesb (s : string) (t : Triple) : bool :=
  String.eqb (pred_norm_of t) "sourcetext" && String.eqb (subj_of t) s.

Definition names_itemb (i : string) (t : Triple) : bool :=
  String.eqb (pred_norm_of t) "hassequenceditem" && String.eqb (obj_of t) i.

(** [f t] for the last triple [t] of [l] that [p] selects. *)
Definition pick_last {A : Type} (p : Triple -> bool) (f : Triple -> A)
  (l : list Triple) : option A :=
  fold_left (fun acc t => if p t then Some (f t) else acc) l None.

(** Every item recorded in [item_to_milestone] is an item of its owner. *)
Definition owners_hold_items (st : ParseState) : Prop :=
  forall i m, dict_get i (item_to_milestone st) = Some m ->
    exists c, dict_get m (data_struct st) = Some c
              /\ dict_mem i (items c) = true.

(** No stakeholder list of the graph repeats a name. *)
Definition stakeholders_distinct (ds : DataStruct) : Prop :=
  forall m c i meta,
    In (m, c) ds -> In (i, meta) (items c) -> NoDup (stakeholders meta).

(* ================================================================== *)
(** * The text that [extract_triples] writes ([KG_to_txt.py])

    Every line that [extract_triples] adds to [output_lines] is the
    f-string of a subject, a predicate and a value separated by the two
    arrows, and the function returns the lines joined by line feeds. *)

(** [f"{subject_name} -- {prop_name} --> {value}"] *)
Definition triple_line (t : Triple) : string :=
  let '(s, p, o) := t in
  String.append s
    (String.append " -- " (String.append p (String.append " --> " o))).

(** ["\n".join(output_lines)] *)
Definition output_str (ts : list Triple) : string :=
  lines (map triple_line ts).

(** No character of the string is whitespace. *)
Fixpoint no_space (s : string) : bool :=
  match s with
  | EmptyString => true
  | String c s' => negb (is_space c) && no_space s'
  end.

(** No character of the string is a line feed. *)
Fixpoint no_line_feed (s : string) : bool :=
  match s with
  | EmptyString => true
  | String c s' => negb (Ascii.eqb c "010"%char) && no_line_feed s'
  end.

(** A line that the triple pattern reads back as it was written: subject
    and predicate are non-empty names without whitespace, the value stays
    on its line. *)
Definition readable (t : Triple) : bool :=
  let '(s, p, o) := t in
  nonempty s && no_space s && nonempty p && no_space p && no_line_feed o.

(** What may follow a run of non-space characters: nothing, or a
    whitespace character. *)
Definition at_space (r : string) : Prop :=
  match r with
  | EmptyString => True
  | String c _ => is_space c = true
  end.

(** What may follow the value of a line: nothing, or a line feed. *)
Definition at_line_end (r : string) : Prop :=
  match r with
  | EmptyString => True
  | String c _ => c = "010"%char
  end.

(* ================================================================== *)
(** * Vocabulary of the statements about the size of the document *)

(** The node copies the data asks for: one per item and stakeholder, in
    every procedure. *)
Definition node_copies (structured_data : DataStruct) : nat :=
  list_sum
    (map (fun proc : string * Content =>
            list_sum (map (fun it : string * ItemMeta =>
                             List.length (stakeholders (snd it)))
                          (items (snd proc))))
         structured_data).

(** The number of lanes recorded for [x] by the end of the first pass. *)
Definition lane_count (structured_data : DataStruct) (x : string) : nat :=
  match item_lanes structured_data x with
  | Some l => List.length l
  | None => 0
  end.

(** The arrows the data asks for: for every [next] reference, the product
    of the lane counts of its two ends. *)
Definition arrows (structured_data : DataStruct) : nat :=
  list_sum
    (map (fun proc : string * Content =>
            list_sum
              (map (fun it : string * ItemMeta =>
                      list_sum
                        (map (fun v => lane_count structured_data (fst it)
                                       * lane_count structured_data v)%nat
                             (next (snd it))))
                   (items (snd proc))))
         structured_data).

(* ================================================================== *)
(** * Vocabulary of the statements about identifiers *)

(** The [id] attributes of an element and of its descendants, in document
    order. *)
Fixpoint ids_of (e : Element) : list string :=
  match e with
  | Elem _ a cs =>
      (match dict_get "id" a with Some i => [i] | None => [] end)
      ++ flat_map ids_of cs
  end.

(** The cells under the root carry the two fixed identifiers and then the
    identifiers drawn from [uuid.uuid4()] after the diagram's, each once
    and in the order of the draws. *)
Definition ids_in_draw_order (uuid4 : nat -> string) (st : Emit) : Prop :=
  (1 <= drawn st)%nat
  /\ List.length (root st) = S (drawn st)
  /\ flat_map ids_of (root st)
     = "0" :: "1" :: map uuid4 (seq 1 (drawn st - 1)).

(* ================================================================== *)
(** * Vocabulary of the statements about colours *)

(** The items that some procedure lists with more than one stakeholder, in
    the order in which the first pass meets them. *)
Definition multi_items (structured_data : DataStruct) : list string :=
  fold_left
    (fun acc (proc : string * Content) =>
       fold_left
         (fun acc (it : string * ItemMeta) =>
            if (1 <? List.length (stakeholders (snd it)))%nat
            then add_key (fst it) acc else acc)
         (items (snd proc)) acc)
    structured_data [].

(** [MULTI_COLORS[k % len(MULTI_COLORS)]] *)
Definition palette (k : nat) : string :=
  nth (k mod List.length MULTI_COLORS) MULTI_COLORS EmptyString.

(** The colour bindings follow the palette: the binding made [k]-th has
    the [k]-th colour, counted round the palette, and the counter is the
    number of bindings. *)
Definition follows_palette (colors : dict string) (counter : Z) : Prop :=
  counter = Z.of_nat (List.length colors)
  /\ forall k item_id c,
       nth_error colors k = Some (item_id, c) -> c = palette k.

(** Twelve items of two stakeholders each, in one procedure. *)
Definition twelve_shared : DataStruct :=
  [("P1",
    mkContent
      (map (fun k => (numbered "S" k, mkMeta ["A"; "B"] []))
           (seq 0 12)))].

(* ================================================================== *)
(** * Vocabulary of the statements about the drawing of one procedure *)

(** The lane cells of a pool, left to right: the lane [k] takes the
    identifier drawn [k]-th from [n] on and starts where the lane before
    it ends, the first at [acc]. *)
Fixpoint lane_row (uuid4 : nat -> string) (n : nat) (pool_id : string)
  (pool_height acc : Z) (lanes : dict Z) : list Element :=
  match lanes with
  | [] => []
  | (sh, lw) :: lanes' =>
      lane_cell (uuid4 n) sh pool_id acc lw pool_height
      :: lane_row uuid4 (S n) pool_id pool_height (acc + lw) lanes'
  end.

(** [lane_ids] after the lanes have been created. *)
Fixpoint lane_ids_from (uuid4 : nat -> string) (n : nat) (lanes : dict Z)
  (ids : dict string) : dict string :=
  match lanes with
  | [] => ids
  | (sh, _) :: lanes' =>
      lane_ids_from uuid4 (S n) lanes' (dict_set sh (uuid4 n) ids)
  end.

(** The element [e] is the node copy logged as [p], as the placement loop
    creates it: it has the logged coordinates and the standard size, and
    it is a child of the lane of [p]. *)
Definition placed_as (L : Lanes) (e : Element) (p : Placement) : Prop :=
  exists tooltip id label fill lane_id,
    e = vertex_cell tooltip id label (node_style fill) lane_id
          (geometry (p_x p) (p_y p) item_width item_height)
    /\ dict_get (p_lane p) (l_ids L) = Some lane_id
    /\ dict_get (p_lane p) (l_widths L) = Some (p_lane_width p).

(** The element [e] is the node copy logged as [p], in a pool whose lanes
    [lanes] took the identifiers drawn from [n] on: it has the logged
    coordinates and the standard size, it is a child of the lane of [p],
    the [k]-th lane of the pool, it starts below the lane's header strip
    and ends above the lane's lower edge. *)
Definition node_at (uuid4 : nat -> string) (n : nat) (lanes : dict Z)
  (pool_height : Z) (e : Element) (p : Placement) : Prop :=
  exists tooltip id label fill k,
    e = vertex_cell tooltip id label (node_style fill) (uuid4 (n + k)%nat)
          (geometry (p_x p) (p_y p) item_width item_height)
    /\ nth_error lanes k = Some (p_lane p, p_lane_width p)
    /\ lane_header_height < p_y p
    /\ p_y p + item_height <= pool_height - pool_header_height.

(** The node copies that a run of the placement loop adds are the ones it
    logs, in the same order. *)
Definition adds_logged (L : Lanes) (st0 st : Emit) : Prop :=
  exists nodes log,
    root st = root st0 ++ nodes
    /\ placed st = placed st0 ++ log
    /\ current_x st = current_x st0
    /\ Forall2 (placed_as L) nodes log.

(* ================================================================== *)
(** * triples_to_KG.py: the text helpers of the data frame *)

(** A cell of a column of text: a string, or the missing value. *)
Inductive Cell : Type :=
| Text (s : string)
| NaN.

(** ['_' * n] *)
Fixpoint underscores (n : nat) : string :=
  match n with
  | O => EmptyString
  | S n' => String "_"%char (underscores n')
  end.

(** [TextSanitizer.trailing_spaces_to_underscores]: a value that is not a
    string is returned as it is. *)
Definition trailing_spaces_to_underscores (text : Cell) : Cell :=
  match text with
  | NaN => NaN
  | Text s =>
      let stripped := rstrip s in
      let diff := (String.length s - String.length stripped)%nat in
      Text (stripped ++ underscores diff)
  end.

(** [s.replace(old, new)] for a one-character [old]. *)
Fixpoint replace_char (old : ascii) (new : string) (s : string) : string :=
  match s with
  | EmptyString => EmptyString
  | String c s' =>
      if Ascii.eqb c old then new ++ replace_char old new s'
      else String c (replace_char old new s')
  end.

(** [str(x).replace("(", "").replace(")", "").replace(" ", "_")] *)
Definition clean_text (s : string) : string :=
  replace_char " "%char "_"
    (replace_char ")"%char EmptyString
       (replace_char "("%char EmptyString s)).

(** The function that [clean_rdf_identifiers] applies to a cell. *)
Definition clean_cell (x : Cell) : Cell :=
  match x with
  | Text s => Text (clean_text s)
  | NaN => NaN
  end.

(** A data frame of text: its columns by name, in order. *)
Definition DataFrame : Type := dict (list Cell).

(** [if col in df.columns: df[col] = df[col].apply(...)] *)
Definition clean_column (df : DataFrame) (col : string) : DataFrame :=
  match dict_get col df with
  | Some cells => dict_set col (map clean_cell cells) df
  | None => df
  end.

(** [TextSanitizer.clean_rdf_identifiers] *)
Definition clean_rdf_identifiers (df : DataFrame) (columns : list string)
  : DataFrame :=
  fold_left clean_column columns df.

(** [c in s] for a character *)
Fixpoint occurs (c : ascii) (s : string) : bool :=
  match s with
  | EmptyString => false
  | String c' s' => Ascii.eqb c' c || occurs c s'
  end.

(** [s.count(c)] for a character *)
Fixpoint count_char (c : ascii) (s : string) : nat :=
  match s with
  | EmptyString => O
  | String c' s' => ((if Ascii.eqb c' c then 1 else 0) + count_char c s')%nat
  end.

(** Every character of [s] is whitespace. *)
Fixpoint all_space (s : string) : bool :=
  match s with
  | EmptyString => true
  | String c s' => is_space c && all_space s'
  end.

(** A text cell of [cells] holds none of the characters that
    [clean_rdf_identifiers] removes or replaces. *)
Definition rdf_safe (x : Cell) : bool :=
  match x with
  | Text s =>
      negb (occurs "("%char s) && negb (occurs ")"%char s)
      && negb (occurs " "%char s)
  | NaN => true
  end.

(** [sep.join(xs)] *)
Fixpoint join (sep : string) (xs : list string) : string :=
  match xs with
  | [] => EmptyString
  | [x] => x
  | x :: xs' => x ++ sep ++ join sep xs'
  end.

(** [s.split(sep)] for a one-character [sep]. *)
Fixpoint split_char (sep : ascii) (s : string) : list string :=
  match s with
  | EmptyString => [EmptyString]
  | String c s' =>
      if Ascii.eqb c sep then EmptyString :: split_char sep s'
      else match split_char sep s' with
           | [] => [String c EmptyString]
           | p :: ps => String c p :: ps
           end
  end.

(** [[s.strip() for s in l if s.strip()]] *)
Definition stripped_names (l : list string) : list string :=
  map strip (filter (fun s => nonempty (strip s)) l).

(** The names that [populate] reads from a [Stakeholder] cell:
    [[s.strip() for s in str(cell).split(",") if s.strip()]], each then
    with its spaces replaced by underscores. *)
Definition stakeholder_names (cell : string) : list string :=
  map (replace_char " "%char "_")
      (stripped_names (split_char ","%char cell)).

(** [s.split(sep, 1)[0]] for a one-character [sep]. *)
Fixpoint before_first (sep : ascii) (s : string) : string :=
  match s with
  | EmptyString => EmptyString
  | String c s' =>
      if Ascii.eqb c sep then EmptyString
      else String c (before_first sep s')
  end.

(** The identifier that [load_and_combine] gives to a subject of the file
    with the prefix [prefix]: [prefix + ":_" + subject], with the spaces
    replaced by underscores in [_basic_cleanup]. *)
Definition prefixed (prefix subject : string) : string :=
  replace_char " "%char "_" (prefix ++ ":_" ++ subject).

(** The label of a node in [create_drawio_xml]. *)
Definition clean_name (item_id : string) : string :=
  underscores_to_spaces (last_segment item_id EmptyString).

(** A name that the split at the commas and [strip] leave as it is:
    not empty, without whitespace and without a comma. *)
Definition plain_name (s : string) : bool :=
  nonempty s && no_space s && negb (occurs ","%char s).

(* ================================================================== *)
(** * lang_io.py: the extraction loop *)

(** What [run_extraction] does to the outside: a line printed with the
    number of the milestone and the number of milestones, a call of
    [lx.extract] on a text, a pause that has ended. *)
Inductive Event : Type :=
| Printed (i n : Z)
| Extracted (text : string)
| Slept (secs : Q).

Section Extraction.

Variable Result : Type.

(** [lx.extract] at the [i]-th call, on [text]: it returns an annotated
    document or raises. *)
Variable extract : nat -> string -> outcome Result.

(** [time.sleep] at the pause after the [i]-th text: it returns when the
    pause has ended, or raises. *)
Variable sleep : nat -> Q -> outcome unit.

Variable sleep_secs : Q.

(** The loop over [enumerate(milestone_texts)] from the index [i] on; [n]
    is [len(milestone_texts)]. *)
Fixpoint extraction_loop (n i : nat) (texts : list string)
  (all_results : list Result) : list Event * outcome (list Result) :=
  match texts with
  | [] => ([], Ret all_results)
  | text :: rest =>
      let announced :=
        [Printed (Z.of_nat i + 1) (Z.of_nat n); Extracted text] in
      match extract i text with
      | Ret result =>
          if Z.of_nat i <? Z.of_nat n - 1 then
            match sleep i sleep_secs with
            | Ret _ =>
                let (events, out) :=
                  extraction_loop n (S i) rest (all_results ++ [result]) in
                (announced ++ Slept sleep_secs :: events, out)
            | Raise e => (announced, Raise e)
            | Diverge => (announced, Diverge)
            end
          else
            let (events, out) :=
              extraction_loop n (S i) rest (all_results ++ [result]) in
            (announced ++ events, out)
      | Raise e => (announced, Raise e)
      | Diverge => (announced, Diverge)
      end
  end.

Definition run_extraction (milestone_texts : list string)
  : list Event * outcome (list Result) :=
  extraction_loop (List.length milestone_texts) 0 milestone_texts [].

(** The events of a run in which every call returns: each text is
    announced and extracted, with a pause between two texts. *)
Fixpoint paused_between (n i : nat) (texts : list string) : list Event :=
  match texts with
  | [] => []
  | text :: rest =>
      Printed (Z.of_nat i + 1) (Z.of_nat n) :: Extracted text
      :: match rest with
         | [] => []
         | _ :: _ => Slept sleep_secs :: paused_between n (S i) rest
         end
  end.

(** The events of the texts each of which is followed by a pause. *)
Fixpoint paused_after (n i : nat) (texts : list string) : list Event :=
  match texts with
  | [] => []
  | text :: rest =>
      Printed (Z.of_nat i + 1) (Z.of_nat n) :: Extracted text
      :: Slept sleep_secs :: paused_after n (S i) rest
  end.

End Extraction.

(** The number of pauses among the events. *)
Fixpoint pauses (events : list Event) : nat :=
  match events with
  | [] => O
  | Slept _ :: events' => S (pauses events')
  | _ :: events' => pauses events'
  end.

(** A [time.sleep] that refuses a negative duration with [ValueError], as
    Python's does, and returns after any other. *)
Definition sleep_nonnegative (i : nat) (secs : Q) : outcome unit :=
  if Qle_bool 0 secs then Ret tt else Raise ValueError.

(** An item at or below a cycle of the successor graph: some item on a
    cycle is the item itself or has a path to it. The other items are the
    acyclic portion of the graph. *)
Definition below_cycle (items : dict ItemMeta) (w : string) : Prop :=
  exists c, on_cycle items c /\ (c = w \/ path items c w).

(* ================================================================== *)
(** * Vocabulary of the statements about the arrows of the document *)

(** The [next] references of the data, each as (source, target), in the
    order in which the second pass visits them. *)
Definition references (structured_data : DataStruct) : list (string * string) :=
  flat_map (fun proc : string * Content =>
              flat_map (fun it : string * ItemMeta =>
                          flat_map (fun v => [(fst it, v)]) (next (snd it)))
                       (items (snd proc)))
           structured_data.

(** The arrows of one reference, between the copies that [idm] records
    for its two ends, the first arrow taking the [n]-th identifier of the
    run; none when an end has no entry. *)
Definition arrows_of (uuid4 : nat -> string) (idm : dict (dict string))
  (n : nat) (r : string * string) : list Element :=
  match dict_get (fst r) idm, dict_get (snd r) idm with
  | Some src_copies, Some tgt_copies =>
      edges_between uuid4 n (values src_copies) (values tgt_copies)
  | _, _ => []
  end.

(** The arrows of a list of references, one row per reference. *)
Fixpoint arrow_rows (uuid4 : nat -> string) (idm : dict (dict string))
  (n : nat) (refs : list (string * string)) : list (list Element) :=
  match refs with
  | [] => []
  | r :: refs' =>
      arrows_of uuid4 idm n r
      :: arrow_rows uuid4 idm (n + List.length (arrows_of uuid4 idm n r)) refs'
  end.

(** An arrow from the node copy [s] to the node copy [t]. *)
Definition arrow_from_to (s t : string) (e : Element) : Prop :=
  is_edge e = true /\ attr "source" e = Some s /\ attr "target" e = Some t.

(** The two supplies of identifiers give the same draws from the draw
    [lo] up to, and without, the draw [hi]. *)
Definition agree_on (uuid_a uuid_b : nat -> string) (lo hi : nat) : Prop :=
  forall k, (lo <= k < hi)%nat -> uuid_a k = uuid_b k.

(** A step of the emitter, run with each of the two supplies, that only
    moves the draw counter [D] forward and reads no draw but those it
    makes: the run with the second supply returns the same state when the
    supplies agree on these draws. *)
Definition local_step (uuid_a uuid_b : nat -> string) {S X : Type}
  (D : S -> nat) (fa fb : S -> X -> outcome S) : Prop :=
  forall s x s',
    fa s x = Ret s' ->
    (D s <= D s')%nat /\ (agree_on uuid_a uuid_b (D s) (D s') -> fb s x = Ret s').

(* ================================================================== *)
(** * Loops with an invariant *)

Section FoldM.

Context {S X : Type}.
Variable f : S -> X -> outcome S.

Lemma foldM_app (l1 l2 : list X) (s : S) :
  foldM f (l1 ++ l2) s = (s' <- foldM f l1 s ;; foldM f l2 s').
Proof.
  revert s. induction l1 as [|x l1 IH]; intro s; simpl; [reflexivity|].
  destruct (f s x); simpl; auto.
Qed.

(** An invariant indexed by the elements already consumed. *)
Lemma foldM_prefix_inv (I : list X -> S -> Prop) (l : list X) (s0 : S) :
  I [] s0 ->
  (forall pre x post s, l = pre ++ x :: post -> I pre s ->
     exists s', f s x = Ret s' /\ I (pre ++ [x]) s') ->
  exists s', foldM f l s0 = Ret s' /\ I l s'.
Proof.
  intros H0 Hstep.
  assert (G : forall post pre s, l = pre ++ post -> I pre s ->
                exists s', foldM f post s = Ret s' /\ I l s').
  { induction post as [|x post IH]; intros pre s Hl Hs.
    - rewrite app_nil_r in Hl. subst. exists s. split; [reflexivity | assumption].
    - destruct (Hstep pre x post s Hl Hs) as (s1 & Hf & Hs1).
      simpl. rewrite Hf. simpl.
      apply (IH (pre ++ [x])); [| assumption].
      rewrite <- app_assoc. exact Hl. }
  exact (G l [] s0 eq_refl H0).
Qed.

(** A total body preserving an invariant. *)
Lemma foldM_inv (I : S -> Prop) (l : list X) (s0 : S) :
  I s0 ->
  (forall s x, In x l -> I s -> exists s', f s x = Ret s' /\ I s') ->
  exists s', foldM f l s0 = Ret s' /\ I s'.
Proof.
  intros H0 Hstep.
  apply (foldM_prefix_inv (fun _ s => I s)); [assumption|].
  intros pre x post s Hl Hs. apply Hstep; [| assumption].
  subst l. apply in_or_app. right. left. reflexivity.
Qed.

(** An invariant of the runs that return. *)
Lemma foldM_inv_ret (I : S -> Prop) (l : list X) (s0 s1 : S) :
  I s0 ->
  (forall s x s', In x l -> I s -> f s x = Ret s' -> I s') ->
  foldM f l s0 = Ret s1 -> I s1.
Proof.
  revert s0. induction l as [|x l IH]; intros s0 H0 Hstep Hrun; simpl in Hrun.
  - injection Hrun as <-. assumption.
  - destruct (f s0 x) as [s'| |] eqn:Hf; simpl in Hrun; try discriminate.
    apply (IH s'); auto.
    + apply (Hstep s0 x); auto. left; reflexivity.
    + intros s y s2 Hy. apply Hstep. right; assumption.
Qed.

End FoldM.

Lemma fold_left_inv {S X : Type} (f : S -> X -> S) (I : S -> Prop)
  (l : list X) (s0 : S) :
  I s0 -> (forall s x, In x l -> I s -> I (f s x)) -> I (fold_left f l s0).
Proof.
  revert s0. induction l as [|x l IH]; intros s0 H0 Hstep; simpl; auto.
  apply IH.
  - apply Hstep; auto. left; reflexivity.
  - intros s y Hy. apply Hstep. right; assumption.
Qed.

Lemma bind_ret_inv {A B : Type} (m : outcome A) (k : A -> outcome B) (b : B) :
  bind m k = Ret b -> exists a, m = Ret a /\ k a = Ret b.
Proof.
  destruct m; simpl; intro H; try discriminate. eauto.
Qed.

(* ================================================================== *)
(** * Dictionaries *)

Section DictFacts.

Context {V : Type}.
Implicit Types (d : dict V) (k : string) (v : V).

Lemma dict_get_set_same k v d : dict_get k (dict_set k v d) = Some v.
Proof.
  induction d as [|[k' v'] d IH]; simpl.
  - rewrite String.eqb_refl. reflexivity.
  - destruct (String.eqb k' k) eqn:E; simpl; rewrite E; auto.
Qed.

Lemma dict_get_set_other k k' v d :
  k <> k' -> dict_get k' (dict_set k v d) = dict_get k' d.
Proof.
  intro Hne. induction d as [|[k0 v0] d IH]; simpl.
  - apply String.eqb_neq in Hne. rewrite Hne. reflexivity.
  - destruct (String.eqb k0 k) eqn:E; simpl.
    + apply String.eqb_eq in E. subst k0.
      apply String.eqb_neq in Hne. rewrite Hne. reflexivity.
    + destruct (String.eqb k0 k'); auto.
Qed.

Lemma dict_get_set k k' v d :
  dict_get k' (dict_set k v d) = if String.eqb k k' then Some v else dict_get k' d.
Proof.
  destruct (String.eqb k k') eqn:E.
  - apply String.eqb_eq in E. subst. apply dict_get_set_same.
  - apply String.eqb_neq in E. apply dict_get_set_other. assumption.
Qed.

Lemma dict_mem_set k k' v d :
  dict_mem k' (dict_set k v d) = String.eqb k k' || dict_mem k' d.
Proof.
  unfold dict_mem. rewrite dict_get_set. destruct (String.eqb k k'); reflexivity.
Qed.

Lemma dict_mem_keys k d : dict_mem k d = true <-> In k (keys d).
Proof.
  unfold dict_mem, keys. induction d as [|[k' v'] d IH]; simpl.
  - split; [discriminate | tauto].
  - destruct (String.eqb k' k) eqn:E.
    + apply String.eqb_eq in E. subst. split; auto.
    + apply String.eqb_neq in E. rewrite IH. split; [auto | intros [H|H]; [contradiction | assumption]].
Qed.

Lemma dict_mem_false_keys k d : dict_mem k d = false <-> ~ In k (keys d).
Proof.
  rewrite <- dict_mem_keys. destruct (dict_mem k d); intuition congruence.
Qed.

Lemma dict_get_some_mem k v d : dict_get k d = Some v -> dict_mem k d = true.
Proof. unfold dict_mem. intros ->. reflexivity. Qed.

Lemma dict_mem_get k d : dict_mem k d = true -> exists v, dict_get k d = Some v.
Proof. unfold dict_mem. destruct (dict_get k d); [eauto | discriminate]. Qed.

Lemma dict_get_none_mem k d : dict_get k d = None <-> dict_mem k d = false.
Proof. unfold dict_mem. destruct (dict_get k d); split; congruence. Qed.

Lemma dict_get_In k v d : dict_get k d = Some v -> In (k, v) d.
Proof.
  induction d as [|[k' v'] d IH]; simpl; [discriminate|].
  destruct (String.eqb k' k) eqn:E.
  - apply String.eqb_eq in E. intros [= ->]. subst. left; reflexivity.
  - intro H. right. auto.
Qed.

Lemma In_dict_get k v d : NoDup (keys d) -> In (k, v) d -> dict_get k d = Some v.
Proof.
  unfold keys. induction d as [|[k' v'] d IH]; simpl; [tauto|].
  intros Hnd [H|H].
  - injection H as -> ->. rewrite String.eqb_refl. reflexivity.
  - inversion Hnd as [|? ? Hnotin Hnd']; subst.
    destruct (String.eqb k' k) eqn:E; [| auto].
    apply String.eqb_eq in E. subst. exfalso. apply Hnotin.
    apply (in_map fst) in H. exact H.
Qed.

Lemma In_dict_set k v k' v' d :
  In (k', v') (dict_set k v d) -> (k', v') = (k, v) \/ In (k', v') d.
Proof.
  induction d as [|[k0 v0] d IH]; simpl.
  - intros [H|[]]. left. symmetry. assumption.
  - destruct (String.eqb k0 k) eqn:E; simpl.
    + apply String.eqb_eq in E. subst. intros [H|H]; auto.
    + intros [H|H]; auto. destruct (IH H); auto.
Qed.

Lemma keys_set_present k v d :
  dict_mem k d = true -> keys (dict_set k v d) = keys d.
Proof.
  unfold dict_mem, keys. induction d as [|[k0 v0] d IH]; simpl; [discriminate|].
  destruct (String.eqb k0 k) eqn:E; simpl; intro H; [reflexivity|].
  f_equal. auto.
Qed.

Lemma keys_set_absent k v d :
  dict_mem k d = false -> keys (dict_set k v d) = keys d ++ [k].
Proof.
  unfold dict_mem, keys. induction d as [|[k0 v0] d IH]; simpl; [reflexivity|].
  destruct (String.eqb k0 k) eqn:E; simpl; intro H; [discriminate|].
  f_equal. auto.
Qed.

Lemma subscript_ret k d v : subscript d k = Ret v <-> dict_get k d = Some v.
Proof.
  unfold subscript. destruct (dict_get k d); split; congruence.
Qed.

Lemma subscript_mem k d : dict_mem k d = true -> exists v, subscript d k = Ret v.
Proof.
  intro H. destruct (dict_mem_get _ _ H) as [v Hv]. exists v.
  apply subscript_ret. assumption.
Qed.

End DictFacts.

Lemma mem_In x l : mem x l = true <-> In x l.
Proof.
  unfold mem. rewrite existsb_exists. split.
  - intros (y & Hy & E). apply String.eqb_eq in E. subst. assumption.
  - intro H. exists x. split; [assumption | apply String.eqb_refl].
Qed.

Lemma mem_app x l1 l2 : mem x (l1 ++ l2) = mem x l1 || mem x l2.
Proof. unfold mem. apply existsb_app. Qed.

Lemma mem_single x y : mem x [y] = String.eqb x y.
Proof. unfold mem. simpl. apply orb_false_r. Qed.

Lemma mem_false_In x l : mem x l = false <-> ~ In x l.
Proof.
  rewrite <- mem_In. destruct (mem x l); intuition congruence.
Qed.

(* ================================================================== *)
(** * [parse_data] never raises *)

Lemma ensure_procedure_mem subj ds : dict_mem subj (ensure_procedure subj ds) = true.
Proof.
  unfold ensure_procedure. destruct (dict_mem subj ds) eqn:E; [assumption|].
  rewrite dict_mem_set, String.eqb_refl. reflexivity.
Qed.

Lemma ensure_procedure_mono subj ds k :
  dict_mem k ds = true -> dict_mem k (ensure_procedure subj ds) = true.
Proof.
  unfold ensure_procedure. intro H. destruct (dict_mem subj ds); [assumption|].
  rewrite dict_mem_set, H. apply orb_true_r.
Qed.

Lemma store_item_ret m i meta ds c :
  dict_get m ds = Some c ->
  store_item m i meta ds
  = Ret (dict_set m (mkContent (dict_set i meta (items c))) ds).
Proof. unfold store_item, subscript. intros ->. reflexivity. Qed.

Lemma store_item_mem m i meta ds c k :
  dict_get m ds = Some c ->
  dict_mem k (dict_set m (mkContent (dict_set i meta (items c))) ds)
  = dict_mem k ds.
Proof.
  intro H. rewrite dict_mem_set. destruct (String.eqb m k) eqn:E; [|reflexivity].
  apply String.eqb_eq in E. subst. simpl. symmetry.
  eapply dict_get_some_mem; eassumption.
Qed.

(** The attach step shared by the [hasStakeholder] and [hasNext] branches
    returns whenever the ownership map is sound. *)
Lemma process_triple_total st t :
  owners_known st ->
  exists st', process_triple st t = Ret st' /\ owners_known st'.
Proof.
  intro Hinv. destruct t as [[subj0 pred] obj0]. unfold process_triple.
  set (subj := strip subj0). set (obj := strip obj0).
  destruct (String.eqb (lower (strip pred)) "sourcetext").
  { eexists. split; [reflexivity|]. exact Hinv. }
  destruct (String.eqb (lower (strip pred)) "type" && String.eqb obj "Procedure").
  { eexists. split; [reflexivity|]. intros i m Hi. simpl in *.
    apply ensure_procedure_mono. eapply Hinv; eassumption. }
  destruct (String.eqb (lower (strip pred)) "hassequenceditem").
  { destruct (dict_mem_get _ _ (ensure_procedure_mem subj (data_struct st)))
      as [c Hc].
    unfold subscript at 1. rewrite Hc. simpl.
    assert (Hown : forall ds2,
               (forall k, dict_mem k ds2 = dict_mem k (ensure_procedure subj (data_struct st))) ->
               owners_known (mkParse ds2 (dict_set obj subj (item_to_milestone st)) (tooltips st))).
    { intros ds2 Hk i m. simpl. rewrite dict_get_set, Hk.
      destruct (String.eqb obj i).
      - intros [= <-]. apply ensure_procedure_mem.
      - intro Hi. apply ensure_procedure_mono. eapply Hinv; eassumption. }
    destruct (dict_mem obj (items c)); simpl.
    - eexists. split; [reflexivity|]. apply Hown. reflexivity.
    - rewrite (store_item_ret _ _ _ _ _ Hc). simpl.
      eexists. split; [reflexivity|]. apply Hown.
      intro k. eapply store_item_mem; eassumption. }
  destruct (String.eqb (lower (strip pred)) "hasstakeholder").
  { destruct (dict_get subj (item_to_milestone st)) as [m|] eqn:Hm;
      [| eexists; split; [reflexivity | exact Hinv]].
    destruct (nonempty m); [| eexists; split; [reflexivity | exact Hinv]].
    destruct (dict_mem_get _ _ (Hinv _ _ Hm)) as [c Hc].
    unfold subscript at 1. rewrite Hc. simpl.
    destruct (dict_mem subj (items c)) eqn:Hs;
      [| eexists; split; [reflexivity | exact Hinv]].
    unfold subscript at 1. rewrite Hc. simpl.
    destruct (dict_mem_get _ _ Hs) as [meta Hmeta].
    unfold subscript. rewrite Hmeta. simpl.
    destruct (mem obj (stakeholders meta));
      [eexists; split; [reflexivity | exact Hinv] |].
    rewrite (store_item_ret _ _ _ _ _ Hc). simpl.
    eexists. split; [reflexivity|].
    intros i m' Hi. simpl in *. erewrite store_item_mem by eassumption.
    eapply Hinv; eassumption. }
  destruct (String.eqb (lower (strip pred)) "hasnext").
  { destruct (dict_get subj (item_to_milestone st)) as [m|] eqn:Hm;
      [| eexists; split; [reflexivity | exact Hinv]].
    destruct (nonempty m); [| eexists; split; [reflexivity | exact Hinv]].
    destruct (dict_mem_get _ _ (Hinv _ _ Hm)) as [c Hc].
    unfold subscript at 1. rewrite Hc. simpl.
    destruct (dict_mem subj (items c)) eqn:Hs;
      [| eexists; split; [reflexivity | exact Hinv]].
    unfold subscript at 1. rewrite Hc. simpl.
    destruct (dict_mem_get _ _ Hs) as [meta Hmeta].
    unfold subscript. rewrite Hmeta. simpl.
    rewrite (store_item_ret _ _ _ _ _ Hc). simpl.
    eexists. split; [reflexivity|].
    intros i m' Hi. simpl in *. erewrite store_item_mem by eassumption.
    eapply Hinv; eassumption. }
  eexists. split; [reflexivity | exact Hinv].
Qed.

Lemma owners_known_init : owners_known parse_init.
Proof. intros i m H. discriminate. Qed.

Lemma parse_loop_total triples st :
  owners_known st ->
  exists st', parse_loop triples st = Ret st' /\ owners_known st'.
Proof.
  intro H. apply foldM_inv; [assumption|].
  intros s x _. apply process_triple_total.
Qed.

Lemma parse_data_returns raw_data :
  exists graph tips, parse_data raw_data = Ret (graph, tips).
Proof.
  unfold parse_data.
  destruct (parse_loop_total (findall raw_data) _ owners_known_init)
    as (st & Hrun & _).
  rewrite Hrun. simpl. eauto.
Qed.

(** C7. [parse_data] returns a (graph, tooltips) pair on every input text:
    no line, malformed or out of order, makes it raise. The lookups
    [data_struct[milestone_id]] of the [hasStakeholder] and [hasNext]
    branches succeed because every owner recorded in [item_to_milestone]
    is a key of [data_struct] ([owners_known]), at every turn of the loop
    and for every list of triples. *)
Theorem parse_data_total (raw_data : string) :
  (exists graph tips, parse_data raw_data = Ret (graph, tips))
  /\ (forall triples, exists st,
        parse_loop triples parse_init = Ret st /\ owners_known st).
Proof.
  split.
  - unfold parse_data.
    destruct (parse_loop_total (findall raw_data) _ owners_known_init)
      as (st & Hrun & _).
    rewrite Hrun. simpl. eauto.
  - intro triples. apply parse_loop_total. apply owners_known_init.
Qed.

(* ================================================================== *)
(** * The effect of one triple *)

Lemma process_triple_effect st t st' :
  process_triple st t = Ret st' -> triple_effect st t st'.
Proof.
  destruct t as [[subj0 pred] obj0]. unfold process_triple.
  change (strip subj0) with (subj_of (subj0, pred, obj0)).
  change (strip obj0) with (obj_of (subj0, pred, obj0)).
  change (lower (strip pred)) with (pred_norm_of (subj0, pred, obj0)).
  set (t := (subj0, pred, obj0)).
  destruct (String.eqb (pred_norm_of t) "sourcetext").
  { intros [= <-]. constructor. }
  destruct (String.eqb (pred_norm_of t) "type" && String.eqb (obj_of t) "Procedure").
  { intros [= <-]. constructor. }
  destruct (String.eqb (pred_norm_of t) "hassequenceditem") eqn:Hp.
  { apply String.eqb_eq in Hp. intro H.
    apply bind_ret_inv in H. destruct H as (c & Hc & H).
    apply subscript_ret in Hc.
    apply bind_ret_inv in H. destruct H as (ds2 & Hds2 & H).
    injection H as <-.
    destruct (dict_mem (obj_of t) (items c)).
    - injection Hds2 as <-. apply eff_item_known. assumption.
    - rewrite (store_item_ret _ _ _ _ _ Hc) in Hds2. injection Hds2 as <-.
      apply eff_item_new; assumption. }
  destruct (String.eqb (pred_norm_of t) "hasstakeholder") eqn:Hs.
  { apply String.eqb_eq in Hs.
    destruct (dict_get (subj_of t) (item_to_milestone st)) as [m|];
      [| intros [= <-]; constructor].
    destruct (nonempty m); [| intros [= <-]; constructor].
    intro H. apply bind_ret_inv in H. destruct H as (c & Hc & H).
    apply subscript_ret in Hc.
    destruct (dict_mem (subj_of t) (items c)); [| injection H as <-; constructor].
    apply bind_ret_inv in H. destruct H as (c' & Hc' & H).
    apply subscript_ret in Hc'. rewrite Hc in Hc'. injection Hc' as <-.
    apply bind_ret_inv in H. destruct H as (meta & Hmeta & H).
    apply subscript_ret in Hmeta.
    destruct (mem (obj_of t) (stakeholders meta)); [injection H as <-; constructor|].
    rewrite (store_item_ret _ _ _ _ _ Hc) in H. simpl in H. injection H as <-.
    eapply eff_stakeholder; eassumption. }
  destruct (String.eqb (pred_norm_of t) "hasnext") eqn:Hn.
  { apply String.eqb_eq in Hn.
    destruct (dict_get (subj_of t) (item_to_milestone st)) as [m|];
      [| intros [= <-]; constructor].
    destruct (nonempty m); [| intros [= <-]; constructor].
    intro H. apply bind_ret_inv in H. destruct H as (c & Hc & H).
    apply subscript_ret in Hc.
    destruct (dict_mem (subj_of t) (items c)); [| injection H as <-; constructor].
    apply bind_ret_inv in H. destruct H as (c' & Hc' & H).
    apply subscript_ret in Hc'. rewrite Hc in Hc'. injection Hc' as <-.
    apply bind_ret_inv in H. destruct H as (meta & Hmeta & H).
    apply subscript_ret in Hmeta.
    rewrite (store_item_ret _ _ _ _ _ Hc) in H. simpl in H. injection H as <-.
    eapply eff_next; eassumption. }
  intros [= <-]. constructor.
Qed.

(** The ownership map only learns items named by a [hasSequencedItem]
    triple. *)
Lemma owner_has_naming_triple pre st :
  parse_loop pre parse_init = Ret st ->
  forall i, dict_mem i (item_to_milestone st) = true ->
            exists t, In t pre /\ names_item i t.
Proof.
  intro Hrun.
  apply (foldM_inv_ret process_triple
           (fun s => forall i, dict_mem i (item_to_milestone s) = true ->
                               exists t, In t pre /\ names_item i t)
           pre parse_init); [discriminate | | exact Hrun].
  intros s x s' Hx Hs Hstep i Hi.
  apply process_triple_effect in Hstep.
  inversion Hstep; subst; simpl in Hi; auto.
  all: rewrite dict_mem_set in Hi;
    destruct (String.eqb (obj_of x) i) eqn:E; [| apply Hs; exact Hi];
    apply String.eqb_eq in E; exists x; split; [assumption | split; assumption].
Qed.

(** C8. A [hasStakeholder] or [hasNext] triple whose subject no earlier
    [hasSequencedItem] triple has named is a no-op: the loop reaches it in
    some state, the triple leaves that state (graph, ownership map and
    tooltips) as it is, and nothing is raised. *)
Theorem unowned_reference_dropped (pre : list Triple) (t : Triple) :
  pred_norm_of t = "hasstakeholder" \/ pred_norm_of t = "hasnext" ->
  (forall t', In t' pre -> ~ names_item (subj_of t) t') ->
  exists st,
    parse_loop pre parse_init = Ret st
    /\ process_triple st t = Ret st
    /\ parse_loop (pre ++ [t]) parse_init = Ret st.
Proof.
  intros Hpred Hunnamed.
  destruct (parse_loop_total pre _ owners_known_init) as (st & Hrun & _).
  exists st. split; [assumption|].
  assert (Hnone : dict_get (subj_of t) (item_to_milestone st) = None).
  { apply dict_get_none_mem.
    destruct (dict_mem (subj_of t) (item_to_milestone st)) eqn:E; [|reflexivity].
    destruct (owner_has_naming_triple _ _ Hrun _ E) as (t' & Hin & Hn).
    exfalso. exact (Hunnamed t' Hin Hn). }
  assert (Hstep : process_triple st t = Ret st).
  { destruct t as [[subj0 pred] obj0]. unfold process_triple.
    unfold pred_norm_of, subj_of in *. simpl in *.
    destruct Hpred as [-> | ->]; simpl; rewrite Hnone; reflexivity. }
  split; [assumption|].
  unfold parse_loop in *. rewrite foldM_app, Hrun. simpl. rewrite Hstep.
  reflexivity.
Qed.

Lemma unowned_reference_dropped_witness :
  exists st,
    parse_loop [("P1", "hasSequencedItem", "S1")] parse_init = Ret st
    /\ process_triple st ("S2", "hasStakeholder", "ATC") = Ret st
    /\ parse_loop ([("P1", "hasSequencedItem", "S1")]
                   ++ [("S2", "hasStakeholder", "ATC")]) parse_init = Ret st.
Proof.
  apply (unowned_reference_dropped
           [("P1", "hasSequencedItem", "S1")] ("S2", "hasStakeholder", "ATC")).
  - left. reflexivity.
  - intros t' [<- | []] [_ H]. vm_compute in H. discriminate.
Defined.

(* ================================================================== *)
(** * The [Unassigned] fallback *)




Lemma In_fallback m c ds :
  In (m, c) (fallback ds) -> exists c0, c = fallback_content c0 /\ In (m, c0) ds.
Proof.
  unfold fallback. rewrite in_map_iff. intros ([m0 c0] & [= -> <-] & Hin). eauto.
Qed.

Lemma In_fallback_content i meta c :
  In (i, meta) (items (fallback_content c)) ->
  exists meta0, meta = fallback_meta meta0 /\ In (i, meta0) (items c).
Proof.
  unfold fallback_content. simpl. rewrite in_map_iff.
  intros ([i0 meta0] & [= -> <-] & Hin). eauto.
Qed.


(* ================================================================== *)
(** * Counting edges *)

Lemma countZ_nonneg w l : 0 <= countZ w l.
Proof. induction l as [|x l IH]; simpl; [lia|]. destruct (String.eqb x w); lia. Qed.

Lemma countZ_app w l1 l2 : countZ w (l1 ++ l2) = countZ w l1 + countZ w l2.
Proof. induction l1 as [|x l1 IH]; simpl; [reflexivity|]. rewrite IH. lia. Qed.

Lemma countZ_pos_In w l : 0 < countZ w l <-> In w l.
Proof.
  induction l as [|x l IH]; simpl; [split; [lia | tauto]|].
  pose proof (countZ_nonneg w l).
  destruct (String.eqb x w) eqn:E.
  - apply String.eqb_eq in E. subst. split; [auto | lia].
  - apply String.eqb_neq in E. rewrite Z.add_0_l, IH.
    split; [auto | intros [Hx|Hx]; [contradiction | assumption]].
Qed.

Lemma countZ_zero_notin w l : countZ w l = 0 <-> ~ In w l.
Proof.
  rewrite <- countZ_pos_In. pose proof (countZ_nonneg w l). lia.
Qed.

Lemma countZ_snoc_other w v l : v <> w -> countZ w (l ++ [v]) = countZ w l.
Proof.
  intro Hne. rewrite countZ_app. simpl.
  apply String.eqb_neq in Hne. rewrite Hne. lia.
Qed.

Lemma countZ_snoc_same w l : countZ w (l ++ [w]) = countZ w l + 1.
Proof. rewrite countZ_app. simpl. rewrite String.eqb_refl. lia. Qed.

Section Indegree.

Variable items : dict ItemMeta.

Lemma indeg_from_nonneg us w : 0 <= indeg_from items us w.
Proof.
  induction us as [|u us IH]; simpl; [lia|].
  pose proof (countZ_nonneg w (succs items u)). lia.
Qed.

Lemma indeg_from_app us1 us2 w :
  indeg_from items (us1 ++ us2) w
  = indeg_from items us1 w + indeg_from items us2 w.
Proof. induction us1 as [|u us1 IH]; simpl; [reflexivity|]. rewrite IH. lia. Qed.

Lemma indeg_from_ge us u w :
  In u us -> countZ w (succs items u) <= indeg_from items us w.
Proof.
  induction us as [|u' us IH]; simpl; [tauto|].
  pose proof (countZ_nonneg w (succs items u')).
  pose proof (indeg_from_nonneg us w).
  intros [-> | Hin]; [lia|]. specialize (IH Hin). lia.
Qed.

Lemma remaining_nonneg done w : 0 <= remaining items done w.
Proof. apply indeg_from_nonneg. Qed.

Lemma remaining_ge done u w :
  In u (keys items) -> ~ In u done ->
  countZ w (succs items u) <= remaining items done w.
Proof.
  intros Hu Hnot. apply indeg_from_ge. apply filter_In. split; [assumption|].
  apply mem_false_In in Hnot. rewrite Hnot. reflexivity.
Qed.

(** With nothing dequeued, every edge is still to come. *)
Lemma remaining_nil w : remaining items [] w = indeg_from items (keys items) w.
Proof.
  unfold remaining. f_equal.
  induction (keys items) as [|k l IH]; simpl; [reflexivity|].
  f_equal. exact IH.
Qed.

Lemma indeg_filter_snoc (L : list string) done u0 w :
  NoDup L -> ~ In u0 done ->
  indeg_from items (filter (fun u => negb (mem u (done ++ [u0]))) L) w
  = indeg_from items (filter (fun u => negb (mem u done)) L) w
    - (if mem u0 L then countZ w (succs items u0) else 0).
Proof.
  intros Hnd Hnot. induction L as [|k L IH]; simpl; [lia|].
  inversion Hnd as [|? ? Hk HndL]; subst. specialize (IH HndL).
  rewrite mem_app, mem_single.
  destruct (String.eqb k u0) eqn:E.
  - apply String.eqb_eq in E. subst k.
    apply mem_false_In in Hnot. rewrite Hnot. simpl.
    rewrite String.eqb_refl. simpl.
    apply mem_false_In in Hk. rewrite Hk in IH. lia.
  - rewrite orb_false_r, (String.eqb_sym u0 k), E. simpl.
    destruct (mem k done); simpl; lia.
Qed.

Lemma remaining_snoc done u0 w :
  NoDup (keys items) -> In u0 (keys items) -> ~ In u0 done ->
  remaining items (done ++ [u0]) w
  = remaining items done w - countZ w (succs items u0).
Proof.
  intros Hnd Hu Hnot. unfold remaining.
  rewrite indeg_filter_snoc by assumption.
  apply mem_In in Hu. rewrite Hu. reflexivity.
Qed.

(** An item without remaining edges has all its predecessors dequeued. *)
Lemma remaining_zero_pred done u w :
  remaining items done w = 0 -> In u (keys items) -> In w (succs items u) ->
  In u done.
Proof.
  intros Hz Hu Hw.
  destruct (mem u done) eqn:E; [apply mem_In; assumption|].
  apply mem_false_In in E.
  pose proof (remaining_ge done u w Hu E) as Hge.
  apply countZ_pos_In in Hw. lia.
Qed.

Lemma succs_items u v : In v (succs items u) -> In v (keys items).
Proof.
  unfold succs. destruct (dict_get u items); [| intros []].
  rewrite filter_In. intros [_ H]. apply dict_mem_keys. assumption.
Qed.

End Indegree.

(* ================================================================== *)
(** * The graph built by [calculate_vertical_order] *)

Lemma dict_mem_by_keys {V W : Type} (d1 : dict V) (d2 : dict W) k :
  keys d1 = keys d2 -> dict_mem k d1 = dict_mem k d2.
Proof.
  intro H. destruct (dict_mem k d2) eqn:E.
  - apply dict_mem_keys. rewrite H. apply dict_mem_keys. assumption.
  - apply dict_mem_false_keys. rewrite H. apply dict_mem_false_keys. assumption.
Qed.

Lemma keys_dict_const {V W : Type} (d : dict V) (w : W) :
  keys (dict_const d w) = keys d.
Proof.
  unfold keys, dict_const. rewrite map_map. apply map_ext. intros [k v]. reflexivity.
Qed.

Lemma dict_get_const {V W : Type} (d : dict V) (w : W) k :
  In k (keys d) -> dict_get k (dict_const d w) = Some w.
Proof.
  unfold keys, dict_const. induction d as [|[k' v'] d IH]; simpl; [tauto|].
  destruct (String.eqb k' k) eqn:E; [reflexivity|].
  apply String.eqb_neq in E. intros [H|H]; [contradiction | auto].
Qed.

Lemma keys_app {V : Type} (d1 d2 : dict V) : keys (d1 ++ d2) = keys d1 ++ keys d2.
Proof. apply map_app. Qed.

Section BuildGraph.

Variable items : dict ItemMeta.
Hypothesis items_nodup : NoDup (keys items).

Let is_item (t : string) : bool := dict_mem t items.

(** After the items [pre], with the [next] entries [npre] of the current
    item [item_id] consumed. *)
Definition graph_inv (pre : list string) (item_id : string)
  (npre : list string) (g : Graph) : Prop :=
  keys (fst g) = keys items
  /\ keys (snd g) = keys items
  /\ (forall u, In u (keys items) ->
        dict_get u (fst g)
        = Some (if String.eqb u item_id then filter is_item npre
                else if mem u pre then succs items u else []))
  /\ (forall w, In w (keys items) ->
        dict_get w (snd g)
        = Some (indeg_from items pre w + countZ w (filter is_item npre))).

Lemma add_edge_inv pre item_id npre g target :
  In item_id (keys items) ->
  graph_inv pre item_id npre g ->
  exists g', add_edge item_id g target = Ret g'
             /\ graph_inv pre item_id (npre ++ [target]) g'.
Proof.
  intros Hid (Hka & Hkd & Hadj & Hdeg). destruct g as [adj deg]. simpl in *.
  unfold add_edge, graph_inv. rewrite (dict_mem_by_keys adj items target Hka).
  rewrite filter_app. simpl. fold (is_item target).
  destruct (is_item target) eqn:Ht.
  - assert (Htk : In target (keys items)) by (apply dict_mem_keys; exact Ht).
    unfold subscript. rewrite (Hadj _ Hid), String.eqb_refl. simpl.
    rewrite (Hdeg _ Htk). simpl.
    eexists. split; [reflexivity|]. repeat split; simpl.
    + rewrite keys_set_present; [assumption|].
      rewrite (dict_mem_by_keys adj items item_id Hka).
      apply dict_mem_keys. assumption.
    + rewrite keys_set_present; [assumption|].
      rewrite (dict_mem_by_keys deg items target Hkd). exact Ht.
    + intros u Hu. rewrite dict_get_set.
      destruct (String.eqb item_id u) eqn:E.
      * apply String.eqb_eq in E. subst. rewrite String.eqb_refl. reflexivity.
      * rewrite (Hadj _ Hu), (String.eqb_sym u item_id), E. reflexivity.
    + intros w Hw. rewrite dict_get_set, countZ_app. simpl.
      destruct (String.eqb target w) eqn:E.
      * apply String.eqb_eq in E. subst w. f_equal. lia.
      * rewrite (Hdeg _ Hw). f_equal. lia.
  - exists (adj, deg). split; [reflexivity|].
    rewrite app_nil_r. repeat split; simpl; assumption.
Qed.

Lemma build_graph_spec :
  exists adj deg,
    build_graph items = Ret (adj, deg)
    /\ keys adj = keys items
    /\ keys deg = keys items
    /\ (forall u, In u (keys items) -> dict_get u adj = Some (succs items u))
    /\ (forall w, In w (keys items) ->
          dict_get w deg = Some (indeg_from items (keys items) w)).
Proof.
  unfold build_graph.
  pose (I := fun (pre : dict ItemMeta) (g : Graph) =>
               keys (fst g) = keys items
               /\ keys (snd g) = keys items
               /\ (forall u, In u (keys items) ->
                     dict_get u (fst g)
                     = Some (if mem u (keys pre) then succs items u else []))
               /\ (forall w, In w (keys items) ->
                     dict_get w (snd g) = Some (indeg_from items (keys pre) w))).
  destruct (foldM_prefix_inv
              (fun g '(item_id, meta) => foldM (add_edge item_id) (next meta) g)
              I items (dict_const items [], dict_const items 0))
    as ([adj deg] & Hrun & Hka & Hkd & Hadj & Hdeg).
  - repeat split; simpl.
    + apply keys_dict_const.
    + apply keys_dict_const.
    + intros u Hu. apply dict_get_const. assumption.
    + intros w Hw. apply dict_get_const. assumption.
  - intros pre [item_id meta] post g Hsplit (Hka & Hkd & Hadj & Hdeg).
    assert (Hid : In item_id (keys items)).
    { rewrite Hsplit, keys_app. apply in_or_app. right. left. reflexivity. }
    assert (Hfresh : ~ In item_id (keys pre)).
    { pose proof items_nodup as Hnd. rewrite Hsplit, keys_app in Hnd.
      simpl in Hnd. apply NoDup_remove_2 in Hnd.
      intro H. apply Hnd. apply in_or_app. left. assumption. }
    assert (Hget : dict_get item_id items = Some meta).
    { apply In_dict_get; [exact items_nodup|].
      rewrite Hsplit. apply in_or_app. right. left. reflexivity. }
    destruct (foldM_prefix_inv (add_edge item_id)
                (fun npre g => graph_inv (keys pre) item_id npre g)
                (next meta) g) as (g' & Hrun & Hka' & Hkd' & Hadj' & Hdeg').
    + repeat split; try assumption.
      * intros u Hu. rewrite (Hadj _ Hu). simpl.
        destruct (String.eqb u item_id) eqn:E; [|reflexivity].
        apply String.eqb_eq in E. subst u.
        apply mem_false_In in Hfresh. rewrite Hfresh. reflexivity.
      * intros w Hw. rewrite (Hdeg _ Hw). simpl. f_equal. lia.
    + intros npre target npost s _ Hs. apply add_edge_inv; assumption.
    + exists g'. split; [exact Hrun|].
      assert (Hsucc : filter is_item (next meta) = succs items item_id).
      { unfold succs. rewrite Hget. reflexivity. }
      rewrite Hsucc in *.
      repeat split; try assumption.
      * intros u Hu. rewrite (Hadj' _ Hu), keys_app, mem_app.
        change (keys [(item_id, meta)]) with [item_id]. rewrite mem_single.
        destruct (String.eqb u item_id) eqn:E.
        -- apply String.eqb_eq in E. subst u. rewrite orb_true_r. reflexivity.
        -- rewrite orb_false_r. reflexivity.
      * intros w Hw. rewrite (Hdeg' _ Hw), keys_app, indeg_from_app. simpl.
        f_equal. lia.
  - exists adj, deg. simpl in *. split; [exact Hrun|].
    repeat split; try assumption.
    intros u Hu. rewrite (Hadj _ Hu).
    apply mem_In in Hu. rewrite Hu. reflexivity.
Qed.

End BuildGraph.

(* ================================================================== *)
(** * The [while queue] loop *)

Lemma keys_get {V : Type} (d : dict V) (N : list string) k :
  keys d = N -> In k N -> exists v, dict_get k d = Some v.
Proof.
  intros Hk Hin. apply dict_mem_get. apply dict_mem_keys. rewrite Hk. assumption.
Qed.

Lemma keys_set_same {V : Type} (d : dict V) (N : list string) k v :
  keys d = N -> In k N -> keys (dict_set k v d) = N.
Proof.
  intros Hk Hin. rewrite keys_set_present; [assumption|].
  apply dict_mem_keys. rewrite Hk. assumption.
Qed.

Section Loop.

Variable items : dict ItemMeta.
Hypothesis items_nodup : NoDup (keys items).

(** The state while the successors [pre] of the dequeued [u0] have been
    relaxed; [st0] is the state at the head of the turn, [rest] its queue
    without [u0]. *)
Definition relax_inv (done : list string) (st0 : Bfs) (u0 : string)
  (rest pre : list string) (st : Bfs) : Prop :=
  keys (levels st) = keys items
  /\ keys (in_degree st) = keys items
  /\ (forall w, In w (keys items) ->
        dict_get w (in_degree st)
        = Some (remaining items done w - countZ w pre))
  /\ (forall w, In w (keys items) ->
        lev st w = if mem w pre then Z.max (lev st0 w) (lev st0 u0 + 1)
                   else lev st0 w)
  /\ exists newq,
       queue st = rest ++ newq
       /\ NoDup newq
       /\ (forall x, In x newq <->
                     In x pre /\ remaining items done x = countZ x pre).

Lemma relax_step done st0 u0 rest pre v post st :
  In u0 (keys items) ->
  ~ In u0 (succs items u0) ->
  (forall x, countZ x (succs items u0) <= remaining items done x) ->
  succs items u0 = pre ++ v :: post ->
  relax_inv done st0 u0 rest pre st ->
  exists st', relax u0 st v = Ret st'
              /\ relax_inv done st0 u0 rest (pre ++ [v]) st'.
Proof.
  intros Hu0 Hself Hcap Hsplit (Hkl & Hkd & Hdeg & Hlev & newq & Hq & Hnd & Hmem).
  assert (Hv : In v (keys items)).
  { apply (succs_items items u0). rewrite Hsplit.
    apply in_or_app. right. left. reflexivity. }
  assert (Hu0pre : mem u0 pre = false).
  { apply mem_false_In. intro H. apply Hself. rewrite Hsplit.
    apply in_or_app. left. assumption. }
  assert (Hcapv : countZ v pre + 1 <= remaining items done v).
  { specialize (Hcap v). rewrite Hsplit, countZ_app in Hcap. simpl in Hcap.
    rewrite String.eqb_refl in Hcap. pose proof (countZ_nonneg v post). lia. }
  destruct (keys_get _ _ v Hkl Hv) as [lv Hlv].
  destruct (keys_get _ _ u0 Hkl Hu0) as [lu Hlu].
  assert (Elv : lev st v = lv) by (unfold lev; rewrite Hlv; reflexivity).
  assert (Elu : lev st u0 = lu) by (unfold lev; rewrite Hlu; reflexivity).
  unfold relax, subscript. rewrite Hlv, Hlu, (Hdeg _ Hv). simpl.
  rewrite dict_get_set_same. simpl.
  eexists. split; [reflexivity|]. unfold relax_inv. simpl.
  split; [apply keys_set_same; assumption|].
  split; [apply keys_set_same; assumption|].
  split; [| split].
  - intros w Hw. rewrite dict_get_set.
    destruct (String.eqb v w) eqn:E.
    + apply String.eqb_eq in E. subst w. rewrite countZ_snoc_same. f_equal. lia.
    + apply String.eqb_neq in E. rewrite countZ_snoc_other by assumption.
      apply Hdeg. assumption.
  - intros w Hw. unfold lev at 1. simpl. rewrite dict_get_set, mem_app, mem_single.
    destruct (String.eqb v w) eqn:E.
    + apply String.eqb_eq in E. subst w. rewrite String.eqb_refl, orb_true_r.
      rewrite <- Elv, <- Elu, (Hlev _ Hv), (Hlev _ Hu0), Hu0pre.
      destruct (mem v pre); lia.
    + rewrite (String.eqb_sym w v), E, orb_false_r.
      fold (lev st w). apply Hlev. assumption.
  - destruct (remaining items done v - countZ v pre - 1 =? 0) eqn:Ez.
    + apply Z.eqb_eq in Ez. exists (newq ++ [v]). split; [| split].
      * rewrite Hq, app_assoc. reflexivity.
      * apply NoDup_app; [assumption | repeat constructor; intros [] |].
        intros x Hx [<- | []]. apply Hmem in Hx. lia.
      * intro x. rewrite in_app_iff, Hmem. simpl. split.
        -- intros [[Hx Hr] | [<- | []]].
           ++ split; [apply in_or_app; left; assumption|].
              destruct (String.eqb v x) eqn:E.
              ** apply String.eqb_eq in E. subst x. lia.
              ** apply String.eqb_neq in E.
                 rewrite countZ_snoc_other by assumption. assumption.
           ++ split; [apply in_or_app; right; left; reflexivity|].
              rewrite countZ_snoc_same. lia.
        -- intros [Hx Hr]. destruct (String.eqb v x) eqn:E.
           ++ apply String.eqb_eq in E. right. left. assumption.
           ++ apply String.eqb_neq in E. left.
              rewrite countZ_snoc_other in Hr by assumption.
              apply in_app_or in Hx. destruct Hx as [Hx | [Hx | []]];
                [split; assumption | contradiction].
    + apply Z.eqb_neq in Ez. exists newq. split; [assumption | split; [assumption|]].
      intro x. rewrite Hmem. split.
      * intros [Hx Hr]. split; [apply in_or_app; left; assumption|].
        destruct (String.eqb v x) eqn:E.
        -- apply String.eqb_eq in E. subst x. lia.
        -- apply String.eqb_neq in E.
           rewrite countZ_snoc_other by assumption. assumption.
      * intros [Hx Hr]. destruct (String.eqb v x) eqn:E.
        -- apply String.eqb_eq in E. subst x.
           rewrite countZ_snoc_same in Hr. lia.
        -- apply String.eqb_neq in E.
           rewrite countZ_snoc_other in Hr by assumption.
           apply in_app_or in Hx. destruct Hx as [Hx | [Hx | []]];
             [split; assumption | contradiction].
Qed.

(** One turn of the loop keeps the invariant and logs the dequeued item. *)
Lemma bfs_iter_inv adj done st u0 rest :
  (forall u, In u (keys items) -> dict_get u adj = Some (succs items u)) ->
  bfs_inv items done st ->
  queue st = u0 :: rest ->
  exists st', bfs_iter adj u0 rest st done = Ret (st', done ++ [u0])
              /\ bfs_inv items (done ++ [u0]) st'.
Proof.
  intros Hadj [Hkl Hkd Hdeg Hnd Hsub Hzero Hlev Hjust] Hq.
  rewrite Hq in *.
  assert (Hu0 : In u0 (keys items)).
  { apply Hsub. apply in_or_app. right. left. reflexivity. }
  assert (Hnotdone : ~ In u0 done).
  { apply NoDup_remove_2 in Hnd. intro H. apply Hnd.
    apply in_or_app. left. assumption. }
  assert (Hcap : forall x, countZ x (succs items u0) <= remaining items done x).
  { intro x. apply remaining_ge; assumption. }
  assert (Hold : forall x, In x (done ++ u0 :: rest) ->
                           ~ In x (succs items u0)).
  { intros x Hx. apply countZ_zero_notin.
    pose proof (Hcap x). pose proof (countZ_nonneg x (succs items u0)).
    rewrite (Hzero x Hx) in *. lia. }
  assert (Hself : ~ In u0 (succs items u0)).
  { apply Hold. apply in_or_app. right. left. reflexivity. }
  unfold bfs_iter, subscript. rewrite (Hadj _ Hu0). simpl.
  destruct (foldM_prefix_inv (relax u0)
              (fun pre s => relax_inv done st u0 rest pre s)
              (succs items u0) (mkBfs (levels st) (in_degree st) rest))
    as (st' & Hrun & Hkl' & Hkd' & Hdeg' & Hlev' & newq & Hq' & Hndq & Hmem).
  { unfold relax_inv. simpl. repeat split; try assumption.
    - intros w Hw. rewrite (Hdeg _ Hw). f_equal. lia.
    - exists []. rewrite app_nil_r. split; [reflexivity|].
      split; [constructor|]. intro x. simpl. tauto. }
  { intros pre v post s Hsplit Hs. eapply relax_step; eassumption. }
  rewrite Hrun. simpl. exists st'. split; [reflexivity|].
  assert (Hnew : forall x, In x newq ->
                   In x (succs items u0)
                   /\ remaining items done x = countZ x (succs items u0)).
  { intros x Hx. apply Hmem. assumption. }
  assert (Hsame : forall x, In x (done ++ u0 :: rest) -> lev st' x = lev st x).
  { intros x Hx. rewrite (Hlev' x (Hsub x Hx)).
    apply Hold in Hx. apply mem_false_In in Hx. rewrite Hx. reflexivity. }
  assert (Hup : forall w, In w (keys items) -> lev st w <= lev st' w).
  { intros w Hw. rewrite (Hlev' w Hw). destruct (mem w (succs items u0)); lia. }
  assert (Hassoc : (done ++ [u0]) ++ queue st'
                   = (done ++ u0 :: rest) ++ newq).
  { rewrite Hq'. rewrite <- !app_assoc. reflexivity. }
  constructor; try assumption.
  - intros w Hw. rewrite (Hdeg' _ Hw). f_equal. symmetry.
    apply remaining_snoc; assumption.
  - rewrite Hassoc. apply NoDup_app; try assumption.
    intros x Hx Hx'. apply Hnew in Hx'. destruct Hx' as [Hin Hr].
    apply (Hold x Hx). assumption.
  - intro x. rewrite Hassoc. intro Hx. apply in_app_or in Hx.
    destruct Hx as [Hx | Hx]; [apply Hsub; assumption|].
    apply Hnew in Hx. apply (succs_items items u0). tauto.
  - intro x. rewrite Hassoc. intro Hx.
    rewrite remaining_snoc by assumption.
    apply in_app_or in Hx. destruct Hx as [Hx | Hx].
    + pose proof (Hold x Hx) as Hno. apply countZ_zero_notin in Hno.
      rewrite (Hzero x Hx). lia.
    + apply Hnew in Hx. lia.
  - intros u v Hu Hv.
    assert (HuN : In u (done ++ u0 :: rest)).
    { apply in_app_or in Hu. apply in_or_app.
      destruct Hu as [Hu | [<- | []]]; [left; assumption | right; left; reflexivity]. }
    assert (HvN : In v (keys items)) by (apply (succs_items items u); assumption).
    rewrite (Hsame u HuN).
    apply in_app_or in Hu. destruct Hu as [Hu | [<- | []]].
    + specialize (Hlev u v Hu Hv). specialize (Hup v HvN). lia.
    + rewrite (Hlev' v HvN). apply mem_In in Hv. rewrite Hv. lia.
  - intros w Hw. destruct (Hjust w Hw) as [Hpos Hwhy].
    split; [specialize (Hup w Hw); lia|].
    assert (Hkeep : lev st' w = lev st w ->
              lev st' w = 0
              \/ exists u, In u (done ++ [u0]) /\ In w (succs items u)
                           /\ lev st' w = lev st' u + 1).
    { intro E. destruct Hwhy as [Hz | (u & Hu & Hwu & Hl)]; [left; lia|].
      right. exists u. split; [apply in_or_app; left; assumption|].
      split; [assumption|].
      rewrite (Hsame u); [lia|]. apply in_or_app. left. assumption. }
    rewrite (Hlev' w Hw) in *.
    destruct (mem w (succs items u0)) eqn:Em; [| apply Hkeep; reflexivity].
    destruct (Z.max_spec (lev st w) (lev st u0 + 1)) as [[Hlt E] | [Hge E]].
    + right. exists u0. split; [apply in_or_app; right; left; reflexivity|].
      split; [apply mem_In; assumption|].
      rewrite (Hsame u0); [lia|]. apply in_or_app. right. left. reflexivity.
    + apply Hkeep. assumption.
Qed.

Lemma initial_queue_spec deg (f : string -> Z) :
  (forall w, In w (keys items) -> dict_get w deg = Some (f w)) ->
  initial_queue items deg = Ret (filter (fun i => f i =? 0) (keys items)).
Proof.
  intro Hdeg. unfold initial_queue.
  destruct (foldM_prefix_inv
              (fun q '(i, _) =>
                 d <- subscript deg i ;; Ret (if d =? 0 then q ++ [i] else q))
              (fun (pre : dict ItemMeta) q =>
                 q = filter (fun i => f i =? 0) (keys pre))
              items []) as (q & Hrun & Hq).
  - reflexivity.
  - intros pre [i meta] post q Hsplit ->.
    assert (Hi : In i (keys items)).
    { rewrite Hsplit, keys_app. apply in_or_app. right. left. reflexivity. }
    unfold subscript. rewrite (Hdeg _ Hi). simpl.
    eexists. split; [reflexivity|].
    rewrite keys_app, filter_app. simpl.
    destruct (f i =? 0); [reflexivity | rewrite app_nil_r; reflexivity].
  - rewrite Hrun, Hq. reflexivity.
Qed.

Lemma lev_const (q : list string) deg w :
  In w (keys items) -> lev (mkBfs (dict_const items 0) deg q) w = 0.
Proof. intro Hw. unfold lev. simpl. rewrite dict_get_const; auto. Qed.

(** The state before the first turn satisfies the invariant. *)
Lemma bfs_init_spec :
  exists adj st0,
    bfs_init items = Ret (adj, st0)
    /\ (forall u, In u (keys items) -> dict_get u adj = Some (succs items u))
    /\ bfs_inv items [] st0.
Proof.
  destruct (build_graph_spec items items_nodup)
    as (adj & deg & Hrun & Hka & Hkd & Hadj & Hdeg).
  unfold bfs_init. rewrite Hrun. simpl.
  rewrite (initial_queue_spec deg _ Hdeg). simpl.
  do 2 eexists. split; [reflexivity|]. split; [assumption|].
  constructor; simpl.
  - apply keys_dict_const.
  - assumption.
  - intros w Hw. rewrite remaining_nil. apply Hdeg. assumption.
  - apply NoDup_filter. exact items_nodup.
  - intros x Hx. apply filter_In in Hx. tauto.
  - intros x Hx. apply filter_In in Hx. destruct Hx as [_ Hx].
    rewrite remaining_nil. apply Z.eqb_eq. assumption.
  - intros u v [].
  - intros w Hw. rewrite lev_const by assumption. split; [lia | left; reflexivity].
Qed.

Section Run.

Variable adj : dict (list string).
Hypothesis adj_succs :
  forall u, In u (keys items) -> dict_get u adj = Some (succs items u).

(** The loop returns within as many turns as there are items left to
    dequeue, with an empty queue. *)
Lemma bfs_loop_total fuel :
  forall st done,
    bfs_inv items done st ->
    (List.length (keys items) <= fuel + List.length done)%nat ->
    exists st' done',
      bfs_loop fuel adj st done = Ret (st', done')
      /\ bfs_inv items done' st'
      /\ queue st' = []
      /\ bfs_reach adj (st, done) (st', done').
Proof.
  induction fuel as [|fuel IH]; intros st done Hinv Hfuel.
  - destruct (queue st) as [|u0 rest] eqn:Hq.
    + exists st, done. simpl. rewrite Hq.
      split; [reflexivity | split; [assumption | split; [reflexivity | constructor]]].
    + exfalso.
      pose proof (NoDup_incl_length (inv_nodup _ _ _ Hinv) (inv_sub _ _ _ Hinv))
        as Hlen.
      rewrite Hq, length_app in Hlen. simpl in Hlen. lia.
  - destruct (queue st) as [|u0 rest] eqn:Hq.
    + exists st, done. simpl. rewrite Hq.
      split; [reflexivity | split; [assumption | split; [reflexivity | constructor]]].
    + destruct (bfs_iter_inv adj done st u0 rest adj_succs Hinv Hq)
        as (st1 & Hiter & Hinv1).
      destruct (IH st1 (done ++ [u0]) Hinv1) as (st' & done' & Hrun & Hinv' & Hq' & Hreach).
      { rewrite length_app. simpl. lia. }
      exists st', done'. simpl. rewrite Hq, Hiter. simpl.
      split; [assumption | split; [assumption | split; [assumption|]]].
      eapply reach_turn; eassumption.
Qed.

(** Every state the loop passes through satisfies the invariant. *)
Lemma bfs_reach_inv s s' :
  bfs_reach adj s s' ->
  bfs_inv items (snd s) (fst s) -> bfs_inv items (snd s') (fst s').
Proof.
  induction 1 as [s | st done u rest s' s'' Hq Hiter Hreach IH]; [auto|].
  simpl. intro Hinv. apply IH.
  destruct (bfs_iter_inv adj done st u rest adj_succs Hinv Hq)
    as (st1 & Hiter1 & Hinv1).
  rewrite Hiter1 in Hiter. injection Hiter as <-. exact Hinv1.
Qed.

End Run.

(** ** What the invariant says about paths and cycles *)

Section AtInvariant.

Variables (done : list string) (st : Bfs).
Hypothesis Hinv : bfs_inv items done st.

Lemma lev_get w : In w (keys items) -> dict_get w (levels st) = Some (lev st w).
Proof.
  intro Hw. destruct (keys_get _ _ w (inv_keys_lev _ _ _ Hinv) Hw) as [z Hz].
  unfold lev. rewrite Hz. reflexivity.
Qed.

Lemma edge_pred_done u v :
  edge items u v -> In v (done ++ queue st) -> In u done.
Proof.
  intros [Hu Hv] Hin.
  apply (remaining_zero_pred items done u v); [| assumption | assumption].
  apply (inv_zero _ _ _ Hinv). assumption.
Qed.

Lemma path_pred_done u v :
  path items u v -> In v (done ++ queue st) -> In u done.
Proof.
  induction 1 as [u v He | u v w He Hp IH]; intro Hin.
  - eapply edge_pred_done; eassumption.
  - apply (edge_pred_done u v He). apply in_or_app. left. apply IH. assumption.
Qed.

Lemma edge_levels u v : edge items u v -> In u done -> lev st u < lev st v.
Proof.
  intros [Hu Hv] Hd. pose proof (inv_lev _ _ _ Hinv u v Hd Hv). lia.
Qed.

Lemma path_levels u v :
  path items u v -> In v (done ++ queue st) -> lev st u < lev st v.
Proof.
  induction 1 as [u v He | u v w He Hp IH]; intro Hin.
  - apply edge_levels; [assumption|]. eapply edge_pred_done; eassumption.
  - specialize (IH Hin).
    assert (Hv : In v done) by (eapply path_pred_done; eassumption).
    assert (Hu : In u done).
    { apply (edge_pred_done u v He). apply in_or_app. left. assumption. }
    pose proof (edge_levels u v He Hu). lia.
Qed.

(** An item on a cycle is neither dequeued nor queued. *)
Lemma cycle_not_reached w : on_cycle items w -> ~ In w (done ++ queue st).
Proof.
  intros Hc Hin. pose proof (path_levels w w Hc Hin). lia.
Qed.

Lemma path_last u v :
  path items u v -> exists p, edge items p v /\ (p = u \/ path items u p).
Proof.
  induction 1 as [u v He | u v w He Hp (p & Hpe & Hor)].
  - exists u. split; [assumption | left; reflexivity].
  - exists p. split; [assumption|]. right.
    destruct Hor as [-> | Hvp]; [apply path_edge; assumption|].
    eapply path_step; eassumption.
Qed.

(** An item on a cycle keeps a positive in-degree. *)
Lemma cycle_in_degree w :
  on_cycle items w ->
  exists n, dict_get w (in_degree st) = Some n /\ 0 < n.
Proof.
  intro Hc. destruct (path_last w w Hc) as (p & Hpe & Hor).
  assert (Hpc : on_cycle items p).
  { destruct Hor as [-> | Hwp]; [assumption|].
    unfold on_cycle. eapply path_step; eassumption. }
  assert (Hpn : ~ In p done).
  { intro H. apply (cycle_not_reached p Hpc). apply in_or_app. left. assumption. }
  destruct Hpe as [Hp Hw].
  assert (HwN : In w (keys items)) by (apply (succs_items items p); assumption).
  exists (remaining items done w). split; [apply (inv_deg _ _ _ Hinv); assumption|].
  pose proof (remaining_ge items done p w Hp Hpn).
  apply countZ_pos_In in Hw. lia.
Qed.

End AtInvariant.

End Loop.

Lemma nodupb_sound l : nodupb l = true -> NoDup l.
Proof.
  induction l as [|x l IH]; simpl; [constructor|].
  intro H. apply andb_prop in H. destruct H as [Hx Hl].
  constructor; [| auto].
  apply mem_false_In. apply negb_true_iff. assumption.
Qed.

(* ================================================================== *)
(** * The ranks returned by [calculate_vertical_order] *)

Lemma level_run_spec items :
  NoDup (keys items) ->
  exists adj st0 st done,
    bfs_init items = Ret (adj, st0)
    /\ level_run items = Ret (st, done)
    /\ calculate_vertical_order items = Ret (levels st)
    /\ (forall u, In u (keys items) -> dict_get u adj = Some (succs items u))
    /\ bfs_inv items [] st0
    /\ bfs_inv items done st
    /\ queue st = [].
Proof.
  intro Hnd.
  destruct (bfs_init_spec items Hnd) as (adj & st0 & Hinit & Hadj & Hinv0).
  destruct (bfs_loop_total items Hnd adj Hadj (List.length items) st0 [] Hinv0)
    as (st & done & Hrun & Hinv & Hq & _).
  { unfold keys. rewrite length_map. simpl. lia. }
  exists adj, st0, st, done.
  unfold calculate_vertical_order, level_run. rewrite Hinit. simpl.
  rewrite Hrun. simpl. repeat (split; [assumption || reflexivity|]). assumption.
Qed.

(** The rank of an item is 0 or one more than the rank of a dequeued
    predecessor, and it is at least one more than the rank of each of its
    dequeued predecessors. *)
Lemma rank_formula items done st w :
  bfs_inv items done st -> In w (keys items) ->
  exists r,
    dict_get w (levels st) = Some r
    /\ ((forall u, edge items u w -> ~ In u done) -> r = 0)
    /\ (r = 0 \/ exists u ru, In u done /\ edge items u w
                              /\ dict_get u (levels st) = Some ru
                              /\ r = ru + 1)
    /\ (forall u ru, In u done -> edge items u w ->
                     dict_get u (levels st) = Some ru -> ru + 1 <= r).
Proof.
  intros Hinv Hw. exists (lev st w).
  split; [apply (lev_get items done st Hinv); assumption|].
  destruct (inv_just _ _ _ Hinv w Hw) as [_ Hwhy].
  assert (Hsub : forall u, In u done -> In u (keys items)).
  { intros u Hu. apply (inv_sub _ _ _ Hinv). apply in_or_app. left. assumption. }
  split; [| split].
  - intro Hno. destruct Hwhy as [Hz | (u & Hu & Hwu & _)]; [assumption|].
    exfalso. apply (Hno u); [split; auto | assumption].
  - destruct Hwhy as [Hz | (u & Hu & Hwu & Hl)]; [left; assumption|].
    right. exists u, (lev st u). split; [assumption|].
    split; [split; auto|].
    split; [apply (lev_get items done st Hinv); auto | assumption].
  - intros u ru Hu [_ Hwu] Hget.
    rewrite (lev_get items done st Hinv u (Hsub u Hu)) in Hget.
    injection Hget as <-. apply (inv_lev _ _ _ Hinv); assumption.
Qed.

Lemma on_cycle_item items w : on_cycle items w -> In w (keys items).
Proof.
  unfold on_cycle. intro H.
  inversion H as [u v [Hu _] | u v x [Hu _] _]; subst; exact Hu.
Qed.

(** C2, as the code has it. An item on a cycle never reaches in-degree
    zero and is never queued or dequeued, in any state the loop passes
    through; its returned rank is 0 when none of its predecessors is
    dequeued, and otherwise one more than the greatest rank among its
    dequeued predecessors. *)
Theorem cycle_items_never_dequeued (items : dict ItemMeta) :
  NoDup (keys items) ->
  exists adj st0 st done,
    bfs_init items = Ret (adj, st0)
    /\ level_run items = Ret (st, done)
    /\ calculate_vertical_order items = Ret (levels st)
    /\ forall w, on_cycle items w ->
         (forall s d, bfs_reach adj (st0, []) (s, d) ->
            ~ In w d /\ ~ In w (queue s)
            /\ exists n, dict_get w (in_degree s) = Some n /\ 0 < n)
         /\ ~ In w done
         /\ exists r,
              dict_get w (levels st) = Some r
              /\ ((forall u, edge items u w -> ~ In u done) -> r = 0)
              /\ (r = 0 \/ exists u ru, In u done /\ edge items u w
                                        /\ dict_get u (levels st) = Some ru
                                        /\ r = ru + 1)
              /\ (forall u ru, In u done -> edge items u w ->
                               dict_get u (levels st) = Some ru -> ru + 1 <= r).
Proof.
  intro Hnd.
  destruct (level_run_spec items Hnd)
    as (adj & st0 & st & done & Hinit & Hrun & Hcalc & Hadj & Hinv0 & Hinv & _).
  exists adj, st0, st, done.
  split; [assumption | split; [assumption | split; [assumption|]]].
  intros w Hc. split; [| split].
  - intros s d Hreach.
    pose proof (bfs_reach_inv items Hnd adj Hadj _ _ Hreach Hinv0) as Hs.
    simpl in Hs.
    pose proof (cycle_not_reached items d s Hs w Hc) as Hnot.
    split; [intro H; apply Hnot; apply in_or_app; left; assumption|].
    split; [intro H; apply Hnot; apply in_or_app; right; assumption|].
    apply (cycle_in_degree items d s Hs). assumption.
  - intro H. apply (cycle_not_reached items done st Hinv w Hc).
    apply in_or_app. left. assumption.
  - apply rank_formula; [assumption | apply on_cycle_item; assumption].
Qed.

Lemma cycle_items_never_dequeued_witness :
  exists adj st0 st done,
    bfs_init cycle_with_entry = Ret (adj, st0)
    /\ level_run cycle_with_entry = Ret (st, done)
    /\ calculate_vertical_order cycle_with_entry = Ret (levels st)
    /\ forall w, on_cycle cycle_with_entry w ->
         (forall s d, bfs_reach adj (st0, []) (s, d) ->
            ~ In w d /\ ~ In w (queue s)
            /\ exists n, dict_get w (in_degree s) = Some n /\ 0 < n)
         /\ ~ In w done
         /\ exists r,
              dict_get w (levels st) = Some r
              /\ ((forall u, edge cycle_with_entry u w -> ~ In u done) -> r = 0)
              /\ (r = 0 \/ exists u ru, In u done /\ edge cycle_with_entry u w
                                        /\ dict_get u (levels st) = Some ru
                                        /\ r = ru + 1)
              /\ (forall u ru, In u done -> edge cycle_with_entry u w ->
                               dict_get u (levels st) = Some ru -> ru + 1 <= r).
Proof.
  apply (cycle_items_never_dequeued cycle_with_entry).
  apply nodupb_sound. reflexivity.
Defined.

(** The claim that a cycle item keeps rank 0 fails: [b] is on the cycle
    between [b] and [c], and the dequeued [a] raises its rank to 1. *)
Lemma cycle_item_rank_raised :
  on_cycle cycle_with_entry "b"
  /\ calculate_vertical_order cycle_with_entry
     = Ret [("a", 0); ("b", 1); ("c", 0)].
Proof.
  split; [| reflexivity].
  apply path_step with (v := "c").
  - split; simpl; auto.
  - apply path_edge. split; simpl; auto.
Qed.

(* ================================================================== *)
(** * Cell counters *)

Lemma zdict_get_set k k' v d :
  zdict_get k' (zdict_set k v d) = if k =? k' then Some v else zdict_get k' d.
Proof.
  induction d as [|[k0 v0] d IH]; simpl.
  - destruct (k =? k'); reflexivity.
  - destruct (k0 =? k) eqn:E; simpl.
    + apply Z.eqb_eq in E. subst k0. destruct (k =? k'); reflexivity.
    + rewrite IH. destruct (k0 =? k') eqn:E'; [| reflexivity].
      apply Z.eqb_eq in E'. subst k0. rewrite Z.eqb_sym, E. reflexivity.
Qed.

Lemma read_incr sh lvl sh' lvl' cells :
  read_cell sh' lvl' (incr_cell sh lvl cells)
  = read_cell sh' lvl' cells
    + (if String.eqb sh sh' && (lvl =? lvl') then 1 else 0).
Proof.
  unfold read_cell at 1, lane_cells at 1, incr_cell. rewrite dict_get_set.
  destruct (String.eqb sh sh') eqn:E; simpl.
  - apply String.eqb_eq in E. subst sh'. rewrite zdict_get_set.
    destruct (lvl =? lvl') eqn:E'.
    + apply Z.eqb_eq in E'. subst lvl'. reflexivity.
    + unfold read_cell, lane_cells. lia.
  - unfold read_cell, lane_cells. lia.
Qed.

Lemma cell_count_app sh lvl l1 l2 :
  cell_count sh lvl (l1 ++ l2) = cell_count sh lvl l1 + cell_count sh lvl l2.
Proof. unfold cell_count. rewrite filter_app, length_app. lia. Qed.

Lemma cell_count_single sh lvl i sh' lvl' :
  cell_count sh lvl [(i, sh', lvl')]
  = if String.eqb sh' sh && (lvl' =? lvl) then 1 else 0.
Proof.
  unfold cell_count. simpl. destruct (String.eqb sh' sh && (lvl' =? lvl)); reflexivity.
Qed.

Lemma cell_count_nonneg sh lvl l : 0 <= cell_count sh lvl l.
Proof. unfold cell_count. lia. Qed.

Lemma cell_count_pos i sh lvl l : In (i, sh, lvl) l -> 1 <= cell_count sh lvl l.
Proof.
  intro Hin. apply in_split in Hin. destruct Hin as (l1 & l2 & ->).
  rewrite cell_count_app.
  change ((i, sh, lvl) :: l2) with ([(i, sh, lvl)] ++ l2).
  rewrite cell_count_app, cell_count_single, String.eqb_refl, Z.eqb_refl.
  cbv [andb].
  pose proof (cell_count_nonneg sh lvl l1).
  pose proof (cell_count_nonneg sh lvl l2). lia.
Qed.

(** The lanes visited so far, as a fold over node copies. *)
Lemma fold_incr_spec (i : string) (lvl : Z) (shs : list string) (cells : Cells) :
  forall sh' lvl',
    read_cell sh' lvl'
      (fold_left (fun cells sh => incr_cell sh lvl cells) shs cells)
    = read_cell sh' lvl' cells
      + cell_count sh' lvl' (map (fun sh => (i, sh, lvl)) shs).
Proof.
  revert cells. induction shs as [|sh shs IH]; intros cells sh' lvl'; simpl.
  - unfold cell_count. simpl. lia.
  - rewrite IH, read_incr.
    change ((i, sh, lvl) :: map (fun sh0 => (i, sh0, lvl)) shs)
      with ([(i, sh, lvl)] ++ map (fun sh0 => (i, sh0, lvl)) shs).
    rewrite cell_count_app, cell_count_single. lia.
Qed.

Lemma occs_of_app items1 items2 item_levels :
  occs_of (items1 ++ items2) item_levels
  = occs_of items1 item_levels ++ occs_of items2 item_levels.
Proof. unfold occs_of. apply flat_map_app. Qed.

Lemma count_cells_spec items item_levels :
  keys item_levels = keys items ->
  exists cells,
    count_cells items item_levels = Ret cells
    /\ forall sh lvl,
         read_cell sh lvl cells = cell_count sh lvl (occs_of items item_levels).
Proof.
  intro Hk. unfold count_cells.
  apply (foldM_prefix_inv
           (fun cells '(item_id, item_meta) =>
              lvl <- subscript item_levels item_id ;;
              Ret (fold_left (fun cells sh => incr_cell sh lvl cells)
                             (stakeholders item_meta) cells))
           (fun (pre : dict ItemMeta) cells =>
              forall sh lvl,
                read_cell sh lvl cells
                = cell_count sh lvl (occs_of pre item_levels))).
  - intros sh lvl. reflexivity.
  - intros pre [item_id meta] post cells Hsplit Hcells.
    assert (Hi : In item_id (keys items)).
    { rewrite Hsplit, keys_app. apply in_or_app. right. left. reflexivity. }
    destruct (keys_get _ _ item_id Hk Hi) as [lvl Hlvl].
    unfold subscript. rewrite Hlvl. simpl.
    eexists. split; [reflexivity|].
    intros sh lvl'. rewrite (fold_incr_spec item_id), Hcells, occs_of_app.
    rewrite cell_count_app. f_equal.
    unfold occs_of. simpl. rewrite app_nil_r.
    unfold level_at. rewrite Hlvl. reflexivity.
Qed.

(* ================================================================== *)
(** * [max], [sorted] and dictionary comprehensions *)

Lemma fold_max_ge l x : x <= fold_left Z.max l x.
Proof.
  revert x. induction l as [|y l IH]; intro x; simpl; [lia|].
  specialize (IH (Z.max x y)). lia.
Qed.

Lemma fold_max_In l x y : In y l -> y <= fold_left Z.max l x.
Proof.
  revert x. induction l as [|z l IH]; intro x; simpl; [tauto|].
  intros [-> | H]; [| auto].
  pose proof (fold_max_ge l (Z.max x y)). lia.
Qed.

Lemma py_max_ge l y : In y l -> exists m, py_max l = Ret m /\ y <= m.
Proof.
  destruct l as [|x l]; [intros [] |]. simpl.
  intros [<- | H]; eexists; (split; [reflexivity|]).
  - apply fold_max_ge.
  - apply fold_max_In. assumption.
Qed.

Lemma zdict_get_In k v d : zdict_get k d = Some v -> In v (map snd d).
Proof.
  induction d as [|[k0 v0] d IH]; simpl; [discriminate|].
  destruct (k0 =? k); [intros [= ->]; left; reflexivity | auto].
Qed.

Lemma max_nodes_spec cells sh :
  exists n,
    max_nodes cells sh = Ret n
    /\ forall lvl, 1 <= read_cell sh lvl cells -> read_cell sh lvl cells <= n.
Proof.
  unfold max_nodes, read_cell.
  destruct (lane_cells sh cells) as [|[k v] d] eqn:E.
  - exists 1. split; [reflexivity|]. simpl. intros. lia.
  - destruct (py_max_ge (map snd ((k, v) :: d)) v) as (m & Hm & _);
      [left; reflexivity|].
    exists m. split; [exact Hm|].
    intros lvl Hpos.
    destruct (zdict_get lvl ((k, v) :: d)) as [n|] eqn:Hn; [| lia].
    apply zdict_get_In in Hn.
    destruct (py_max_ge _ n Hn) as (m' & Hm' & Hle).
    rewrite Hm in Hm'. injection Hm' as <-. assumption.
Qed.

Lemma insert_sorted_In x y l : In y (insert_sorted x l) <-> y = x \/ In y l.
Proof.
  induction l as [|z l IH]; simpl; [intuition|].
  destruct (String.leb x z); simpl; [intuition|].
  rewrite IH. intuition.
Qed.

Lemma sorted_In x l : In x (sorted l) <-> In x l.
Proof.
  unfold sorted. induction l as [|y l IH]; simpl; [tauto|].
  rewrite insert_sorted_In, IH. intuition.
Qed.

Lemma dict_comp_spec {V : Type} (f : string -> outcome V) (g : string -> V)
  (l : list string) :
  (forall k, In k l -> f k = Ret (g k)) ->
  exists d,
    dict_comp f l = Ret d
    /\ (forall k, In k l -> dict_get k d = Some (g k))
    /\ (forall k, ~ In k l -> dict_get k d = None).
Proof.
  intro Hf. unfold dict_comp.
  destruct (foldM_prefix_inv
              (fun d k => v <- f k ;; Ret (dict_set k v d))
              (fun pre d =>
                 (forall k, In k pre -> dict_get k d = Some (g k))
                 /\ (forall k, ~ In k pre -> dict_get k d = None))
              l []) as (d & Hrun & Hd).
  - split; [intros k [] | reflexivity].
  - intros pre x post d Hsplit [Hin Hout].
    rewrite Hf by (rewrite Hsplit; apply in_or_app; right; left; reflexivity).
    simpl. eexists. split; [reflexivity|]. split.
    + intros k Hk. rewrite dict_get_set.
      destruct (String.eqb x k) eqn:E.
      * apply String.eqb_eq in E. subst. reflexivity.
      * apply String.eqb_neq in E. apply in_app_or in Hk.
        destruct Hk as [Hk | [Hk | []]]; [auto | contradiction].
    + intros k Hk. rewrite dict_get_set.
      destruct (String.eqb x k) eqn:E.
      * apply String.eqb_eq in E. subst. exfalso. apply Hk.
        apply in_or_app. right. left. reflexivity.
      * apply Hout. intro H. apply Hk. apply in_or_app. left. assumption.
  - exists d. split; [exact Hrun | exact Hd].
Qed.

Lemma collect_stakeholders_In items sh :
  In sh (collect_stakeholders items)
  <-> exists i meta, In (i, meta) items /\ In sh (stakeholders meta).
Proof.
  unfold collect_stakeholders.
  assert (Hinner : forall shs acc,
            In sh (fold_left (fun acc sh => if mem sh acc then acc else acc ++ [sh])
                             shs acc)
            <-> In sh acc \/ In sh shs).
  { induction shs as [|x shs IH]; intro acc; simpl; [tauto|].
    rewrite IH. destruct (mem x acc) eqn:E.
    - apply mem_In in E. split; [tauto|].
      intros [H | [<- | H]]; auto.
    - rewrite in_app_iff. simpl. tauto. }
  assert (Houter : forall (its : dict ItemMeta) acc,
            In sh (fold_left
                     (fun acc '(_, meta) =>
                        fold_left (fun acc sh => if mem sh acc then acc else acc ++ [sh])
                                  (stakeholders meta) acc)
                     its acc)
            <-> In sh acc
                \/ exists i meta, In (i, meta) its /\ In sh (stakeholders meta)).
  { induction its as [|[i meta] its IH]; intro acc; simpl.
    - split; [tauto | intros [H | (i & meta & [] & _)]; assumption].
    - rewrite IH, Hinner. split.
      + intros [[H | H] | (i' & meta' & Hin & Hsh)]; [tauto | |].
        * right. exists i, meta. split; [left; reflexivity | assumption].
        * right. exists i', meta'. split; [right; assumption | assumption].
      + intros [H | (i' & meta' & [Heq | Hin] & Hsh)]; [tauto | |].
        * injection Heq as <- <-. tauto.
        * right. exists i', meta'. tauto. }
  rewrite Houter. simpl. tauto.
Qed.

(* ================================================================== *)
(** * Elements of the document *)

Lemma count_elements_app p l1 l2 :
  count_elements p (l1 ++ l2) = (count_elements p l1 + count_elements p l2)%nat.
Proof. unfold count_elements. rewrite filter_app, length_app. reflexivity. Qed.

Lemma count_elements_snoc p l e :
  count_elements p (l ++ [e])
  = (count_elements p l + if p e then 1 else 0)%nat.
Proof.
  rewrite count_elements_app. unfold count_elements. simpl.
  destruct (p e); reflexivity.
Qed.

Lemma node_is_node tooltip id label fill parent geom :
  is_node (vertex_cell tooltip id label (node_style fill) parent geom) = true.
Proof. destruct tooltip; reflexivity. Qed.

Lemma vertex_not_edge tooltip id label style parent geom :
  is_edge (vertex_cell tooltip id label style parent geom) = false.
Proof. destruct tooltip; reflexivity. Qed.

Lemma vertex_id tooltip id label style parent geom :
  attr "id" (vertex_cell tooltip id label style parent geom) = Some id.
Proof. destruct tooltip; reflexivity. Qed.

Lemma pool_not_node tooltip id label parent geom :
  is_node (vertex_cell tooltip id label pool_style parent geom) = false.
Proof. destruct tooltip; reflexivity. Qed.

Lemma edge_is_edge edge_id s t : is_edge (edge_cell edge_id s t) = true.
Proof. reflexivity. Qed.

Lemma edge_not_node edge_id s t : is_node (edge_cell edge_id s t) = false.
Proof. reflexivity. Qed.

(* ================================================================== *)
(** * Lanes recorded in [id_map] *)

Lemma dict_mem_mem_keys {V : Type} k (d : dict V) : dict_mem k d = mem k (keys d).
Proof.
  destruct (mem k (keys d)) eqn:E.
  - apply dict_mem_keys. apply mem_In. assumption.
  - apply dict_mem_false_keys. apply mem_false_In. assumption.
Qed.

Lemma keys_set_add {V : Type} k v (d : dict V) :
  keys (dict_set k v d) = add_key k (keys d).
Proof.
  unfold add_key. rewrite <- dict_mem_mem_keys.
  destruct (dict_mem k d) eqn:E.
  - apply keys_set_present. assumption.
  - apply keys_set_absent. assumption.
Qed.

Lemma shape_get idm k : dict_get k (shape idm) = option_map keys (dict_get k idm).
Proof.
  unfold shape. induction idm as [|[k' m] idm IH]; simpl; [reflexivity|].
  destruct (String.eqb k' k); [reflexivity | assumption].
Qed.

Lemma shape_mem idm k : dict_mem k (shape idm) = dict_mem k idm.
Proof. unfold dict_mem. rewrite shape_get. destruct (dict_get k idm); reflexivity. Qed.

Lemma shape_set idm k m : shape (dict_set k m idm) = dict_set k (keys m) (shape idm).
Proof.
  unfold shape. induction idm as [|[k' m'] idm IH]; simpl; [reflexivity|].
  destruct (String.eqb k' k); simpl; [reflexivity | f_equal; assumption].
Qed.

Lemma lanes_of_shape idm k m :
  dict_get k idm = Some m -> lanes_of k (shape idm) = keys m.
Proof. intro H. unfold lanes_of. rewrite shape_get, H. reflexivity. Qed.

Lemma foldM_sim {S X A : Type} (alpha : S -> A) (f : S -> X -> outcome S)
  (fa : A -> X -> A) (l : list X) :
  (forall s x s', In x l -> f s x = Ret s' -> alpha s' = fa (alpha s) x) ->
  forall s s', foldM f l s = Ret s' -> alpha s' = fold_left fa l (alpha s).
Proof.
  induction l as [|x l IH]; intros Hstep s s' Hrun; simpl in *.
  - injection Hrun as <-. reflexivity.
  - apply bind_ret_inv in Hrun. destruct Hrun as (s1 & Hf & Hrun).
    rewrite <- (Hstep s x s1 (or_introl eq_refl) Hf).
    apply IH; [| assumption].
    intros s0 y s0' Hy. apply Hstep. right. assumption.
Qed.

Lemma fold_left_sim {S X A : Type} (alpha : S -> A) (f : S -> X -> S)
  (fa : A -> X -> A) (l : list X) :
  (forall s x, In x l -> alpha (f s x) = fa (alpha s) x) ->
  forall s, alpha (fold_left f l s) = fold_left fa l (alpha s).
Proof.
  induction l as [|x l IH]; intros Hstep s; simpl; [reflexivity|].
  rewrite IH by (intros s0 y Hy; apply Hstep; right; assumption).
  rewrite Hstep by (left; reflexivity). reflexivity.
Qed.

(* ================================================================== *)
(** * The first pass, step by step *)

Section LayoutSteps.

Variable uuid4 : nat -> string.
Variable rnd : Q -> Q.

Local Abbreviation place_copy := (place_copy uuid4 rnd).
Local Abbreviation place_item := (place_item uuid4 rnd).
Local Abbreviation emit_lane := (emit_lane uuid4).
Local Abbreviation layout_procedure := (layout_procedure uuid4 rnd).

(** What a returning [emit_lane] does. *)
Lemma emit_lane_ret lane_widths pool_id pool_height st lane_ids acc sh s' :
  emit_lane lane_widths pool_id pool_height (st, lane_ids, acc) sh = Ret s' ->
  exists lw,
    dict_get sh lane_widths = Some lw
    /\ s' = (mkEmit
               (root st ++ [lane_cell (uuid4 (drawn st)) sh pool_id acc lw pool_height])
               (id_map st) (multi_item_color st) (color_counter st)
               (current_x st) (S (drawn st)) (placed st),
             dict_set sh (uuid4 (drawn st)) lane_ids,
             acc + lw).
Proof.
  unfold emit_lane, draw. intro H.
  apply bind_ret_inv in H. destruct H as (lw & Hlw & H).
  apply subscript_ret in Hlw. injection H as <-. eauto.
Qed.

(** What a returning [place_copy] does. *)
Lemma place_copy_ret L item_id lvl clean_name tooltip is_multi st cells sh s' :
  place_copy L item_id lvl clean_name tooltip is_multi (st, cells) sh = Ret s' ->
  exists lw slot_width copies fill_color lane_id,
    dict_get sh (l_widths L) = Some lw
    /\ int_truediv rnd lw (read_cell sh lvl (l_counts L)) = Ret slot_width
    /\ dict_get item_id (id_map st) = Some copies
    /\ (if is_multi then dict_get item_id (multi_item_color st) = Some fill_color
        else fill_color = "#ffffff")
    /\ dict_get sh (l_ids L) = Some lane_id
    /\ s' = (mkEmit
               (root st
                ++ [vertex_cell tooltip (uuid4 (drawn st)) clean_name
                      (node_style fill_color) lane_id
                      (geometry
                         (Qtrunc (x_pos rnd slot_width (read_cell sh lvl cells)))
                         (y_pos lvl) item_width item_height)])
               (dict_set item_id
                  (dict_set sh (uuid4 (drawn st)) copies) (id_map st))
               (multi_item_color st) (color_counter st) (current_x st)
               (S (drawn st))
               (placed st
                ++ [mkPlacement (l_pool L) item_id sh lvl
                      (read_cell sh lvl cells) (read_cell sh lvl (l_counts L))
                      lw
                      (Qtrunc (x_pos rnd slot_width (read_cell sh lvl cells)))
                      (y_pos lvl)]),
             incr_cell sh lvl cells).
Proof.
  unfold place_copy, draw, record_copy. intro H.
  apply bind_ret_inv in H. destruct H as (lw & Hlw & H).
  apply subscript_ret in Hlw.
  apply bind_ret_inv in H. destruct H as (slot_width & Hsw & H).
  apply bind_ret_inv in H. destruct H as (st2 & Hst2 & H).
  apply bind_ret_inv in Hst2. destruct Hst2 as (copies & Hcopies & Hst2).
  apply subscript_ret in Hcopies. simpl in Hcopies.
  injection Hst2 as <-.
  apply bind_ret_inv in H. destruct H as (fill_color & Hfill & H).
  apply bind_ret_inv in H. destruct H as (lane_id & Hlane & H).
  apply subscript_ret in Hlane. injection H as <-.
  exists lw, slot_width, copies, fill_color, lane_id.
  repeat (split; [assumption|]). split; [| split; [assumption | reflexivity]].
  destruct is_multi; simpl in Hfill.
  - apply subscript_ret in Hfill. assumption.
  - injection Hfill as <-. reflexivity.
Qed.

Lemma summary_place_copy L item_id lvl clean_name tooltip is_multi s sh s' :
  place_copy L item_id lvl clean_name tooltip is_multi s sh = Ret s' ->
  summary (fst s') = sum_copy item_id (summary (fst s)) sh.
Proof.
  destruct s as [st cells]. intro H. apply place_copy_ret in H.
  destruct H as (lw & sw & copies & fill & lane & _ & _ & Hc & _ & _ & ->).
  unfold summary, sum_copy. simpl.
  rewrite shape_set, keys_set_add, (lanes_of_shape _ _ _ Hc).
  rewrite !count_elements_snoc, node_is_node, vertex_not_edge.
  f_equal; lia.
Qed.

Lemma summary_assign_color item_id is_multi st :
  summary (assign_color item_id is_multi st)
  = sum_color item_id is_multi (summary st).
Proof.
  unfold assign_color, sum_color, summary. simpl.
  destruct (is_multi && negb (dict_mem item_id (multi_item_color st)));
    reflexivity.
Qed.

Lemma summary_setdefault item_id st :
  summary (setdefault_id_map item_id st) = sum_setdefault item_id (summary st).
Proof.
  unfold setdefault_id_map, sum_setdefault, summary. simpl.
  rewrite shape_mem. destruct (dict_mem item_id (id_map st)); [reflexivity|].
  simpl. rewrite shape_set. reflexivity.
Qed.

Lemma summary_place_item L s it s' :
  place_item L s it = Ret s' ->
  summary (fst s') = sum_item (summary (fst s)) it.
Proof.
  destruct s as [st cells], it as [item_id meta]. unfold place_item, sum_item.
  intro H. apply bind_ret_inv in H. destruct H as (lvl & _ & H).
  apply (foldM_sim (fun s => summary (fst s)) _ (sum_copy item_id)) in H.
  - rewrite H. simpl. rewrite summary_setdefault, summary_assign_color.
    reflexivity.
  - intros s x s0 _. apply summary_place_copy.
Qed.

Lemma summary_emit_other e st :
  is_node e = false -> is_edge e = false -> summary (emit e st) = summary st.
Proof.
  intros Hn He. unfold summary, emit. simpl.
  rewrite !count_elements_snoc, Hn, He, !Nat.add_0_r. reflexivity.
Qed.

Lemma summary_emit_lane lane_widths pool_id pool_height s sh s' :
  emit_lane lane_widths pool_id pool_height s sh = Ret s' ->
  summary (fst (fst s')) = summary (fst (fst s)).
Proof.
  destruct s as [[st ids] acc]. intro H. apply emit_lane_ret in H.
  destruct H as (lw & _ & ->). unfold summary. simpl.
  rewrite !count_elements_snoc. simpl. rewrite !Nat.add_0_r. reflexivity.
Qed.

Lemma summary_layout_procedure tooltips st proc st' :
  layout_procedure tooltips st proc = Ret st' ->
  summary st' = sum_procedure (summary st) proc.
Proof.
  destruct proc as [milestone_id content].
  unfold layout_procedure, sum_procedure. simpl.
  destruct (items content) as [|it its] eqn:Hitems.
  { intros [= <-]. reflexivity. }
  intro H.
  apply bind_ret_inv in H. destruct H as (item_levels & _ & H).
  apply bind_ret_inv in H. destruct H as (max_level & _ & H).
  apply bind_ret_inv in H. destruct H as (cells & _ & H).
  apply bind_ret_inv in H. destruct H as (max_nodes_per_lane & _ & H).
  apply bind_ret_inv in H. destruct H as (lane_widths & _ & H).
  unfold draw in H.
  apply bind_ret_inv in H. destruct H as ([[st3 lane_ids] acc] & Hlanes & H).
  apply bind_ret_inv in H. destruct H as ([st4 cells4] & Hplace & H).
  injection H as <-.
  apply (foldM_sim (fun s => summary (fst (fst s))) _ (fun a _ => a)) in Hlanes;
    [| intros s x s0 _; apply summary_emit_lane].
  apply (foldM_sim (fun s => summary (fst s)) _ sum_item) in Hplace;
    [| intros s x s0 _; apply summary_place_item].
  simpl in Hlanes, Hplace.
  assert (Hid : forall (l : list string) (a : Summary),
             fold_left (fun a _ => a) l a = a).
  { induction l; simpl; auto. }
  rewrite Hid in Hlanes.
  rewrite summary_emit_other in Hlanes
    by (unfold pool_cell; first [apply pool_not_node | apply vertex_not_edge]).
  change (summary st4 = fold_left sum_item (it :: its) (summary st)).
  rewrite Hplace, Hlanes. reflexivity.
Qed.

End LayoutSteps.

(* ================================================================== *)
(** * The second pass: flow arrows *)

Section LinkSteps.

Variable uuid4 : nat -> string.

Local Abbreviation emit_edge := (emit_edge uuid4).
Local Abbreviation emit_edges := (emit_edges uuid4).
Local Abbreviation link := (link uuid4).
Local Abbreviation edge_row := (edge_row uuid4).
Local Abbreviation edges_between := (edges_between uuid4).

Lemma with_elements_nil st : with_elements [] st = st.
Proof.
  unfold with_elements. simpl. rewrite app_nil_r, Nat.add_0_r.
  destruct st; reflexivity.
Qed.

Lemma with_elements_app es1 es2 st :
  with_elements es2 (with_elements es1 st) = with_elements (es1 ++ es2) st.
Proof.
  unfold with_elements. simpl. rewrite <- app_assoc, length_app, Nat.add_assoc.
  reflexivity.
Qed.

Lemma edge_row_length n s tgts : List.length (edge_row n s tgts) = List.length tgts.
Proof. revert n. induction tgts; intro n; simpl; auto. Qed.

Lemma edges_between_length n srcs tgts :
  List.length (edges_between n srcs tgts)
  = (List.length srcs * List.length tgts)%nat.
Proof.
  revert n. induction srcs as [|s srcs IH]; intro n; simpl; [reflexivity|].
  rewrite length_app, edge_row_length, IH. reflexivity.
Qed.

Lemma emit_edge_row s tgts st :
  fold_left (emit_edge s) tgts st
  = with_elements (edge_row (drawn st) s tgts) st.
Proof.
  revert st. induction tgts as [|t tgts IH]; intro st; simpl.
  - symmetry. apply with_elements_nil.
  - rewrite IH. unfold emit_edge, draw, emit, with_elements. simpl.
    rewrite <- app_assoc. simpl. f_equal. lia.
Qed.

Lemma emit_edges_spec src_copies tgt_copies st :
  emit_edges src_copies tgt_copies st
  = with_elements
      (edges_between (drawn st) (values src_copies) (values tgt_copies)) st.
Proof.
  unfold emit_edges. generalize (values src_copies) as srcs.
  intro srcs. revert st. induction srcs as [|s srcs IH]; intro st; simpl.
  - symmetry. apply with_elements_nil.
  - rewrite emit_edge_row, IH, with_elements_app. simpl.
    rewrite edge_row_length. reflexivity.
Qed.

(** An arrow of a row or of a product, with its ends. *)
Lemma edge_row_In e n s tgts :
  In e (edge_row n s tgts) ->
  exists k t, In t tgts /\ e = edge_cell (uuid4 k) s t.
Proof.
  revert n. induction tgts as [|t tgts IH]; intro n; simpl; [tauto|].
  intros [<- | H]; [exists n, t; auto|].
  destruct (IH _ H) as (k & t' & Ht & ->). exists k, t'. auto.
Qed.

Lemma edges_between_In e n srcs tgts :
  In e (edges_between n srcs tgts) ->
  exists k s t, In s srcs /\ In t tgts /\ e = edge_cell (uuid4 k) s t.
Proof.
  revert n. induction srcs as [|s srcs IH]; intro n; simpl; [tauto|].
  intro H. apply in_app_or in H. destruct H as [H | H].
  - destruct (edge_row_In _ _ _ _ H) as (k & t & Ht & ->).
    exists k, s, t. auto.
  - destruct (IH _ H) as (k & s' & t & Hs & Ht & ->). exists k, s', t. auto.
Qed.

(** [link] never raises: the arrows of one [next] reference are the
    product of the copies of its two ends, or none when an end has no
    entry in [id_map]. *)
Lemma link_spec item_id st target_id :
  link item_id st target_id
  = Ret (match dict_get item_id (id_map st), dict_get target_id (id_map st) with
         | Some src_copies, Some tgt_copies =>
             with_elements
               (edges_between (drawn st) (values src_copies) (values tgt_copies))
               st
         | _, _ => st
         end).
Proof.
  unfold link, dict_mem, subscript.
  destruct (dict_get item_id (id_map st)) as [src|]; simpl; [| reflexivity].
  destruct (dict_get target_id (id_map st)) as [tgt|]; simpl; [| reflexivity].
  rewrite emit_edges_spec. reflexivity.
Qed.

Lemma count_edges_between p n srcs tgts :
  (forall k s t, p (edge_cell (uuid4 k) s t) = true) ->
  count_elements p (edges_between n srcs tgts)
  = (List.length srcs * List.length tgts)%nat.
Proof.
  intro Hp. unfold count_elements. rewrite <- edges_between_length with (n := n).
  f_equal. apply forallb_filter_id. apply forallb_forall.
  intros e He. apply edges_between_In in He.
  destruct He as (k & s & t & _ & _ & ->). apply Hp.
Qed.

Lemma count_no_edges_between p n srcs tgts :
  (forall k s t, p (edge_cell (uuid4 k) s t) = false) ->
  count_elements p (edges_between n srcs tgts) = 0%nat.
Proof.
  intro Hp. unfold count_elements.
  induction (edges_between n srcs tgts) as [|e l IH] eqn:E in Hp |- *; [reflexivity|].
  clear IH. assert (H : forall e', In e' (e :: l) -> p e' = false).
  { intros e' He'. rewrite <- E in He'. apply edges_between_In in He'.
    destruct He' as (k & s & t & _ & _ & ->). apply Hp. }
  clear E. induction (e :: l) as [|x xs IH]; simpl; [reflexivity|].
  rewrite (H x (or_introl eq_refl)). apply IH.
  intros e' He'. apply H. right. assumption.
Qed.

Lemma summary_link item_id st target_id st' :
  link item_id st target_id = Ret st' ->
  summary st' = sum_link item_id (summary st) target_id.
Proof.
  rewrite link_spec. intros [= <-]. unfold sum_link. simpl. rewrite !shape_mem.
  unfold dict_mem.
  destruct (dict_get item_id (id_map st)) as [src|] eqn:Hs; simpl; [| reflexivity].
  destruct (dict_get target_id (id_map st)) as [tgt|] eqn:Ht; simpl; [| reflexivity].
  unfold summary, with_elements. simpl.
  rewrite !count_elements_app.
  rewrite (count_edges_between is_edge) by (intros; reflexivity).
  rewrite (count_no_edges_between is_node) by (intros; reflexivity).
  rewrite (lanes_of_shape _ _ _ Hs), (lanes_of_shape _ _ _ Ht).
  unfold keys, values. rewrite !length_map, Nat.add_0_r. reflexivity.
Qed.

Lemma summary_link_procedure st proc st' :
  foldM (fun st '(item_id, item_meta) => foldM (link item_id) (next item_meta) st)
        (items (snd proc)) st = Ret st' ->
  summary st' = sum_link_procedure (summary st) proc.
Proof.
  unfold sum_link_procedure. apply (foldM_sim summary).
  intros s [item_id meta] s0 _. apply (foldM_sim summary).
  intros s1 t s2 _. apply summary_link.
Qed.

End LinkSteps.

(* ================================================================== *)
(** * The first pass never raises *)

Section LayoutTotal.

Variable uuid4 : nat -> string.
Variable rnd : Q -> Q.

Local Abbreviation place_copy := (place_copy uuid4 rnd).
Local Abbreviation place_item := (place_item uuid4 rnd).
Local Abbreviation emit_lane := (emit_lane uuid4).
Local Abbreviation layout_procedure := (layout_procedure uuid4 rnd).
Local Abbreviation layout_pass := (layout_pass uuid4 rnd).

(** What the placement loop needs of the tables it reads, for one node
    copy. *)
Definition copy_ready (L : Lanes) (sh : string) (lvl : Z) : Prop :=
  dict_mem sh (l_widths L) = true
  /\ dict_mem sh (l_ids L) = true
  /\ read_cell sh lvl (l_counts L) <> 0.

Lemma place_copy_total L item_id lvl clean_name tooltip is_multi st cells sh :
  copy_ready L sh lvl ->
  dict_mem item_id (id_map st) = true ->
  (is_multi = true -> dict_mem item_id (multi_item_color st) = true) ->
  exists st' cells',
    place_copy L item_id lvl clean_name tooltip is_multi (st, cells) sh
    = Ret (st', cells')
    /\ dict_mem item_id (id_map st') = true
    /\ multi_item_color st' = multi_item_color st.
Proof.
  intros (Hw & Hids & Hcnt) Hidm Hcol.
  destruct (dict_mem_get _ _ Hw) as [lw Hlw].
  destruct (dict_mem_get _ _ Hids) as [lane_id Hlane].
  destruct (dict_mem_get _ _ Hidm) as [copies Hcopies].
  unfold place_copy, draw, record_copy, int_truediv, subscript. simpl.
  rewrite Hlw. simpl.
  apply Z.eqb_neq in Hcnt. rewrite Hcnt. simpl.
  rewrite Hcopies. simpl.
  destruct is_multi; simpl.
  - destruct (dict_mem_get _ _ (Hcol eq_refl)) as [color Hcolor].
    rewrite Hcolor. simpl. rewrite Hlane. simpl.
    do 2 eexists. split; [reflexivity|]. simpl.
    rewrite dict_mem_set, String.eqb_refl. auto.
  - rewrite Hlane. simpl.
    do 2 eexists. split; [reflexivity|]. simpl.
    rewrite dict_mem_set, String.eqb_refl. auto.
Qed.

Lemma place_item_total L st cells item_id meta :
  dict_mem item_id (l_levels L) = true ->
  (forall sh, In sh (stakeholders meta) ->
     copy_ready L sh (level_at (l_levels L) item_id)) ->
  exists s', place_item L (st, cells) (item_id, meta) = Ret s'.
Proof.
  intros Hlev Hready. destruct (dict_mem_get _ _ Hlev) as [lvl Hlvl].
  unfold place_item, subscript. rewrite Hlvl. simpl.
  unfold level_at in Hready. rewrite Hlvl in Hready.
  set (is_multi := (1 <? List.length (stakeholders meta))%nat).
  set (st1 := setdefault_id_map item_id (assign_color item_id is_multi st)).
  destruct (foldM_inv
              (place_copy L item_id lvl
                 (underscores_to_spaces (last_segment item_id EmptyString))
                 (truthy_get item_id (l_tooltips L)) is_multi)
              (fun s => dict_mem item_id (id_map (fst s)) = true
                        /\ (is_multi = true ->
                            dict_mem item_id (multi_item_color (fst s)) = true))
              (stakeholders meta) (st1, cells)) as (s' & Hrun & _).
  - simpl. subst st1. split.
    + unfold setdefault_id_map.
      destruct (dict_mem item_id (id_map (assign_color item_id is_multi st)))
        eqn:E; [assumption|].
      simpl. rewrite dict_mem_set, String.eqb_refl. reflexivity.
    + intro Hm. unfold setdefault_id_map, assign_color. rewrite Hm. simpl.
      destruct (dict_mem item_id (multi_item_color st)) eqn:E; simpl.
      * destruct (dict_mem item_id (id_map st)); simpl; assumption.
      * match goal with
        | |- context [if ?b then _ else _] => destruct b
        end; simpl; rewrite dict_mem_set, String.eqb_refl; reflexivity.
  - intros [s cs] sh Hsh [Hidm Hcol]. simpl in *.
    destruct (place_copy_total L item_id lvl
                (underscores_to_spaces (last_segment item_id EmptyString))
                (truthy_get item_id (l_tooltips L)) is_multi s cs sh
                (Hready sh Hsh) Hidm Hcol) as (s1 & cs1 & Hrun & Hidm1 & Hcol1).
    exists (s1, cs1). split; [assumption|]. simpl. split; [assumption|].
    rewrite Hcol1. assumption.
  - exists s'. assumption.
Qed.

Lemma lanes_total lane_widths pool_id pool_height all_sh st :
  (forall sh, In sh all_sh -> dict_mem sh lane_widths = true) ->
  exists st' lane_ids acc,
    foldM (emit_lane lane_widths pool_id pool_height) all_sh (st, [], 0)
    = Ret (st', lane_ids, acc)
    /\ (forall sh, In sh all_sh -> dict_mem sh lane_ids = true)
    /\ placed st' = placed st.
Proof.
  intro Hw.
  destruct (foldM_prefix_inv (emit_lane lane_widths pool_id pool_height)
              (fun pre (s : LaneState) =>
                 (forall sh, In sh pre -> dict_mem sh (snd (fst s)) = true)
                 /\ placed (fst (fst s)) = placed st)
              all_sh (st, [], 0)) as ([[st' ids] acc] & Hrun & Hids & Hpl).
  - split; [intros sh [] | reflexivity].
  - intros pre sh post [[s ids] acc] Hsplit [Hids Hpl]. simpl in *.
    assert (Hin : In sh all_sh).
    { rewrite Hsplit. apply in_or_app. right. left. reflexivity. }
    destruct (dict_mem_get _ _ (Hw sh Hin)) as [lw Hlw].
    unfold emit_lane, draw, subscript. rewrite Hlw. simpl.
    eexists. split; [reflexivity|]. simpl. split; [| assumption].
    intros sh' Hsh'. rewrite dict_mem_set.
    apply in_app_or in Hsh'. destruct Hsh' as [H | [<- | []]].
    + rewrite (Hids _ H). apply orb_true_r.
    + rewrite String.eqb_refl. reflexivity.
  - exists st', ids, acc. auto.
Qed.

(** The tables of a procedure with items, and the run of its placement
    loop. *)
Lemma layout_procedure_unfold tooltips st milestone_id content :
  NoDup (keys (items content)) ->
  items content <> [] ->
  exists item_levels lane_widths cells lane_ids st3 st4 cells4,
    calculate_vertical_order (items content) = Ret item_levels
    /\ keys item_levels = keys (items content)
    /\ (forall sh lvl,
          read_cell sh lvl cells
          = cell_count sh lvl (occs_of (items content) item_levels))
    /\ (forall i meta sh, In (i, meta) (items content) ->
          In sh (stakeholders meta) ->
          exists n, dict_get sh lane_widths = Some (n * node_slot_width + h_padding)
                    /\ forall lvl, 1 <= read_cell sh lvl cells ->
                                   read_cell sh lvl cells <= n)
    /\ placed st3 = placed st
    /\ foldM (place_item
                (mkLanes milestone_id tooltips item_levels lane_widths cells
                         lane_ids))
             (items content) (st3, []) = Ret (st4, cells4)
    /\ layout_procedure tooltips st (milestone_id, content)
       = Ret (mkEmit (root st4) (id_map st4) (multi_item_color st4)
                     (color_counter st4)
                     (current_x st4
                      + fold_left Z.add (values lane_widths) 0 + inter_pool_gap)
                     (drawn st4) (placed st4)).
Proof.
  intros Hnd Hne. unfold layout_procedure.
  destruct (items content) as [|it0 its0] eqn:Hitems; [contradiction|].
  rewrite <- Hitems in *. clear Hne.
  destruct (level_run_spec (items content) Hnd)
    as (adj & s0 & sf & done & _ & _ & Hcalc & _ & _ & Hinv & _).
  rewrite Hcalc. simpl.
  pose proof (inv_keys_lev _ _ _ Hinv) as Hkeys.
  set (item_levels := levels sf) in *.
  assert (Hmax : exists max_level, py_max (values item_levels) = Ret max_level).
  { destruct item_levels as [|[k v] l] eqn:E.
    - rewrite Hitems in Hkeys. discriminate.
    - simpl. eauto. }
  destruct Hmax as [max_level Hmax]. rewrite Hmax. simpl.
  destruct (count_cells_spec (items content) item_levels Hkeys)
    as (cells & Hcount & Hcells).
  rewrite Hcount. simpl.
  set (all_sh := sorted (collect_stakeholders (items content))).
  assert (Hall : forall i meta sh, In (i, meta) (items content) ->
                   In sh (stakeholders meta) -> In sh all_sh).
  { intros i meta sh Hi Hsh. apply sorted_In. apply collect_stakeholders_In.
    eauto. }
  set (g := fun sh => match max_nodes cells sh with Ret n => n | _ => 1 end).
  assert (Hg : forall sh, max_nodes cells sh = Ret (g sh)).
  { intro sh. unfold g. destruct (max_nodes_spec cells sh) as (n & -> & _).
    reflexivity. }
  destruct (dict_comp_spec (max_nodes cells) g all_sh (fun k _ => Hg k))
    as (mnpl & Hmnpl & Hmget & _).
  rewrite Hmnpl. simpl.
  destruct (dict_comp_spec
              (fun sh => n <- subscript mnpl sh ;;
                         Ret (n * node_slot_width + h_padding))
              (fun sh => g sh * node_slot_width + h_padding) all_sh)
    as (lane_widths & Hlw & Hwget & _).
  { intros k Hk. unfold subscript. rewrite (Hmget k Hk). reflexivity. }
  rewrite Hlw. simpl. unfold draw.
  match goal with
  | |- context [foldM (emit_lane lane_widths ?pid ?ph) all_sh (?s2, [], 0)] =>
      destruct (lanes_total lane_widths pid ph all_sh s2)
        as (st3 & lane_ids & acc & Hlanes & Hids & Hpl3)
  end.
  { intros sh Hsh. eapply dict_get_some_mem. apply Hwget. assumption. }
  rewrite Hlanes. simpl.
  set (L := mkLanes milestone_id tooltips item_levels lane_widths cells lane_ids).
  destruct (foldM_inv (place_item L) (fun _ => True) (items content) (st3, []) I)
    as ([st4 cells4] & Hplace & _).
  { intros [s cs] [i meta] Hin _.
    destruct (place_item_total L s cs i meta) as (s' & Hs').
    - simpl. apply dict_mem_keys. rewrite Hkeys.
      apply (in_map fst) in Hin. exact Hin.
    - intros sh Hsh. unfold copy_ready. simpl.
      split; [eapply dict_get_some_mem; apply Hwget; eapply Hall; eassumption|].
      split; [apply Hids; eapply Hall; eassumption|].
      rewrite Hcells.
      assert (1 <= cell_count sh (level_at item_levels i)
                     (occs_of (items content) item_levels)); [| lia].
      apply (cell_count_pos i). unfold occs_of. apply in_flat_map.
      exists (i, meta). split; [assumption|].
      apply in_map_iff. exists sh. auto.
    - exists s'. split; [assumption | exact I]. }
  rewrite Hplace. simpl.
  exists item_levels, lane_widths, cells, lane_ids, st3, st4, cells4.
  split; [reflexivity|]. split; [assumption|]. split; [assumption|].
  split.
  { intros i meta sh Hi Hsh. exists (g sh).
    split; [apply Hwget; eapply Hall; eassumption|].
    destruct (max_nodes_spec cells sh) as (n & Hn & Hle).
    rewrite Hg in Hn. injection Hn as <-. assumption. }
  split; [simpl in Hpl3; assumption|].
  split; [assumption | reflexivity].
Qed.

Lemma layout_procedure_total tooltips st proc :
  NoDup (keys (items (snd proc))) ->
  exists st', layout_procedure tooltips st proc = Ret st'.
Proof.
  destruct proc as [milestone_id content]. intro Hnd. simpl in Hnd.
  destruct (items content) as [|it its] eqn:E.
  - unfold layout_procedure. cbv beta iota. rewrite E. eexists. reflexivity.
  - assert (Hne : items content <> []) by (rewrite E; discriminate).
    rewrite <- E in Hnd.
    destruct (layout_procedure_unfold tooltips st milestone_id content Hnd Hne)
      as (? & ? & ? & ? & ? & ? & ? & _ & _ & _ & _ & _ & _ & H).
    eexists. exact H.
Qed.

Lemma layout_pass_total structured_data tooltips :
  well_formed structured_data ->
  exists st, layout_pass structured_data tooltips = Ret st.
Proof.
  intro Hwf. unfold layout_pass.
  destruct (foldM_inv (layout_procedure tooltips) (fun _ => True)
              structured_data emit_init I) as (st & Hrun & _).
  - intros s [m c] Hin _.
    destruct (layout_procedure_total tooltips s (m, c)) as [s' Hs'].
    + simpl. apply (Hwf m c). assumption.
    + exists s'. auto.
  - eauto.
Qed.

End LayoutTotal.

(* ================================================================== *)
(** * Identifiers recorded in [id_map] *)

Lemma node_in_app r1 r2 u : node_in r1 u -> node_in (r1 ++ r2) u.
Proof.
  intros (n & Hn & H). exists n. split; [apply in_or_app; left; assumption | exact H].
Qed.

Section Resolve.

Variable uuid4 : nat -> string.
Variable rnd : Q -> Q.

Lemma resolve_place_copy L item_id lvl clean_name tooltip is_multi s sh s' :
  place_copy uuid4 rnd L item_id lvl clean_name tooltip is_multi s sh = Ret s' ->
  copies_resolve (fst s) -> copies_resolve (fst s').
Proof.
  destruct s as [st cells]. intros H Hres. apply place_copy_ret in H.
  destruct H as (lw & sw & copies & fill & lane & _ & _ & Hc & _ & _ & ->).
  simpl in *. intros x m sh' u. simpl. rewrite dict_get_set.
  destruct (String.eqb item_id x) eqn:E.
  - apply String.eqb_eq in E. subst x.
    intros [= <-] Hu. apply In_dict_set in Hu. destruct Hu as [[= -> ->] | Hu].
    + eexists. split; [apply in_or_app; right; left; reflexivity|].
      split; [apply node_is_node | apply vertex_id].
    + apply node_in_app. eapply Hres; eassumption.
  - intros Hx Hu. apply node_in_app. eapply Hres; eassumption.
Qed.

Lemma resolve_place_item L s it s' :
  place_item uuid4 rnd L s it = Ret s' ->
  copies_resolve (fst s) -> copies_resolve (fst s').
Proof.
  destruct s as [st cells], it as [item_id meta]. unfold place_item.
  intros H Hres. apply bind_ret_inv in H. destruct H as (lvl & _ & H).
  revert H. apply (foldM_inv_ret _ (fun s => copies_resolve (fst s))).
  - simpl. intros x m sh u. unfold setdefault_id_map.
    assert (Hcol : forall b, copies_resolve (assign_color item_id b st)).
    { intro b. unfold assign_color.
      destruct (b && negb (dict_mem item_id (multi_item_color st))); exact Hres. }
    match goal with
    | |- context [assign_color item_id ?b st] =>
        specialize (Hcol b); set (st1 := assign_color item_id b st) in *
    end.
    destruct (dict_mem item_id (id_map st1)); [apply Hcol|].
    simpl. rewrite dict_get_set. destruct (String.eqb item_id x).
    + intros [= <-] [].
    + apply Hcol.
  - intros s x s0 _ Hs Hstep. eapply resolve_place_copy; eassumption.
Qed.

Lemma resolve_emit e st : copies_resolve st -> copies_resolve (emit e st).
Proof.
  intros Hres x m sh u Hx Hu. simpl in *. apply node_in_app.
  eapply Hres; eassumption.
Qed.

Lemma resolve_emit_lane lane_widths pool_id pool_height s sh s' :
  emit_lane uuid4 lane_widths pool_id pool_height s sh = Ret s' ->
  copies_resolve (fst (fst s)) -> copies_resolve (fst (fst s')).
Proof.
  destruct s as [[st ids] acc]. intros H Hres. apply emit_lane_ret in H.
  destruct H as (lw & _ & ->). simpl in *.
  intros x m sh' u Hx Hu. simpl in *. apply node_in_app. eapply Hres; eassumption.
Qed.

Lemma resolve_layout_procedure tooltips st proc st' :
  layout_procedure uuid4 rnd tooltips st proc = Ret st' ->
  copies_resolve st -> copies_resolve st'.
Proof.
  destruct proc as [milestone_id content]. unfold layout_procedure.
  destruct (items content) as [|it its] eqn:Hitems.
  { intros [= <-]. auto. }
  intros H Hres.
  apply bind_ret_inv in H. destruct H as (item_levels & _ & H).
  apply bind_ret_inv in H. destruct H as (max_level & _ & H).
  apply bind_ret_inv in H. destruct H as (cells & _ & H).
  apply bind_ret_inv in H. destruct H as (max_nodes_per_lane & _ & H).
  apply bind_ret_inv in H. destruct H as (lane_widths & _ & H).
  unfold draw in H.
  apply bind_ret_inv in H. destruct H as ([[st3 lane_ids] acc] & Hlanes & H).
  apply bind_ret_inv in H. destruct H as ([st4 cells4] & Hplace & H).
  injection H as <-.
  apply (foldM_inv_ret _ (fun s => copies_resolve (fst (fst s)))) in Hlanes.
  - apply (foldM_inv_ret _ (fun s => copies_resolve (fst s))) in Hplace.
    + exact Hplace.
    + exact Hlanes.
    + intros s x s0 _ Hs Hstep. eapply resolve_place_item; eassumption.
  - simpl. apply resolve_emit. exact Hres.
  - intros s x s0 _ Hs Hstep. eapply resolve_emit_lane; eassumption.
Qed.

Lemma resolve_layout_pass structured_data tooltips st :
  layout_pass uuid4 rnd structured_data tooltips = Ret st -> copies_resolve st.
Proof.
  unfold layout_pass. apply (foldM_inv_ret _ copies_resolve).
  - intros x m sh u H. discriminate.
  - intros s x s0 _ Hs Hstep. eapply resolve_layout_procedure; eassumption.
Qed.

End Resolve.

(* ================================================================== *)
(** * The lanes of an item, from the structured data *)

Lemma add_key_incl k l : incl l (add_key k l) /\ In k (add_key k l).
Proof.
  unfold add_key. destruct (mem k l) eqn:E.
  - split; [apply incl_refl | apply mem_In; assumption].
  - split; [apply incl_appl, incl_refl | apply in_or_app; right; left; reflexivity].
Qed.

Lemma add_keys_incl ks l : incl l (add_keys ks l) /\ incl ks (add_keys ks l).
Proof.
  unfold add_keys. revert l. induction ks as [|k ks IH]; intro l; simpl.
  - split; [apply incl_refl | intros x []].
  - destruct (IH (add_key k l)) as [H1 H2].
    destruct (add_key_incl k l) as [H3 H4].
    split; [eapply incl_tran; eassumption|].
    intros x [<- | Hx]; [apply H1; assumption | apply H2; assumption].
Qed.

Lemma add_keys_nodup ks l :
  NoDup (l ++ ks) -> add_keys ks l = l ++ ks.
Proof.
  unfold add_keys. revert l. induction ks as [|k ks IH]; intros l Hnd; simpl.
  - rewrite app_nil_r. reflexivity.
  - assert (Hk : mem k l = false).
    { apply mem_false_In. apply NoDup_remove_2 in Hnd.
      intro H. apply Hnd. apply in_or_app. left. assumption. }
    unfold add_key at 2. rewrite Hk.
    rewrite IH; rewrite <- app_assoc; [reflexivity | exact Hnd].
Qed.

Lemma shape_sum_copies item_id shs a x :
  dict_get x (a_shape (fold_left (sum_copy item_id) shs a))
  = if String.eqb item_id x
    then match shs with
         | [] => dict_get x (a_shape a)
         | _ => Some (add_keys shs (lanes_of item_id (a_shape a)))
         end
    else dict_get x (a_shape a).
Proof.
  revert a. induction shs as [|sh shs IH]; intro a; simpl.
  - destruct (String.eqb item_id x); reflexivity.
  - rewrite IH. simpl. rewrite dict_get_set.
    destruct (String.eqb item_id x) eqn:E; [| reflexivity].
    destruct shs as [|sh2 shs]; [reflexivity|].
    f_equal. f_equal. unfold lanes_of at 1. rewrite dict_get_set_same.
    reflexivity.
Qed.

Lemma shape_sum_item a it x :
  dict_get x (a_shape (sum_item a it))
  = lanes_step x (dict_get x (a_shape a)) it.
Proof.
  destruct it as [item_id meta]. unfold sum_item, lanes_step. simpl.
  rewrite shape_sum_copies.
  set (a1 := sum_color item_id (1 <? List.length (stakeholders meta))%nat a).
  assert (Ha1 : a_shape a1 = a_shape a).
  { unfold a1, sum_color.
    destruct ((1 <? List.length (stakeholders meta))%nat
              && negb (dict_mem item_id (a_colors a))); reflexivity. }
  destruct (String.eqb item_id x) eqn:E.
  - apply String.eqb_eq in E. subst x.
    unfold sum_setdefault, lanes_of. rewrite Ha1. unfold dict_mem.
    destruct (dict_get item_id (a_shape a)) as [l|] eqn:Hl; simpl.
    + rewrite Ha1, Hl. destruct (stakeholders meta); reflexivity.
    + rewrite dict_get_set_same. destruct (stakeholders meta); reflexivity.
  - unfold sum_setdefault. rewrite Ha1.
    destruct (dict_mem item_id (a_shape a)); simpl; rewrite ?Ha1; [reflexivity|].
    rewrite dict_get_set, E. reflexivity.
Qed.

Lemma shape_sum_layout structured_data x :
  dict_get x (a_shape (sum_layout structured_data)) = item_lanes structured_data x.
Proof.
  unfold sum_layout, item_lanes.
  rewrite (fold_left_sim (fun a => dict_get x (a_shape a)) sum_procedure
             (fun acc (proc : string * Content) =>
                fold_left (lanes_step x) (items (snd proc)) acc)).
  - reflexivity.
  - intros a proc _. unfold sum_procedure.
    apply (fold_left_sim (fun a => dict_get x (a_shape a))).
    intros a0 it _. apply shape_sum_item.
Qed.

Lemma shape_sum_link_procedure a proc :
  a_shape (sum_link_procedure a proc) = a_shape a.
Proof.
  unfold sum_link_procedure.
  apply (fold_left_inv _ (fun a' => a_shape a' = a_shape a)); [reflexivity|].
  intros a0 [item_id meta] _ Ha0.
  apply (fold_left_inv _ (fun a' => a_shape a' = a_shape a)); [assumption|].
  intros a1 t _ Ha1. unfold sum_link.
  destruct (negb (dict_mem item_id (a_shape a1))
            || negb (dict_mem t (a_shape a1))); assumption.
Qed.

(** ** Lanes of an item listed somewhere, of an item listed once, and of
    an identifier that is no item *)

Lemma lanes_step_grows x its acc l :
  acc = Some l ->
  exists l', fold_left (lanes_step x) its acc = Some l' /\ incl l l'.
Proof.
  revert acc l. induction its as [|[i meta] its IH]; intros acc l ->; simpl.
  - exists l. split; [reflexivity | apply incl_refl].
  - unfold lanes_step at 2. simpl. destruct (String.eqb i x).
    + destruct (IH (Some (add_keys (stakeholders meta) l)) _ eq_refl)
        as (l' & Hl' & Hincl).
      exists l'. split; [exact Hl'|].
      eapply incl_tran; [| exact Hincl]. apply add_keys_incl.
    + apply IH. reflexivity.
Qed.

Lemma lanes_step_listed x meta its acc :
  In (x, meta) its ->
  exists l, fold_left (lanes_step x) its acc = Some l
            /\ incl (stakeholders meta) l.
Proof.
  revert acc. induction its as [|[i m] its IH]; intros acc Hin; [destruct Hin|].
  simpl. destruct Hin as [[= -> ->] | Hin]; [| apply IH; assumption].
  unfold lanes_step at 2. simpl. rewrite String.eqb_refl.
  destruct (lanes_step_grows x its
              (Some (add_keys (stakeholders meta)
                       (match acc with Some l => l | None => [] end)))
              _ eq_refl) as (l' & Hl' & Hincl).
  exists l'. split; [exact Hl'|].
  eapply incl_tran; [| exact Hincl]. apply add_keys_incl.
Qed.

Lemma lanes_step_absent x its acc :
  ~ In x (keys its) -> fold_left (lanes_step x) its acc = acc.
Proof.
  revert acc. induction its as [|[i m] its IH]; intros acc Hnot; [reflexivity|].
  simpl in *. unfold lanes_step at 2. simpl.
  destruct (String.eqb i x) eqn:E.
  - apply String.eqb_eq in E. exfalso. apply Hnot. left. assumption.
  - apply IH. intro H. apply Hnot. right. assumption.
Qed.

Lemma lanes_step_once x meta its acc :
  NoDup (keys its) -> In (x, meta) its ->
  fold_left (lanes_step x) its acc
  = Some (add_keys (stakeholders meta)
                   (match acc with Some l => l | None => [] end)).
Proof.
  revert acc. induction its as [|[i m] its IH]; intros acc Hnd Hin; [destruct Hin|].
  simpl in *. inversion Hnd as [|? ? Hi Hnd']; subst.
  destruct Hin as [[= -> ->] | Hin].
  - unfold lanes_step at 2. simpl. rewrite String.eqb_refl.
    apply lanes_step_absent. assumption.
  - unfold lanes_step at 2. simpl.
    destruct (String.eqb i x) eqn:E; [| apply IH; assumption].
    apply String.eqb_eq in E. subst i. exfalso. apply Hi.
    apply (in_map fst) in Hin. exact Hin.
Qed.

Lemma item_lanes_app sd1 sd2 x :
  item_lanes (sd1 ++ sd2) x
  = fold_left (fun acc (proc : string * Content) =>
                 fold_left (lanes_step x) (items (snd proc)) acc)
              sd2 (item_lanes sd1 x).
Proof. unfold item_lanes. apply fold_left_app. Qed.

Lemma procs_absent x (sd : DataStruct) acc :
  (forall m c, In (m, c) sd -> ~ In x (keys (items c))) ->
  fold_left (fun acc (proc : string * Content) =>
               fold_left (lanes_step x) (items (snd proc)) acc) sd acc = acc.
Proof.
  revert acc. induction sd as [|[m c] sd IH]; intros acc H; [reflexivity|].
  simpl. rewrite lanes_step_absent by (apply (H m c); left; reflexivity).
  apply IH. intros m' c' Hin. apply (H m' c'). right. assumption.
Qed.

Lemma procs_grow x (sd : DataStruct) acc l :
  acc = Some l ->
  exists l', fold_left (fun acc (proc : string * Content) =>
                          fold_left (lanes_step x) (items (snd proc)) acc)
                       sd acc = Some l'
             /\ incl l l'.
Proof.
  revert acc l. induction sd as [|[m c] sd IH]; intros acc l ->; simpl.
  - exists l. split; [reflexivity | apply incl_refl].
  - destruct (lanes_step_grows x (items c) _ l eq_refl) as (l1 & Hl1 & H1).
    destruct (IH _ _ Hl1) as (l2 & Hl2 & H2).
    exists l2. split; [exact Hl2 | eapply incl_tran; eassumption].
Qed.

(** An item listed in some procedure has an entry holding at least its
    stakeholders there. *)
Lemma item_lanes_listed sd m c x meta :
  In (m, c) sd -> In (x, meta) (items c) ->
  exists l, item_lanes sd x = Some l /\ incl (stakeholders meta) l.
Proof.
  intros Hin Hx. apply in_split in Hin. destruct Hin as (pre & post & ->).
  rewrite item_lanes_app. simpl.
  destruct (lanes_step_listed x meta (items c) (item_lanes pre x) Hx)
    as (l1 & Hl1 & H1).
  destruct (procs_grow x post _ l1 Hl1) as (l2 & Hl2 & H2).
  exists l2. split; [exact Hl2 | eapply incl_tran; eassumption].
Qed.

(** An item of exactly one procedure has exactly its stakeholders. *)
Lemma item_lanes_sole_owner sd x meta :
  well_formed sd -> sole_owner sd x meta -> NoDup (stakeholders meta) ->
  item_lanes sd x = Some (stakeholders meta).
Proof.
  intros Hwf (pre & m & c & post & -> & Hx & Hother) Hnd.
  rewrite item_lanes_app. simpl.
  assert (Hpre : item_lanes pre x = None).
  { unfold item_lanes. apply procs_absent. intros m' c' Hin.
    apply (Hother m' c'). apply in_or_app. left. assumption. }
  rewrite Hpre.
  rewrite (lanes_step_once x meta (items c) None); [| | assumption].
  - rewrite procs_absent.
    + rewrite add_keys_nodup; [reflexivity | exact Hnd].
    + intros m' c' Hin. apply (Hother m' c'). apply in_or_app. right. assumption.
  - apply (Hwf m c). apply in_or_app. right. left. reflexivity.
Qed.

(** An identifier that is no item of any procedure has no entry. *)
Lemma item_lanes_absent sd x :
  (forall m c, In (m, c) sd -> ~ In x (keys (items c))) ->
  item_lanes sd x = None.
Proof. intro H. unfold item_lanes. apply procs_absent. assumption. Qed.

(* ================================================================== *)
(** * The whole run *)

Section WholeRun.

Variable uuid4 : nat -> string.
Variable rnd : Q -> Q.

Local Abbreviation layout_pass := (layout_pass uuid4 rnd).
Local Abbreviation emit_run := (emit_run uuid4 rnd).
Local Abbreviation link := (link uuid4).
Local Abbreviation edges_between := (edges_between uuid4).

Lemma layout_pass_summary structured_data tooltips st :
  layout_pass structured_data tooltips = Ret st ->
  summary st = sum_layout structured_data.
Proof.
  unfold layout_pass, sum_layout. intro H.
  apply (foldM_sim summary _ sum_procedure) in H; [exact H|].
  intros s x s' _. apply summary_layout_procedure.
Qed.

Lemma layout_pass_lanes structured_data tooltips st x :
  layout_pass structured_data tooltips = Ret st ->
  option_map keys (dict_get x (id_map st)) = item_lanes structured_data x.
Proof.
  intro H. apply layout_pass_summary in H.
  rewrite <- shape_sum_layout, <- H. simpl. symmetry. apply shape_get.
Qed.

(** An arrow between two node copies of the document [r]. *)
Definition edge_ok (r : list Element) (e : Element) : Prop :=
  exists k s t, e = edge_cell (uuid4 k) s t /\ node_in r s /\ node_in r t.

Lemma link_pass_spec structured_data st1 :
  copies_resolve st1 ->
  exists es,
    foldM (link_procedure uuid4) structured_data st1
    = Ret (with_elements es st1)
    /\ Forall (edge_ok (root st1)) es.
Proof.
  intro Hres.
  pose (I := fun st => exists es, st = with_elements es st1
                                  /\ Forall (edge_ok (root st1)) es).
  assert (Hlink : forall item_id target_id st,
             I st -> exists st', link item_id st target_id = Ret st' /\ I st').
  { intros item_id target_id st (es & -> & Hes).
    rewrite link_spec. eexists. split; [reflexivity|]. simpl.
    destruct (dict_get item_id (id_map st1)) as [src|] eqn:Hs;
      [| exists es; auto].
    destruct (dict_get target_id (id_map st1)) as [tgt|] eqn:Ht;
      [| exists es; auto].
    eexists. split; [apply with_elements_app|].
    apply Forall_app. split; [assumption|].
    apply Forall_forall. intros e He. apply edges_between_In in He.
    destruct He as (k & s & t & Hsin & Htin & ->).
    exists k, s, t. split; [reflexivity|].
    unfold values in Hsin, Htin. apply in_map_iff in Hsin, Htin.
    destruct Hsin as ([sh1 s'] & <- & Hsin), Htin as ([sh2 t'] & <- & Htin).
    simpl. split;
      [apply (Hres item_id src sh1 s') | apply (Hres target_id tgt sh2 t')];
      assumption. }
  destruct (foldM_inv (link_procedure uuid4) I structured_data st1)
    as (st & Hrun & es & -> & Hes); [| | exists es; auto].
  - exists []. split; [symmetry; apply with_elements_nil | constructor].
  - intros st [m c] _ Hst. unfold link_procedure. simpl.
    apply (foldM_inv (link_item uuid4) I); [assumption|].
    intros s [item_id meta] _ Hs. unfold link_item.
    apply (foldM_inv (link item_id) I); [assumption|].
    intros s0 t _ Hs0. apply Hlink. assumption.
Qed.

Lemma sum_layout_no_edges structured_data :
  a_edges (sum_layout structured_data) = 0%nat.
Proof.
  unfold sum_layout.
  apply (fold_left_inv _ (fun a => a_edges a = 0%nat)); [reflexivity|].
  intros a [m c] _ Ha. unfold sum_procedure.
  apply (fold_left_inv _ (fun a => a_edges a = 0%nat)); [assumption|].
  intros a0 [i meta] _ Ha0. unfold sum_item.
  apply (fold_left_inv _ (fun a => a_edges a = 0%nat)).
  - unfold sum_setdefault, sum_color.
    repeat match goal with
           | |- context [if ?b then _ else _] => destruct b
           end; simpl; assumption.
  - intros a1 sh _ Ha1. exact Ha1.
Qed.

Lemma count_zero_none p (l : list Element) e :
  count_elements p l = 0%nat -> In e l -> p e = false.
Proof.
  unfold count_elements. intros Hc He.
  destruct (p e) eqn:E; [| reflexivity].
  assert (Hin : In e (filter p l)) by (apply filter_In; auto).
  destruct (filter p l); [destruct Hin | discriminate].
Qed.

Lemma layout_pass_no_edge structured_data tooltips st e :
  layout_pass structured_data tooltips = Ret st -> In e (root st) ->
  is_edge e = false.
Proof.
  intros H He. apply layout_pass_summary in H.
  apply (count_zero_none is_edge (root st)); [| assumption].
  change (a_edges (summary st) = 0%nat). rewrite H. apply sum_layout_no_edges.
Qed.

(** The two passes return on well-formed data; the second appends arrows
    between node copies of the first. *)
Lemma emit_run_spec structured_data tooltips :
  well_formed structured_data ->
  exists st1 es,
    layout_pass structured_data tooltips = Ret st1
    /\ emit_run structured_data tooltips = Ret (with_elements es st1)
    /\ create_drawio_xml uuid4 rnd structured_data tooltips
       = Ret (document uuid4 (with_elements es st1))
    /\ copies_resolve st1
    /\ Forall (edge_ok (root st1)) es.
Proof.
  intro Hwf.
  destruct (layout_pass_total uuid4 rnd structured_data tooltips Hwf)
    as (st1 & Hlay).
  pose proof (resolve_layout_pass uuid4 rnd _ _ _ Hlay) as Hres.
  destruct (link_pass_spec structured_data st1 Hres) as (es & Hlink & Hes).
  exists st1, es. unfold create_drawio_xml, emit_run.
  rewrite Hlay. simpl. rewrite Hlink. simpl. auto.
Qed.

End WholeRun.

(* ================================================================== *)
(** * Arrows of the document *)

(** C4. On well-formed data the emitter returns a document in which every
    arrow has a source and a target that are identifiers of node copies
    placed before it; and a [next] reference to an identifier that is no
    item of any procedure adds nothing and raises nothing, in whatever
    state of the second pass it is met. *)
Theorem edges_reference_earlier_nodes (uuid4 : nat -> string) (rnd : Q -> Q)
  (structured_data : DataStruct) (tooltips : dict string) :
  well_formed structured_data ->
  exists st1 st,
    layout_pass uuid4 rnd structured_data tooltips = Ret st1
    /\ emit_run uuid4 rnd structured_data tooltips = Ret st
    /\ create_drawio_xml uuid4 rnd structured_data tooltips
       = Ret (document uuid4 st)
    /\ (forall l1 e l2,
          root st = l1 ++ e :: l2 -> is_edge e = true ->
          exists s t,
            attr "source" e = Some s /\ attr "target" e = Some t
            /\ node_in l1 s /\ node_in l1 t)
    /\ (forall item_id target_id st',
          id_map st' = id_map st1 ->
          (forall m c, In (m, c) structured_data ->
                       ~ In target_id (keys (items c))) ->
          link uuid4 item_id st' target_id = Ret st').
Proof.
  intro Hwf.
  destruct (emit_run_spec uuid4 rnd structured_data tooltips Hwf)
    as (st1 & es & Hlay & Hrun & Hdoc & Hres & Hes).
  exists st1, (with_elements es st1).
  split; [assumption | split; [assumption | split; [assumption|]]]. split.
  - intros l1 e l2 Hsplit Hedge. simpl in Hsplit.
    assert (Hok : edge_ok uuid4 (root st1) e /\ incl (root st1) l1).
    { apply app_eq_app in Hsplit. destruct Hsplit as [l [[H1 H2] | [H1 H2]]].
      - destruct l as [|e' l].
        + rewrite app_nil_r in H1. simpl in H2. subst.
          rewrite Forall_forall in Hes. split; [| apply incl_refl].
          apply Hes. left. reflexivity.
        + simpl in H2. injection H2 as <- _. exfalso.
          assert (He : In e (root st1)).
          { rewrite H1. apply in_or_app. right. left. reflexivity. }
          rewrite (layout_pass_no_edge uuid4 rnd _ _ _ e Hlay He) in Hedge.
          discriminate.
      - rewrite Forall_forall in Hes. split.
        + apply Hes. rewrite H2. apply in_or_app. right. left. reflexivity.
        + rewrite H1. apply incl_appl, incl_refl. }
    destruct Hok as [(k & s & t & -> & (ns & Hns & Hs) & (nt & Hnt & Ht)) Hincl].
    exists s, t. split; [reflexivity | split; [reflexivity|]].
    split; [exists ns | exists nt]; auto.
  - intros item_id target_id st' Hid Hnone. rewrite link_spec, Hid.
    assert (Ht : dict_get target_id (id_map st1) = None).
    { pose proof (layout_pass_lanes uuid4 rnd _ _ _ target_id Hlay) as Hl.
      rewrite (item_lanes_absent _ _ Hnone) in Hl.
      destruct (dict_get target_id (id_map st1)); [discriminate | reflexivity]. }
    rewrite Ht. destruct (dict_get item_id (id_map st1)); reflexivity.
Qed.

Lemma well_formedb_sound sd : well_formedb sd = true -> well_formed sd.
Proof.
  unfold well_formedb. rewrite forallb_forall. intros H m c Hin.
  apply nodupb_sound. apply (H (m, c)). assumption.
Qed.

Lemma edges_reference_earlier_nodes_witness :
  exists st1 st,
    layout_pass (numbered "n") exact fan_out [] = Ret st1
    /\ emit_run (numbered "n") exact fan_out [] = Ret st
    /\ create_drawio_xml (numbered "n") exact fan_out []
       = Ret (document (numbered "n") st)
    /\ (forall l1 e l2,
          root st = l1 ++ e :: l2 -> is_edge e = true ->
          exists s t,
            attr "source" e = Some s /\ attr "target" e = Some t
            /\ node_in l1 s /\ node_in l1 t)
    /\ (forall item_id target_id st',
          id_map st' = id_map st1 ->
          (forall m c, In (m, c) fan_out -> ~ In target_id (keys (items c))) ->
          link (numbered "n") item_id st' target_id = Ret st').
Proof.
  apply (edges_reference_earlier_nodes (numbered "n") exact fan_out []).
  apply well_formedb_sound. reflexivity.
Defined.

(** The design document's example, through the whole pipeline: an item
    with stakeholders A, B linking to one with stakeholders C, D, E gives
    six arrows and five node copies. *)
Example fan_out_six_edges :
  parse_data fan_out_text = Ret (fan_out, [])
  /\ exists st,
       emit_run (numbered "n") exact fan_out [] = Ret st
       /\ count_elements is_edge (root st) = 6%nat
       /\ count_elements is_node (root st) = 5%nat.
Proof.
  split; [vm_compute; reflexivity|].
  eexists. split; [vm_compute; reflexivity|]. split; vm_compute; reflexivity.
Qed.

(** The count of C3 fails when an item is listed by two procedures: S1 has
    one stakeholder in P1 and one in P2, S0 has one, and the single
    reference from S0 to S1 gives two arrows, one per lane recorded for S1
    across both procedures. *)
Lemma shared_item_two_edges :
  parse_data shared_item_text = Ret (shared_item, [])
  /\ exists st,
       emit_run (numbered "n") exact shared_item [] = Ret st
       /\ dict_get "S1" (id_map st) = Some [("A", "n3"); ("B", "n7")]
       /\ dict_get "S0" (id_map st) = Some [("Unassigned", "n8")]
       /\ count_elements is_edge (root st) = 2%nat.
Proof.
  split; [vm_compute; reflexivity|].
  eexists. split; [vm_compute; reflexivity|].
  repeat split; vm_compute; reflexivity.
Qed.

(* ================================================================== *)
(** * References across procedures *)

(** The sample across procedures, run: two arrows from the copy of S1 to
    the two copies of S2, and both procedures level their items at 0. *)
Example cross_procedure_run :
  exists st,
    emit_run (numbered "n") exact cross_procedure [] = Ret st
    /\ count_elements is_edge (root st) = 2%nat
    /\ map p_level (placed st) = [0; 0; 0].
Proof.
  eexists. split; [vm_compute; reflexivity|]. split; vm_compute; reflexivity.
Qed.

(* ================================================================== *)
(** * The graph returned by [parse_data] is well formed *)

Lemma NoDup_add_key k l : NoDup l -> NoDup (add_key k l).
Proof.
  intro H. unfold add_key. destruct (mem k l) eqn:E; [assumption|].
  apply NoDup_app; [assumption | repeat constructor; intros [] |].
  intros x Hx [<- | []]. apply mem_false_In in E. contradiction.
Qed.

Lemma well_formed_set m c0 i meta ds :
  well_formed ds -> dict_get m ds = Some c0 ->
  well_formed (dict_set m (mkContent (dict_set i meta (items c0))) ds).
Proof.
  intros Hwf Hc m' c' Hin. apply In_dict_set in Hin.
  destruct Hin as [[= -> ->] | Hin]; [| eapply Hwf; eassumption].
  simpl. rewrite keys_set_add. apply NoDup_add_key.
  apply (Hwf m c0). apply dict_get_In. assumption.
Qed.

Lemma well_formed_ensure subj ds :
  well_formed ds -> well_formed (ensure_procedure subj ds).
Proof.
  intro Hwf. unfold ensure_procedure. destruct (dict_mem subj ds); [assumption|].
  intros m c Hin. apply In_dict_set in Hin.
  destruct Hin as [[= -> ->] | Hin]; [constructor | eapply Hwf; eassumption].
Qed.

Lemma well_formed_effect st t st' :
  triple_effect st t st' ->
  well_formed (data_struct st) -> well_formed (data_struct st').
Proof.
  intros Heff Hwf. inversion Heff; subst; simpl; auto.
  - apply well_formed_ensure. assumption.
  - apply well_formed_ensure. assumption.
  - apply well_formed_set; [apply well_formed_ensure |]; assumption.
  - apply well_formed_set; assumption.
  - apply well_formed_set; assumption.
Qed.

Lemma keys_fallback_content c : keys (items (fallback_content c)) = keys (items c).
Proof.
  unfold fallback_content, keys. simpl. rewrite map_map.
  apply map_ext. intros [i meta]. reflexivity.
Qed.

Lemma parse_data_well_formed raw_data graph tips :
  parse_data raw_data = Ret (graph, tips) -> well_formed graph.
Proof.
  unfold parse_data. intro H. apply bind_ret_inv in H.
  destruct H as (st & Hrun & H). injection H as <- <-.
  assert (Hwf : well_formed (data_struct st)).
  { revert Hrun. unfold parse_loop.
    apply (foldM_inv_ret _ (fun s => well_formed (data_struct s))).
    - intros m c [].
    - intros s x s' _ Hs Hstep. eapply well_formed_effect; [| exact Hs].
      apply process_triple_effect. exact Hstep. }
  intros m c Hin. apply In_fallback in Hin. destruct Hin as (c0 & -> & Hin).
  rewrite keys_fallback_content. eapply Hwf. eassumption.
Qed.

(* ================================================================== *)
(** * Two runs on the same input *)

Lemma foldM_ext {S X : Type} (f g : S -> X -> outcome S) :
  (forall s x, f s x = g s x) -> forall l s, foldM f l s = foldM g l s.
Proof.
  intros H l. induction l as [|x l IH]; intro s; simpl; [reflexivity|].
  rewrite H. destruct (g s x); simpl; auto.
Qed.

Lemma fold_left_ext {S X : Type} (f g : S -> X -> S) :
  (forall s x, f s x = g s x) -> forall l s, fold_left f l s = fold_left g l s.
Proof.
  intros H l. induction l as [|x l IH]; intro s; simpl; [reflexivity|].
  rewrite H. apply IH.
Qed.

Lemma emit_run_summary uuid4 rnd structured_data tooltips st :
  emit_run uuid4 rnd structured_data tooltips = Ret st ->
  summary st = sum_run structured_data.
Proof.
  unfold emit_run, sum_run. intro H. apply bind_ret_inv in H.
  destruct H as (st1 & Hlay & Hlink).
  apply layout_pass_summary in Hlay. rewrite <- Hlay.
  revert Hlink. apply (foldM_sim summary).
  intros s proc s' _. apply summary_link_procedure.
Qed.

Section SameIdentifiers.

Variables uuid_a uuid_b : nat -> string.
Variable rnd : Q -> Q.
Hypothesis same : forall n, uuid_a n = uuid_b n.

Lemma draw_ext st : draw uuid_a st = draw uuid_b st.
Proof. unfold draw. rewrite same. reflexivity. Qed.

Lemma emit_lane_ext lane_widths pool_id pool_height s sh :
  emit_lane uuid_a lane_widths pool_id pool_height s sh
  = emit_lane uuid_b lane_widths pool_id pool_height s sh.
Proof. unfold emit_lane. destruct s as [[st ids] acc]. rewrite draw_ext. reflexivity. Qed.

Lemma place_copy_ext L item_id lvl clean_name tooltip is_multi s sh :
  place_copy uuid_a rnd L item_id lvl clean_name tooltip is_multi s sh
  = place_copy uuid_b rnd L item_id lvl clean_name tooltip is_multi s sh.
Proof. unfold place_copy. destruct s as [st cells]. rewrite draw_ext. reflexivity. Qed.

Lemma place_item_ext L s it :
  place_item uuid_a rnd L s it = place_item uuid_b rnd L s it.
Proof.
  unfold place_item. destruct it as [item_id meta], s as [st cells].
  destruct (subscript (l_levels L) item_id); simpl; try reflexivity.
  apply foldM_ext. intros s x. apply place_copy_ext.
Qed.

Lemma layout_procedure_ext tooltips st proc :
  layout_procedure uuid_a rnd tooltips st proc
  = layout_procedure uuid_b rnd tooltips st proc.
Proof.
  unfold layout_procedure. destruct proc as [milestone_id content].
  destruct (items content) as [|it its] eqn:E; [reflexivity|].
  rewrite <- E. clear E it its.
  destruct (calculate_vertical_order (items content)); simpl; try reflexivity.
  destruct (py_max (values a)); simpl; try reflexivity.
  destruct (count_cells (items content) a); simpl; try reflexivity.
  match goal with |- context [dict_comp ?f ?l] => destruct (dict_comp f l) end;
    simpl; try reflexivity.
  match goal with |- context [dict_comp ?f ?l] => destruct (dict_comp f l) end;
    simpl; try reflexivity.
  rewrite (same (drawn st)).
  rewrite (foldM_ext _ _ (emit_lane_ext _ _ _)).
  match goal with |- context [foldM ?f ?l ?s] => destruct (foldM f l s) as [[[st3 ids] acc]| |] end;
    simpl; try reflexivity.
  rewrite (foldM_ext _ _ (place_item_ext _)). reflexivity.
Qed.

Lemma link_ext item_id st target_id :
  link uuid_a item_id st target_id = link uuid_b item_id st target_id.
Proof.
  unfold link, emit_edges.
  destruct (negb (dict_mem item_id (id_map st))
            || negb (dict_mem target_id (id_map st))); [reflexivity|].
  destruct (subscript (id_map st) item_id); simpl; try reflexivity.
  destruct (subscript (id_map st) target_id); simpl; try reflexivity.
  f_equal. apply fold_left_ext. intros s x. apply fold_left_ext.
  intros s0 y. unfold emit_edge. rewrite draw_ext. reflexivity.
Qed.

Lemma emit_run_ext structured_data tooltips :
  emit_run uuid_a rnd structured_data tooltips
  = emit_run uuid_b rnd structured_data tooltips.
Proof.
  unfold emit_run, layout_pass.
  rewrite (foldM_ext _ _ (layout_procedure_ext tooltips)).
  destruct (foldM (layout_procedure uuid_b rnd tooltips) structured_data emit_init);
    simpl; try reflexivity.
  apply foldM_ext. intros s proc. unfold link_procedure.
  apply foldM_ext. intros s0 [item_id meta]. unfold link_item.
  apply foldM_ext. intros s1 t. apply link_ext.
Qed.

Lemma document_ext st : document uuid_a st = document uuid_b st.
Proof. unfold document. rewrite same. reflexivity. Qed.

End SameIdentifiers.

(** The documents of two runs on the same text differ as soon as the runs
    draw different identifiers: already the [diagram] element carries
    one. *)
Lemma rerun_documents_differ :
  exists graph tips doc_a doc_b,
    parse_data fan_out_text = Ret (graph, tips)
    /\ create_drawio_xml (numbered "a") exact graph tips = Ret doc_a
    /\ create_drawio_xml (numbered "b") exact graph tips = Ret doc_b
    /\ diagram_id doc_a = Some "a0"
    /\ diagram_id doc_b = Some "b0"
    /\ doc_a <> doc_b.
Proof.
  exists fan_out, [].
  destruct (emit_run_spec (numbered "a") exact fan_out [])
    as (sa & ea & _ & _ & Ha & _); [apply well_formedb_sound; reflexivity|].
  destruct (emit_run_spec (numbered "b") exact fan_out [])
    as (sb & eb & _ & _ & Hb & _); [apply well_formedb_sound; reflexivity|].
  do 2 eexists. split; [vm_compute; reflexivity|].
  split; [exact Ha | split; [exact Hb|]].
  split; [reflexivity | split; [reflexivity|]].
  intro H. apply (f_equal diagram_id) in H. discriminate H.
Qed.

(* ================================================================== *)
(** * The placements logged for one procedure *)

Lemma expected_log_app rnd L seen os1 os2 :
  expected_log rnd L seen (os1 ++ os2)
  = expected_log rnd L seen os1 ++ expected_log rnd L (seen ++ os1) os2.
Proof.
  revert seen. induction os1 as [|[[i sh] lvl] os1 IH]; intro seen; simpl.
  - rewrite app_nil_r. reflexivity.
  - rewrite IH, <- app_assoc. reflexivity.
Qed.

Section PlacementLog.

Variable uuid4 : nat -> string.
Variable rnd : Q -> Q.
Variable L : Lanes.
Variable log0 : list Placement.

(** The state of the placement loop after the node copies [os]. *)
Definition log_inv (os : list Occ) (s : Emit * Cells) : Prop :=
  (forall sh lvl, read_cell sh lvl (snd s) = cell_count sh lvl os)
  /\ placed (fst s) = log0 ++ expected_log rnd L [] os.

Lemma log_place_copy item_id lvl clean_name tooltip is_multi os s sh s' :
  place_copy uuid4 rnd L item_id lvl clean_name tooltip is_multi s sh = Ret s' ->
  log_inv os s -> log_inv (os ++ [(item_id, sh, lvl)]) s'.
Proof.
  destruct s as [st cells]. intros H [Hcells Hlog]. apply place_copy_ret in H.
  destruct H as (lw & sw & copies & fill & lane & Hlw & Hsw & _ & _ & _ & ->).
  simpl in *. split; simpl.
  - intros sh' lvl'. rewrite read_incr, Hcells, cell_count_app, cell_count_single.
    reflexivity.
  - rewrite Hlog, expected_log_app, <- app_assoc. simpl. do 2 f_equal.
    unfold width_at. rewrite Hlw, Hcells.
    unfold int_truediv in Hsw.
    destruct (read_cell sh lvl (l_counts L) =? 0); [discriminate|].
    injection Hsw as <-. reflexivity.
Qed.

Lemma log_place_item (pre : dict ItemMeta) s it s' :
  place_item uuid4 rnd L s it = Ret s' ->
  log_inv (occs_of pre (l_levels L)) s ->
  log_inv (occs_of (pre ++ [it]) (l_levels L)) s'.
Proof.
  destruct s as [st cells], it as [item_id meta]. unfold place_item.
  intros H Hinv. apply bind_ret_inv in H. destruct H as (lvl & Hlvl & H).
  apply subscript_ret in Hlvl.
  rewrite occs_of_app. unfold occs_of at 2. simpl. rewrite app_nil_r.
  unfold level_at. rewrite Hlvl.
  set (O := occs_of pre (l_levels L)) in *.
  assert (G : forall shs spre s0 s1,
             foldM (place_copy uuid4 rnd L item_id lvl
                      (underscores_to_spaces (last_segment item_id EmptyString))
                      (truthy_get item_id (l_tooltips L))
                      (1 <? List.length (stakeholders meta))%nat) shs s0 = Ret s1 ->
             log_inv (O ++ map (fun sh => (item_id, sh, lvl)) spre) s0 ->
             log_inv (O ++ map (fun sh => (item_id, sh, lvl)) (spre ++ shs)) s1).
  { induction shs as [|sh shs IH]; intros spre s0 s1 Hrun Hs0; simpl in Hrun.
    - injection Hrun as <-. rewrite app_nil_r. assumption.
    - apply bind_ret_inv in Hrun. destruct Hrun as (s2 & Hstep & Hrun).
      apply (log_place_copy _ _ _ _ _ _ _ _ _ Hstep) in Hs0.
      rewrite <- app_assoc in Hs0.
      change (map (fun sh0 => (item_id, sh0, lvl)) spre ++ [(item_id, sh, lvl)])
        with (map (fun sh0 => (item_id, sh0, lvl)) spre
              ++ map (fun sh0 => (item_id, sh0, lvl)) [sh]) in Hs0.
      rewrite <- map_app in Hs0.
      specialize (IH (spre ++ [sh]) s2 s1 Hrun Hs0).
      rewrite <- app_assoc in IH. exact IH. }
  apply (G (stakeholders meta) [] _ _ H). simpl. rewrite app_nil_r.
  destruct Hinv as [Hcells Hlog]. split; [exact Hcells|]. simpl in *.
  rewrite <- Hlog. unfold setdefault_id_map, assign_color.
  repeat match goal with
         | |- context [if ?b then _ else _] => destruct b
         end; reflexivity.
Qed.

Lemma log_place_items (items : dict ItemMeta) s s' :
  foldM (place_item uuid4 rnd L) items s = Ret s' ->
  log_inv [] s ->
  log_inv (occs_of items (l_levels L)) s'.
Proof.
  intros Hrun Hs.
  assert (G : forall its (pre : dict ItemMeta) s0 s1,
             foldM (place_item uuid4 rnd L) its s0 = Ret s1 ->
             log_inv (occs_of pre (l_levels L)) s0 ->
             log_inv (occs_of (pre ++ its) (l_levels L)) s1).
  { induction its as [|it its IH]; intros pre s0 s1 Hr Hs0; simpl in Hr.
    - injection Hr as <-. rewrite app_nil_r. assumption.
    - apply bind_ret_inv in Hr. destruct Hr as (s2 & Hstep & Hr).
      apply (log_place_item pre _ _ _ Hstep) in Hs0.
      specialize (IH (pre ++ [it]) s2 s1 Hr Hs0).
      rewrite <- app_assoc in IH. exact IH. }
  exact (G items [] s s' Hrun Hs).
Qed.

End PlacementLog.

(** ** The slot indices of a cell *)

Lemma zseq_length from len : List.length (zseq from len) = len.
Proof. revert from. induction len; intro from; simpl; auto. Qed.


Lemma expected_log_cell rnd L sh lvl os :
  forall seen,
    map p_slot (filter (placed_in sh lvl) (expected_log rnd L seen os))
    = zseq (cell_count sh lvl seen)
           (List.length (filter (in_cell sh lvl) os)).
Proof.
  induction os as [|[[i sh'] lvl'] os IH]; intro seen; simpl; [reflexivity|].
  unfold placed_in at 1. simpl.
  destruct (String.eqb sh' sh && (lvl' =? lvl)) eqn:E; simpl.
  - rewrite IH, cell_count_app, cell_count_single, E.
    apply andb_prop in E. destruct E as [E1 E2].
    apply String.eqb_eq in E1. apply Z.eqb_eq in E2. subst. reflexivity.
  - rewrite IH, cell_count_app, cell_count_single, E, Z.add_0_r. reflexivity.
Qed.

Lemma expected_log_entry rnd L sh lvl os p :
  forall seen,
    In p (filter (placed_in sh lvl) (expected_log rnd L seen os)) ->
    p_pool p = l_pool L
    /\ p_total p = read_cell sh lvl (l_counts L)
    /\ p_lane_width p = width_at L sh
    /\ p_x p = Qtrunc (x_pos rnd
                         (rnd (inject_Z (width_at L sh)
                               / inject_Z (read_cell sh lvl (l_counts L)))%Q)
                         (p_slot p))
    /\ p_y p = y_pos lvl
    /\ exists i, In (i, sh, lvl) os /\ p_item p = i.
Proof.
  induction os as [|[[i sh'] lvl'] os IH]; intro seen; simpl; [intros []|].
  unfold placed_in at 1. simpl.
  destruct (String.eqb sh' sh && (lvl' =? lvl)) eqn:E; simpl.
  - apply andb_prop in E. destruct E as [E1 E2].
    apply String.eqb_eq in E1. apply Z.eqb_eq in E2. subst sh' lvl'.
    intros [<- | Hin].
    + simpl. repeat (split; [reflexivity|]). exists i. auto.
    + destruct (IH _ Hin) as (H1 & H2 & H3 & H4 & H5 & i' & Hi' & H6).
      repeat (split; [assumption|]). exists i'. auto.
  - intro Hin. destruct (IH _ Hin) as (H1 & H2 & H3 & H4 & H5 & i' & Hi' & H6).
    repeat (split; [assumption|]). exists i'. auto.
Qed.

(* ================================================================== *)
(** * Slots of a cell *)

Section Slots.
Local Open Scope Q_scope.
Variables lw n : Z.
Hypothesis Hn : (1 <= n)%Z.
Hypothesis Hlw : (0 < lw)%Z.

Let s : Q := inject_Z lw / inject_Z n.

Lemma slot_width_pos : 0 < s.
Proof.
  unfold s. apply Qlt_shift_div_l.
  - change 0 with (inject_Z 0). rewrite <- Zlt_Qlt. lia.
  - rewrite Qmult_0_l. change 0 with (inject_Z 0). rewrite <- Zlt_Qlt. lia.
Qed.

Lemma slots_contiguous i : slot_hi lw n i == slot_lo lw n (i + 1).
Proof. reflexivity. Qed.

Lemma slots_start : slot_lo lw n 0 == 0.
Proof. unfold slot_lo. ring. Qed.

Lemma slots_end : slot_hi lw n (n - 1) == inject_Z lw.
Proof.
  unfold slot_hi. replace (n - 1 + 1)%Z with n by lia. field.
  intro H. assert (E : inject_Z 1 <= inject_Z n) by (rewrite <- Zle_Qle; lia).
  change (inject_Z 1) with 1 in E. lra.
Qed.

Lemma slot_lo_lt_hi i : slot_lo lw n i < slot_hi lw n i.
Proof.
  unfold slot_lo, slot_hi. fold s. rewrite inject_Z_plus.
  pose proof slot_width_pos. change (inject_Z 1) with 1.
  assert (E : (inject_Z i + 1) * s == inject_Z i * s + s) by ring.
  lra.
Qed.

Lemma slots_ordered i j : (i < j)%Z -> slot_hi lw n i <= slot_lo lw n j.
Proof.
  intro Hij. unfold slot_lo, slot_hi. fold s.
  apply Qmult_le_compat_r; [| apply Qlt_le_weak, slot_width_pos].
  rewrite <- Zle_Qle. lia.
Qed.

End Slots.

(* ================================================================== *)
(** * Rectangles under rounding *)

Lemma Qtrunc_floor q : (0 <= q)%Q -> Qtrunc q = Qfloor q.
Proof.
  destruct q as [n d]. unfold Qle, Qtrunc, Qfloor. simpl. intro H.
  apply Z.quot_div_nonneg; lia.
Qed.


Section Rounding.
Local Open Scope Q_scope.
Variable u : Q.
Variable rnd : Q -> Q.
Hypothesis Hu0 : 0 <= u.
Hypothesis Hu1 : u <= 1 # 1000.
Hypothesis Hrnd : rounds_within u rnd.

Lemma rnd_bounds q : 0 <= q -> q - u * q <= rnd q <= q + u * q.
Proof.
  intro Hq. pose proof (Hrnd q) as H.
  rewrite (Qabs_pos q Hq) in H.
  apply Qabs_Qle_condition in H. destruct H as [H1 H2]. split; lra.
Qed.

Lemma scale_le a b c : 0 <= c -> a <= b -> c * a <= c * b.
Proof.
  intros Hc Hab. rewrite (Qmult_comm c a), (Qmult_comm c b).
  apply Qmult_le_compat_r; assumption.
Qed.

Lemma rnd_nonneg q : 0 <= q -> 0 <= rnd q.
Proof.
  intro Hq. destruct (rnd_bounds q Hq) as [H _].
  pose proof (scale_le q q u Hu0 (Qle_refl q)).
  assert (u * q <= (1 # 1000) * q).
  { apply Qmult_le_compat_r; assumption. }
  lra.
Qed.

(** Rounding a value below [M] moves it by at most [u * M]. *)
Lemma rnd_near q M : 0 <= q -> q <= M -> q - u * M <= rnd q <= q + u * M.
Proof.
  intros Hq HM. destruct (rnd_bounds q Hq) as [H1 H2].
  pose proof (scale_le q M u Hu0 HM). split; lra.
Qed.

Lemma small_part w : 0 <= w -> u * w <= (1 # 1000) * w.
Proof. intro Hw. apply Qmult_le_compat_r; assumption. Qed.

(** The rounded product [rnd (sw * rnd k)] of the rounded slot width and a
    rounded index, against the exact [t = s * k]; [w = u * t]. *)
Lemma product_near s k sw :
  0 <= s -> 0 <= k ->
  s - u * s <= sw <= s + u * s ->
  let t := s * k in
  let w := u * t in
  t - 6 * w <= rnd (sw * rnd k) <= t + 7 * w /\ 0 <= rnd (sw * rnd k).
Proof.
  intros Hs Hk Hsw t w.
  destruct (rnd_bounds k Hk) as [Hk1 Hk2].
  pose proof (small_part s Hs) as Hus. pose proof (small_part k Hk) as Huk.
  pose proof (scale_le 0 s u Hu0 Hs) as Hus0. rewrite Qmult_0_r in Hus0.
  pose proof (scale_le 0 k u Hu0 Hk) as Huk0. rewrite Qmult_0_r in Huk0.
  assert (Ht : 0 <= t) by (apply Qmult_le_0_compat; assumption).
  assert (Hw : 0 <= w) by (apply Qmult_le_0_compat; assumption).
  pose proof (small_part w Hw) as Huw.
  (* the product, between (1-u)^2 t and (1+u)^2 t *)
  assert (Hlo : (s - u * s) * (k - u * k) <= sw * rnd k).
  { apply Qmult_le_compat_nonneg; split; lra. }
  assert (Hhi : sw * rnd k <= (s + u * s) * (k + u * k)).
  { apply Qmult_le_compat_nonneg; split; lra. }
  assert (E1 : (s - u * s) * (k - u * k) == t - 2 * w + u * w)
    by (unfold w, t; ring).
  assert (E2 : (s + u * s) * (k + u * k) == t + 2 * w + u * w)
    by (unfold w, t; ring).
  rewrite E1 in Hlo. rewrite E2 in Hhi.
  pose proof (scale_le 0 w u Hu0 Hw) as Huw0. rewrite Qmult_0_r in Huw0.
  assert (Hp0 : 0 <= sw * rnd k).
  { apply Qmult_le_0_compat; lra. }
  assert (HpM : sw * rnd k <= 4 * t).
  { pose proof (small_part t Ht). fold w in H. lra. }
  destruct (rnd_near (sw * rnd k) (4 * t) Hp0 HpM) as [H1 H2].
  assert (E3 : u * (4 * t) == 4 * w) by (unfold w; ring).
  rewrite E3 in H1, H2.
  split; [split; lra|]. apply rnd_nonneg. assumption.
Qed.



End Rounding.

(* ================================================================== *)
(** * Node copies that share a cell *)

Lemma expected_log_cell_length rnd L sh lvl os seen :
  List.length (filter (placed_in sh lvl) (expected_log rnd L seen os))
  = List.length (filter (in_cell sh lvl) os).
Proof.
  rewrite <- (length_map p_slot), expected_log_cell. apply zseq_length.
Qed.

Lemma occs_of_In items item_levels i sh lvl :
  In (i, sh, lvl) (occs_of items item_levels) ->
  exists meta, In (i, meta) items /\ In sh (stakeholders meta).
Proof.
  unfold occs_of. rewrite in_flat_map. intros ([i' meta] & Hin & Hmap).
  apply in_map_iff in Hmap. destruct Hmap as (sh' & [= <- <- _] & Hsh).
  exists meta. auto.
Qed.

Lemma exact_rounds : rounds_within 0 exact.
Proof.
  intro q. unfold exact.
  assert (E : (q - q == 0)%Q) by ring.
  rewrite E, Qmult_0_l. apply Qle_refl.
Qed.



(** The sample procedure, placed: S1 and S2 share the cell (ATC, 0) of a
    lane 380 wide and get the slots 0 and 1, S3 has the cell (ATC, 1) to
    itself. *)
Example shared_cell_placed :
  exists st,
    layout_procedure (numbered "n") exact [] emit_init ("P1", shared_cell)
    = Ret st
    /\ placed st
       = [mkPlacement "P1" "S1" "ATC" 0 0 2 380 15 40;
          mkPlacement "P1" "S2" "ATC" 0 1 2 380 205 40;
          mkPlacement "P1" "S3" "ATC" 1 0 1 380 110 140].
Proof. eexists. split; vm_compute; reflexivity. Qed.

(* ================================================================== *)
(** * Bounds on the ranks *)

(** Below an item of rank [r] there are [r] dequeued items of pairwise
    different, smaller ranks. *)
Lemma ranks_below items done st :
  bfs_inv items done st ->
  forall (r : nat) w,
    In w (keys items) -> lev st w = Z.of_nat r ->
    exists l, NoDup l /\ incl l done /\ List.length l = r
              /\ forall x, In x l -> lev st x < Z.of_nat r.
Proof.
  intro Hinv. induction r as [|r IH]; intros w Hw Hr.
  - exists []. split; [constructor|]. split; [intros x []|].
    split; [reflexivity | intros x []].
  - destruct (inv_just _ _ _ Hinv w Hw) as [_ [Hz | (u & Hu & Hwu & Hl)]];
      [lia|].
    assert (HuN : In u (keys items)).
    { apply (inv_sub _ _ _ Hinv). apply in_or_app. left. assumption. }
    destruct (IH u HuN) as (l & Hnd & Hincl & Hlen & Hlt); [lia|].
    exists (u :: l). split; [| split; [| split]].
    + constructor; [| assumption]. intro H. specialize (Hlt u H). lia.
    + intros x [<- | Hx]; [assumption | apply Hincl; assumption].
    + simpl. rewrite Hlen. reflexivity.
    + intros x [<- | Hx]; [lia | specialize (Hlt x Hx); lia].
Qed.

Lemma rank_bounds items done st w :
  NoDup (keys items) ->
  bfs_inv items done st -> In w (keys items) ->
  0 <= lev st w < Z.of_nat (List.length items).
Proof.
  intros Hnd Hinv Hw.
  destruct (inv_just _ _ _ Hinv w Hw) as [Hpos _].
  split; [assumption|].
  destruct (ranks_below items done st Hinv (Z.to_nat (lev st w)) w Hw)
    as (l & Hndl & Hincl & Hlen & Hlt); [lia|].
  assert (Hlong : (List.length (w :: l) <= List.length (keys items))%nat).
  { apply NoDup_incl_length.
    - constructor; [| assumption]. intro H. specialize (Hlt w H). lia.
    - intros x [<- | Hx]; [assumption|].
      apply (inv_sub _ _ _ Hinv). apply in_or_app. left. apply Hincl. assumption. }
  simpl in Hlong. unfold keys in Hlong. rewrite length_map in Hlong. lia.
Qed.

(** X1. On a dictionary of items, [calculate_vertical_order] returns a
    dictionary with the keys of [items], in the same order, and every rank
    lies between 0 and [len(items) - 1]. *)
Theorem ranks_cover_items_within_bounds (items : dict ItemMeta) :
  NoDup (keys items) ->
  exists item_levels,
    calculate_vertical_order items = Ret item_levels
    /\ keys item_levels = keys items
    /\ forall i r, dict_get i item_levels = Some r ->
                   0 <= r < Z.of_nat (List.length items).
Proof.
  intro Hnd.
  destruct (level_run_spec items Hnd)
    as (adj & st0 & st & done & _ & _ & Hcalc & _ & _ & Hinv & _).
  exists (levels st). split; [assumption|].
  split; [apply (inv_keys_lev _ _ _ Hinv)|].
  intros i r Hget.
  assert (Hi : In i (keys items)).
  { rewrite <- (inv_keys_lev _ _ _ Hinv). apply dict_mem_keys.
    eapply dict_get_some_mem. eassumption. }
  rewrite (lev_get items done st Hinv i Hi) in Hget. injection Hget as <-.
  apply (rank_bounds items done st i Hnd Hinv Hi).
Qed.

Lemma ranks_cover_items_within_bounds_witness :
  exists item_levels,
    calculate_vertical_order cycle_with_entry = Ret item_levels
    /\ keys item_levels = keys cycle_with_entry
    /\ forall i r, dict_get i item_levels = Some r ->
                   0 <= r < Z.of_nat (List.length cycle_with_entry).
Proof.
  apply (ranks_cover_items_within_bounds cycle_with_entry).
  apply nodupb_sound. reflexivity.
Defined.

(* ================================================================== *)
(** * Items that become free are queued *)

Section Free.

Variable items : dict ItemMeta.
Hypothesis items_nodup : NoDup (keys items).

Lemma bfs_iter_free adj done st u0 rest st' :
  (forall u, In u (keys items) -> dict_get u adj = Some (succs items u)) ->
  bfs_inv items done st ->
  queued_when_free items done st ->
  queue st = u0 :: rest ->
  bfs_iter adj u0 rest st done = Ret (st', done ++ [u0]) ->
  queued_when_free items (done ++ [u0]) st'.
Proof.
  intros Hadj Hinv Hfree Hq Hiter.
  pose proof Hinv as [Hkl Hkd Hdeg Hnd Hsub Hzero Hlev Hjust].
  rewrite Hq in *.
  assert (Hu0 : In u0 (keys items)).
  { apply Hsub. apply in_or_app. right. left. reflexivity. }
  assert (Hnotdone : ~ In u0 done).
  { apply NoDup_remove_2 in Hnd. intro H. apply Hnd.
    apply in_or_app. left. assumption. }
  assert (Hcap : forall x, countZ x (succs items u0) <= remaining items done x).
  { intro x. apply remaining_ge; assumption. }
  assert (Hself : ~ In u0 (succs items u0)).
  { apply countZ_zero_notin.
    pose proof (Hcap u0). pose proof (countZ_nonneg u0 (succs items u0)).
    rewrite (Hzero u0) in *; [lia|]. apply in_or_app. right. left. reflexivity. }
  unfold bfs_iter, subscript in Hiter. rewrite (Hadj _ Hu0) in Hiter.
  simpl in Hiter.
  destruct (foldM_prefix_inv (relax u0)
              (fun pre s => relax_inv items done st u0 rest pre s)
              (succs items u0) (mkBfs (levels st) (in_degree st) rest))
    as (st1 & Hrun & _ & _ & _ & _ & newq & Hq' & _ & Hmem).
  { unfold relax_inv. simpl. repeat split; try assumption.
    - intros w Hw. rewrite (Hdeg _ Hw). f_equal. lia.
    - exists []. rewrite app_nil_r. split; [reflexivity|].
      split; [constructor|]. intro x. simpl. tauto. }
  { intros pre v post s Hsplit Hs. eapply relax_step; eassumption. }
  rewrite Hrun in Hiter. simpl in Hiter.
  assert (E : st1 = st') by congruence. subst st1.
  intros w Hw Hrem. rewrite remaining_snoc in Hrem by assumption.
  rewrite Hq', <- !app_assoc. simpl.
  destruct (Z.eq_dec (remaining items done w) 0) as [Hz | Hnz].
  - specialize (Hfree w Hw Hz). rewrite Hq in Hfree.
    apply in_app_or in Hfree. apply in_or_app.
    destruct Hfree as [H | H]; [left; assumption|]. right.
    destruct H as [<- | H]; [left; reflexivity|].
    right. apply in_or_app. left. assumption.
  - apply in_or_app. right. right. apply in_or_app. right.
    apply Hmem. split; [| lia].
    apply countZ_pos_In. pose proof (remaining_nonneg items done w). lia.
Qed.

Lemma bfs_reach_free adj s s' :
  (forall u, In u (keys items) -> dict_get u adj = Some (succs items u)) ->
  bfs_reach adj s s' ->
  bfs_inv items (snd s) (fst s) ->
  queued_when_free items (snd s) (fst s) ->
  queued_when_free items (snd s') (fst s').
Proof.
  intro Hadj.
  induction 1 as [s | st done u rest s' s'' Hq Hiter Hreach IH]; [auto|].
  simpl. intros Hinv Hfree.
  destruct (bfs_iter_inv items items_nodup adj done st u rest Hadj Hinv Hq)
    as (st1 & Hiter1 & Hinv1).
  rewrite Hiter1 in Hiter. injection Hiter as <-. simpl in IH.
  apply IH; [assumption|].
  eapply bfs_iter_free; eassumption.
Qed.

Lemma indeg_pos_pred us w :
  0 < indeg_from items us w -> exists u, In u us /\ In w (succs items u).
Proof.
  induction us as [|u us IH]; simpl; [lia|]. intro H.
  destruct (Z.eq_dec (countZ w (succs items u)) 0) as [Hz | Hnz].
  - destruct IH as (u' & Hu' & Hw); [lia|]. exists u'. auto.
  - exists u. split; [left; reflexivity|].
    apply countZ_pos_In. pose proof (countZ_nonneg w (succs items u)). lia.
Qed.

Lemma remaining_pos_pred done w :
  0 < remaining items done w ->
  exists u, In u (keys items) /\ ~ In u done /\ In w (succs items u).
Proof.
  intro H. apply indeg_pos_pred in H. destruct H as (u & Hu & Hw).
  apply filter_In in Hu. destruct Hu as [Hu Hn].
  exists u. split; [assumption|]. split; [| assumption].
  apply mem_false_In. apply negb_true_iff. assumption.
Qed.

(** The run, with what it leaves behind: every item without a remaining
    edge has been dequeued. *)
Lemma level_run_free :
  exists st done,
    level_run items = Ret (st, done)
    /\ calculate_vertical_order items = Ret (levels st)
    /\ bfs_inv items done st
    /\ (forall w, In w (keys items) -> remaining items done w = 0 -> In w done).
Proof.
  destruct (build_graph_spec items items_nodup)
    as (adj & deg & Hbuild & Hka & Hkd & Hadj & Hdeg).
  pose proof (initial_queue_spec items deg _ Hdeg) as Hqueue.
  destruct (bfs_init_spec items items_nodup) as (adj' & st0 & Hinit & _ & Hinv0).
  assert (Hst0 : adj' = adj
                 /\ queue st0
                    = filter (fun i => indeg_from items (keys items) i =? 0)
                             (keys items)).
  { unfold bfs_init in Hinit. rewrite Hbuild in Hinit. simpl in Hinit.
    rewrite Hqueue in Hinit. simpl in Hinit. injection Hinit as <- <-.
    split; reflexivity. }
  destruct Hst0 as [-> Hq0].
  destruct (bfs_loop_total items items_nodup adj Hadj (List.length items) st0 []
              Hinv0)
    as (st & done & Hrun & Hinv & Hq & Hreach).
  { unfold keys. rewrite length_map. simpl. lia. }
  exists st, done.
  unfold calculate_vertical_order, level_run. rewrite Hinit. simpl.
  rewrite Hrun. simpl.
  split; [reflexivity | split; [reflexivity | split; [assumption|]]].
  assert (Hfree0 : queued_when_free items [] st0).
  { intros w Hw Hz. simpl. rewrite Hq0. apply filter_In. split; [assumption|].
    rewrite remaining_nil in Hz. apply Z.eqb_eq. assumption. }
  pose proof (bfs_reach_free adj _ _ Hadj Hreach Hinv0 Hfree0) as Hfree.
  simpl in Hfree. intros w Hw Hz. specialize (Hfree w Hw Hz).
  rewrite Hq, app_nil_r in Hfree. assumption.
Qed.

End Free.

(* ================================================================== *)
(** * Acyclic procedures *)

Lemma chain_path items x l u :
  chain items (x :: l) -> In u l -> path items x u.
Proof.
  revert x. induction l as [|y l IH]; intros x Hc Hu; [destruct Hu|].
  destruct Hc as [He Hc]. destruct (string_dec y u) as [<- | Hne].
  - apply path_edge. assumption.
  - destruct Hu as [Hu | Hu]; [contradiction|].
    eapply path_step; [eassumption|]. apply IH; assumption.
Qed.

(** A set of items each of which has a predecessor in the set holds a
    cycle: walking back from an item, predecessor by predecessor, comes
    upon an item already visited. *)
Lemma walk_back_cycle items (U : string -> Prop) :
  (forall x, U x -> In x (keys items)) ->
  (forall x, U x -> exists u, U u /\ edge items u x) ->
  forall (k : nat) x l,
    chain items (x :: l) -> NoDup (x :: l) ->
    (forall y, In y (x :: l) -> U y) ->
    (List.length (keys items) < k + List.length (x :: l))%nat ->
    exists c, on_cycle items c.
Proof.
  intros Hkeys Hpred. induction k as [|k IH]; intros x l Hc Hnd HU Hlen.
  - exfalso.
    assert (H : (List.length (x :: l) <= List.length (keys items))%nat).
    { apply NoDup_incl_length; [assumption|].
      intros y Hy. apply Hkeys. apply HU. assumption. }
    lia.
  - destruct (Hpred x (HU x (or_introl eq_refl))) as (u & Hu & He).
    destruct (in_dec string_dec u (x :: l)) as [Hin | Hnotin].
    + exists u. destruct Hin as [<- | Hin]; [apply path_edge; assumption|].
      unfold on_cycle. eapply path_step; [eassumption|].
      eapply chain_path; eassumption.
    + apply (IH u (x :: l)).
      * split; assumption.
      * constructor; assumption.
      * intros y [<- | Hy]; [assumption | apply HU; assumption].
      * simpl in *. lia.
Qed.

Lemma path_len_snoc items n u v w :
  path_len items n u v -> edge items v w -> path_len items (S n) u w.
Proof.
  induction 1 as [u v He | n u v x He Hp IH]; intro Hvw.
  - eapply path_len_step; [eassumption|]. apply path_len_edge. assumption.
  - eapply path_len_step; [eassumption|]. apply IH. assumption.
Qed.

Lemma path_len_path items n u v : path_len items n u v -> path items u v.
Proof.
  induction 1 as [u v He | n u v x He Hp IH].
  - apply path_edge. assumption.
  - eapply path_step; eassumption.
Qed.

Section Ranks.

Variables (items : dict ItemMeta) (done : list string) (st : Bfs).
Hypothesis Hinv : bfs_inv items done st.

(** A path of dequeued items raises the rank by at least its length. *)
Lemma path_len_rank n u v :
  (forall x, In x (keys items) -> In x done) ->
  path_len items n u v -> lev st u + Z.of_nat n <= lev st v.
Proof.
  intro Hall. induction 1 as [u v He | n u v x He Hp IH].
  - pose proof (edge_levels items done st Hinv u v He (Hall u (proj1 He))). lia.
  - pose proof (edge_levels items done st Hinv u v He (Hall u (proj1 He))). lia.
Qed.

(** A positive rank is witnessed by a path of that many edges. *)
Lemma rank_path (r : nat) :
  forall w, In w (keys items) -> lev st w = Z.of_nat (S r) ->
            exists u, path_len items (S r) u w.
Proof.
  induction r as [|r IH]; intros w Hw Hr;
    destruct (inv_just _ _ _ Hinv w Hw) as [_ [Hz | (u & Hu & Hwu & Hl)]];
    try lia;
    assert (HuN : In u (keys items))
      by (apply (inv_sub _ _ _ Hinv); apply in_or_app; left; assumption).
  - exists u. apply path_len_edge. split; assumption.
  - destruct (IH u HuN) as (u' & Hp); [lia|].
    exists u'. eapply path_len_snoc; [eassumption|]. split; assumption.
Qed.

End Ranks.

Lemma acyclic_all_dequeued items done st :
  acyclic items ->
  bfs_inv items done st ->
  (forall w, In w (keys items) -> remaining items done w = 0 -> In w done) ->
  forall w, In w (keys items) -> In w done.
Proof.
  intros Hac Hinv Hfree w Hw.
  destruct (in_dec string_dec w done) as [Hin | Hnot]; [assumption|].
  exfalso.
  destruct (walk_back_cycle items (fun x => In x (keys items) /\ ~ In x done))
    with (k := List.length (keys items)) (x := w) (l := @nil string)
    as (c & Hc).
  - tauto.
  - intros x [Hx Hnx].
    destruct (remaining_pos_pred items done x) as (u & Hu & Hnu & Hxu).
    + pose proof (remaining_nonneg items done x).
      destruct (Z.eq_dec (remaining items done x) 0) as [Hz | Hnz]; [| lia].
      exfalso. apply Hnx. apply Hfree; assumption.
    + exists u. split; [split; assumption|]. split; assumption.
  - exact I.
  - constructor; [intros [] | constructor].
  - intros y [<- | []]. split; assumption.
  - simpl. lia.
  - exact (Hac c Hc).
Qed.

Lemma ranked_byb_acyclic items rk : ranked_byb items rk = true -> acyclic items.
Proof.
  unfold ranked_byb. rewrite forallb_forall. intro H.
  assert (He : forall u v, edge items u v -> level_at rk u < level_at rk v).
  { intros u v [Hu Hv]. specialize (H u Hu). rewrite forallb_forall in H.
    apply Z.ltb_lt. apply H. assumption. }
  assert (Hp : forall u v, path items u v -> level_at rk u < level_at rk v).
  { induction 1 as [u v E | u v w E _ IH]; [auto|].
    specialize (He u v E). lia. }
  intros w Hc. specialize (Hp w w Hc). lia.
Qed.

(** X2. On a procedure whose successor graph has no cycle, every item is
    dequeued exactly once, and the rank returned for an item is the length
    of the longest path that ends at it: no path into the item has more
    edges than its rank, and a positive rank is attained by some path. *)
Theorem rank_is_longest_path (items : dict ItemMeta) :
  NoDup (keys items) ->
  acyclic items ->
  exists st done,
    level_run items = Ret (st, done)
    /\ calculate_vertical_order items = Ret (levels st)
    /\ NoDup done
    /\ (forall w, In w (keys items) <-> In w done)
    /\ forall v, In v (keys items) ->
         exists r : nat,
           dict_get v (levels st) = Some (Z.of_nat r)
           /\ (forall n u, path_len items n u v -> (n <= r)%nat)
           /\ (r = 0%nat \/ exists u, path_len items r u v).
Proof.
  intros Hnd Hac.
  destruct (level_run_free items Hnd) as (st & done & Hrun & Hcalc & Hinv & Hfree).
  pose proof (acyclic_all_dequeued items done st Hac Hinv Hfree) as Hall.
  exists st, done. split; [assumption | split; [assumption|]].
  split.
  { pose proof (inv_nodup _ _ _ Hinv) as H. apply NoDup_app_remove_r in H.
    assumption. }
  split.
  { intro w. split; [apply Hall|]. intro H.
    apply (inv_sub _ _ _ Hinv). apply in_or_app. left. assumption. }
  intros v Hv.
  destruct (inv_just _ _ _ Hinv v Hv) as [Hpos _].
  exists (Z.to_nat (lev st v)). rewrite Z2Nat.id by assumption.
  split; [apply (lev_get items done st Hinv); assumption|]. split.
  - intros n u Hp.
    pose proof (path_len_rank items done st Hinv n u v Hall Hp) as Hle.
    assert (Hu : In u (keys items)).
    { inversion Hp as [? ? [H _] | ? ? ? ? [H _] _]; subst; assumption. }
    destruct (inv_just _ _ _ Hinv u Hu) as [Hupos _]. lia.
  - destruct (Z.to_nat (lev st v)) as [|r] eqn:E; [left; reflexivity|].
    right. apply (rank_path items done st Hinv r v Hv). lia.
Qed.

Lemma rank_is_longest_path_witness :
  exists st done,
    level_run diamond = Ret (st, done)
    /\ calculate_vertical_order diamond = Ret (levels st)
    /\ NoDup done
    /\ (forall w, In w (keys diamond) <-> In w done)
    /\ forall v, In v (keys diamond) ->
         exists r : nat,
           dict_get v (levels st) = Some (Z.of_nat r)
           /\ (forall n u, path_len diamond n u v -> (n <= r)%nat)
           /\ (r = 0%nat \/ exists u, path_len diamond r u v).
Proof.
  apply (rank_is_longest_path diamond).
  - apply nodupb_sound. reflexivity.
  - apply (ranked_byb_acyclic diamond [("a", 0); ("b", 1); ("c", 1); ("d", 2)]).
    reflexivity.
Defined.

(** The ranks of the diamond: the direct edge from [a] to [d] does not
    lower the rank of [d] below the two-edge paths. *)
Example diamond_ranks :
  calculate_vertical_order diamond
  = Ret [("a", 0); ("b", 1); ("c", 1); ("d", 2)].
Proof. reflexivity. Qed.

(* ================================================================== *)
(** * What one triple does to each part of the parsing state *)

Lemma process_triple_tooltips st t st' :
  process_triple st t = Ret st' ->
  tooltips st'
  = if String.eqb (pred_norm_of t) "sourcetext"
    then dict_set (subj_of t) (obj_of t) (tooltips st)
    else tooltips st.
Proof.
  destruct t as [[subj0 pred] obj0].
  unfold process_triple, pred_norm_of, subj_of, obj_of. simpl fst. simpl snd.
  destruct (String.eqb (lower (strip pred)) "sourcetext").
  { intros [= <-]. reflexivity. }
  destruct (String.eqb (lower (strip pred)) "type"
            && String.eqb (strip obj0) "Procedure").
  { intros [= <-]. reflexivity. }
  destruct (String.eqb (lower (strip pred)) "hassequenceditem").
  { intro H. apply bind_ret_inv in H. destruct H as (c & _ & H).
    apply bind_ret_inv in H. destruct H as (ds2 & _ & H).
    injection H as <-. reflexivity. }
  destruct (String.eqb (lower (strip pred)) "hasstakeholder").
  { destruct (dict_get (strip subj0) (item_to_milestone st)) as [m|];
      [| intros [= <-]; reflexivity].
    destruct (nonempty m); [| intros [= <-]; reflexivity].
    intro H. apply bind_ret_inv in H. destruct H as (c & _ & H).
    destruct (dict_mem (strip subj0) (items c)); [| injection H as <-; reflexivity].
    apply bind_ret_inv in H. destruct H as (c' & _ & H).
    apply bind_ret_inv in H. destruct H as (meta & _ & H).
    destruct (mem (strip obj0) (stakeholders meta));
      [injection H as <-; reflexivity|].
    apply bind_ret_inv in H. destruct H as (ds' & _ & H).
    injection H as <-. reflexivity. }
  destruct (String.eqb (lower (strip pred)) "hasnext").
  { destruct (dict_get (strip subj0) (item_to_milestone st)) as [m|];
      [| intros [= <-]; reflexivity].
    destruct (nonempty m); [| intros [= <-]; reflexivity].
    intro H. apply bind_ret_inv in H. destruct H as (c & _ & H).
    destruct (dict_mem (strip subj0) (items c)); [| injection H as <-; reflexivity].
    apply bind_ret_inv in H. destruct H as (c' & _ & H).
    apply bind_ret_inv in H. destruct H as (meta & _ & H).
    apply bind_ret_inv in H. destruct H as (ds' & _ & H).
    injection H as <-. reflexivity. }
  intros [= <-]. reflexivity.
Qed.

Lemma process_triple_owner st t st' :
  process_triple st t = Ret st' ->
  item_to_milestone st'
  = if String.eqb (pred_norm_of t) "hassequenceditem"
    then dict_set (obj_of t) (subj_of t) (item_to_milestone st)
    else item_to_milestone st.
Proof.
  destruct t as [[subj0 pred] obj0].
  unfold process_triple, pred_norm_of, subj_of, obj_of. simpl fst. simpl snd.
  destruct (String.eqb (lower (strip pred)) "sourcetext") eqn:E1.
  { apply String.eqb_eq in E1. rewrite E1. intros [= <-]. reflexivity. }
  destruct (String.eqb (lower (strip pred)) "type"
            && String.eqb (strip obj0) "Procedure") eqn:E2.
  { apply andb_prop in E2. destruct E2 as [E2 _].
    apply String.eqb_eq in E2. rewrite E2. intros [= <-]. reflexivity. }
  destruct (String.eqb (lower (strip pred)) "hassequenceditem").
  { intro H. apply bind_ret_inv in H. destruct H as (c & _ & H).
    apply bind_ret_inv in H. destruct H as (ds2 & _ & H).
    injection H as <-. reflexivity. }
  destruct (String.eqb (lower (strip pred)) "hasstakeholder").
  { destruct (dict_get (strip subj0) (item_to_milestone st)) as [m|];
      [| intros [= <-]; reflexivity].
    destruct (nonempty m); [| intros [= <-]; reflexivity].
    intro H. apply bind_ret_inv in H. destruct H as (c & _ & H).
    destruct (dict_mem (strip subj0) (items c)); [| injection H as <-; reflexivity].
    apply bind_ret_inv in H. destruct H as (c' & _ & H).
    apply bind_ret_inv in H. destruct H as (meta & _ & H).
    destruct (mem (strip obj0) (stakeholders meta));
      [injection H as <-; reflexivity|].
    apply bind_ret_inv in H. destruct H as (ds' & _ & H).
    injection H as <-. reflexivity. }
  destruct (String.eqb (lower (strip pred)) "hasnext").
  { destruct (dict_get (strip subj0) (item_to_milestone st)) as [m|];
      [| intros [= <-]; reflexivity].
    destruct (nonempty m); [| intros [= <-]; reflexivity].
    intro H. apply bind_ret_inv in H. destruct H as (c & _ & H).
    destruct (dict_mem (strip subj0) (items c)); [| injection H as <-; reflexivity].
    apply bind_ret_inv in H. destruct H as (c' & _ & H).
    apply bind_ret_inv in H. destruct H as (meta & _ & H).
    apply bind_ret_inv in H. destruct H as (ds' & _ & H).
    injection H as <-. reflexivity. }
  intros [= <-]. reflexivity.
Qed.

(** ** The last triple that a test selects *)

Lemma pick_last_snoc {A : Type} (p : Triple -> bool) (f : Triple -> A) l t :
  pick_last p f (l ++ [t]) = if p t then Some (f t) else pick_last p f l.
Proof. unfold pick_last. rewrite fold_left_app. reflexivity. Qed.

Lemma pick_last_none {A : Type} (p : Triple -> bool) (f : Triple -> A) l :
  (forall t, In t l -> p t = false) -> pick_last p f l = None.
Proof.
  induction l as [|t l IH] using rev_ind; intro H; [reflexivity|].
  rewrite pick_last_snoc, H by (apply in_or_app; right; left; reflexivity).
  apply IH. intros t' Ht'. apply H. apply in_or_app. left. assumption.
Qed.

Lemma pick_last_found {A : Type} (p : Triple -> bool) (f : Triple -> A)
  pre t post :
  p t = true -> (forall t', In t' post -> p t' = false) ->
  pick_last p f (pre ++ t :: post) = Some (f t).
Proof.
  induction post as [|x post IH] using rev_ind; intros Ht Hpost.
  - rewrite pick_last_snoc, Ht. reflexivity.
  - change (pre ++ t :: post ++ [x]) with (pre ++ (t :: post) ++ [x]).
    rewrite app_assoc, pick_last_snoc,
      Hpost by (apply in_or_app; right; left; reflexivity).
    apply IH; [assumption|].
    intros t' Ht'. apply Hpost. apply in_or_app. left. assumption.
Qed.

Lemma describesb_spec s t : describesb s t = true <-> describes s t.
Proof.
  unfold describesb, describes. rewrite andb_true_iff, !String.eqb_eq. tauto.
Qed.

Lemma names_itemb_spec i t : names_itemb i t = true <-> names_item i t.
Proof.
  unfold names_itemb, names_item. rewrite andb_true_iff, !String.eqb_eq. tauto.
Qed.

Lemma not_true_false b : b <> true -> b = false.
Proof. destruct b; congruence. Qed.

(** ** Tooltips and owners, read off the text *)

Lemma parse_loop_reads triples :
  exists st,
    parse_loop triples parse_init = Ret st
    /\ owners_known st
    /\ (forall s, dict_get s (tooltips st)
                  = pick_last (describesb s) obj_of triples)
    /\ (forall i, dict_get i (item_to_milestone st)
                  = pick_last (names_itemb i) subj_of triples).
Proof.
  unfold parse_loop.
  apply (foldM_prefix_inv process_triple
           (fun pre st =>
              owners_known st
              /\ (forall s, dict_get s (tooltips st)
                            = pick_last (describesb s) obj_of pre)
              /\ (forall i, dict_get i (item_to_milestone st)
                            = pick_last (names_itemb i) subj_of pre))).
  - split; [apply owners_known_init|]. split; reflexivity.
  - intros pre t post st _ (Hown & Htips & Hi2m).
    destruct (process_triple_total st t Hown) as (st' & Hstep & Hown').
    exists st'. split; [assumption|]. split; [assumption|]. split.
    + intro s. rewrite (process_triple_tooltips _ _ _ Hstep), pick_last_snoc.
      unfold describesb.
      destruct (String.eqb (pred_norm_of t) "sourcetext"); simpl; [| apply Htips].
      rewrite dict_get_set. destruct (String.eqb (subj_of t) s); [reflexivity|].
      apply Htips.
    + intro i. rewrite (process_triple_owner _ _ _ Hstep), pick_last_snoc.
      unfold names_itemb.
      destruct (String.eqb (pred_norm_of t) "hassequenceditem"); simpl;
        [| apply Hi2m].
      rewrite dict_get_set. destruct (String.eqb (obj_of t) i); [reflexivity|].
      apply Hi2m.
Qed.

(** X3. [parse_data] returns the tooltips of the text's [SourceText]
    triples, the predicate read without regard to case: a subject that no
    such triple is about has no tooltip, and the tooltip of a subject is
    the object of the last [SourceText] triple about it. *)
Theorem tooltip_is_last_source_text (raw_data : string) :
  exists graph tips,
    parse_data raw_data = Ret (graph, tips)
    /\ (forall s,
          (forall t, In t (findall raw_data) -> ~ describes s t) ->
          dict_get s tips = None)
    /\ (forall pre t post,
          findall raw_data = pre ++ t :: post ->
          pred_norm_of t = "sourcetext" ->
          (forall t', In t' post -> ~ describes (subj_of t) t') ->
          dict_get (subj_of t) tips = Some (obj_of t)).
Proof.
  unfold parse_data.
  destruct (parse_loop_reads (findall raw_data)) as (st & Hrun & _ & Htips & _).
  rewrite Hrun. simpl. do 2 eexists. split; [reflexivity|]. split.
  - intros s Hnone. rewrite Htips. apply pick_last_none.
    intros t Ht. apply not_true_false. rewrite describesb_spec.
    apply Hnone. assumption.
  - intros pre t post Hsplit Hp Hpost. rewrite Htips, Hsplit.
    apply pick_last_found.
    + apply describesb_spec. split; [assumption | reflexivity].
    + intros t' Ht'. apply not_true_false. rewrite describesb_spec.
      apply Hpost. assumption.
Qed.

(* ================================================================== *)
(** * Stakeholder lists without repetition *)

Lemma process_stakeholder_inv st t st' :
  pred_norm_of t = "hasstakeholder" ->
  process_triple st t = Ret st' ->
  st' = st
  \/ exists m c meta,
       dict_get (subj_of t) (item_to_milestone st) = Some m
       /\ dict_get m (data_struct st) = Some c
       /\ dict_get (subj_of t) (items c) = Some meta
       /\ mem (obj_of t) (stakeholders meta) = false
       /\ st' = mkParse
                  (dict_set m
                     (mkContent
                        (dict_set (subj_of t)
                           (mkMeta (stakeholders meta ++ [obj_of t]) (next meta))
                           (items c)))
                     (data_struct st))
                  (item_to_milestone st) (tooltips st).
Proof.
  destruct t as [[subj0 pred] obj0].
  unfold process_triple, pred_norm_of, subj_of, obj_of. simpl fst. simpl snd.
  intros ->. simpl.
  destruct (dict_get (strip subj0) (item_to_milestone st)) as [m|];
    [| intros [= <-]; left; reflexivity].
  destruct (nonempty m); [| intros [= <-]; left; reflexivity].
  intro H. apply bind_ret_inv in H. destruct H as (c & Hc & H).
  apply subscript_ret in Hc.
  destruct (dict_mem (strip subj0) (items c));
    [| injection H as <-; left; reflexivity].
  apply bind_ret_inv in H. destruct H as (c' & Hc' & H).
  apply subscript_ret in Hc'. rewrite Hc in Hc'. injection Hc' as <-.
  apply bind_ret_inv in H. destruct H as (meta & Hmeta & H).
  apply subscript_ret in Hmeta.
  destruct (mem (strip obj0) (stakeholders meta)) eqn:Hmem;
    [injection H as <-; left; reflexivity|].
  rewrite (store_item_ret _ _ _ _ _ Hc) in H. simpl in H. injection H as <-.
  right. exists m, c, meta. auto.
Qed.

Lemma distinct_ensure subj ds :
  stakeholders_distinct ds -> stakeholders_distinct (ensure_procedure subj ds).
Proof.
  intro Hd. unfold ensure_procedure. destruct (dict_mem subj ds); [assumption|].
  intros m c i meta Hm Hi. apply In_dict_set in Hm.
  destruct Hm as [[= -> ->] | Hm]; [destruct Hi | eapply Hd; eassumption].
Qed.

Lemma distinct_set m c i meta ds :
  stakeholders_distinct ds -> dict_get m ds = Some c ->
  NoDup (stakeholders meta) ->
  stakeholders_distinct (dict_set m (mkContent (dict_set i meta (items c))) ds).
Proof.
  intros Hd Hc Hnd m' c' i' meta' Hm Hi. apply In_dict_set in Hm.
  destruct Hm as [[= -> ->] | Hm]; [| eapply Hd; eassumption].
  simpl in Hi. apply In_dict_set in Hi.
  destruct Hi as [[= -> ->] | Hi]; [assumption|].
  eapply Hd; [apply dict_get_In |]; eassumption.
Qed.

Lemma process_triple_distinct st t st' :
  process_triple st t = Ret st' ->
  stakeholders_distinct (data_struct st) ->
  stakeholders_distinct (data_struct st').
Proof.
  intros Hstep Hd.
  destruct (String.eqb (pred_norm_of t) "hasstakeholder") eqn:Hp.
  - apply String.eqb_eq in Hp.
    destruct (process_stakeholder_inv st t st' Hp Hstep)
      as [-> | (m & c & meta & _ & Hc & Hmeta & Hmem & ->)]; [assumption|].
    simpl. apply distinct_set; [assumption | assumption |]. simpl.
    apply NoDup_app.
    + eapply Hd; [apply dict_get_In | apply dict_get_In]; eassumption.
    + repeat constructor. intros [].
    + intros x Hx [<- | []]. apply mem_false_In in Hmem. contradiction.
  - apply String.eqb_neq in Hp.
    apply process_triple_effect in Hstep.
    inversion Hstep; subst; simpl; auto.
    + apply distinct_ensure. assumption.
    + apply distinct_ensure. assumption.
    + apply distinct_set; [apply distinct_ensure; assumption | assumption |].
      constructor.
    + contradiction.
    + apply distinct_set; [assumption | assumption |]. simpl.
      eapply Hd; [apply dict_get_In | apply dict_get_In]; eassumption.
Qed.

(** X4. In the graph that [parse_data] returns no stakeholder list names
    a stakeholder twice, however often the text repeats a
    [hasStakeholder] triple: every item gets one node copy per lane. *)
Theorem stakeholder_lists_distinct (raw_data : string) :
  exists graph tips,
    parse_data raw_data = Ret (graph, tips)
    /\ forall m c i meta,
         In (m, c) graph -> In (i, meta) (items c) ->
         NoDup (stakeholders meta).
Proof.
  unfold parse_data.
  destruct (parse_loop_total (findall raw_data) _ owners_known_init)
    as (st & Hrun & _).
  rewrite Hrun. simpl. do 2 eexists. split; [reflexivity|].
  assert (Hd : stakeholders_distinct (data_struct st)).
  { revert Hrun. unfold parse_loop.
    apply (foldM_inv_ret _ (fun s => stakeholders_distinct (data_struct s))).
    - intros m c i meta [].
    - intros s x s' _ Hs Hstep. eapply process_triple_distinct; eassumption. }
  intros m c i meta Hm Hi.
  apply In_fallback in Hm. destruct Hm as (c0 & -> & Hm).
  apply In_fallback_content in Hi. destruct Hi as (meta0 & -> & Hi).
  unfold fallback_meta. destruct (stakeholders meta0) eqn:E.
  - simpl. repeat constructor. intros [].
  - eapply Hd; eassumption.
Qed.

(* ================================================================== *)
(** * References to an item that has an owner *)

Lemma dict_get_ensure subj ds m (c : Content) :
  dict_get m ds = Some c -> dict_get m (ensure_procedure subj ds) = Some c.
Proof.
  intro H. unfold ensure_procedure.
  destruct (dict_mem subj ds) eqn:E; [assumption|].
  rewrite dict_get_set. destruct (String.eqb subj m) eqn:Es; [| assumption].
  apply String.eqb_eq in Es. subst m.
  apply dict_get_some_mem in H. congruence.
Qed.

Lemma process_item_inv st t st' :
  pred_norm_of t = "hassequenceditem" ->
  process_triple st t = Ret st' ->
  exists c,
    dict_get (subj_of t) (ensure_procedure (subj_of t) (data_struct st)) = Some c
    /\ ((dict_mem (obj_of t) (items c) = true
         /\ st' = mkParse (ensure_procedure (subj_of t) (data_struct st))
                    (dict_set (obj_of t) (subj_of t) (item_to_milestone st))
                    (tooltips st))
        \/ (dict_mem (obj_of t) (items c) = false
            /\ st' = mkParse
                       (dict_set (subj_of t)
                          (mkContent (dict_set (obj_of t) (mkMeta [] []) (items c)))
                          (ensure_procedure (subj_of t) (data_struct st)))
                       (dict_set (obj_of t) (subj_of t) (item_to_milestone st))
                       (tooltips st))).
Proof.
  destruct t as [[subj0 pred] obj0].
  unfold process_triple, pred_norm_of, subj_of, obj_of. simpl fst. simpl snd.
  intros ->. simpl.
  intro H. apply bind_ret_inv in H. destruct H as (c & Hc & H).
  apply subscript_ret in Hc. exists c. split; [assumption|].
  apply bind_ret_inv in H. destruct H as (ds2 & Hds2 & H).
  injection H as <-.
  destruct (dict_mem (strip obj0) (items c)).
  - injection Hds2 as <-. left. auto.
  - rewrite (store_item_ret _ _ _ _ _ Hc) in Hds2. injection Hds2 as <-.
    right. auto.
Qed.

Lemma hold_items_set st m0 c0 i0 meta0 :
  owners_hold_items st ->
  dict_get m0 (data_struct st) = Some c0 ->
  owners_hold_items
    (mkParse (dict_set m0 (mkContent (dict_set i0 meta0 (items c0)))
                       (data_struct st))
             (item_to_milestone st) (tooltips st)).
Proof.
  intros Hh Hc i m Hi. simpl in *. destruct (Hh i m Hi) as (c & Hm & Hmem).
  rewrite dict_get_set. destruct (String.eqb m0 m) eqn:E.
  - apply String.eqb_eq in E. subst m0. rewrite Hc in Hm. injection Hm as ->.
    eexists. split; [reflexivity|]. simpl. rewrite dict_mem_set, Hmem.
    apply orb_true_r.
  - exists c. auto.
Qed.

Lemma process_triple_hold st t st' :
  process_triple st t = Ret st' ->
  owners_hold_items st -> owners_hold_items st'.
Proof.
  intros Hstep Hh.
  destruct (String.eqb (pred_norm_of t) "hassequenceditem") eqn:Hp.
  - apply String.eqb_eq in Hp.
    destruct (process_item_inv st t st' Hp Hstep)
      as (c & Hc & [[Hmem ->] | [Hmem ->]]);
      intros i m; simpl; rewrite dict_get_set;
      destruct (String.eqb (obj_of t) i) eqn:E.
    + apply String.eqb_eq in E. subst i. intros [= <-]. exists c. auto.
    + intro Hi. destruct (Hh i m Hi) as (c1 & Hm & Hmem1).
      exists c1. split; [apply dict_get_ensure |]; assumption.
    + apply String.eqb_eq in E. subst i. intros [= <-].
      rewrite dict_get_set_same. eexists. split; [reflexivity|].
      simpl. rewrite dict_mem_set, String.eqb_refl. reflexivity.
    + intro Hi. destruct (Hh i m Hi) as (c1 & Hm & Hmem1).
      apply (dict_get_ensure (subj_of t)) in Hm.
      rewrite dict_get_set. destruct (String.eqb (subj_of t) m) eqn:Es.
      * apply String.eqb_eq in Es. subst m. rewrite Hc in Hm. injection Hm as ->.
        eexists. split; [reflexivity|]. simpl.
        rewrite dict_mem_set, Hmem1. apply orb_true_r.
      * exists c1. auto.
  - apply String.eqb_neq in Hp.
    apply process_triple_effect in Hstep.
    inversion Hstep; subst; try contradiction; auto.
    + intros i m Hi. simpl in *. destruct (Hh i m Hi) as (c1 & Hm & Hmem1).
      exists c1. split; [apply dict_get_ensure |]; assumption.
    + apply hold_items_set; assumption.
    + apply hold_items_set; assumption.
Qed.

Lemma parse_loop_hold triples st :
  parse_loop triples parse_init = Ret st -> owners_hold_items st.
Proof.
  unfold parse_loop. apply (foldM_inv_ret _ owners_hold_items).
  - intros i m H. discriminate.
  - intros s x s' _ Hs Hstep. eapply process_triple_hold; eassumption.
Qed.

(** The two attaching branches, on an item whose owner and record are
    known. *)
Lemma process_stakeholder_owned st t m c meta :
  pred_norm_of t = "hasstakeholder" ->
  dict_get (subj_of t) (item_to_milestone st) = Some m ->
  nonempty m = true ->
  dict_get m (data_struct st) = Some c ->
  dict_get (subj_of t) (items c) = Some meta ->
  process_triple st t
  = Ret (if mem (obj_of t) (stakeholders meta) then st
         else mkParse
                (dict_set m
                   (mkContent
                      (dict_set (subj_of t)
                         (mkMeta (stakeholders meta ++ [obj_of t]) (next meta))
                         (items c)))
                   (data_struct st))
                (item_to_milestone st) (tooltips st)).
Proof.
  destruct t as [[subj0 pred] obj0].
  unfold process_triple, pred_norm_of, subj_of, obj_of. simpl fst. simpl snd.
  intros -> Hm Hne Hc Hmeta. simpl. rewrite Hm, Hne.
  unfold subscript at 1. rewrite Hc. simpl.
  rewrite (dict_get_some_mem _ _ _ Hmeta).
  unfold subscript at 1. rewrite Hc. simpl.
  unfold subscript at 1. rewrite Hmeta. simpl.
  destruct (mem (strip obj0) (stakeholders meta)); [reflexivity|].
  rewrite (store_item_ret _ _ _ _ _ Hc). reflexivity.
Qed.

Lemma process_next_owned st t m c meta :
  pred_norm_of t = "hasnext" ->
  dict_get (subj_of t) (item_to_milestone st) = Some m ->
  nonempty m = true ->
  dict_get m (data_struct st) = Some c ->
  dict_get (subj_of t) (items c) = Some meta ->
  process_triple st t
  = Ret (mkParse
           (dict_set m
              (mkContent
                 (dict_set (subj_of t)
                    (mkMeta (stakeholders meta) (next meta ++ [obj_of t]))
                    (items c)))
              (data_struct st))
           (item_to_milestone st) (tooltips st)).
Proof.
  destruct t as [[subj0 pred] obj0].
  unfold process_triple, pred_norm_of, subj_of, obj_of. simpl fst. simpl snd.
  intros -> Hm Hne Hc Hmeta. simpl. rewrite Hm, Hne.
  unfold subscript at 1. rewrite Hc. simpl.
  rewrite (dict_get_some_mem _ _ _ Hmeta).
  unfold subscript at 1. rewrite Hc. simpl.
  unfold subscript at 1. rewrite Hmeta. simpl.
  rewrite (store_item_ret _ _ _ _ _ Hc). reflexivity.
Qed.

(** X5. A [hasStakeholder] or [hasNext] triple about an item that an
    earlier [hasSequencedItem] triple has named is recorded, under the
    procedure of the last such triple: the stakeholder is appended to the
    item's list unless it is there already, the successor is appended to
    the [next] list in every case. *)
Theorem owned_reference_recorded (pre mid : list Triple) (n t : Triple) :
  names_item (subj_of t) n ->
  nonempty (subj_of n) = true ->
  (forall t', In t' mid -> ~ names_item (subj_of t) t') ->
  pred_norm_of t = "hasstakeholder" \/ pred_norm_of t = "hasnext" ->
  exists st st' c meta c' meta',
    parse_loop (pre ++ n :: mid) parse_init = Ret st
    /\ parse_loop ((pre ++ n :: mid) ++ [t]) parse_init = Ret st'
    /\ dict_get (subj_of n) (data_struct st) = Some c
    /\ dict_get (subj_of t) (items c) = Some meta
    /\ dict_get (subj_of n) (data_struct st') = Some c'
    /\ dict_get (subj_of t) (items c') = Some meta'
    /\ (pred_norm_of t = "hasstakeholder" ->
        stakeholders meta' = add_key (obj_of t) (stakeholders meta)
        /\ next meta' = next meta)
    /\ (pred_norm_of t = "hasnext" ->
        stakeholders meta' = stakeholders meta
        /\ next meta' = next meta ++ [obj_of t]).
Proof.
  intros Hn Hne Hmid Hpred.
  destruct (parse_loop_reads (pre ++ n :: mid)) as (st & Hrun & _ & _ & Hown).
  assert (Hm : dict_get (subj_of t) (item_to_milestone st) = Some (subj_of n)).
  { rewrite Hown. apply pick_last_found.
    - apply names_itemb_spec. assumption.
    - intros t' Ht'. apply not_true_false. rewrite names_itemb_spec.
      apply Hmid. assumption. }
  destruct (parse_loop_hold _ _ Hrun _ _ Hm) as (c & Hc & Hmem).
  destruct (dict_mem_get _ _ Hmem) as (meta & Hmeta).
  assert (Hstep : forall st', process_triple st t = Ret st' ->
            parse_loop ((pre ++ n :: mid) ++ [t]) parse_init = Ret st').
  { intros st' H. unfold parse_loop in *. rewrite foldM_app, Hrun. simpl.
    rewrite H. reflexivity. }
  destruct Hpred as [Hp | Hp].
  - pose proof (process_stakeholder_owned st t _ c meta Hp Hm Hne Hc Hmeta) as H.
    destruct (mem (obj_of t) (stakeholders meta)) eqn:E.
    + exists st, st, c, meta, c, meta.
      split; [assumption | split; [apply Hstep; assumption|]].
      repeat (split; [assumption|]).
      split; [intros _; unfold add_key; rewrite E; split; reflexivity|].
      intro Hc'. rewrite Hp in Hc'. discriminate.
    + do 4 eexists. exists (mkContent
                 (dict_set (subj_of t)
                    (mkMeta (stakeholders meta ++ [obj_of t]) (next meta))
                    (items c))).
      eexists.
      split; [exact Hrun | split; [apply Hstep; exact H|]].
      split; [exact Hc | split; [exact Hmeta|]].
      split; [simpl; apply dict_get_set_same|].
      split; [simpl; apply dict_get_set_same|]. simpl.
      split; [intros _; unfold add_key; rewrite E; split; reflexivity|].
      intro Hc'. rewrite Hp in Hc'. discriminate.
  - pose proof (process_next_owned st t _ c meta Hp Hm Hne Hc Hmeta) as H.
    do 4 eexists. exists (mkContent
               (dict_set (subj_of t)
                  (mkMeta (stakeholders meta) (next meta ++ [obj_of t]))
                  (items c))).
    eexists.
    split; [exact Hrun | split; [apply Hstep; exact H|]].
    split; [exact Hc | split; [exact Hmeta|]].
    split; [simpl; apply dict_get_set_same|].
    split; [simpl; apply dict_get_set_same|]. simpl.
    split; [| intros _; split; reflexivity].
    intro Hc'. rewrite Hp in Hc'. discriminate.
Qed.

Lemma owned_reference_recorded_witness :
  exists st st' c meta c' meta',
    parse_loop ([("P1", "hasSequencedItem", "S1")]
                ++ ("P2", "hasSequencedItem", "S1")
                   :: [("S1", "hasStakeholder", "ATC")]) parse_init = Ret st
    /\ parse_loop (([("P1", "hasSequencedItem", "S1")]
                    ++ ("P2", "hasSequencedItem", "S1")
                       :: [("S1", "hasStakeholder", "ATC")])
                   ++ [("S1", "hasStakeholder", "Airline")]) parse_init
       = Ret st'
    /\ dict_get (subj_of ("P2", "hasSequencedItem", "S1")) (data_struct st)
       = Some c
    /\ dict_get (subj_of ("S1", "hasStakeholder", "Airline")) (items c)
       = Some meta
    /\ dict_get (subj_of ("P2", "hasSequencedItem", "S1")) (data_struct st')
       = Some c'
    /\ dict_get (subj_of ("S1", "hasStakeholder", "Airline")) (items c')
       = Some meta'
    /\ (pred_norm_of ("S1", "hasStakeholder", "Airline") = "hasstakeholder" ->
        stakeholders meta'
        = add_key (obj_of ("S1", "hasStakeholder", "Airline")) (stakeholders meta)
        /\ next meta' = next meta)
    /\ (pred_norm_of ("S1", "hasStakeholder", "Airline") = "hasnext" ->
        stakeholders meta' = stakeholders meta
        /\ next meta'
           = next meta ++ [obj_of ("S1", "hasStakeholder", "Airline")]).
Proof.
  apply (owned_reference_recorded
           [("P1", "hasSequencedItem", "S1")]
           [("S1", "hasStakeholder", "ATC")]
           ("P2", "hasSequencedItem", "S1")
           ("S1", "hasStakeholder", "Airline")).
  - split; reflexivity.
  - reflexivity.
  - intros t' [<- | []] [H _]. vm_compute in H. discriminate.
  - left. reflexivity.
Defined.

(* ================================================================== *)
(** * Reading back the lines of [extract_triples] *)

Lemma append_assoc (a b c : string) :
  String.append (String.append a b) c = String.append a (String.append b c).
Proof. induction a as [|x a IH]; simpl; [reflexivity|]. rewrite IH. reflexivity. Qed.

Lemma append_empty_r (a : string) : String.append a EmptyString = a.
Proof. induction a as [|x a IH]; simpl; [reflexivity|]. rewrite IH. reflexivity. Qed.

Lemma length_append (a b : string) :
  String.length (String.append a b) = (String.length a + String.length b)%nat.
Proof. induction a as [|x a IH]; simpl; [reflexivity|]. rewrite IH. reflexivity. Qed.

Lemma span_nonspace_app g r :
  no_space g = true -> at_space r ->
  span_nonspace (String.append g r) = (g, r).
Proof.
  intros Hg Hr. induction g as [|a g IH]; simpl.
  - destruct r as [|c r]; [reflexivity|]. simpl in Hr. simpl. rewrite Hr.
    reflexivity.
  - simpl in Hg. apply andb_prop in Hg. destruct Hg as [Ha Hg].
    apply negb_true_iff in Ha. rewrite Ha, (IH Hg). reflexivity.
Qed.

Lemma strip_literal_app p r : strip_literal p (String.append p r) = Some r.
Proof.
  induction p as [|a p IH]; simpl; [destruct r; reflexivity|].
  rewrite Ascii.eqb_refl. exact IH.
Qed.

Lemma span_line_app o r :
  no_line_feed o = true -> at_line_end r ->
  span_line (String.append o r) = o.
Proof.
  intros Ho Hr. induction o as [|a o IH]; simpl.
  - destruct r as [|c r]; [reflexivity|]. simpl in Hr. subst c. reflexivity.
  - simpl in Ho. apply andb_prop in Ho. destruct Ho as [Ha Ho].
    apply negb_true_iff in Ha. rewrite Ha, (IH Ho). reflexivity.
Qed.

Lemma match_here_line t r :
  readable t = true -> at_line_end r ->
  match_here (String.append (triple_line t) r)
  = Some (t, String.length (triple_line t)).
Proof.
  destruct t as [[s p] o]. unfold readable, triple_line.
  rewrite !andb_true_iff. intros ((((Hs1 & Hs2) & Hp1) & Hp2) & Ho) Hr.
  unfold match_here. rewrite !append_assoc.
  rewrite (span_nonspace_app s _ Hs2) by reflexivity. rewrite Hs1.
  rewrite strip_literal_app.
  rewrite (span_nonspace_app p _ Hp2) by reflexivity. rewrite Hp1.
  rewrite strip_literal_app.
  rewrite (span_line_app o r Ho Hr).
  rewrite !length_append. simpl.
  match goal with
  | |- Some (_, ?a) = Some (_, ?b) => replace b with a by lia
  end.
  reflexivity.
Qed.

Lemma findall_from_skip x y :
  findall_from (String.length x) (String.append x y) = findall_from O y.
Proof. induction x as [|c x IH]; simpl; [destruct y; reflexivity | exact IH]. Qed.

Lemma triple_line_cons t :
  readable t = true ->
  exists c l, triple_line t = String c l.
Proof.
  destruct t as [[s p] o]. unfold readable, triple_line.
  rewrite !andb_true_iff. intros ((((Hs1 & _) & _) & _) & _).
  destruct s as [|c s]; [discriminate|]. simpl. eauto.
Qed.

Lemma findall_line t r :
  readable t = true -> at_line_end r ->
  findall_from O (String.append (triple_line t) r) = t :: findall_from O r.
Proof.
  intros Ht Hr. pose proof (match_here_line t r Ht Hr) as Hm.
  destruct (triple_line_cons t Ht) as (c & l & E). rewrite E in *.
  simpl String.append in *. simpl findall_from at 1. rewrite Hm.
  simpl. f_equal. apply findall_from_skip.
Qed.

Lemma findall_line_feed r :
  findall_from O (String "010"%char r) = findall_from O r.
Proof. reflexivity. Qed.

Lemma lines_cons x y l :
  lines (x :: y :: l)
  = String.append x (String "010"%char (lines (y :: l))).
Proof. reflexivity. Qed.

Lemma findall_output ts :
  forallb readable ts = true -> findall (output_str ts) = ts.
Proof.
  unfold findall, output_str.
  induction ts as [|t ts IH]; intro H; [reflexivity|].
  simpl in H. apply andb_prop in H. destruct H as [Ht Hts].
  destruct ts as [|t' ts].
  - simpl map. unfold lines. simpl String.concat.
    rewrite <- (append_empty_r (triple_line t)).
    rewrite findall_line; [reflexivity | assumption | exact I].
  - change (map triple_line (t :: t' :: ts))
      with (triple_line t :: triple_line t' :: map triple_line ts).
    rewrite lines_cons, findall_line; [| assumption | reflexivity].
    rewrite findall_line_feed. f_equal. apply IH. assumption.
Qed.

Lemma no_space_lstrip s : no_space s = true -> lstrip s = s.
Proof.
  destruct s as [|c s]; [reflexivity|]. simpl. intro H.
  apply andb_prop in H. destruct H as [Hc _].
  apply negb_true_iff in Hc. rewrite Hc. reflexivity.
Qed.

Lemma no_space_rstrip s : no_space s = true -> rstrip s = s.
Proof.
  induction s as [|c s IH]; [reflexivity|]. simpl. intro H.
  apply andb_prop in H. destruct H as [Hc Hs].
  apply negb_true_iff in Hc. rewrite (IH Hs), Hc.
  destruct s; reflexivity.
Qed.

Lemma no_space_strip s : no_space s = true -> strip s = s.
Proof.
  intro H. unfold strip. rewrite (no_space_lstrip s H). apply no_space_rstrip.
  assumption.
Qed.

(** X6. The text that [extract_triples] returns is read back by
    [parse_data] triple by triple: when every subject and predicate is a
    non-empty name without whitespace and no value holds a line feed,
    [re.findall] yields the written triples, in order, subject and
    predicate are unchanged by [strip], and [parse_data] returns what its
    loop computes from those triples. *)
Theorem written_triples_read_back (ts : list Triple) :
  forallb readable ts = true ->
  findall (output_str ts) = ts
  /\ (forall t, In t ts ->
        subj_of t = fst (fst t) /\ nonempty (subj_of t) = true
        /\ pred_norm_of t = lower (snd (fst t)))
  /\ parse_data (output_str ts)
     = (st <- parse_loop ts parse_init ;;
        Ret (fallback (data_struct st), tooltips st)).
Proof.
  intro H. pose proof (findall_output ts H) as Hf.
  split; [assumption|]. split.
  - intros [[s p] o] Ht. rewrite forallb_forall in H. specialize (H _ Ht).
    unfold readable in H. rewrite !andb_true_iff in H.
    destruct H as ((((Hs1 & Hs2) & Hp1) & Hp2) & Ho).
    unfold subj_of, pred_norm_of. simpl.
    rewrite (no_space_strip s Hs2), (no_space_strip p Hp2). auto.
  - unfold parse_data. rewrite Hf. reflexivity.
Qed.

Lemma written_triples_read_back_witness :
  findall (output_str [("P1", "type", "Procedure");
                       ("P1", "hasSequencedItem", "S1");
                       ("S1", "SourceText", "the step, as written")])
  = [("P1", "type", "Procedure");
     ("P1", "hasSequencedItem", "S1");
     ("S1", "SourceText", "the step, as written")]
  /\ (forall t,
        In t [("P1", "type", "Procedure");
              ("P1", "hasSequencedItem", "S1");
              ("S1", "SourceText", "the step, as written")] ->
        subj_of t = fst (fst t) /\ nonempty (subj_of t) = true
        /\ pred_norm_of t = lower (snd (fst t)))
  /\ parse_data (output_str [("P1", "type", "Procedure");
                             ("P1", "hasSequencedItem", "S1");
                             ("S1", "SourceText", "the step, as written")])
     = (st <- parse_loop [("P1", "type", "Procedure");
                          ("P1", "hasSequencedItem", "S1");
                          ("S1", "SourceText", "the step, as written")]
                         parse_init ;;
        Ret (fallback (data_struct st), tooltips st)).
Proof.
  apply (written_triples_read_back
           [("P1", "type", "Procedure");
            ("P1", "hasSequencedItem", "S1");
            ("S1", "SourceText", "the step, as written")]).
  reflexivity.
Defined.

(* ================================================================== *)
(** * The size of the document *)

Lemma fold_left_count {S X : Type} (f : S -> X -> S) (m : S -> nat)
  (w : X -> nat) (P : S -> Prop) :
  (forall s x, P s -> P (f s x) /\ m (f s x) = (m s + w x)%nat) ->
  forall l s, P s ->
    P (fold_left f l s)
    /\ m (fold_left f l s) = (m s + list_sum (map w l))%nat.
Proof.
  intros H l. induction l as [|x l IH]; intros s Hs; simpl.
  - split; [assumption | lia].
  - destruct (H s x Hs) as [Hp Hm]. destruct (IH _ Hp) as [Hp' Hm'].
    split; [assumption|]. rewrite Hm', Hm. lia.
Qed.

Lemma nodes_sum_item a it :
  a_nodes (sum_item a it)
  = (a_nodes a + List.length (stakeholders (snd it)))%nat.
Proof.
  destruct it as [item_id meta]. unfold sum_item. simpl.
  destruct (fold_left_count (sum_copy item_id) a_nodes (fun _ => 1%nat)
              (fun _ => True)) with
      (l := stakeholders meta)
      (s := sum_setdefault item_id
              (sum_color item_id (1 <? List.length (stakeholders meta))%nat a))
    as [_ H].
  - intros s x _. split; [exact I|]. simpl. lia.
  - exact I.
  - rewrite H. clear H.
    assert (E : list_sum (map (fun _ : string => 1%nat) (stakeholders meta))
                = List.length (stakeholders meta)).
    { induction (stakeholders meta) as [|x l IH]; simpl; [reflexivity|].
      rewrite IH. reflexivity. }
    rewrite E. f_equal.
    unfold sum_setdefault, sum_color.
    destruct ((1 <? List.length (stakeholders meta))%nat
              && negb (dict_mem item_id (a_colors a)));
      match goal with
      | |- context [if ?b then _ else _] => destruct b
      end; reflexivity.
Qed.

Lemma nodes_sum_layout structured_data :
  a_nodes (sum_layout structured_data) = node_copies structured_data.
Proof.
  unfold sum_layout, node_copies.
  destruct (fold_left_count sum_procedure a_nodes
              (fun proc : string * Content =>
                 list_sum (map (fun it : string * ItemMeta =>
                                  List.length (stakeholders (snd it)))
                               (items (snd proc))))
              (fun _ => True)) with
      (l := structured_data) (s := mkSummary [] [] 0 0 0) as [_ H].
  - intros s proc _. split; [exact I|]. unfold sum_procedure.
    destruct (fold_left_count sum_item a_nodes
                (fun it : string * ItemMeta =>
                   List.length (stakeholders (snd it)))
                (fun _ => True)) with
        (l := items (snd proc)) (s := s) as [_ H]; [| exact I | exact H].
    intros s0 it _. split; [exact I | apply nodes_sum_item].
  - exact I.
  - exact H.
Qed.

Lemma nodes_sum_link_procedure a proc :
  a_nodes (sum_link_procedure a proc) = a_nodes a.
Proof.
  unfold sum_link_procedure.
  apply (fold_left_inv _ (fun a' => a_nodes a' = a_nodes a)); [reflexivity|].
  intros a0 [item_id meta] _ Ha0.
  apply (fold_left_inv _ (fun a' => a_nodes a' = a_nodes a)); [assumption|].
  intros a1 t _ Ha1. unfold sum_link.
  destruct (negb (dict_mem item_id (a_shape a1))
            || negb (dict_mem t (a_shape a1))); assumption.
Qed.

Lemma nodes_sum_run structured_data :
  a_nodes (sum_run structured_data) = node_copies structured_data.
Proof.
  unfold sum_run. rewrite <- nodes_sum_layout.
  apply (fold_left_inv _ (fun a' => a_nodes a'
                                    = a_nodes (sum_layout structured_data)));
    [reflexivity|].
  intros a proc _ Ha. rewrite nodes_sum_link_procedure. assumption.
Qed.

Lemma edges_sum_link shape0 item_id a target_id :
  a_shape a = shape0 ->
  a_shape (sum_link item_id a target_id) = shape0
  /\ a_edges (sum_link item_id a target_id)
     = (a_edges a
        + List.length (lanes_of item_id shape0)
          * List.length (lanes_of target_id shape0))%nat.
Proof.
  intros <-. unfold sum_link, lanes_of, dict_mem.
  destruct (dict_get item_id (a_shape a)) as [lu|];
    destruct (dict_get target_id (a_shape a)) as [lv|]; simpl;
    split; try reflexivity; lia.
Qed.

Lemma edges_sum_run structured_data :
  a_edges (sum_run structured_data) = arrows structured_data.
Proof.
  unfold sum_run, arrows.
  set (shape0 := a_shape (sum_layout structured_data)).
  assert (Hlanes : forall x,
             List.length (lanes_of x shape0) = lane_count structured_data x).
  { intro x. unfold lanes_of, lane_count, shape0.
    rewrite shape_sum_layout. destruct (item_lanes structured_data x); reflexivity. }
  destruct (fold_left_count sum_link_procedure a_edges
              (fun proc : string * Content =>
                 list_sum
                   (map (fun it : string * ItemMeta =>
                           list_sum
                             (map (fun v => lane_count structured_data (fst it)
                                            * lane_count structured_data v)%nat
                                  (next (snd it))))
                        (items (snd proc))))
              (fun a => a_shape a = shape0)) with
      (l := structured_data) (s := sum_layout structured_data) as [_ H].
  - intros s proc Hs. unfold sum_link_procedure.
    apply (fold_left_count
             (fun a '(item_id, item_meta) =>
                fold_left (sum_link item_id) (next item_meta) a)
             a_edges
             (fun it : string * ItemMeta =>
                list_sum
                  (map (fun v => lane_count structured_data (fst it)
                                 * lane_count structured_data v)%nat
                       (next (snd it))))
             (fun a => a_shape a = shape0)); [| assumption].
    intros s0 [item_id meta] Hs0. simpl.
    apply (fold_left_count (sum_link item_id) a_edges
             (fun v => lane_count structured_data item_id
                       * lane_count structured_data v)%nat
             (fun a => a_shape a = shape0)); [| assumption].
    intros s1 v Hs1. rewrite <- !Hlanes. apply edges_sum_link. assumption.
  - reflexivity.
  - rewrite H, sum_layout_no_edges. reflexivity.
Qed.

(** X7. On well-formed data the emitter returns a document with one node
    copy per item and stakeholder of every procedure, and with as many
    arrows as the [next] references ask for: for each reference, the
    number of lanes recorded for its source times the number recorded for
    its target (none when an end is no item). *)
Theorem document_size (uuid4 : nat -> string) (rnd : Q -> Q)
  (structured_data : DataStruct) (tooltips : dict string) :
  well_formed structured_data ->
  exists st,
    emit_run uuid4 rnd structured_data tooltips = Ret st
    /\ create_drawio_xml uuid4 rnd structured_data tooltips
       = Ret (document uuid4 st)
    /\ count_elements is_node (root st) = node_copies structured_data
    /\ count_elements is_edge (root st) = arrows structured_data.
Proof.
  intro Hwf.
  destruct (emit_run_spec uuid4 rnd structured_data tooltips Hwf)
    as (st1 & es & _ & Hrun & Hdoc & _ & _).
  exists (with_elements es st1). split; [assumption | split; [assumption|]].
  pose proof (emit_run_summary _ _ _ _ _ Hrun) as Hsum.
  split.
  - change (a_nodes (summary (with_elements es st1))
            = node_copies structured_data).
    rewrite Hsum. apply nodes_sum_run.
  - change (a_edges (summary (with_elements es st1))
            = arrows structured_data).
    rewrite Hsum. apply edges_sum_run.
Qed.

Lemma document_size_witness :
  exists st,
    emit_run (numbered "n") exact fan_out [] = Ret st
    /\ create_drawio_xml (numbered "n") exact fan_out []
       = Ret (document (numbered "n") st)
    /\ count_elements is_node (root st) = node_copies fan_out
    /\ count_elements is_edge (root st) = arrows fan_out.
Proof.
  apply (document_size (numbered "n") exact fan_out []).
  apply well_formedb_sound. reflexivity.
Defined.

(** The sample with two and three stakeholders: five node copies, six
    arrows. *)
Example fan_out_size : node_copies fan_out = 5%nat /\ arrows fan_out = 6%nat.
Proof. split; reflexivity. Qed.

(* ================================================================== *)
(** * Identifiers of the document *)

Lemma ids_of_vertex tooltip id label style parent x y w h :
  ids_of (vertex_cell tooltip id label style parent (geometry x y w h)) = [id].
Proof. destruct tooltip; reflexivity. Qed.

Lemma ids_of_lane lane_id sh pool_id acc lw pool_height :
  ids_of (lane_cell lane_id sh pool_id acc lw pool_height) = [lane_id].
Proof. reflexivity. Qed.

Lemma ids_of_edge edge_id s t : ids_of (edge_cell edge_id s t) = [edge_id].
Proof. reflexivity. Qed.

Lemma ids_edge_row uuid4 n s tgts :
  flat_map ids_of (edge_row uuid4 n s tgts)
  = map uuid4 (seq n (List.length tgts)).
Proof.
  revert n. induction tgts as [|t tgts IH]; intro n; simpl; [reflexivity|].
  rewrite IH. reflexivity.
Qed.

Lemma ids_edges_between uuid4 n srcs tgts :
  flat_map ids_of (edges_between uuid4 n srcs tgts)
  = map uuid4 (seq n (List.length (edges_between uuid4 n srcs tgts))).
Proof.
  revert n. induction srcs as [|s srcs IH]; intro n; simpl; [reflexivity|].
  rewrite flat_map_app, ids_edge_row, IH, length_app, seq_app, map_app.
  rewrite edge_row_length. reflexivity.
Qed.

Section DrawOrder.

Variable uuid4 : nat -> string.
Variable rnd : Q -> Q.

Local Abbreviation J := (ids_in_draw_order uuid4).

Lemma ids_same st st' :
  root st' = root st -> drawn st' = drawn st -> J st -> J st'.
Proof. unfold ids_in_draw_order. intros -> ->. auto. Qed.

Lemma ids_append st st' es :
  root st' = root st ++ es ->
  drawn st' = (drawn st + List.length es)%nat ->
  flat_map ids_of es = map uuid4 (seq (drawn st) (List.length es)) ->
  J st -> J st'.
Proof.
  unfold ids_in_draw_order. intros -> -> Hes (Hpos & Hlen & Hids).
  split; [lia|]. split; [rewrite length_app; lia|].
  rewrite flat_map_app, Hids, Hes. simpl. do 2 f_equal.
  replace (drawn st + List.length es - 1)%nat
    with ((drawn st - 1) + List.length es)%nat by lia.
  rewrite seq_app, map_app. do 3 f_equal. lia.
Qed.

Lemma ids_snoc st st' e :
  root st' = root st ++ [e] ->
  drawn st' = S (drawn st) ->
  ids_of e = [uuid4 (drawn st)] ->
  J st -> J st'.
Proof.
  intros Hr Hd He. apply (ids_append st st' [e]); [assumption | simpl; lia|].
  simpl. rewrite He. reflexivity.
Qed.

Lemma ids_emit_lane lane_widths pool_id pool_height s sh s' :
  emit_lane uuid4 lane_widths pool_id pool_height s sh = Ret s' ->
  J (fst (fst s)) -> J (fst (fst s')).
Proof.
  destruct s as [[st ids] acc]. intro H. apply emit_lane_ret in H.
  destruct H as (lw & _ & ->). simpl. intro Hj.
  eapply ids_snoc; [| | | exact Hj];
    [reflexivity | reflexivity | apply ids_of_lane].
Qed.

Lemma ids_place_copy L item_id lvl clean_name tooltip is_multi s sh s' :
  place_copy uuid4 rnd L item_id lvl clean_name tooltip is_multi s sh = Ret s' ->
  J (fst s) -> J (fst s').
Proof.
  destruct s as [st cells]. intro H. apply place_copy_ret in H.
  destruct H as (lw & sw & copies & fill & lane & _ & _ & _ & _ & _ & ->).
  simpl. intro Hj.
  eapply ids_snoc; [| | | exact Hj];
    [reflexivity | reflexivity | apply ids_of_vertex].
Qed.

Lemma ids_place_item L s it s' :
  place_item uuid4 rnd L s it = Ret s' -> J (fst s) -> J (fst s').
Proof.
  destruct s as [st cells], it as [item_id meta]. unfold place_item.
  intros H Hj. apply bind_ret_inv in H. destruct H as (lvl & _ & H).
  revert H. apply (foldM_inv_ret _ (fun s => J (fst s))).
  - simpl. revert Hj. apply ids_same.
    + unfold setdefault_id_map, assign_color.
      destruct ((1 <? List.length (stakeholders meta))%nat
                && negb (dict_mem item_id (multi_item_color st)));
        match goal with
        | |- context [if ?b then _ else _] => destruct b
        end; reflexivity.
    + unfold setdefault_id_map, assign_color.
      destruct ((1 <? List.length (stakeholders meta))%nat
                && negb (dict_mem item_id (multi_item_color st)));
        match goal with
        | |- context [if ?b then _ else _] => destruct b
        end; reflexivity.
  - intros s x s0 _ Hs Hstep. eapply ids_place_copy; eassumption.
Qed.

Lemma ids_layout_procedure tooltips st proc st' :
  layout_procedure uuid4 rnd tooltips st proc = Ret st' -> J st -> J st'.
Proof.
  destruct proc as [milestone_id content]. unfold layout_procedure.
  destruct (items content) as [|it its] eqn:Hitems.
  { intros [= <-]. auto. }
  intros H Hj.
  apply bind_ret_inv in H. destruct H as (item_levels & _ & H).
  apply bind_ret_inv in H. destruct H as (max_level & _ & H).
  apply bind_ret_inv in H. destruct H as (cells & _ & H).
  apply bind_ret_inv in H. destruct H as (max_nodes_per_lane & _ & H).
  apply bind_ret_inv in H. destruct H as (lane_widths & _ & H).
  unfold draw in H.
  apply bind_ret_inv in H. destruct H as ([[st3 lane_ids] acc] & Hlanes & H).
  apply bind_ret_inv in H. destruct H as ([st4 cells4] & Hplace & H).
  injection H as <-.
  apply (ids_same st4); [reflexivity | reflexivity|].
  revert Hplace. apply (foldM_inv_ret _ (fun s => J (fst s)));
    [| intros s x s0 _ Hs Hstep; eapply ids_place_item; eassumption].
  simpl.
  revert Hlanes. apply (foldM_inv_ret _ (fun s => J (fst (fst s))));
    [| intros s x s0 _ Hs Hstep; eapply ids_emit_lane; eassumption].
  simpl.
  eapply ids_snoc; [| | | exact Hj];
    [reflexivity | reflexivity | unfold pool_cell; apply ids_of_vertex].
Qed.

Lemma ids_link item_id st target_id st' :
  link uuid4 item_id st target_id = Ret st' -> J st -> J st'.
Proof.
  rewrite link_spec. intros [= <-] Hj.
  destruct (dict_get item_id (id_map st)) as [src|]; [| assumption].
  destruct (dict_get target_id (id_map st)) as [tgt|]; [| assumption].
  eapply ids_append; [| | | exact Hj];
    [reflexivity | reflexivity | apply ids_edges_between].
Qed.

Lemma ids_emit_run structured_data tooltips st :
  emit_run uuid4 rnd structured_data tooltips = Ret st -> J st.
Proof.
  unfold emit_run, layout_pass. intro H.
  apply bind_ret_inv in H. destruct H as (st1 & Hlay & Hlink).
  revert Hlink. apply (foldM_inv_ret _ J).
  - revert Hlay. apply (foldM_inv_ret _ J).
    + split; [simpl; lia | split; reflexivity].
    + intros s x s' _ Hs Hstep. eapply ids_layout_procedure; eassumption.
  - intros s proc s' _ Hs. unfold link_procedure.
    apply (foldM_inv_ret _ J); [assumption|].
    intros s0 [item_id meta] s1 _ Hs0. unfold link_item.
    apply (foldM_inv_ret _ J); [assumption|].
    intros s2 t s3 _ Hs2 Hstep. eapply ids_link; eassumption.
Qed.

End DrawOrder.

Lemma NoDup_map_injective {A B : Type} (f : A -> B) (l : list A) :
  (forall x y, f x = f y -> x = y) -> NoDup l -> NoDup (map f l).
Proof.
  intros Hinj. induction 1 as [|x l Hx Hnd IH]; simpl; constructor;
    [| assumption].
  intro H. apply in_map_iff in H. destruct H as (y & Hy & Hin).
  apply Hinj in Hy. subst y. contradiction.
Qed.

Lemma NoDup_draws (uuid4 : nat -> string) (n : nat) :
  (forall j k, uuid4 j = uuid4 k -> j = k) ->
  (forall k, uuid4 k <> "0" /\ uuid4 k <> "1") ->
  NoDup (uuid4 O :: "0" :: "1" :: map uuid4 (seq 1 n)).
Proof.
  intros Hinj Hfix.
  assert (Hrest : NoDup (map uuid4 (seq 1 n))).
  { apply NoDup_map_injective; [exact Hinj | apply seq_NoDup]. }
  assert (Hnot : forall x, (forall k, uuid4 k <> x) ->
                           ~ In x (map uuid4 (seq 1 n))).
  { intros x Hx Hin. apply in_map_iff in Hin. destruct Hin as (k & Hk & _).
    exact (Hx k Hk). }
  constructor; [| constructor; [| constructor; [| assumption]]].
  - intros [H | [H | H]].
    + symmetry in H. apply (proj1 (Hfix O)). assumption.
    + symmetry in H. apply (proj2 (Hfix O)). assumption.
    + apply in_map_iff in H. destruct H as (k & Hk & Hin).
      apply Hinj in Hk. subst k. apply in_seq in Hin. lia.
  - intros [H | H]; [discriminate|].
    revert H. apply Hnot. intro k. apply (proj1 (Hfix k)).
  - apply Hnot. intro k. apply (proj2 (Hfix k)).
Qed.

(** X8. On well-formed data the identifiers of the returned document are,
    in document order: the first identifier drawn from [uuid.uuid4()] for
    the diagram, the two fixed ones of the root cells, and then every
    later draw exactly once, in the order of the draws, one per pool, lane,
    node copy and arrow. The identifiers are pairwise different as soon as
    the draws are, and differ from the two fixed ones. *)
Theorem identifiers_in_draw_order (uuid4 : nat -> string) (rnd : Q -> Q)
  (structured_data : DataStruct) (tooltips : dict string) :
  well_formed structured_data ->
  exists st,
    emit_run uuid4 rnd structured_data tooltips = Ret st
    /\ create_drawio_xml uuid4 rnd structured_data tooltips
       = Ret (document uuid4 st)
    /\ drawn st = (List.length (root st) - 1)%nat
    /\ ids_of (document uuid4 st)
       = uuid4 O :: "0" :: "1" :: map uuid4 (seq 1 (drawn st - 1))
    /\ ((forall j k, uuid4 j = uuid4 k -> j = k) ->
        (forall k, uuid4 k <> "0" /\ uuid4 k <> "1") ->
        NoDup (ids_of (document uuid4 st))).
Proof.
  intro Hwf.
  destruct (emit_run_spec uuid4 rnd structured_data tooltips Hwf)
    as (st1 & es & _ & Hrun & Hdoc & _ & _).
  pose proof (ids_emit_run uuid4 rnd _ _ _ Hrun) as Hj.
  revert Hrun Hdoc Hj. generalize (with_elements es st1).
  intros st Hrun Hdoc (Hpos & Hlen & Hids).
  exists st. split; [assumption | split; [assumption|]].
  assert (Hdocids : ids_of (document uuid4 st)
                    = uuid4 O :: "0" :: "1" :: map uuid4 (seq 1 (drawn st - 1))).
  { unfold document. simpl. rewrite !app_nil_r, Hids. reflexivity. }
  split; [lia | split; [assumption|]].
  intros Hinj Hfix. rewrite Hdocids. apply NoDup_draws; assumption.
Qed.

Lemma identifiers_in_draw_order_witness :
  exists st,
    emit_run (numbered "n") exact fan_out [] = Ret st
    /\ create_drawio_xml (numbered "n") exact fan_out []
       = Ret (document (numbered "n") st)
    /\ drawn st = (List.length (root st) - 1)%nat
    /\ ids_of (document (numbered "n") st)
       = numbered "n" O :: "0" :: "1"
         :: map (numbered "n") (seq 1 (drawn st - 1))
    /\ ((forall j k, numbered "n" j = numbered "n" k -> j = k) ->
        (forall k, numbered "n" k <> "0" /\ numbered "n" k <> "1") ->
        NoDup (ids_of (document (numbered "n") st))).
Proof.
  apply (identifiers_in_draw_order (numbered "n") exact fan_out []).
  apply well_formedb_sound. reflexivity.
Defined.

(* ================================================================== *)
(** * Colours of the shared items *)

Lemma dict_set_absent {V : Type} k (v : V) d :
  dict_mem k d = false -> dict_set k v d = d ++ [(k, v)].
Proof.
  unfold dict_mem. induction d as [|[k' v'] d IH]; simpl; [reflexivity|].
  destruct (String.eqb k' k); [discriminate|]. intro H. rewrite (IH H).
  reflexivity.
Qed.

Lemma palette_of_counter (n : nat) :
  nth (Z.to_nat (Z.of_nat n mod Z.of_nat (List.length MULTI_COLORS)))
      MULTI_COLORS EmptyString
  = palette n.
Proof.
  unfold palette. rewrite <- Nat2Z.inj_mod, Nat2Z.id. reflexivity.
Qed.

Lemma palette_sum_color item_id is_multi a :
  follows_palette (a_colors a) (a_counter a) ->
  follows_palette (a_colors (sum_color item_id is_multi a))
                  (a_counter (sum_color item_id is_multi a))
  /\ keys (a_colors (sum_color item_id is_multi a))
     = if is_multi then add_key item_id (keys (a_colors a))
       else keys (a_colors a).
Proof.
  intros [Hc Hk]. unfold sum_color.
  destruct is_multi; cbn [andb];
    [| split; [split; assumption | reflexivity]].
  unfold add_key. rewrite <- dict_mem_mem_keys.
  destruct (dict_mem item_id (a_colors a)) eqn:E;
    cbn [negb a_colors a_counter];
    [split; [split; assumption | reflexivity]|].
  rewrite (dict_set_absent _ _ _ E), Hc, palette_of_counter.
  split; [split|].
  - rewrite length_app. simpl. lia.
  - intros k i c Hn.
    destruct (Nat.lt_ge_cases k (List.length (a_colors a))) as [Hlt | Hge].
    + rewrite nth_error_app1 in Hn by assumption. eapply Hk. eassumption.
    + rewrite nth_error_app2 in Hn by assumption.
      destruct (k - List.length (a_colors a))%nat as [|j] eqn:Ej.
      * simpl in Hn. injection Hn as _ <-. f_equal. lia.
      * destruct j; discriminate.
  - unfold keys. rewrite map_app. reflexivity.
Qed.

Lemma colors_sum_item a it :
  a_colors (sum_item a it)
  = a_colors (sum_color (fst it) (1 <? List.length (stakeholders (snd it)))%nat a)
  /\ a_counter (sum_item a it)
     = a_counter (sum_color (fst it)
                            (1 <? List.length (stakeholders (snd it)))%nat a).
Proof.
  destruct it as [item_id meta]. unfold sum_item. simpl.
  set (a1 := sum_color item_id (1 <? List.length (stakeholders meta))%nat a).
  apply (fold_left_inv (sum_copy item_id)
           (fun a' => a_colors a' = a_colors a1 /\ a_counter a' = a_counter a1)).
  - unfold sum_setdefault. destruct (dict_mem item_id (a_shape a1)); auto.
  - intros s x _ Hs. exact Hs.
Qed.

Lemma colors_sum_link_procedure a proc :
  a_colors (sum_link_procedure a proc) = a_colors a
  /\ a_counter (sum_link_procedure a proc) = a_counter a.
Proof.
  unfold sum_link_procedure.
  apply (fold_left_inv _ (fun a' => a_colors a' = a_colors a
                                    /\ a_counter a' = a_counter a));
    [auto|].
  intros a0 [item_id meta] _ Ha0.
  apply (fold_left_inv _ (fun a' => a_colors a' = a_colors a
                                    /\ a_counter a' = a_counter a));
    [assumption|].
  intros a1 t _ Ha1. unfold sum_link.
  destruct (negb (dict_mem item_id (a_shape a1))
            || negb (dict_mem t (a_shape a1))); assumption.
Qed.

Lemma palette_fold_items its a :
  follows_palette (a_colors a) (a_counter a) ->
  follows_palette (a_colors (fold_left sum_item its a))
                  (a_counter (fold_left sum_item its a))
  /\ keys (a_colors (fold_left sum_item its a))
     = fold_left
         (fun acc (it : string * ItemMeta) =>
            if (1 <? List.length (stakeholders (snd it)))%nat
            then add_key (fst it) acc else acc)
         its (keys (a_colors a)).
Proof.
  revert a. induction its as [|it its IH]; intros a Ha; simpl; [auto|].
  destruct (colors_sum_item a it) as [Hc Hn].
  destruct (palette_sum_color (fst it)
              (1 <? List.length (stakeholders (snd it)))%nat a Ha)
    as [Hf Hk].
  rewrite <- Hc, <- Hn in Hf. rewrite <- Hc in Hk.
  destruct (IH _ Hf) as [Hf' Hk']. split; [assumption|].
  rewrite Hk', Hk. reflexivity.
Qed.

Lemma palette_fold_procedures structured_data a :
  follows_palette (a_colors a) (a_counter a) ->
  follows_palette (a_colors (fold_left sum_procedure structured_data a))
                  (a_counter (fold_left sum_procedure structured_data a))
  /\ keys (a_colors (fold_left sum_procedure structured_data a))
     = fold_left
         (fun acc (proc : string * Content) =>
            fold_left
              (fun acc (it : string * ItemMeta) =>
                 if (1 <? List.length (stakeholders (snd it)))%nat
                 then add_key (fst it) acc else acc)
              (items (snd proc)) acc)
         structured_data (keys (a_colors a)).
Proof.
  revert a. induction structured_data as [|proc sd IH]; intros a Ha; simpl;
    [auto|].
  destruct (palette_fold_items (items (snd proc)) a Ha) as [Hf Hk].
  destruct (IH _ Hf) as [Hf' Hk']. split; [assumption|].
  unfold sum_procedure at 2. rewrite Hk', Hk. reflexivity.
Qed.

Lemma palette_sum_run structured_data :
  follows_palette (a_colors (sum_run structured_data))
                  (a_counter (sum_run structured_data))
  /\ keys (a_colors (sum_run structured_data)) = multi_items structured_data.
Proof.
  assert (Hsame : a_colors (sum_run structured_data)
                  = a_colors (sum_layout structured_data)
                  /\ a_counter (sum_run structured_data)
                     = a_counter (sum_layout structured_data)).
  { unfold sum_run.
    apply (fold_left_inv sum_link_procedure
             (fun a' => a_colors a' = a_colors (sum_layout structured_data)
                        /\ a_counter a'
                           = a_counter (sum_layout structured_data)));
      [auto|].
    intros a proc _ [Hc Hn].
    destruct (colors_sum_link_procedure a proc) as [Hc' Hn'].
    split; congruence. }
  destruct Hsame as [-> ->]. unfold sum_layout, multi_items.
  apply (palette_fold_procedures structured_data (mkSummary [] [] 0 0 0)).
  split; [reflexivity|]. intros k i c H. destruct k; discriminate.
Qed.

Lemma multi_items_nodup structured_data : NoDup (multi_items structured_data).
Proof.
  unfold multi_items.
  apply (fold_left_inv _ (@NoDup string)); [constructor|].
  intros acc proc _ Hacc.
  apply (fold_left_inv _ (@NoDup string)); [assumption|].
  intros acc' it _ Hacc'.
  destruct (1 <? List.length (stakeholders (snd it)))%nat; [| assumption].
  apply NoDup_add_key. assumption.
Qed.

Lemma palette_period k : palette (k + 10) = palette k.
Proof.
  unfold palette. change (List.length MULTI_COLORS) with 10%nat.
  replace (k + 10)%nat with (k + 1 * 10)%nat by lia.
  rewrite Nat.Div0.mod_add. reflexivity.
Qed.

(** X9. On well-formed data the colour bindings of the shared items are
    made in the order in which the first pass meets the items with more
    than one stakeholder, one binding per item identifier: the item met
    [k]-th is bound to [MULTI_COLORS[k % 10]], the counter ends as the
    number of such items, and from the eleventh item on the colours
    repeat. *)
Theorem colors_follow_palette (uuid4 : nat -> string) (rnd : Q -> Q)
  (structured_data : DataStruct) (tooltips : dict string) :
  well_formed structured_data ->
  exists st,
    emit_run uuid4 rnd structured_data tooltips = Ret st
    /\ keys (multi_item_color st) = multi_items structured_data
    /\ color_counter st = Z.of_nat (List.length (multi_items structured_data))
    /\ (forall k item_id,
          nth_error (multi_items structured_data) k = Some item_id ->
          dict_get item_id (multi_item_color st) = Some (palette k))
    /\ (forall k, palette (k + 10) = palette k).
Proof.
  intro Hwf.
  destruct (emit_run_spec uuid4 rnd structured_data tooltips Hwf)
    as (st1 & es & _ & Hrun & _ & _ & _).
  exists (with_elements es st1). split; [assumption|].
  pose proof (emit_run_summary _ _ _ _ _ Hrun) as Hsum.
  destruct (palette_sum_run structured_data) as [[Hn Hpal] Hkeys].
  rewrite <- Hsum in Hn, Hpal, Hkeys. simpl in Hn, Hpal, Hkeys.
  split; [assumption|]. split.
  { simpl. rewrite Hn, <- Hkeys. unfold keys. rewrite length_map. reflexivity. }
  split; [| apply palette_period].
  intros k item_id Hk. simpl. rewrite <- Hkeys in Hk.
  unfold keys in Hk. rewrite nth_error_map in Hk.
  destruct (nth_error (multi_item_color st1) k) as [[i c]|] eqn:E;
    [| discriminate].
  simpl in Hk. injection Hk as ->.
  rewrite (Hpal k item_id c E) in E.
  apply In_dict_get.
  - rewrite Hkeys. apply multi_items_nodup.
  - eapply nth_error_In. eassumption.
Qed.

Lemma colors_follow_palette_witness :
  exists st,
    emit_run (numbered "n") exact twelve_shared [] = Ret st
    /\ keys (multi_item_color st) = multi_items twelve_shared
    /\ color_counter st = Z.of_nat (List.length (multi_items twelve_shared))
    /\ (forall k item_id,
          nth_error (multi_items twelve_shared) k = Some item_id ->
          dict_get item_id (multi_item_color st) = Some (palette k))
    /\ (forall k, palette (k + 10) = palette k).
Proof.
  apply (colors_follow_palette (numbered "n") exact twelve_shared []).
  apply well_formedb_sound. reflexivity.
Defined.

(** With twelve shared items the eleventh and the twelfth take the
    colours of the first and the second. *)
Example twelve_shared_colors :
  multi_items twelve_shared
  = ["S0"; "S1"; "S2"; "S3"; "S4"; "S5"; "S6"; "S7"; "S8"; "S9"; "S10"; "S11"]
  /\ palette 10 = "#fff2cc" /\ palette 0 = "#fff2cc"
  /\ palette 11 = "#d5e8d4" /\ palette 1 = "#d5e8d4".
Proof. repeat split; reflexivity. Qed.

(* ================================================================== *)
(** * A node copy inside its lane *)

Section Inside.
Local Open Scope Q_scope.
Variable u : Q.
Variable rnd : Q -> Q.
Hypothesis Hu0 : 0 <= u.
Hypothesis Hu1 : u <= 1 # 1000.
Hypothesis Hrnd : rounds_within u rnd.

(** The centring term, within [2 * u * s] of [(s - item_width) / 2]. *)
Lemma centre_tight s sw :
  180 <= s ->
  u * s <= 1 # 2 ->
  s - u * s <= sw <= s + u * s ->
  let e := u * s in
  let c := rnd (rnd (sw - inject_Z item_width) / inject_Z 2) in
  (s - 160) * (1 # 2) - 2 * e <= c <= (s - 160) * (1 # 2) + 2 * e.
Proof.
  intros Hs Hhalf Hsw e c. unfold c. clear c.
  change (inject_Z item_width) with 160. change (inject_Z 2) with 2.
  assert (Hs0 : 0 <= s) by lra.
  assert (He0 : 0 <= e) by (apply Qmult_le_0_compat; assumption).
  fold e in Hsw, Hhalf.
  assert (Hd0 : 0 <= sw - 160) by lra.
  destruct (rnd_bounds u rnd Hrnd _ Hd0) as [Hd1 Hd2].
  assert (Hud : u * (sw - 160) <= e).
  { apply (scale_le (sw - 160) s u); [assumption | lra]. }
  assert (Hud0 : 0 <= u * (sw - 160)) by (apply Qmult_le_0_compat; assumption).
  set (rd := rnd (sw - 160)) in *.
  assert (Eh : rd / 2 == rd * (1 # 2)) by (field).
  assert (Hh0 : 0 <= rd / 2) by (rewrite Eh; lra).
  destruct (rnd_bounds u rnd Hrnd _ Hh0) as [Hc1 Hc2].
  assert (Huh : u * (rd / 2) <= e).
  { apply (scale_le (rd / 2) s u); [assumption|]. rewrite Eh. lra. }
  assert (Huh0 : 0 <= u * (rd / 2)) by (apply Qmult_le_0_compat; assumption).
  rewrite Eh in Hc1 at 1. rewrite Eh in Hc2 at 2.
  split; lra.
Qed.

(** A node copy of a cell with [n] occupants, in a lane of width
    [L >= 180 n + 20], lies inside the lane. *)
Lemma x_inside (L n i : Z) :
  (1 <= n)%Z -> (180 * n + 20 <= L)%Z -> (0 <= i)%Z -> (i < n)%Z ->
  u * inject_Z L <= 1 # 2 ->
  (0 <= Qtrunc (x_pos rnd (rnd (inject_Z L / inject_Z n)) i)
   /\ Qtrunc (x_pos rnd (rnd (inject_Z L / inject_Z n)) i) + item_width <= L)%Z.
Proof.
  intros Hn HL Hi Hin HE.
  set (T := inject_Z L) in *. set (N := inject_Z n).
  set (s := T / N).
  assert (HN : 1 <= N).
  { unfold N. change 1 with (inject_Z 1). rewrite <- Zle_Qle. assumption. }
  assert (HLN : 180 * N + 20 <= T).
  { unfold N, T. change 180 with (inject_Z 180). change 20 with (inject_Z 20).
    rewrite <- inject_Z_mult, <- inject_Z_plus, <- Zle_Qle. assumption. }
  assert (HsN : s * N == T) by (unfold s; field; lra).
  assert (Hs180 : 180 <= s) by (unfold s; apply Qle_shift_div_l; lra).
  assert (HsT : s <= T).
  { unfold s. apply Qle_shift_div_r; [lra|].
    assert (T * 1 <= T * N) by (apply scale_le; lra). lra. }
  assert (Hs0 : 0 <= s) by lra.
  assert (HI : 0 <= inject_Z i).
  { change 0 with (inject_Z 0). rewrite <- Zle_Qle. assumption. }
  assert (HIN : inject_Z i + 1 <= N).
  { unfold N. change 1 with (inject_Z 1).
    rewrite <- inject_Z_plus, <- Zle_Qle. lia. }
  destruct (rnd_bounds u rnd Hrnd s Hs0) as [Hsw1 Hsw2].
  set (sw := rnd s) in *.
  assert (Hti : s * inject_Z i + s <= T).
  { rewrite <- HsN.
    assert (s * (inject_Z i + 1) <= s * N) by (apply scale_le; lra).
    assert (E : s * (inject_Z i + 1) == s * inject_Z i + s) by ring.
    lra. }
  assert (Hti0 : 0 <= s * inject_Z i) by (apply Qmult_le_0_compat; lra).
  assert (Hwi : u * (s * inject_Z i) <= u * T) by (apply scale_le; lra).
  assert (Hwi0 : 0 <= u * (s * inject_Z i)) by (apply Qmult_le_0_compat; lra).
  assert (He : u * s <= u * T) by (apply scale_le; assumption).
  assert (He0 : 0 <= u * s) by (apply Qmult_le_0_compat; assumption).
  destruct (product_near u rnd Hu0 Hu1 Hrnd s (inject_Z i) sw Hs0 HI
              (conj Hsw1 Hsw2)) as [[Hai1 Hai2] Hai0].
  assert (Hhalf : u * s <= 1 # 2) by lra.
  destruct (centre_tight s sw Hs180 Hhalf (conj Hsw1 Hsw2)) as [Hc1 Hc2].
  unfold x_pos.
  set (ai := rnd (sw * rnd (inject_Z i))) in *.
  set (c := rnd (rnd (sw - inject_Z item_width) / inject_Z 2)) in *.
  assert (Ha0 : 0 <= ai + c) by lra.
  assert (HaT : ai + c <= T) by lra.
  destruct (rnd_near u rnd Hu0 Hrnd (ai + c) T Ha0 HaT) as [Hx1 Hx2].
  set (x := rnd (ai + c)) in *.
  assert (Hx0 : 0 <= x) by lra.
  rewrite (Qtrunc_floor x Hx0).
  pose proof (Qfloor_le x) as Hfl. pose proof (Qlt_floor x) as Hfu.
  split.
  - assert (H : inject_Z 0 < inject_Z (Qfloor x + 1)).
    { change (inject_Z 0) with 0. lra. }
    rewrite <- Zlt_Qlt in H. lia.
  - assert (H : inject_Z (Qfloor x + item_width) <= inject_Z L).
    { rewrite inject_Z_plus. change (inject_Z item_width) with 160.
      fold T. lra. }
    rewrite <- Zle_Qle in H. exact H.
Qed.

End Inside.

(* ================================================================== *)
(** * The placements of one procedure, entry by entry *)

Lemma zseq_In z from len :
  In z (zseq from len) -> from <= z < from + Z.of_nat len.
Proof.
  revert from. induction len as [|len IH]; intro from; simpl; [tauto|].
  intros [<- | H]; [lia|]. apply IH in H. lia.
Qed.

Lemma occs_of_In_level items item_levels i sh lvl :
  In (i, sh, lvl) (occs_of items item_levels) ->
  lvl = level_at item_levels i /\ In i (keys items).
Proof.
  unfold occs_of. rewrite in_flat_map. intros ([i' meta] & Hin & Hmap).
  apply in_map_iff in Hmap. destruct Hmap as (sh' & [= <- <- <-] & Hsh).
  split; [reflexivity|]. apply (in_map fst) in Hin. exact Hin.
Qed.

Lemma levels_in_range items item_levels :
  NoDup (keys items) ->
  calculate_vertical_order items = Ret item_levels ->
  forall i, In i (keys items) ->
    0 <= level_at item_levels i < Z.of_nat (List.length items).
Proof.
  intros Hnd Hcalc i Hi.
  destruct (level_run_spec items Hnd)
    as (adj & st0 & st & done & _ & _ & Hcalc' & _ & _ & Hinv & _).
  rewrite Hcalc' in Hcalc. injection Hcalc as <-.
  apply (rank_bounds items done st i Hnd Hinv Hi).
Qed.

Section LogEntries.

Variable uuid4 : nat -> string.
Variable rnd : Q -> Q.

(** What the placement loop of one procedure logs about each node copy:
    its item and rank, its cell with the slot index below the cell's
    total, a lane wide enough for the total, and the coordinates computed
    from them. *)
Lemma layout_log tooltips st milestone_id content :
  NoDup (keys (items content)) ->
  exists st' item_levels log,
    layout_procedure uuid4 rnd tooltips st (milestone_id, content) = Ret st'
    /\ placed st' = placed st ++ log
    /\ (items content <> [] ->
        calculate_vertical_order (items content) = Ret item_levels)
    /\ forall p, In p log ->
         In (p_item p) (keys (items content))
         /\ p_pool p = milestone_id
         /\ p_level p = level_at item_levels (p_item p)
         /\ p_y p = y_pos (p_level p)
         /\ 1 <= p_total p
         /\ 0 <= p_slot p < p_total p
         /\ 180 * p_total p + 20 <= p_lane_width p
         /\ p_x p
            = Qtrunc (x_pos rnd
                        (rnd (inject_Z (p_lane_width p)
                              / inject_Z (p_total p))%Q)
                        (p_slot p)).
Proof.
  intro Hnd.
  destruct (items content) as [|it0 its0] eqn:Hitems.
  { exists st, [], []. split.
    - unfold layout_procedure. rewrite Hitems. reflexivity.
    - split; [symmetry; apply app_nil_r|].
      split; [intro H; contradiction H; reflexivity | intros p []]. }
  assert (Hne : items content <> []) by (rewrite Hitems; discriminate).
  rewrite <- Hitems in *. clear Hitems it0 its0.
  destruct (layout_procedure_unfold uuid4 rnd tooltips st milestone_id content
              Hnd Hne)
    as (item_levels & lane_widths & cells & lane_ids & st3 & st4 & cells4
        & Hcalc & _ & Hcells & Hwidths & Hpl3 & Hplace & Hrun).
  set (L := mkLanes milestone_id tooltips item_levels lane_widths cells lane_ids)
    in *.
  set (os := occs_of (items content) item_levels) in *.
  destruct (log_place_items uuid4 rnd L (placed st) (items content)
              (st3, []) (st4, cells4) Hplace) as [_ Hlog].
  { split; [intros sh lvl; reflexivity|]. simpl. rewrite app_nil_r. exact Hpl3. }
  simpl in Hlog. fold os in Hlog.
  eexists. exists item_levels, (expected_log rnd L [] os).
  split; [exact Hrun|]. split; [exact Hlog|]. split; [intros _; exact Hcalc|].
  intros p Hp.
  set (sh := p_lane p). set (lvl := p_level p).
  set (cell := filter (placed_in sh lvl) (expected_log rnd L [] os)).
  assert (Hpc : In p cell).
  { apply filter_In. split; [assumption|]. unfold placed_in, sh, lvl.
    rewrite String.eqb_refl, Z.eqb_refl. reflexivity. }
  destruct (expected_log_entry rnd L sh lvl os p [] Hpc)
    as (Hpool & Htot & Hlw & Hx & Hy & i & Hi & Hitem).
  destruct (occs_of_In_level _ _ _ _ _ Hi) as [Hlvl Hkey].
  destruct (occs_of_In _ _ _ _ _ Hi) as (meta & Hmeta & Hsh).
  assert (Hlen : List.length cell = List.length (filter (in_cell sh lvl) os)).
  { apply expected_log_cell_length. }
  assert (Hn : p_total p = Z.of_nat (List.length cell)).
  { rewrite Htot, Hlen. simpl. rewrite Hcells. reflexivity. }
  assert (Hpos : 1 <= p_total p).
  { rewrite Hn. destruct cell; [destruct Hpc | simpl; lia]. }
  assert (Hslot : 0 <= p_slot p < p_total p).
  { assert (Hs : In (p_slot p) (map p_slot cell)) by (apply in_map; assumption).
    unfold cell in Hs at 1. rewrite expected_log_cell, <- Hlen in Hs.
    apply zseq_In in Hs. unfold cell_count in Hs. simpl in Hs. lia. }
  rewrite Hitem. split; [assumption|]. split; [assumption|].
  split; [fold lvl; rewrite Hlvl; reflexivity|].
  split; [assumption|]. split; [assumption|]. split; [assumption|].
  split.
  - destruct (Hwidths i meta sh Hmeta Hsh) as (m & Hm & Hle).
    specialize (Hle lvl).
    change (read_cell sh lvl cells) with (read_cell sh lvl (l_counts L)) in Hle.
    rewrite <- Htot in Hle. specialize (Hle Hpos).
    rewrite Hlw. unfold width_at. change (l_widths L) with lane_widths.
    rewrite Hm. unfold node_slot_width, item_width, h_padding. lia.
  - rewrite Hx, Hlw, Htot. reflexivity.
Qed.

End LogEntries.

(** X10. In the drawing of a procedure without cycles every successor is
    placed below its predecessors: a node copy sits at height
    [40 + 100 * rank], so for each [next] reference between two items of
    the procedure every copy of the target starts at least 100 below every
    copy of the source, 40 below its lower edge. *)
Theorem successors_drawn_below (uuid4 : nat -> string) (rnd : Q -> Q)
  (tooltips : dict string) (st : Emit) (milestone_id : string)
  (content : Content) :
  NoDup (keys (items content)) ->
  acyclic (items content) ->
  exists st' log,
    layout_procedure uuid4 rnd tooltips st (milestone_id, content) = Ret st'
    /\ placed st' = placed st ++ log
    /\ (forall p, In p log ->
          0 <= p_level p
          /\ p_y p = lane_header_height + 10 + p_level p * vertical_spacing)
    /\ forall p q,
         In p log -> In q log ->
         edge (items content) (p_item p) (p_item q) ->
         p_level p < p_level q
         /\ p_y p + item_height + 40 <= p_y q.
Proof.
  intros Hnd Hac.
  destruct (layout_log uuid4 rnd tooltips st milestone_id content Hnd)
    as (st' & item_levels & log & Hrun & Hlog & Hcalc & Hentries).
  exists st', log. split; [assumption | split; [assumption|]].
  destruct log as [|p0 log0] eqn:Elog.
  { split; [intros p [] | intros p q []]. }
  rewrite <- Elog in *.
  assert (Hne : items content <> []).
  { intro E. destruct (Hentries p0) as (Hk & _).
    - rewrite Elog. left. reflexivity.
    - rewrite E in Hk. destruct Hk. }
  specialize (Hcalc Hne).
  destruct (level_run_free (items content) Hnd)
    as (bst & done & _ & Hcalc' & Hinv & Hfree).
  rewrite Hcalc' in Hcalc. injection Hcalc as <-.
  pose proof (acyclic_all_dequeued (items content) done bst Hac Hinv Hfree)
    as Hall.
  split.
  - intros p Hp.
    destruct (Hentries p Hp) as (Hk & _ & Hl & Hy & _).
    split; [| rewrite Hy; reflexivity].
    rewrite Hl. destruct (inv_just _ _ _ Hinv _ Hk) as [H _]. exact H.
  - intros p q Hp Hq He.
    destruct (Hentries p Hp) as (Hkp & _ & Hlp & Hyp & _).
    destruct (Hentries q Hq) as (Hkq & _ & Hlq & Hyq & _).
    pose proof (edge_levels (items content) done bst Hinv _ _ He
                  (Hall _ Hkp)) as Hlt.
    change (lev bst (p_item p)) with (level_at (levels bst) (p_item p)) in Hlt.
    change (lev bst (p_item q)) with (level_at (levels bst) (p_item q)) in Hlt.
    rewrite <- Hlp, <- Hlq in Hlt. split; [assumption|].
    rewrite Hyp, Hyq. unfold y_pos, lane_header_height, vertical_spacing,
      item_height. lia.
Qed.

Lemma successors_drawn_below_witness :
  exists st' log,
    layout_procedure (numbered "n") exact [] emit_init
      ("P1", mkContent diamond) = Ret st'
    /\ placed st' = placed emit_init ++ log
    /\ (forall p, In p log ->
          0 <= p_level p
          /\ p_y p = lane_header_height + 10 + p_level p * vertical_spacing)
    /\ forall p q,
         In p log -> In q log ->
         edge (items (mkContent diamond)) (p_item p) (p_item q) ->
         p_level p < p_level q
         /\ p_y p + item_height + 40 <= p_y q.
Proof.
  apply (successors_drawn_below (numbered "n") exact [] emit_init "P1"
           (mkContent diamond)).
  - apply nodupb_sound. reflexivity.
  - apply (ranked_byb_acyclic diamond [("a", 0); ("b", 1); ("c", 1); ("d", 2)]).
    reflexivity.
Defined.

(** X11. Every node copy of a procedure lies inside its lane: it starts
    below the lane's header strip, and its rectangle, [item_width] wide,
    starts at a non-negative offset and ends within the lane's width.
    Float arithmetic is any rounding [rnd] of relative error at most [u];
    the horizontal bounds hold in a lane whose width [lw] has
    [u * lw <= 1/2], which exact arithmetic ([u = 0]) meets for every
    lane. *)
Theorem node_copies_inside_lane (uuid4 : nat -> string) (rnd : Q -> Q) (u : Q)
  (tooltips : dict string) (st : Emit) (milestone_id : string)
  (content : Content) :
  NoDup (keys (items content)) ->
  (0 <= u)%Q -> (u <= 1 # 1000)%Q -> rounds_within u rnd ->
  exists st' log,
    layout_procedure uuid4 rnd tooltips st (milestone_id, content) = Ret st'
    /\ placed st' = placed st ++ log
    /\ forall p, In p log ->
         lane_header_height < p_y p
         /\ ((u * inject_Z (p_lane_width p) <= 1 # 2)%Q ->
             0 <= p_x p /\ p_x p + item_width <= p_lane_width p).
Proof.
  intros Hnd Hu0 Hu1 Hrnd.
  destruct (layout_log uuid4 rnd tooltips st milestone_id content Hnd)
    as (st' & item_levels & log & Hrun & Hlog & Hcalc & Hentries).
  exists st', log. split; [assumption | split; [assumption|]].
  intros p Hp.
  destruct (Hentries p Hp) as (Hk & _ & Hl & Hy & Hpos & Hslot & Hwide & Hx).
  assert (Hne : items content <> []).
  { intro E. rewrite E in Hk. destruct Hk. }
  pose proof (levels_in_range _ _ Hnd (Hcalc Hne) _ Hk) as Hrange.
  split.
  - rewrite Hy, Hl. unfold y_pos, lane_header_height, vertical_spacing. lia.
  - intro Hsmall. rewrite Hx.
    apply (x_inside u rnd Hu0 Hu1 Hrnd); try lia. assumption.
Qed.

Lemma node_copies_inside_lane_witness :
  exists st' log,
    layout_procedure (numbered "n") exact [] emit_init ("P1", shared_cell)
    = Ret st'
    /\ placed st' = placed emit_init ++ log
    /\ forall p, In p log ->
         lane_header_height < p_y p
         /\ ((0 * inject_Z (p_lane_width p) <= 1 # 2)%Q ->
             0 <= p_x p /\ p_x p + item_width <= p_lane_width p).
Proof.
  apply (node_copies_inside_lane (numbered "n") exact 0 [] emit_init "P1"
           shared_cell).
  - apply nodupb_sound. reflexivity.
  - apply Qle_refl.
  - unfold Qle. simpl. lia.
  - exact exact_rounds.
Defined.

(* ================================================================== *)
(** * The drawing of one procedure *)

Lemma dict_comp_keys {V : Type} (f : string -> outcome V) (l : list string) d :
  NoDup l -> dict_comp f l = Ret d -> keys d = l.
Proof.
  intros Hnd H.
  assert (G : forall l d0 d,
             foldM (fun d k => v <- f k ;; Ret (dict_set k v d)) l d0 = Ret d ->
             keys d = add_keys l (keys d0)).
  { clear. induction l as [|k l IH]; intros d0 d H; simpl in H.
    - injection H as <-. reflexivity.
    - apply bind_ret_inv in H. destruct H as (d1 & Hd1 & H).
      apply bind_ret_inv in Hd1. destruct Hd1 as (v & _ & Hd1).
      injection Hd1 as <-. rewrite (IH _ _ H), keys_set_add. reflexivity. }
  rewrite (G _ _ _ H). apply (add_keys_nodup l []). exact Hnd.
Qed.

Lemma collect_stakeholders_nodup items : NoDup (collect_stakeholders items).
Proof.
  unfold collect_stakeholders.
  apply (fold_left_inv _ (@NoDup string)); [constructor|].
  intros acc [i meta] _ Hacc.
  apply (fold_left_inv _ (@NoDup string)); [assumption|].
  intros acc' sh _ Hacc'. apply (NoDup_add_key sh acc' Hacc').
Qed.

Lemma insert_sorted_nodup x l :
  ~ In x l -> NoDup l -> NoDup (insert_sorted x l).
Proof.
  induction l as [|y l IH]; intros Hx Hnd; simpl.
  - constructor; [intros [] | constructor].
  - destruct (String.leb x y); [constructor; assumption|].
    inversion Hnd as [|? ? Hy Hl]; subst. constructor.
    + rewrite insert_sorted_In. intros [-> | H]; [| contradiction].
      apply Hx. left. reflexivity.
    + apply IH; [| assumption]. intro H. apply Hx. right. assumption.
Qed.

Lemma sorted_nodup l : NoDup l -> NoDup (sorted l).
Proof.
  unfold sorted. induction 1 as [|x l Hx Hnd IH]; simpl; [constructor|].
  apply insert_sorted_nodup; [| assumption].
  fold (sorted l). rewrite sorted_In. assumption.
Qed.

Lemma lane_ids_other uuid4 n lanes ids sh :
  ~ In sh (keys lanes) ->
  dict_get sh (lane_ids_from uuid4 n lanes ids) = dict_get sh ids.
Proof.
  revert n ids. induction lanes as [|[sh' lw] lanes IH]; intros n ids Hsh;
    simpl; [reflexivity|].
  rewrite IH by (intro H; apply Hsh; right; assumption).
  rewrite dict_get_set_other; [reflexivity|].
  intro E. apply Hsh. left. assumption.
Qed.

Lemma lane_ids_nth uuid4 n lanes ids k sh lw :
  NoDup (keys lanes) ->
  nth_error lanes k = Some (sh, lw) ->
  dict_get sh (lane_ids_from uuid4 n lanes ids) = Some (uuid4 (n + k)%nat).
Proof.
  revert n ids k. induction lanes as [|[sh' lw'] lanes IH]; intros n ids k Hnd Hk.
  - destruct k; discriminate.
  - simpl in Hnd. inversion Hnd as [|? ? Hfresh Hnd']; subst.
    destruct k as [|k]; simpl in *.
    + injection Hk as -> ->. rewrite lane_ids_other by assumption.
      rewrite dict_get_set_same, Nat.add_0_r. reflexivity.
    + rewrite (IH (S n) _ k Hnd' Hk). f_equal. f_equal. lia.
Qed.

Section Drawing.

Variable uuid4 : nat -> string.
Variable rnd : Q -> Q.

Lemma emit_lanes_run lane_widths pool_id pool_height lanes :
  (forall sh lw, In (sh, lw) lanes -> dict_get sh lane_widths = Some lw) ->
  forall st ids acc,
    foldM (emit_lane uuid4 lane_widths pool_id pool_height) (keys lanes)
          (st, ids, acc)
    = Ret (mkEmit (root st
                   ++ lane_row uuid4 (drawn st) pool_id pool_height acc lanes)
                  (id_map st) (multi_item_color st) (color_counter st)
                  (current_x st) (drawn st + List.length lanes)%nat
                  (placed st),
           lane_ids_from uuid4 (drawn st) lanes ids,
           fold_left Z.add (values lanes) acc).
Proof.
  induction lanes as [|[sh lw] lanes IH]; intros Hw st ids acc.
  - simpl. rewrite app_nil_r, Nat.add_0_r. destruct st; reflexivity.
  - change (keys ((sh, lw) :: lanes)) with (sh :: keys lanes).
    cbn [foldM]. unfold emit_lane at 1, draw, subscript.
    rewrite (Hw sh lw (or_introl eq_refl)). cbn [bind].
    rewrite IH by (intros sh' lw' H; apply Hw; right; assumption).
    cbn [root drawn id_map multi_item_color color_counter current_x placed emit
         lane_row lane_ids_from values map snd List.length fold_left].
    rewrite <- app_assoc. cbn [app].
    replace (S (drawn st) + List.length lanes)%nat
      with (drawn st + S (List.length lanes))%nat by lia.
    reflexivity.
Qed.

Lemma placed_as_copy L item_id lvl clean_name tooltip is_multi s sh s' :
  place_copy uuid4 rnd L item_id lvl clean_name tooltip is_multi s sh = Ret s' ->
  exists e p,
    root (fst s') = root (fst s) ++ [e]
    /\ placed (fst s') = placed (fst s) ++ [p]
    /\ current_x (fst s') = current_x (fst s)
    /\ placed_as L e p.
Proof.
  destruct s as [st cells]. intro H. apply place_copy_ret in H.
  destruct H as (lw & sw & copies & fill & lane & Hlw & _ & _ & _ & Hlane & ->).
  do 2 eexists. split; [reflexivity|]. split; [reflexivity|].
  split; [reflexivity|].
  exists tooltip, (uuid4 (drawn st)), clean_name, fill, lane. simpl. auto.
Qed.

Lemma adds_logged_place_item L st0 s it s' :
  place_item uuid4 rnd L s it = Ret s' ->
  adds_logged L st0 (fst s) -> adds_logged L st0 (fst s').
Proof.
  destruct s as [st cells], it as [item_id meta]. unfold place_item.
  intros H Hj. apply bind_ret_inv in H. destruct H as (lvl & _ & H).
  revert H. apply (foldM_inv_ret _ (fun s => adds_logged L st0 (fst s))).
  - simpl. destruct Hj as (nodes & log & Hr & Hp & Hx & Hf).
    exists nodes, log. split; [| split; [| split; [| assumption]]].
    + rewrite <- Hr. unfold setdefault_id_map, assign_color.
      destruct ((1 <? List.length (stakeholders meta))%nat
                && negb (dict_mem item_id (multi_item_color st)));
        match goal with
        | |- context [if ?b then _ else _] => destruct b
        end; reflexivity.
    + rewrite <- Hp. unfold setdefault_id_map, assign_color.
      destruct ((1 <? List.length (stakeholders meta))%nat
                && negb (dict_mem item_id (multi_item_color st)));
        match goal with
        | |- context [if ?b then _ else _] => destruct b
        end; reflexivity.
    + rewrite <- Hx. unfold setdefault_id_map, assign_color.
      destruct ((1 <? List.length (stakeholders meta))%nat
                && negb (dict_mem item_id (multi_item_color st)));
        match goal with
        | |- context [if ?b then _ else _] => destruct b
        end; reflexivity.
  - intros s x s0 _ (nodes & log & Hr & Hp & Hx & Hf) Hstep.
    apply placed_as_copy in Hstep.
    destruct Hstep as (e & p & Hr' & Hp' & Hx' & He).
    exists (nodes ++ [e]), (log ++ [p]).
    split; [rewrite Hr', Hr, app_assoc; reflexivity|].
    split; [rewrite Hp', Hp, app_assoc; reflexivity|].
    split; [congruence|].
    apply Forall2_app; [assumption|]. constructor; [assumption | constructor].
Qed.

Lemma level_at_le_max item_levels max_level i :
  py_max (values item_levels) = Ret max_level ->
  In i (keys item_levels) ->
  level_at item_levels i <= max_level.
Proof.
  intros Hmax Hi.
  destruct (dict_mem_get i item_levels) as [z Hz];
    [apply dict_mem_keys; assumption|].
  unfold level_at. rewrite Hz.
  destruct (py_max_ge (values item_levels) z) as (m & Hm & Hle).
  - apply dict_get_In in Hz. apply (in_map snd) in Hz. exact Hz.
  - rewrite Hm in Hmax. injection Hmax as <-. assumption.
Qed.

(** The elements that the first pass adds for one procedure: the pool,
    its lanes from left to right, its node copies. *)
Lemma layout_procedure_elements tooltips st milestone_id content :
  NoDup (keys (items content)) ->
  items content <> [] ->
  exists st' log item_levels max_level lane_widths nodes,
    layout_procedure uuid4 rnd tooltips st (milestone_id, content) = Ret st'
    /\ placed st' = placed st ++ log
    /\ calculate_vertical_order (items content) = Ret item_levels
    /\ py_max (values item_levels) = Ret max_level
    /\ keys lane_widths = sorted (collect_stakeholders (items content))
    /\ root st'
       = root st
         ++ pool_cell tooltips milestone_id (uuid4 (drawn st)) (current_x st)
              (fold_left Z.add (values lane_widths) 0)
              ((max_level + 1) * vertical_spacing + lane_header_height + 60)
            :: lane_row uuid4 (S (drawn st)) (uuid4 (drawn st))
                 ((max_level + 1) * vertical_spacing + lane_header_height + 60)
                 0 lane_widths
            ++ nodes
    /\ current_x st'
       = current_x st + fold_left Z.add (values lane_widths) 0 + inter_pool_gap
    /\ Forall2 (node_at uuid4 (S (drawn st)) lane_widths
                  ((max_level + 1) * vertical_spacing + lane_header_height + 60))
               nodes log.
Proof.
  intros Hnd Hne.
  destruct (layout_log uuid4 rnd tooltips st milestone_id content Hnd)
    as (st' & item_levels & log & Hrun & Hlog & Hcalc & Hentries).
  specialize (Hcalc Hne).
  pose proof Hrun as H. unfold layout_procedure in H.
  destruct (items content) as [|it0 its0] eqn:Hitems; [contradiction|].
  rewrite <- Hitems in *. clear Hitems it0 its0.
  rewrite Hcalc in H. cbn [bind] in H.
  apply bind_ret_inv in H. destruct H as (max_level & Hmax & H).
  apply bind_ret_inv in H. destruct H as (cells & _ & H).
  apply bind_ret_inv in H. destruct H as (max_nodes_per_lane & _ & H).
  apply bind_ret_inv in H. destruct H as (lane_widths & Hlw & H).
  unfold draw in H.
  apply bind_ret_inv in H. destruct H as ([[st3 lane_ids] acc] & Hlanes & H).
  apply bind_ret_inv in H. destruct H as ([st4 cells4] & Hplace & H).
  injection H as H.
  set (all_sh := sorted (collect_stakeholders (items content))) in *.
  assert (Hall : NoDup all_sh).
  { apply sorted_nodup, collect_stakeholders_nodup. }
  pose proof (dict_comp_keys _ _ _ Hall Hlw) as Hkeys.
  assert (Hwnd : NoDup (keys lane_widths)) by (rewrite Hkeys; assumption).
  set (pool_height :=
         (max_level + 1) * vertical_spacing + lane_header_height + 60) in *.
  set (pool_width := fold_left Z.add (values lane_widths) 0) in *.
  rewrite <- Hkeys in Hlanes.
  rewrite (emit_lanes_run lane_widths (uuid4 (drawn st)) pool_height lane_widths)
    in Hlanes by (intros sh lw Hin; apply In_dict_get; assumption).
  cbn [root drawn id_map multi_item_color color_counter current_x placed emit]
    in Hlanes.
  injection Hlanes as Hst3 Hids Hacc.
  set (L := mkLanes milestone_id tooltips item_levels lane_widths cells lane_ids)
    in *.
  assert (Hadds : adds_logged L st3 st4).
  { change st4 with (fst (st4, cells4)).
    revert Hplace. apply (foldM_inv_ret _ (fun s => adds_logged L st3 (fst s))).
    - exists [], []. simpl. rewrite !app_nil_r. repeat split. constructor.
    - intros s x s0 _ Hs Hstep. eapply adds_logged_place_item; eassumption. }
  destruct Hadds as (nodes & log' & Hr & Hp & Hx4 & Hf).
  assert (Hroot4 : root st'
                   = root st
                     ++ pool_cell tooltips milestone_id (uuid4 (drawn st))
                          (current_x st) pool_width pool_height
                        :: lane_row uuid4 (S (drawn st)) (uuid4 (drawn st))
                             pool_height 0 lane_widths
                        ++ nodes).
  { rewrite <- H. cbn [root]. rewrite Hr, <- Hst3. cbn [root].
    rewrite <- !app_assoc. reflexivity. }
  assert (Hlog' : log' = log).
  { rewrite <- H in Hlog. cbn [placed] in Hlog. rewrite Hp, <- Hst3 in Hlog.
    cbn [placed] in Hlog. apply app_inv_head in Hlog. assumption. }
  subst log'.
  exists st', log, item_levels, max_level, lane_widths, nodes.
  split; [assumption|]. split; [assumption|]. split; [assumption|].
  split; [assumption|]. split; [assumption|]. split; [assumption|].
  split.
  { rewrite <- H. cbn [current_x]. rewrite Hx4, <- Hst3. reflexivity. }
  assert (Hkl : keys item_levels = keys (items content)).
  { destruct (level_run_spec (items content) Hnd)
      as (adj & s0 & sf & done & _ & _ & Hcalc' & _ & _ & Hinv & _).
    rewrite Hcalc' in Hcalc. injection Hcalc as <-.
    apply (inv_keys_lev _ _ _ Hinv). }
  assert (Hin : forall p, In p log ->
            lane_header_height < p_y p
            /\ p_y p + item_height <= pool_height - pool_header_height).
  { intros p Hp'.
    destruct (Hentries p Hp') as (Hk & _ & Hl & Hy & _).
    pose proof (levels_in_range _ _ Hnd Hcalc _ Hk) as Hrange.
    assert (Hle : level_at item_levels (p_item p) <= max_level).
    { apply level_at_le_max; [assumption | rewrite Hkl; assumption]. }
    rewrite Hy, Hl. unfold pool_height, y_pos, lane_header_height,
      vertical_spacing, item_height, pool_header_height. lia. }
  clear Hp Hr Hroot4 Hlog Hentries.
  induction Hf as [|e p nodes log He Hf IH]; constructor.
  - destruct He as (tip & id & label & fill & lane_id & -> & Hlane & Hwidth).
    simpl in Hlane, Hwidth.
    apply dict_get_In in Hwidth. apply In_nth_error in Hwidth.
    destruct Hwidth as [k Hk].
    exists tip, id, label, fill, k.
    rewrite <- Hids in Hlane.
    rewrite (lane_ids_nth uuid4 (S (drawn st)) lane_widths [] k _ _ Hwnd Hk)
      in Hlane.
    injection Hlane as <-.
    split; [reflexivity|]. split; [assumption|].
    apply Hin. left. reflexivity.
  - apply IH. intros q Hq. apply Hin. right. assumption.
Qed.

End Drawing.

Lemma lane_row_nth uuid4 n pool_id pool_height acc lanes k sh lw :
  nth_error lanes k = Some (sh, lw) ->
  nth_error (lane_row uuid4 n pool_id pool_height acc lanes) k
  = Some (lane_cell (uuid4 (n + k)%nat) sh pool_id
            (fold_left Z.add (values (firstn k lanes)) acc) lw pool_height).
Proof.
  revert n acc k. induction lanes as [|[sh' lw'] lanes IH]; intros n acc k Hk.
  - destruct k; discriminate.
  - destruct k as [|k]; simpl in *.
    + injection Hk as -> ->. rewrite Nat.add_0_r. reflexivity.
    + rewrite (IH (S n) (acc + lw') k Hk). do 2 f_equal.
      f_equal. lia.
Qed.

(** X12. For a procedure with items the first pass adds, in this order:
    the pool, as wide as its lanes together and 90 higher than 100 times
    the number of ranks; one lane per stakeholder of the procedure, in
    sorted order, the lane [k] with the identifier drawn [k]-th after the
    pool's, starting at the sum of the widths of the lanes before it, so
    that the lanes tile the pool's width from left to right; and the node
    copies, in the order of the placement log, each with the logged
    coordinates, as a child of the lane of its stakeholder, below the
    lane's header strip and above its lower edge. The next pool starts
    [inter_pool_gap] to the right of this one. *)
Theorem drawing_of_a_procedure (uuid4 : nat -> string) (rnd : Q -> Q)
  (tooltips : dict string) (st : Emit) (milestone_id : string)
  (content : Content) :
  NoDup (keys (items content)) ->
  items content <> [] ->
  exists st' log item_levels max_level lane_widths nodes,
    layout_procedure uuid4 rnd tooltips st (milestone_id, content) = Ret st'
    /\ placed st' = placed st ++ log
    /\ calculate_vertical_order (items content) = Ret item_levels
    /\ py_max (values item_levels) = Ret max_level
    /\ keys lane_widths = sorted (collect_stakeholders (items content))
    /\ root st'
       = root st
         ++ pool_cell tooltips milestone_id (uuid4 (drawn st)) (current_x st)
              (fold_left Z.add (values lane_widths) 0)
              ((max_level + 1) * vertical_spacing + lane_header_height + 60)
            :: lane_row uuid4 (S (drawn st)) (uuid4 (drawn st))
                 ((max_level + 1) * vertical_spacing + lane_header_height + 60)
                 0 lane_widths
            ++ nodes
    /\ (forall k sh lw,
          nth_error lane_widths k = Some (sh, lw) ->
          nth_error
            (lane_row uuid4 (S (drawn st)) (uuid4 (drawn st))
               ((max_level + 1) * vertical_spacing + lane_header_height + 60)
               0 lane_widths) k
          = Some (lane_cell (uuid4 (S (drawn st) + k)%nat) sh (uuid4 (drawn st))
                    (fold_left Z.add (values (firstn k lane_widths)) 0) lw
                    ((max_level + 1) * vertical_spacing
                     + lane_header_height + 60)))
    /\ current_x st'
       = current_x st + fold_left Z.add (values lane_widths) 0 + inter_pool_gap
    /\ Forall2 (node_at uuid4 (S (drawn st)) lane_widths
                  ((max_level + 1) * vertical_spacing + lane_header_height + 60))
               nodes log.
Proof.
  intros Hnd Hne.
  destruct (layout_procedure_elements uuid4 rnd tooltips st milestone_id content
              Hnd Hne)
    as (st' & log & item_levels & max_level & lane_widths & nodes
        & H1 & H2 & H3 & H4 & H5 & H6 & H7 & H8).
  exists st', log, item_levels, max_level, lane_widths, nodes.
  repeat (split; [assumption|]).
  split; [| split; assumption].
  intros k sh lw Hk. apply lane_row_nth. assumption.
Qed.

Lemma drawing_of_a_procedure_witness :
  exists st' log item_levels max_level lane_widths nodes,
    layout_procedure (numbered "n") exact [] emit_init ("P1", shared_cell)
    = Ret st'
    /\ placed st' = placed emit_init ++ log
    /\ calculate_vertical_order (items shared_cell) = Ret item_levels
    /\ py_max (values item_levels) = Ret max_level
    /\ keys lane_widths = sorted (collect_stakeholders (items shared_cell))
    /\ root st'
       = root emit_init
         ++ pool_cell [] "P1" (numbered "n" (drawn emit_init))
              (current_x emit_init)
              (fold_left Z.add (values lane_widths) 0)
              ((max_level + 1) * vertical_spacing + lane_header_height + 60)
            :: lane_row (numbered "n") (S (drawn emit_init))
                 (numbered "n" (drawn emit_init))
                 ((max_level + 1) * vertical_spacing + lane_header_height + 60)
                 0 lane_widths
            ++ nodes
    /\ (forall k sh lw,
          nth_error lane_widths k = Some (sh, lw) ->
          nth_error
            (lane_row (numbered "n") (S (drawn emit_init))
               (numbered "n" (drawn emit_init))
               ((max_level + 1) * vertical_spacing + lane_header_height + 60)
               0 lane_widths) k
          = Some (lane_cell (numbered "n" (S (drawn emit_init) + k)%nat) sh
                    (numbered "n" (drawn emit_init))
                    (fold_left Z.add (values (firstn k lane_widths)) 0) lw
                    ((max_level + 1) * vertical_spacing
                     + lane_header_height + 60)))
    /\ current_x st'
       = current_x emit_init + fold_left Z.add (values lane_widths) 0
         + inter_pool_gap
    /\ Forall2 (node_at (numbered "n") (S (drawn emit_init)) lane_widths
                  ((max_level + 1) * vertical_spacing + lane_header_height + 60))
               nodes log.
Proof.
  apply (drawing_of_a_procedure (numbered "n") exact [] emit_init "P1"
           shared_cell).
  - apply nodupb_sound. reflexivity.
  - discriminate.
Defined.

(** The elements of the sample procedure: a pool 380 wide and 290 high
    at (50, 50), one lane, three node copies. *)
Example shared_cell_elements :
  exists st,
    layout_procedure (numbered "n") exact [] emit_init ("P1", shared_cell)
    = Ret st
    /\ skipn 2 (root st)
       = [pool_cell [] "P1" "n1" 50 380 290;
          lane_cell "n2" "ATC" "n1" 0 380 290;
          vertex_cell None "n3" "S1" (node_style "#ffffff") "n2"
            (geometry 15 40 item_width item_height);
          vertex_cell None "n4" "S2" (node_style "#ffffff") "n2"
            (geometry 205 40 item_width item_height);
          vertex_cell None "n5" "S3" (node_style "#ffffff") "n2"
            (geometry 110 140 item_width item_height)]
    /\ current_x st = 530.
Proof. eexists. split; [| split]; vm_compute; reflexivity. Qed.

(* ================================================================== *)
(** * Trailing whitespace turned into underscores *)

Lemma rstrip_nonspace c s :
  is_space c = false -> rstrip (String c s) = String c (rstrip s).
Proof.
  intro Hc. simpl. rewrite Hc. destruct (rstrip s); reflexivity.
Qed.

Lemma rstrip_app_keeps a b :
  rstrip b <> EmptyString -> rstrip (a ++ b)%string = (a ++ rstrip b)%string.
Proof.
  intro Hb. induction a as [|c a IH]; [reflexivity|].
  simpl. rewrite IH.
  destruct (a ++ rstrip b)%string eqn:E; [| reflexivity].
  destruct a; simpl in E; [contradiction | discriminate].
Qed.

Lemma rstrip_all_space t : all_space t = true -> rstrip t = EmptyString.
Proof.
  induction t as [|c t IH]; [reflexivity|]. simpl.
  intro H. apply andb_prop in H as [Hc Ht]. rewrite (IH Ht), Hc. reflexivity.
Qed.

Lemma rstrip_split s :
  exists t, s = (rstrip s ++ t)%string /\ all_space t = true.
Proof.
  induction s as [|c s (t & Hs & Ht)]; [exists EmptyString; auto|].
  simpl. destruct (rstrip s) as [|c' r] eqn:E.
  - simpl in Hs. subst t. destruct (is_space c) eqn:Hc.
    + exists (String c s). simpl. rewrite Hc, Ht. auto.
    + exists s. auto.
  - exists t. split; [| assumption]. simpl. simpl in Hs. congruence.
Qed.

Lemma rstrip_idem s : rstrip (rstrip s) = rstrip s.
Proof.
  induction s as [|c s IH]; [reflexivity|].
  simpl. destruct (rstrip s) as [|c' r] eqn:E.
  - destruct (is_space c) eqn:Hc; [reflexivity|]. simpl. rewrite Hc. reflexivity.
  - simpl. simpl in IH. rewrite IH. reflexivity.
Qed.

Lemma length_underscores n : String.length (underscores n) = n.
Proof. induction n as [|n IH]; simpl; [reflexivity | rewrite IH; reflexivity]. Qed.

Lemma rstrip_underscores n :
  n <> O -> rstrip (underscores n) = underscores n.
Proof.
  induction n as [|n IH]; [contradiction|]. intros _.
  change (underscores (S n)) with (String "_"%char (underscores n)).
  rewrite rstrip_nonspace by reflexivity.
  destruct n as [|n]; [reflexivity|]. rewrite IH by discriminate. reflexivity.
Qed.

Lemma rstrip_marked s n :
  rstrip (rstrip s ++ underscores n)%string = (rstrip s ++ underscores n)%string.
Proof.
  destruct n as [|n].
  - simpl. rewrite append_empty_r. apply rstrip_idem.
  - rewrite rstrip_app_keeps; rewrite rstrip_underscores by discriminate;
      [reflexivity | discriminate].
Qed.

(** X13. [trailing_spaces_to_underscores] leaves a value that is not a
    string as it is. In a string it changes the trailing run of
    whitespace only, replacing each of its characters (a space, a tab, a
    line end) by one underscore: the length stays the same, the result has
    no trailing whitespace, and applying the function again changes
    nothing. *)
Theorem trailing_whitespace_marked (text : Cell) :
  match text with
  | NaN => trailing_spaces_to_underscores text = NaN
  | Text s =>
      exists t,
        s = (rstrip s ++ t)%string
        /\ all_space t = true
        /\ trailing_spaces_to_underscores text
           = Text (rstrip s ++ underscores (String.length t))
        /\ String.length (rstrip s ++ underscores (String.length t))%string
           = String.length s
        /\ rstrip (rstrip s ++ underscores (String.length t))%string
           = (rstrip s ++ underscores (String.length t))%string
  end
  /\ trailing_spaces_to_underscores (trailing_spaces_to_underscores text)
     = trailing_spaces_to_underscores text.
Proof.
  destruct text as [s|]; [| split; reflexivity].
  destruct (rstrip_split s) as (t & Hs & Ht).
  assert (Hd : (String.length s - String.length (rstrip s))%nat
               = String.length t).
  { pose proof (f_equal String.length Hs) as HL.
    rewrite length_append in HL. lia. }
  split.
  - exists t. split; [assumption|]. split; [assumption|].
    split; [simpl; rewrite Hd; reflexivity|].
    split; [| apply rstrip_marked].
    rewrite length_append, length_underscores.
    pose proof (f_equal String.length Hs) as HL.
    rewrite length_append in HL. lia.
  - simpl. rewrite Hd. rewrite rstrip_marked.
    rewrite Nat.sub_diag. simpl. rewrite append_empty_r. reflexivity.
Qed.

(** A line that ends in a space, a tab and a line feed. *)
Example trailing_whitespace_sample :
  trailing_spaces_to_underscores
    (Text (String "a" (String " " (String "b" (String " "
       (String (ascii_of_nat 9) (String (ascii_of_nat 10) EmptyString)))))))
  = Text "a b___"
  /\ trailing_spaces_to_underscores (Text "   ") = Text "___".
Proof. split; reflexivity. Qed.

(* ================================================================== *)
(** * Identifiers cleaned for RDF *)

Lemma occurs_append c (a b : string) :
  occurs c (a ++ b)%string = occurs c a || occurs c b.
Proof.
  induction a as [|c' a IH]; simpl; [reflexivity|].
  rewrite IH, orb_assoc. reflexivity.
Qed.

Lemma occurs_replace_char c old new s :
  occurs c new = false ->
  occurs c (replace_char old new s)
  = negb (Ascii.eqb c old) && occurs c s.
Proof.
  intro Hn. induction s as [|c' s IH]; simpl;
    [symmetry; apply andb_false_r|].
  destruct (Ascii.eqb c' old) eqn:E.
  - apply Ascii.eqb_eq in E. subst c'.
    rewrite occurs_append, Hn, IH. simpl.
    rewrite (Ascii.eqb_sym old c).
    destruct (Ascii.eqb c old); reflexivity.
  - simpl. rewrite IH.
    destruct (Ascii.eqb c' c) eqn:E'; simpl; [| reflexivity].
    apply Ascii.eqb_eq in E'. subst c'. rewrite E. reflexivity.
Qed.

Lemma replace_char_absent old new s :
  occurs old s = false -> replace_char old new s = s.
Proof.
  induction s as [|c s IH]; simpl; [reflexivity|].
  intro H. apply orb_false_elim in H as [Hc Hs].
  rewrite Hc, (IH Hs). reflexivity.
Qed.

Lemma replace_char_append old new (a b : string) :
  replace_char old new (a ++ b)%string
  = (replace_char old new a ++ replace_char old new b)%string.
Proof.
  induction a as [|c a IH]; simpl; [reflexivity|].
  rewrite IH. destruct (Ascii.eqb c old); [| reflexivity].
  rewrite append_assoc. reflexivity.
Qed.

Lemma clean_text_safe s : rdf_safe (Text (clean_text s)) = true.
Proof.
  unfold rdf_safe, clean_text.
  rewrite !occurs_replace_char by reflexivity. simpl.
  destruct (occurs ")"%char s); reflexivity.
Qed.

Lemma rdf_safe_fixed x : rdf_safe x = true -> clean_cell x = x.
Proof.
  destruct x as [s|]; [| reflexivity]. simpl. intro H.
  apply andb_prop in H as [H H3]. apply andb_prop in H as [H1 H2].
  apply negb_true_iff in H1, H2, H3. unfold clean_text.
  rewrite (replace_char_absent _ _ s H1), (replace_char_absent _ _ s H2),
    (replace_char_absent _ _ s H3).
  reflexivity.
Qed.

Lemma clean_cell_safe x : rdf_safe (clean_cell x) = true.
Proof. destruct x; [apply clean_text_safe | reflexivity]. Qed.

Lemma clean_cell_idem x : clean_cell (clean_cell x) = clean_cell x.
Proof. apply rdf_safe_fixed, clean_cell_safe. Qed.

Lemma length_remove_char old s :
  (String.length (replace_char old EmptyString s) + count_char old s)%nat
  = String.length s.
Proof.
  induction s as [|c s IH]; simpl; [reflexivity|].
  destruct (Ascii.eqb c old); simpl; lia.
Qed.

Lemma length_swap_char old new s :
  String.length (replace_char old (String new EmptyString) s) = String.length s.
Proof.
  induction s as [|c s IH]; simpl; [reflexivity|].
  destruct (Ascii.eqb c old); simpl; rewrite IH; reflexivity.
Qed.

Lemma count_remove_other c old s :
  Ascii.eqb c old = false ->
  count_char c (replace_char old EmptyString s) = count_char c s.
Proof.
  intro Hne. induction s as [|c' s IH]; simpl; [reflexivity|].
  destruct (Ascii.eqb c' old) eqn:E; simpl; rewrite IH; [| reflexivity].
  apply Ascii.eqb_eq in E. subst c'. rewrite Ascii.eqb_sym, Hne. reflexivity.
Qed.

Lemma length_clean_text s :
  (String.length (clean_text s) + count_char "("%char s
   + count_char ")"%char s)%nat
  = String.length s.
Proof.
  unfold clean_text. rewrite length_swap_char.
  pose proof (length_remove_char ")"%char (replace_char "("%char EmptyString s)).
  pose proof (length_remove_char "("%char s).
  rewrite (count_remove_other ")"%char "("%char s) in * by reflexivity.
  lia.
Qed.

Lemma clean_column_get df c col :
  dict_get col (clean_column df c)
  = if String.eqb c col then option_map (map clean_cell) (dict_get col df)
    else dict_get col df.
Proof.
  unfold clean_column. destruct (String.eqb c col) eqn:E.
  - apply String.eqb_eq in E. subst c.
    destruct (dict_get col df) eqn:G; simpl; [| assumption].
    apply dict_get_set_same.
  - destruct (dict_get c df); [| reflexivity].
    rewrite dict_get_set, E. reflexivity.
Qed.

Lemma clean_column_keys df c : keys (clean_column df c) = keys df.
Proof.
  unfold clean_column. destruct (dict_get c df) eqn:G; [| reflexivity].
  apply keys_set_present. eapply dict_get_some_mem. eassumption.
Qed.

Lemma clean_columns_get columns df col :
  dict_get col (clean_rdf_identifiers df columns)
  = if mem col columns then option_map (map clean_cell) (dict_get col df)
    else dict_get col df.
Proof.
  unfold clean_rdf_identifiers.
  revert df. induction columns as [|c columns IH]; intro df; [reflexivity|].
  cbn [fold_left]. rewrite IH, clean_column_get.
  unfold mem. cbn [existsb]. fold (mem col columns).
  rewrite (String.eqb_sym col c).
  destruct (String.eqb c col); [| reflexivity]. cbn [orb].
  destruct (mem col columns); [| reflexivity].
  destruct (dict_get col df) as [cells|]; [| reflexivity]. simpl.
  rewrite map_map. f_equal. apply map_ext. intro x. apply clean_cell_idem.
Qed.

(** X14. [clean_rdf_identifiers] keeps the columns of the frame and their
    order. A column that is listed has the cleaning function applied to
    each of its cells, however often it is listed; a column that is not
    listed, or a listed column that the frame lacks, is left alone. A
    cleaned cell holds no parenthesis and no space, a missing value stays
    missing, a cleaned text is shorter than the original by the number of
    its parentheses, and cleaning the frame a second time changes no
    column. *)
Theorem clean_rdf_identifiers_columns (df : DataFrame) (columns : list string) :
  keys (clean_rdf_identifiers df columns) = keys df
  /\ (forall col,
        dict_get col (clean_rdf_identifiers df columns)
        = if mem col columns
          then option_map (map clean_cell) (dict_get col df)
          else dict_get col df)
  /\ (forall x,
        rdf_safe (clean_cell x) = true
        /\ clean_cell (clean_cell x) = clean_cell x
        /\ (clean_cell x = NaN <-> x = NaN))
  /\ (forall s,
        (String.length (clean_text s) + count_char "("%char s
         + count_char ")"%char s)%nat
        = String.length s)
  /\ (forall col,
        dict_get col
          (clean_rdf_identifiers (clean_rdf_identifiers df columns) columns)
        = dict_get col (clean_rdf_identifiers df columns)).
Proof.
  split; [| split; [| split; [| split]]].
  - unfold clean_rdf_identifiers.
    apply (fold_left_inv _ (fun d : DataFrame => keys d = keys df));
      [reflexivity|].
    intros d c _ Hd. rewrite <- Hd. apply (clean_column_keys d c).
  - intro col. apply clean_columns_get.
  - intro x. split; [apply clean_cell_safe|]. split; [apply clean_cell_idem|].
    destruct x; simpl; split; intro H; try discriminate; reflexivity.
  - apply length_clean_text.
  - intro col. rewrite !clean_columns_get.
    destruct (mem col columns); [| reflexivity].
    destruct (dict_get col df) as [cells|]; [| reflexivity]. simpl.
    rewrite map_map. f_equal. apply map_ext. intro x. apply clean_cell_idem.
Qed.

(** A frame with two columns, one of them listed twice, and a listed
    column that the frame lacks. *)
Example clean_rdf_identifiers_sample :
  clean_rdf_identifiers
    [("ProcedureStep", [Text "m1:_Start (TOBT)"; NaN]);
     ("Stakeholder", [Text "Ground Handler (GH)"; Text "ATC"])]
    ["ProcedureStep"; "NextProcedureStep"; "ProcedureStep"]
  = [("ProcedureStep", [Text "m1:_Start_TOBT"; NaN]);
     ("Stakeholder", [Text "Ground Handler (GH)"; Text "ATC"])].
Proof. reflexivity. Qed.

(* ================================================================== *)
(** * Stakeholder names joined and split again *)

Lemma split_char_cons sep s : exists p ps, split_char sep s = p :: ps.
Proof.
  destruct s as [|c s]; simpl; [eauto|].
  destruct (Ascii.eqb c sep); [eauto|].
  destruct (split_char sep s); eauto.
Qed.

Lemma split_char_append sep (a b : string) :
  split_char sep (a ++ String sep b)%string
  = split_char sep a ++ split_char sep b.
Proof.
  induction a as [|c a IH]; simpl.
  - rewrite Ascii.eqb_refl. reflexivity.
  - rewrite IH. destruct (Ascii.eqb c sep); [reflexivity|].
    destruct (split_char_cons sep a) as (p & ps & ->). reflexivity.
Qed.

Lemma split_char_absent sep s :
  occurs sep s = false -> split_char sep s = [s].
Proof.
  induction s as [|c s IH]; simpl; [reflexivity|].
  intro H. apply orb_false_elim in H as [Hc Hs].
  rewrite Hc, (IH Hs). reflexivity.
Qed.

Lemma stripped_names_app l1 l2 :
  stripped_names (l1 ++ l2) = stripped_names l1 ++ stripped_names l2.
Proof. unfold stripped_names. rewrite filter_app, map_app. reflexivity. Qed.

Lemma stripped_names_after_space s :
  stripped_names (split_char ","%char (String " "%char s))
  = stripped_names (split_char ","%char s).
Proof.
  cbn [split_char]. change (Ascii.eqb " "%char ","%char) with false.
  cbv iota. destruct (split_char_cons ","%char s) as (p & ps & ->).
  assert (E : strip (String " "%char p) = strip p) by reflexivity.
  unfold stripped_names. cbn [filter]. rewrite E.
  destruct (nonempty (strip p)); cbn [map]; rewrite ?E; reflexivity.
Qed.

Lemma stripped_names_join x names :
  stripped_names (split_char ","%char (join ", " (x :: names)))
  = stripped_names (flat_map (split_char ","%char) (x :: names)).
Proof.
  revert x. induction names as [|y names IH]; intro x.
  - simpl. rewrite app_nil_r. reflexivity.
  - change (join ", " (x :: y :: names))
      with (x ++ String ","%char (String " "%char (join ", " (y :: names))))%string.
    rewrite split_char_append, stripped_names_app, stripped_names_after_space,
      IH.
    change (flat_map (split_char ","%char) (x :: y :: names))
      with (split_char ","%char x
            ++ flat_map (split_char ","%char) (y :: names)).
    rewrite stripped_names_app. reflexivity.
Qed.

Lemma no_space_occurs s : no_space s = true -> occurs " "%char s = false.
Proof.
  induction s as [|c s IH]; simpl; [reflexivity|].
  intro H. apply andb_prop in H as [Hc Hs]. rewrite (IH Hs), orb_false_r.
  destruct (Ascii.eqb c " "%char) eqn:E; [| reflexivity].
  apply Ascii.eqb_eq in E. subst c. discriminate.
Qed.

Lemma plain_names_kept names :
  forallb plain_name names = true ->
  map (replace_char " "%char "_")
      (stripped_names (flat_map (split_char ","%char) names))
  = names.
Proof.
  induction names as [|x names IH]; [reflexivity|].
  cbn [forallb flat_map]. intro H. apply andb_prop in H as [Hx Hr].
  unfold plain_name in Hx.
  apply andb_prop in Hx as [Hx Hc]. apply andb_prop in Hx as [Hne Hsp].
  apply negb_true_iff in Hc.
  rewrite (split_char_absent _ _ Hc), stripped_names_app, map_app, (IH Hr).
  unfold stripped_names. cbn [filter].
  rewrite (no_space_strip x Hsp), Hne. cbn [map app].
  rewrite (no_space_strip x Hsp).
  rewrite (replace_char_absent _ _ x (no_space_occurs x Hsp)). reflexivity.
Qed.

(** X15. The stakeholders of a step are written into one cell by
    [', '.join] and read back by [populate] with a split at the commas.
    What is read back are the pieces of the names at their own commas,
    stripped, without the pieces that are empty or all whitespace, and
    with each space turned into an underscore: a name with a comma comes
    back as several names. Names that are not empty and hold no
    whitespace and no comma come back as they were written. *)
Theorem stakeholder_names_of_join (names : list string) :
  stakeholder_names (join ", " names)
  = map (replace_char " "%char "_")
        (stripped_names (flat_map (split_char ","%char) names))
  /\ (forallb plain_name names = true ->
      stakeholder_names (join ", " names) = names).
Proof.
  assert (H : stakeholder_names (join ", " names)
              = map (replace_char " "%char "_")
                    (stripped_names (flat_map (split_char ","%char) names))).
  { unfold stakeholder_names.
    destruct names as [|x names]; [reflexivity|].
    rewrite stripped_names_join. reflexivity. }
  split; [exact H|].
  intro Hp. rewrite H. apply plain_names_kept. assumption.
Qed.

(** Three names, the second with a comma and a space of its own. *)
Example stakeholder_names_sample :
  join ", " ["ATC"; "Ground Handler, Ramp"; "Airline"]
  = "ATC, Ground Handler, Ramp, Airline"
  /\ stakeholder_names (join ", " ["ATC"; "Ground Handler, Ramp"; "Airline"])
     = ["ATC"; "Ground_Handler"; "Ramp"; "Airline"]
  /\ stakeholder_names (join ", " []) = [].
Proof. repeat split; reflexivity. Qed.

(* ================================================================== *)
(** * From a prefixed subject to the label of its node *)

Lemma clean_text_append (a b : string) :
  clean_text (a ++ b)%string = (clean_text a ++ clean_text b)%string.
Proof. unfold clean_text. rewrite !replace_char_append. reflexivity. Qed.

Lemma clean_text_after_underscoring s :
  clean_text (replace_char " "%char "_" s) = clean_text s.
Proof.
  induction s as [|c s IH]; [reflexivity|].
  cbn [replace_char]. destruct (Ascii.eqb c " "%char) eqn:E.
  - apply Ascii.eqb_eq in E. subst c.
    change (String " "%char s) with (String " "%char EmptyString ++ s)%string.
    rewrite !clean_text_append, IH. reflexivity.
  - change (String c (replace_char " "%char "_" s))
      with (String c EmptyString ++ replace_char " "%char "_" s)%string.
    change (String c s) with (String c EmptyString ++ s)%string.
    rewrite !clean_text_append, IH. reflexivity.
Qed.

Lemma clean_text_prefixed prefix subject :
  clean_text (prefixed prefix subject)
  = (clean_text prefix ++ String ":"%char (String "_"%char (clean_text subject)))%string.
Proof.
  unfold prefixed. rewrite clean_text_after_underscoring.
  rewrite !clean_text_append. reflexivity.
Qed.

Lemma lstrip_append_nonspace (a : string) c r :
  is_space c = false ->
  lstrip (a ++ String c r)%string = (lstrip a ++ String c r)%string.
Proof.
  intro Hc. induction a as [|c' a IH]; simpl; [rewrite Hc; reflexivity|].
  destruct (is_space c'); [assumption | reflexivity].
Qed.

Lemma occurs_lstrip c s : occurs c s = false -> occurs c (lstrip s) = false.
Proof.
  induction s as [|c' s IH]; simpl; [reflexivity|].
  intro H. destruct (is_space c'); [| exact H].
  apply orb_false_elim in H as [_ H]. auto.
Qed.

Lemma occurs_rstrip c s : occurs c s = false -> occurs c (rstrip s) = false.
Proof.
  intro H. destruct (rstrip_split s) as (t & Hs & _).
  rewrite Hs, occurs_append in H. apply orb_false_elim in H as [H _]. exact H.
Qed.

Lemma occurs_clean_text c s :
  Ascii.eqb c "_"%char = false ->
  occurs c s = false -> occurs c (clean_text s) = false.
Proof.
  intros E H. unfold clean_text.
  rewrite occurs_replace_char
    by (cbn [occurs]; rewrite Ascii.eqb_sym, E; reflexivity).
  rewrite !occurs_replace_char by reflexivity. rewrite H.
  rewrite !andb_false_r. reflexivity.
Qed.

Lemma before_first_append c (a r : string) :
  occurs c a = false -> before_first c (a ++ String c r)%string = a.
Proof.
  induction a as [|c' a IH]; simpl; [rewrite Ascii.eqb_refl; reflexivity|].
  intro H. apply orb_false_elim in H as [Hc Ha].
  rewrite Hc, (IH Ha). reflexivity.
Qed.

Lemma last_segment_after_colon (a b acc : string) :
  last_segment (a ++ String ":"%char b)%string acc = last_segment b EmptyString.
Proof.
  revert acc. induction a as [|c a IH]; intro acc; simpl; [reflexivity|].
  destruct (Ascii.eqb c ":"%char); apply IH.
Qed.

Lemma last_segment_no_colon (b acc : string) :
  occurs ":"%char b = false -> last_segment b acc = String.append acc b.
Proof.
  revert acc. induction b as [|c b IH]; intro acc; simpl.
  - intros _. symmetry. apply append_empty_r.
  - intro H. apply orb_false_elim in H as [Hc Hb]. rewrite Hc, (IH _ Hb).
    rewrite append_assoc. reflexivity.
Qed.

Lemma occurs_underscores_to_spaces s :
  occurs "_"%char (underscores_to_spaces s) = false.
Proof.
  induction s as [|c s IH]; simpl; [reflexivity|]. rewrite IH, orb_false_r.
  destruct (Ascii.eqb c "_"%char) eqn:E; [reflexivity | exact E].
Qed.

(** X16. The identifier of a step is made of the prefix of its file, a
    colon, an underscore and the subject, cleaned and stripped. When
    neither the prefix nor the subject holds a colon, [populate] finds the
    cleaned prefix again as the part before the first colon, and
    [create_drawio_xml] labels the node with what follows the last colon,
    underscores turned into spaces: a space, which comes from the
    underscore after the colon, and then the cleaned subject. The label
    holds no underscore and no colon. *)
Theorem label_of_prefixed_subject (prefix subject : string) :
  occurs ":"%char prefix = false ->
  occurs ":"%char subject = false ->
  let item_id := strip (clean_text (prefixed prefix subject)) in
  item_id
  = (lstrip (clean_text prefix)
     ++ String ":"%char (String "_"%char (rstrip (clean_text subject))))%string
  /\ before_first ":"%char item_id = lstrip (clean_text prefix)
  /\ clean_name item_id
     = String " "%char (underscores_to_spaces (rstrip (clean_text subject)))
  /\ occurs "_"%char (clean_name item_id) = false
  /\ occurs ":"%char (clean_name item_id) = false.
Proof.
  intros Hp Hs item_id.
  assert (Hid : item_id
                = (lstrip (clean_text prefix)
                   ++ String ":"%char
                        (String "_"%char (rstrip (clean_text subject))))%string).
  { unfold item_id, strip. rewrite clean_text_prefixed.
    rewrite lstrip_append_nonspace by reflexivity.
    rewrite rstrip_app_keeps;
      rewrite !rstrip_nonspace by reflexivity; [reflexivity | discriminate]. }
  assert (Hsub : occurs ":"%char (rstrip (clean_text subject)) = false)
    by (apply occurs_rstrip, occurs_clean_text; [reflexivity | assumption]).
  assert (Hname : clean_name item_id
                  = String " "%char
                      (underscores_to_spaces (rstrip (clean_text subject)))).
  { unfold clean_name. rewrite Hid, last_segment_after_colon.
    rewrite last_segment_no_colon
      by (simpl; exact Hsub).
    reflexivity. }
  split; [exact Hid|]. split.
  { rewrite Hid. apply before_first_append.
    apply occurs_lstrip, occurs_clean_text; [reflexivity | assumption]. }
  split; [exact Hname|]. split.
  { unfold clean_name. apply occurs_underscores_to_spaces. }
  rewrite Hname. simpl.
  clear - Hsub. induction (rstrip (clean_text subject)) as [|c s IH];
    simpl in *; [reflexivity|].
  apply orb_false_elim in Hsub as [Hc Hr]. rewrite (IH Hr), orb_false_r.
  destruct (Ascii.eqb c "_"%char) eqn:E; [reflexivity | exact Hc].
Qed.

Lemma label_of_prefixed_subject_witness :
  let item_id :=
    strip (clean_text (prefixed "milestone 1" "Set TOBT (target) ")) in
  item_id
  = (lstrip (clean_text "milestone 1")
     ++ String ":"%char
          (String "_"%char (rstrip (clean_text "Set TOBT (target) "))))%string
  /\ before_first ":"%char item_id = lstrip (clean_text "milestone 1")
  /\ clean_name item_id
     = String " "%char
         (underscores_to_spaces (rstrip (clean_text "Set TOBT (target) ")))
  /\ occurs "_"%char (clean_name item_id) = false
  /\ occurs ":"%char (clean_name item_id) = false.
Proof.
  apply (label_of_prefixed_subject "milestone 1" "Set TOBT (target) ");
    reflexivity.
Defined.

(** The identifier, the prefix and the label of a sample subject. *)
Example label_sample :
  strip (clean_text (prefixed "milestone 1" "Set TOBT (target) "))
  = "milestone_1:_Set_TOBT_target_"
  /\ before_first ":"%char "milestone_1:_Set_TOBT_target_" = "milestone_1"
  /\ clean_name "milestone_1:_Set_TOBT_target_" = " Set TOBT target ".
Proof. repeat split; reflexivity. Qed.
(* ================================================================== *)
(** * The items that are dequeued *)

(** Walking back inside a set of items each of which has a predecessor in
    the set comes upon a cycle of the set. *)
Lemma walk_back_cycle_in items (U : string -> Prop) :
  (forall x, U x -> In x (keys items)) ->
  (forall x, U x -> exists u, U u /\ edge items u x) ->
  forall (k : nat) x l,
    chain items (x :: l) -> NoDup (x :: l) ->
    (forall y, In y (x :: l) -> U y) ->
    (List.length (keys items) < k + List.length (x :: l))%nat ->
    exists c, on_cycle items c /\ U c.
Proof.
  intros Hkeys Hpred. induction k as [|k IH]; intros x l Hc Hnd HU Hlen.
  - exfalso.
    assert (H : (List.length (x :: l) <= List.length (keys items))%nat).
    { apply NoDup_incl_length; [assumption|].
      intros y Hy. apply Hkeys. apply HU. assumption. }
    lia.
  - destruct (Hpred x (HU x (or_introl eq_refl))) as (u & Hu & He).
    destruct (in_dec string_dec u (x :: l)) as [Hin | Hnotin].
    + exists u. split; [| assumption].
      destruct Hin as [<- | Hin]; [apply path_edge; assumption|].
      unfold on_cycle. eapply path_step; [eassumption|].
      eapply chain_path; eassumption.
    + apply (IH u (x :: l)).
      * split; assumption.
      * constructor; assumption.
      * intros y [<- | Hy]; [assumption | apply HU; assumption].
      * simpl in *. lia.
Qed.

(** At the end of the loop the dequeued items are the items of the
    acyclic portion: those that no cycle reaches. *)
Lemma dequeued_iff_clear items done st :
  bfs_inv items done st ->
  (forall w, In w (keys items) -> remaining items done w = 0 -> In w done) ->
  forall w, In w done <-> In w (keys items) /\ ~ below_cycle items w.
Proof.
  intros Hinv Hfree w. split.
  - intro Hw. split.
    + apply (inv_sub _ _ _ Hinv). apply in_or_app. left. assumption.
    + intros (c & Hc & Hor).
      apply (cycle_not_reached items done st Hinv c Hc).
      apply in_or_app. left. destruct Hor as [-> | Hp]; [assumption|].
      apply (path_pred_done items done st Hinv c w Hp).
      apply in_or_app. left. assumption.
  - intros [Hw Hclear].
    destruct (in_dec string_dec w done) as [Hin | Hnot]; [assumption|].
    exfalso. apply Hclear.
    destruct (walk_back_cycle_in items
                (fun x => In x (keys items) /\ ~ In x done
                          /\ (x = w \/ path items x w)))
      with (k := List.length (keys items)) (x := w) (l := @nil string)
      as (c & Hc & _ & _ & Hcw).
    + tauto.
    + intros x (Hx & Hnx & Hxw).
      destruct (remaining_pos_pred items done x) as (u & Hu & Hnu & Hxu).
      * pose proof (remaining_nonneg items done x).
        destruct (Z.eq_dec (remaining items done x) 0) as [Hz | Hnz]; [| lia].
        exfalso. apply Hnx. apply Hfree; assumption.
      * exists u. split; [| split; assumption].
        split; [assumption|]. split; [assumption|]. right.
        destruct Hxw as [-> | Hp]; [apply path_edge; split; assumption|].
        eapply path_step; [split; eassumption | assumption].
    + exact I.
    + constructor; [intros [] | constructor].
    + intros y [<- | []]. split; [assumption|]. split; [assumption|].
      left. reflexivity.
    + simpl. lia.
    + exists c. split; assumption.
Qed.

(** C1. On a dictionary of items, [calculate_vertical_order] returns. The
    items it dequeues are those of the acyclic portion of the successor
    graph: the items that are neither on a cycle nor reached from one.
    For every edge [u -> v] of the graph (both ends items of the
    procedure) whose source [u] is dequeued, the returned rank of [v] is
    greater than the rank of [u]; this holds in particular when both ends
    are dequeued, that is, for every edge into an item of the acyclic
    portion. *)
Theorem leveling_respects_edges (items : dict ItemMeta) :
  NoDup (keys items) ->
  exists st done,
    level_run items = Ret (st, done)
    /\ calculate_vertical_order items = Ret (levels st)
    /\ (forall w, In w done <-> In w (keys items) /\ ~ below_cycle items w)
    /\ (forall u v,
          edge items u v -> In u done ->
          exists ru rv,
            dict_get u (levels st) = Some ru
            /\ dict_get v (levels st) = Some rv
            /\ ru < rv)
    /\ (forall u v,
          edge items u v -> ~ below_cycle items v ->
          In u done /\ In v done
          /\ exists ru rv,
               dict_get u (levels st) = Some ru
               /\ dict_get v (levels st) = Some rv
               /\ ru < rv).
Proof.
  intro Hnd.
  destruct (level_run_free items Hnd) as (st & done & Hrun & Hcalc & Hinv & Hfree).
  exists st, done. split; [assumption | split; [assumption|]].
  pose proof (dequeued_iff_clear items done st Hinv Hfree) as Hdone.
  assert (Hrank : forall u v,
            edge items u v -> In u done ->
            exists ru rv,
              dict_get u (levels st) = Some ru
              /\ dict_get v (levels st) = Some rv
              /\ ru < rv).
  { intros u v He Hu. exists (lev st u), (lev st v).
    destruct He as [HuN HvS].
    split; [apply (lev_get items done st Hinv); assumption|].
    split; [apply (lev_get items done st Hinv);
            apply (succs_items items u); assumption|].
    apply (edge_levels items done st Hinv); [split; assumption | assumption]. }
  split; [exact Hdone | split; [exact Hrank|]].
  intros u v He Hclear.
  assert (Hv : In v done).
  { apply Hdone. split; [| assumption].
    destruct He as [_ HvS]. apply (succs_items items u). assumption. }
  assert (Hu : In u done).
  { apply (edge_pred_done items done st Hinv u v He).
    apply in_or_app. left. assumption. }
  split; [assumption | split; [assumption|]]. apply Hrank; assumption.
Qed.

Lemma leveling_respects_edges_witness :
  exists st done,
    level_run two_steps = Ret (st, done)
    /\ calculate_vertical_order two_steps = Ret (levels st)
    /\ In "S1" done /\ In "S2" done
    /\ exists ru rv,
         dict_get "S1" (levels st) = Some ru
         /\ dict_get "S2" (levels st) = Some rv
         /\ ru < rv.
Proof.
  destruct (leveling_respects_edges two_steps) as (st & done & H1 & H2 & _ & _ & H5).
  - apply nodupb_sound. reflexivity.
  - exists st, done. split; [exact H1 | split; [exact H2|]].
    destruct (H5 "S1" "S2") as (Hu & Hv & Hr).
    + split; simpl; auto.
    + intros (c & Hc & _).
      exact (ranked_byb_acyclic two_steps [("S1", 0); ("S2", 1)] eq_refl c Hc).
    + split; [exact Hu | split; [exact Hv | exact Hr]].
Defined.

(** The two steps of the design document, and a procedure with a cycle
    that is entered from outside and left again: [a] is dequeued, [b] and
    [c] are on the cycle, [d] is reached from it. *)
Example leveling_samples :
  calculate_vertical_order two_steps = Ret [("S1", 0); ("S2", 1)]
  /\ (exists st, level_run two_steps = Ret (st, ["S1"; "S2"]))
  /\ calculate_vertical_order
       [("a", mkMeta ["ATC"] ["b"]); ("b", mkMeta ["ATC"] ["c"; "d"]);
        ("c", mkMeta ["ATC"] ["b"]); ("d", mkMeta ["ATC"] [])]
     = Ret [("a", 0); ("b", 1); ("c", 0); ("d", 0)]
  /\ (exists st,
        level_run
          [("a", mkMeta ["ATC"] ["b"]); ("b", mkMeta ["ATC"] ["c"; "d"]);
           ("c", mkMeta ["ATC"] ["b"]); ("d", mkMeta ["ATC"] [])]
        = Ret (st, ["a"])).
Proof.
  split; [reflexivity|]. split; [eexists; reflexivity|].
  split; [reflexivity|]. eexists; reflexivity.
Qed.

(* ================================================================== *)
(** * The arrows of the document, reference by reference *)

Section ArrowRows.

Variable uuid4 : nat -> string.

Lemma arrow_rows_app idm n l1 l2 :
  arrow_rows uuid4 idm n (l1 ++ l2)
  = arrow_rows uuid4 idm n l1
    ++ arrow_rows uuid4 idm
         (n + List.length (List.concat (arrow_rows uuid4 idm n l1))) l2.
Proof.
  revert n. induction l1 as [|r l1 IH]; intro n; simpl.
  - rewrite Nat.add_0_r. reflexivity.
  - rewrite IH, length_app, Nat.add_assoc. reflexivity.
Qed.

Lemma arrow_rows_length idm n refs :
  List.length (arrow_rows uuid4 idm n refs) = List.length refs.
Proof.
  revert n. induction refs as [|r refs IH]; intro n; simpl;
    [reflexivity | rewrite IH; reflexivity].
Qed.

Lemma arrow_rows_nth idm refs :
  forall n k r,
    nth_error refs k = Some r ->
    exists n', nth_error (arrow_rows uuid4 idm n refs) k
               = Some (arrows_of uuid4 idm n' r).
Proof.
  induction refs as [|r0 refs IH]; intros n k r Hk; [destruct k; discriminate|].
  destruct k as [|k]; simpl in *.
  - injection Hk as ->. exists n. reflexivity.
  - apply IH. assumption.
Qed.

Lemma arrow_rows_In idm refs :
  forall n r,
    In r refs ->
    exists n' pre post,
      List.concat (arrow_rows uuid4 idm n refs)
      = pre ++ arrows_of uuid4 idm n' r ++ post.
Proof.
  induction refs as [|r0 refs IH]; intros n r Hr; [destruct Hr|].
  destruct Hr as [-> | Hr].
  - exists n, [], (List.concat (arrow_rows uuid4 idm
                              (n + List.length (arrows_of uuid4 idm n r)) refs)).
    reflexivity.
  - destruct (IH (n + List.length (arrows_of uuid4 idm n r0))%nat r Hr)
      as (n' & pre & post & E).
    exists n', (arrows_of uuid4 idm n r0 ++ pre), post.
    simpl. rewrite E, <- app_assoc. reflexivity.
Qed.

(** A loop whose body adds the arrows of the references [g x] adds the
    arrows of all its references, row after row. *)
Lemma foldM_arrow_rows {X : Type} (f : Emit -> X -> outcome Emit)
  (g : X -> list (string * string)) :
  (forall st x,
      f st x
      = Ret (with_elements
               (List.concat (arrow_rows uuid4 (id_map st) (drawn st) (g x))) st)) ->
  forall l st,
    foldM f l st
    = Ret (with_elements
             (List.concat (arrow_rows uuid4 (id_map st) (drawn st) (flat_map g l)))
             st).
Proof.
  intro Hf. induction l as [|x l IH]; intro st.
  - simpl. rewrite with_elements_nil. reflexivity.
  - cbn [foldM flat_map]. rewrite Hf. cbn [bind]. rewrite IH.
    rewrite with_elements_app, arrow_rows_app, concat_app. reflexivity.
Qed.

Lemma link_arrows u st v :
  link uuid4 u st v
  = Ret (with_elements
           (List.concat (arrow_rows uuid4 (id_map st) (drawn st) [(u, v)])) st).
Proof.
  rewrite link_spec. cbn [arrow_rows List.concat]. rewrite app_nil_r.
  unfold arrows_of. cbn [fst snd].
  destruct (dict_get u (id_map st)); [| rewrite with_elements_nil; reflexivity].
  destruct (dict_get v (id_map st)); [| rewrite with_elements_nil]; reflexivity.
Qed.

(** The second pass appends the arrows of the references of the data, row
    after row, and leaves [id_map] as the first pass has filled it. *)
Lemma link_pass_rows structured_data st :
  foldM (link_procedure uuid4) structured_data st
  = Ret (with_elements
           (List.concat (arrow_rows uuid4 (id_map st) (drawn st)
                      (references structured_data)))
           st).
Proof.
  unfold references. apply foldM_arrow_rows. intros s proc.
  unfold link_procedure. apply foldM_arrow_rows. intros s0 [item_id meta].
  unfold link_item. cbn [fst snd]. apply foldM_arrow_rows. intros s1 v.
  apply link_arrows.
Qed.

Lemma edges_between_has n srcs tgts s t :
  In s srcs -> In t tgts ->
  exists k, In (edge_cell (uuid4 k) s t) (edges_between uuid4 n srcs tgts).
Proof.
  intros Hs Ht. revert n. induction srcs as [|s0 srcs IH]; intro n;
    [destruct Hs|].
  cbn [edges_between]. destruct Hs as [-> | Hs].
  - assert (Hrow : forall m, exists k, In (edge_cell (uuid4 k) s t)
                                          (edge_row uuid4 m s tgts)).
    { clear - Ht. induction tgts as [|t0 tgts IHt]; intro m; [destruct Ht|].
      destruct Ht as [-> | Ht].
      - exists m. left. reflexivity.
      - destruct (IHt Ht (S m)) as [k Hk]. exists k. right. exact Hk. }
    destruct (Hrow n) as [k Hk]. exists k. apply in_or_app. left. exact Hk.
  - destruct (IH Hs (n + List.length tgts)%nat) as [k Hk].
    exists k. apply in_or_app. right. exact Hk.
Qed.

End ArrowRows.

Lemma In_references structured_data m c u mu v :
  In (m, c) structured_data -> In (u, mu) (items c) -> In v (next mu) ->
  In (u, v) (references structured_data).
Proof.
  intros Hp Hu Hv. unfold references.
  apply in_flat_map. exists (m, c). split; [assumption|].
  apply in_flat_map. exists (u, mu). split; [assumption|].
  apply in_flat_map. exists v. split; [assumption | left; reflexivity].
Qed.

(** The run: the first pass, then the arrows of the references. *)
Lemma emit_run_rows uuid4 rnd structured_data tooltips :
  well_formed structured_data ->
  exists st1,
    layout_pass uuid4 rnd structured_data tooltips = Ret st1
    /\ emit_run uuid4 rnd structured_data tooltips
       = Ret (with_elements
                (List.concat (arrow_rows uuid4 (id_map st1) (drawn st1)
                           (references structured_data)))
                st1)
    /\ create_drawio_xml uuid4 rnd structured_data tooltips
       = Ret (document uuid4
                (with_elements
                   (List.concat (arrow_rows uuid4 (id_map st1) (drawn st1)
                              (references structured_data)))
                   st1)).
Proof.
  intro Hwf.
  destruct (layout_pass_total uuid4 rnd structured_data tooltips Hwf)
    as (st1 & Hlay).
  exists st1. split; [assumption|].
  assert (Hrun : emit_run uuid4 rnd structured_data tooltips
                 = Ret (with_elements
                          (List.concat (arrow_rows uuid4 (id_map st1) (drawn st1)
                                     (references structured_data)))
                          st1)).
  { unfold emit_run. rewrite Hlay. cbn [bind]. apply link_pass_rows. }
  split; [exact Hrun|].
  unfold create_drawio_xml. rewrite Hrun. reflexivity.
Qed.

(** The arrows of a reference number as the lanes recorded for its
    source times the lanes recorded for its target. *)
Lemma arrows_of_length uuid4 rnd structured_data tooltips st1 n u v :
  layout_pass uuid4 rnd structured_data tooltips = Ret st1 ->
  List.length (arrows_of uuid4 (id_map st1) n (u, v))
  = (lane_count structured_data u * lane_count structured_data v)%nat.
Proof.
  intro Hlay.
  pose proof (layout_pass_lanes uuid4 rnd _ _ _ u Hlay) as Hu.
  pose proof (layout_pass_lanes uuid4 rnd _ _ _ v Hlay) as Hv.
  unfold lane_count, arrows_of. cbn [fst snd]. rewrite <- Hu, <- Hv.
  destruct (dict_get u (id_map st1)) as [cu|]; [| reflexivity].
  destruct (dict_get v (id_map st1)) as [cv|]; simpl; [| lia].
  rewrite edges_between_length. unfold keys, values. rewrite !length_map.
  reflexivity.
Qed.

(** C3, as the code has it. The arrows of the returned document follow
    the cells of the first pass, one row per [next] reference in the
    order of the second pass. The row of a reference from [u] to [v]
    holds one arrow per pair of a copy of [u] and a copy of [v] recorded
    in [id_map], so it has as many arrows as the lanes recorded for [u]
    times the lanes recorded for [v] (none when an end is no item). For
    two items, each of exactly one procedure and each with a stakeholder
    list without repetition, these are |stakeholders(u)| x
    |stakeholders(v)| arrows. *)
Theorem edges_per_reference (uuid4 : nat -> string) (rnd : Q -> Q)
  (structured_data : DataStruct) (tooltips : dict string) :
  well_formed structured_data ->
  exists st1 st rows,
    layout_pass uuid4 rnd structured_data tooltips = Ret st1
    /\ emit_run uuid4 rnd structured_data tooltips = Ret st
    /\ create_drawio_xml uuid4 rnd structured_data tooltips
       = Ret (document uuid4 st)
    /\ (forall e, In e (root st1) -> is_edge e = false)
    /\ root st = root st1 ++ List.concat rows
    /\ List.length rows = List.length (references structured_data)
    /\ forall k u v,
         nth_error (references structured_data) k = Some (u, v) ->
         exists row,
           nth_error rows k = Some row
           /\ (forall e, In e row -> is_edge e = true)
           /\ List.length row
              = (lane_count structured_data u * lane_count structured_data v)%nat
           /\ (forall cu cv,
                 dict_get u (id_map st) = Some cu ->
                 dict_get v (id_map st) = Some cv ->
                 Some (keys cu) = item_lanes structured_data u
                 /\ Some (keys cv) = item_lanes structured_data v
                 /\ (exists n,
                       row = edges_between uuid4 n (values cu) (values cv))
                 /\ forall s t, In s (values cu) -> In t (values cv) ->
                      exists e, In e row /\ arrow_from_to s t e)
           /\ (forall mu mv,
                 sole_owner structured_data u mu ->
                 sole_owner structured_data v mv ->
                 NoDup (stakeholders mu) -> NoDup (stakeholders mv) ->
                 List.length row
                 = (List.length (stakeholders mu)
                    * List.length (stakeholders mv))%nat).
Proof.
  intro Hwf.
  destruct (emit_run_rows uuid4 rnd structured_data tooltips Hwf)
    as (st1 & Hlay & Hrun & Hdoc).
  set (rows := arrow_rows uuid4 (id_map st1) (drawn st1)
                 (references structured_data)) in *.
  exists st1, (with_elements (List.concat rows) st1), rows.
  split; [assumption | split; [assumption | split; [assumption|]]].
  split; [intros e He; eapply layout_pass_no_edge; eassumption|].
  split; [reflexivity|]. split; [apply arrow_rows_length|].
  intros k u v Hk.
  destruct (arrow_rows_nth uuid4 (id_map st1) (references structured_data)
              (drawn st1) k (u, v) Hk) as (n & Hrow).
  exists (arrows_of uuid4 (id_map st1) n (u, v)).
  split; [exact Hrow|].
  pose proof (arrows_of_length uuid4 rnd structured_data tooltips st1 n u v Hlay)
    as Hlen.
  split; [| split; [exact Hlen | split]].
  - intros e He. unfold arrows_of in He. cbn [fst snd] in He.
    destruct (dict_get u (id_map st1)); [| destruct He].
    destruct (dict_get v (id_map st1)); [| destruct He].
    apply edges_between_In in He. destruct He as (j & s & t & _ & _ & ->).
    reflexivity.
  - intros cu cv Hcu Hcv. cbn [with_elements id_map] in Hcu, Hcv.
    pose proof (layout_pass_lanes uuid4 rnd _ _ _ u Hlay) as Hu.
    pose proof (layout_pass_lanes uuid4 rnd _ _ _ v Hlay) as Hv.
    rewrite Hcu in Hu. rewrite Hcv in Hv.
    split; [exact Hu | split; [exact Hv|]].
    unfold arrows_of. cbn [fst snd]. rewrite Hcu, Hcv.
    split; [exists n; reflexivity|].
    intros s t Hs Ht.
    destruct (edges_between_has uuid4 n _ _ s t Hs Ht) as [j Hj].
    exists (edge_cell (uuid4 j) s t). split; [exact Hj|].
    repeat split; reflexivity.
  - intros mu mv Hsu Hsv Hndu Hndv. rewrite Hlen. unfold lane_count.
    rewrite (item_lanes_sole_owner _ _ _ Hwf Hsu Hndu),
      (item_lanes_sole_owner _ _ _ Hwf Hsv Hndv).
    reflexivity.
Qed.

Lemma edges_per_reference_witness :
  exists st1 st rows row,
    layout_pass (numbered "n") exact fan_out [] = Ret st1
    /\ emit_run (numbered "n") exact fan_out [] = Ret st
    /\ create_drawio_xml (numbered "n") exact fan_out []
       = Ret (document (numbered "n") st)
    /\ (forall e, In e (root st1) -> is_edge e = false)
    /\ root st = root st1 ++ List.concat rows
    /\ List.length rows = 1%nat
    /\ nth_error rows 0 = Some row
    /\ (forall e, In e row -> is_edge e = true)
    /\ List.length row = (2 * 3)%nat.
Proof.
  destruct (edges_per_reference (numbered "n") exact fan_out [])
    as (st1 & st & rows & H1 & H2 & H3 & H4 & H5 & H6 & H7).
  - apply well_formedb_sound. reflexivity.
  - destruct (H7 O "S1" "S2" eq_refl) as (row & Hrow & Hedges & _ & _ & Hsole).
    exists st1, st, rows, row.
    repeat (split; [assumption|]).
    apply (Hsole (mkMeta ["A"; "B"] ["S2"]) (mkMeta ["C"; "D"; "E"] [])).
    + exists [], "P1",
        (mkContent [("S1", mkMeta ["A"; "B"] ["S2"]);
                    ("S2", mkMeta ["C"; "D"; "E"] [])]), [].
      split; [reflexivity|]. split; [left; reflexivity | intros m c []].
    + exists [], "P1",
        (mkContent [("S1", mkMeta ["A"; "B"] ["S2"]);
                    ("S2", mkMeta ["C"; "D"; "E"] [])]), [].
      split; [reflexivity|]. split; [right; left; reflexivity | intros m c []].
    + apply nodupb_sound. reflexivity.
    + apply nodupb_sound. reflexivity.
Defined.

(** The design document's example: the one reference of [fan_out], from
    S1 with stakeholders A, B to S2 with stakeholders C, D, E, gives the
    six arrows that end the document. An item whose list names a
    stakeholder twice has one lane recorded, and two node copies. *)
Example fan_out_arrows :
  references fan_out = [("S1", "S2")]
  /\ lane_count fan_out "S1" = 2%nat /\ lane_count fan_out "S2" = 3%nat
  /\ (exists st,
        emit_run (numbered "n") exact fan_out [] = Ret st
        /\ map (fun e => (attr "source" e, attr "target" e))
               (filter is_edge (root st))
           = [(Some "n7", Some "n9"); (Some "n7", Some "n10");
              (Some "n7", Some "n11"); (Some "n8", Some "n9");
              (Some "n8", Some "n10"); (Some "n8", Some "n11")])
  /\ (exists st,
        emit_run (numbered "n") exact
          [("P1", mkContent [("S1", mkMeta ["A"; "A"] ["S2"]);
                             ("S2", mkMeta ["B"] [])])] []
        = Ret st
        /\ count_elements is_edge (root st) = 1%nat
        /\ count_elements is_node (root st) = 3%nat).
Proof.
  split; [reflexivity|]. split; [reflexivity|]. split; [reflexivity|].
  split; eexists; (split; [vm_compute; reflexivity|]);
    [vm_compute; reflexivity | split; vm_compute; reflexivity].
Qed.

(* ================================================================== *)
(** * References across procedures, in the document *)

(** C10. A [next] reference from an item [u] of one procedure to an item
    [v] of another procedure only is left out of the graph that levels
    the first procedure, and still yields arrows in the returned
    document: [id_map] is shared by all procedures, both ends have an
    entry holding at least their stakeholders, and the document holds the
    row of the reference, one arrow from every copy of [u] to every copy
    of [v]; the row is not empty when both items have a stakeholder. *)
Theorem cross_procedure_reference (uuid4 : nat -> string) (rnd : Q -> Q)
  (structured_data : DataStruct) (tooltips : dict string)
  (m1 m2 : string) (c1 c2 : Content) (u v : string) (mu mv : ItemMeta) :
  well_formed structured_data ->
  In (m1, c1) structured_data ->
  In (m2, c2) structured_data ->
  In (u, mu) (items c1) ->
  In v (next mu) ->
  ~ In v (keys (items c1)) ->
  In (v, mv) (items c2) ->
  (exists adj deg,
     build_graph (items c1) = Ret (adj, deg)
     /\ dict_get u adj = Some (succs (items c1) u)
     /\ ~ In v (succs (items c1) u))
  /\ exists st cu cv pre row post,
       emit_run uuid4 rnd structured_data tooltips = Ret st
       /\ create_drawio_xml uuid4 rnd structured_data tooltips
          = Ret (document uuid4 st)
       /\ dict_get u (id_map st) = Some cu
       /\ dict_get v (id_map st) = Some cv
       /\ incl (stakeholders mu) (keys cu)
       /\ incl (stakeholders mv) (keys cv)
       /\ root st = pre ++ row ++ post
       /\ (exists n, row = edges_between uuid4 n (values cu) (values cv))
       /\ List.length row = (List.length cu * List.length cv)%nat
       /\ (forall s t, In s (values cu) -> In t (values cv) ->
             exists e, In e (root st) /\ arrow_from_to s t e)
       /\ (stakeholders mu <> [] -> stakeholders mv <> [] ->
           (0 < List.length row)%nat
           /\ (0 < count_elements is_edge (root st))%nat).
Proof.
  intros Hwf Hp1 Hp2 Hu Hnext Hnot Hv. split.
  - pose proof (Hwf m1 c1 Hp1) as Hnd.
    destruct (build_graph_spec (items c1) Hnd)
      as (adj & deg & Hrun & _ & _ & Hadj & _).
    exists adj, deg. split; [assumption|]. split.
    + apply Hadj. apply (in_map fst) in Hu. exact Hu.
    + intro H. apply Hnot. eapply succs_items. eassumption.
  - destruct (emit_run_rows uuid4 rnd structured_data tooltips Hwf)
      as (st1 & Hlay & Hrun & Hdoc).
    destruct (item_lanes_listed structured_data m1 c1 u mu Hp1 Hu)
      as (lu & Hlu & Hinclu).
    destruct (item_lanes_listed structured_data m2 c2 v mv Hp2 Hv)
      as (lv & Hlv & Hinclv).
    pose proof (layout_pass_lanes uuid4 rnd _ _ _ u Hlay) as Hku.
    pose proof (layout_pass_lanes uuid4 rnd _ _ _ v Hlay) as Hkv.
    rewrite Hlu in Hku. rewrite Hlv in Hkv.
    destruct (dict_get u (id_map st1)) as [cu|] eqn:Ecu; [| discriminate].
    destruct (dict_get v (id_map st1)) as [cv|] eqn:Ecv; [| discriminate].
    simpl in Hku, Hkv. injection Hku as Hku. injection Hkv as Hkv. subst lu lv.
    destruct (arrow_rows_In uuid4 (id_map st1) (references structured_data)
                (drawn st1) (u, v)
                (In_references structured_data m1 c1 u mu v Hp1 Hu Hnext))
      as (n & pre & post & Hrows).
    assert (Hrow : arrows_of uuid4 (id_map st1) n (u, v)
                   = edges_between uuid4 n (values cu) (values cv)).
    { unfold arrows_of. cbn [fst snd]. rewrite Ecu, Ecv. reflexivity. }
    rewrite Hrow in Hrows.
    set (row := edges_between uuid4 n (values cu) (values cv)) in *.
    exists (with_elements
              (List.concat (arrow_rows uuid4 (id_map st1) (drawn st1)
                              (references structured_data))) st1),
      cu, cv, (root st1 ++ pre), row, post.
    assert (Hlen : List.length row = (List.length cu * List.length cv)%nat).
    { unfold row. rewrite edges_between_length. unfold values.
      rewrite !length_map. reflexivity. }
    assert (Hroot : root st1
                    ++ List.concat (arrow_rows uuid4 (id_map st1) (drawn st1)
                                      (references structured_data))
                    = (root st1 ++ pre) ++ row ++ post).
    { rewrite Hrows, <- app_assoc. reflexivity. }
    split; [exact Hrun | split; [exact Hdoc|]].
    split; [exact Ecu | split; [exact Ecv|]].
    split; [exact Hinclu | split; [exact Hinclv|]].
    split; [exact Hroot|]. split; [exists n; reflexivity|].
    split; [exact Hlen|]. split.
    + intros s t Hs Ht.
      destruct (edges_between_has uuid4 n _ _ s t Hs Ht) as [j Hj].
      exists (edge_cell (uuid4 j) s t). split.
      * cbn [with_elements root]. rewrite Hroot.
        apply in_or_app. right. apply in_or_app. left. exact Hj.
      * repeat split; reflexivity.
    + intros Hneu Hnev.
      assert (Hpos : forall (l : list string) (c : dict string),
                 l <> [] -> incl l (keys c) -> (0 < List.length c)%nat).
      { intros l c Hlne Hincl. destruct l as [|x l]; [contradiction|].
        destruct c as [|y c]; [| simpl; lia].
        exfalso. apply (Hincl x). left. reflexivity. }
      pose proof (Hpos _ _ Hneu Hinclu). pose proof (Hpos _ _ Hnev Hinclv).
      assert (Hrowpos : (0 < List.length row)%nat) by (rewrite Hlen; nia).
      split; [exact Hrowpos|].
      cbn [with_elements root]. rewrite Hroot.
      rewrite !count_elements_app.
      assert (Hall : count_elements is_edge row = List.length row).
      { unfold row. rewrite count_edges_between; [| reflexivity].
        fold row. rewrite Hlen. unfold values. rewrite !length_map.
        reflexivity. }
      lia.
Qed.

Lemma cross_procedure_reference_witness :
  (exists adj deg,
     build_graph [("S1", mkMeta ["ATC"] ["S2"])] = Ret (adj, deg)
     /\ dict_get "S1" adj = Some (succs [("S1", mkMeta ["ATC"] ["S2"])] "S1")
     /\ ~ In "S2" (succs [("S1", mkMeta ["ATC"] ["S2"])] "S1"))
  /\ exists st cu cv pre row post,
       emit_run (numbered "n") exact cross_procedure [] = Ret st
       /\ create_drawio_xml (numbered "n") exact cross_procedure []
          = Ret (document (numbered "n") st)
       /\ dict_get "S1" (id_map st) = Some cu
       /\ dict_get "S2" (id_map st) = Some cv
       /\ incl ["ATC"] (keys cu)
       /\ incl ["Airline"; "Ground"] (keys cv)
       /\ root st = pre ++ row ++ post
       /\ (exists n,
             row = edges_between (numbered "n") n (values cu) (values cv))
       /\ List.length row = (List.length cu * List.length cv)%nat
       /\ (forall s t, In s (values cu) -> In t (values cv) ->
             exists e, In e (root st) /\ arrow_from_to s t e)
       /\ (0 < List.length row)%nat
       /\ (0 < count_elements is_edge (root st))%nat.
Proof.
  destruct (cross_procedure_reference (numbered "n") exact cross_procedure []
              "P1" "P2"
              (mkContent [("S1", mkMeta ["ATC"] ["S2"])])
              (mkContent [("S2", mkMeta ["Airline"; "Ground"] [])])
              "S1" "S2" (mkMeta ["ATC"] ["S2"])
              (mkMeta ["Airline"; "Ground"] []))
    as (Hgraph & st & cu & cv & pre & row & post
        & H1 & H2 & H3 & H4 & H5 & H6 & H7 & H8 & H9 & H10 & H11).
  - apply well_formedb_sound. reflexivity.
  - left. reflexivity.
  - right. left. reflexivity.
  - left. reflexivity.
  - left. reflexivity.
  - simpl. intros [H | []]. discriminate.
  - left. reflexivity.
  - split; [exact Hgraph|].
    exists st, cu, cv, pre, row, post.
    repeat (split; [assumption|]).
    apply H11; discriminate.
Defined.

(* ================================================================== *)
(** * A run reads the draws it makes, and no other *)

Section LocalIdentifiers.

Variables uuid_a uuid_b : nat -> string.
Variable rnd : Q -> Q.

Local Abbreviation agree := (agree_on uuid_a uuid_b).

Lemma agree_sub lo hi lo' hi' :
  (lo <= lo')%nat -> (hi' <= hi)%nat -> agree lo hi -> agree lo' hi'.
Proof. intros H1 H2 H k Hk. apply H. lia. Qed.

Lemma foldM_local {S X : Type} (D : S -> nat) (fa fb : S -> X -> outcome S) :
  local_step uuid_a uuid_b D fa fb ->
  forall l, local_step uuid_a uuid_b D (fun s (_ : unit) => foldM fa l s)
                         (fun s (_ : unit) => foldM fb l s).
Proof.
  intros Hstep l. induction l as [|x l IH]; intros s u s' H; simpl in *.
  - injection H as <-. split; [lia | reflexivity].
  - apply bind_ret_inv in H. destruct H as (s1 & H1 & H2).
    destruct (Hstep s x s1 H1) as [Hle1 Hb1].
    destruct (IH s1 u s' H2) as [Hle2 Hb2].
    split; [lia|]. intro Ha.
    rewrite Hb1 by (eapply agree_sub; [| | exact Ha]; lia).
    simpl. apply Hb2. eapply agree_sub; [| | exact Ha]; lia.
Qed.

Lemma foldM_local_run {S X : Type} (D : S -> nat) (fa fb : S -> X -> outcome S)
  (l : list X) (s s' : S) :
  local_step uuid_a uuid_b D fa fb ->
  foldM fa l s = Ret s' ->
  (D s <= D s')%nat /\ (agree (D s) (D s') -> foldM fb l s = Ret s').
Proof. intros Hstep H. exact (foldM_local D fa fb Hstep l s tt s' H). Qed.

Lemma emit_lane_local lane_widths pool_id pool_height :
  local_step uuid_a uuid_b (fun s : LaneState => drawn (fst (fst s)))
             (emit_lane uuid_a lane_widths pool_id pool_height)
             (emit_lane uuid_b lane_widths pool_id pool_height).
Proof.
  intros [[st ids] acc] sh s' H.
  destruct (emit_lane_ret uuid_a _ _ _ _ _ _ _ _ H) as (lw & _ & Hs').
  split; [rewrite Hs'; simpl; lia|].
  intro Ha. rewrite Hs' in Ha. simpl in Ha.
  unfold emit_lane, draw in *. rewrite <- (Ha (drawn st)) by lia. exact H.
Qed.

Lemma place_copy_local L item_id lvl clean_name tooltip is_multi :
  local_step uuid_a uuid_b (fun s : Emit * Cells => drawn (fst s))
    (place_copy uuid_a rnd L item_id lvl clean_name tooltip is_multi)
    (place_copy uuid_b rnd L item_id lvl clean_name tooltip is_multi).
Proof.
  intros [st cells] sh s' H.
  destruct (place_copy_ret uuid_a rnd _ _ _ _ _ _ _ _ _ _ H)
    as (lw & sw & copies & fill & lane_id & _ & _ & _ & _ & _ & Hs').
  split; [rewrite Hs'; simpl; lia|].
  intro Ha. rewrite Hs' in Ha. simpl in Ha.
  unfold place_copy, draw in *. rewrite <- (Ha (drawn st)) by lia. exact H.
Qed.

Lemma drawn_prepared item_id is_multi st :
  drawn (setdefault_id_map item_id (assign_color item_id is_multi st))
  = drawn st.
Proof.
  unfold setdefault_id_map, assign_color.
  destruct (is_multi && negb (dict_mem item_id (multi_item_color st)));
    simpl;
    match goal with |- context [if ?b then _ else _] => destruct b end;
    reflexivity.
Qed.

Lemma place_item_local L :
  local_step uuid_a uuid_b (fun s : Emit * Cells => drawn (fst s))
             (place_item uuid_a rnd L) (place_item uuid_b rnd L).
Proof.
  intros [st cells] [item_id meta] s' H. unfold place_item in *.
  destruct (subscript (l_levels L) item_id) as [lvl| |]; simpl in *;
    try discriminate.
  destruct (foldM_local_run _ _ _ _ _ _ (place_copy_local L item_id lvl _ _ _) H)
    as [Hle Hb].
  simpl in Hle, Hb. rewrite drawn_prepared in Hle, Hb.
  split; [exact Hle | exact Hb].
Qed.

Lemma layout_procedure_local tooltips :
  local_step uuid_a uuid_b drawn (layout_procedure uuid_a rnd tooltips)
                   (layout_procedure uuid_b rnd tooltips).
Proof.
  intros st [milestone_id content] s' H. unfold layout_procedure in *.
  destruct (items content) as [|it its] eqn:E.
  { injection H as <-. split; [lia | reflexivity]. }
  rewrite <- E in *. clear E it its.
  destruct (calculate_vertical_order (items content)) as [item_levels| |];
    simpl in *; try discriminate.
  destruct (py_max (values item_levels)) as [max_level| |];
    simpl in *; try discriminate.
  destruct (count_cells (items content) item_levels) as [cells| |];
    simpl in *; try discriminate.
  match type of H with context [dict_comp ?f ?l] =>
    destruct (dict_comp f l) as [per_lane| |] end;
    simpl in *; try discriminate.
  match type of H with context [dict_comp ?f ?l] =>
    destruct (dict_comp f l) as [lane_widths| |] end;
    simpl in *; try discriminate.
  apply bind_ret_inv in H. destruct H as ([[st3 lane_ids] acc] & H3 & H).
  apply bind_ret_inv in H. destruct H as ([st4 cells4] & H4 & H).
  injection H as <-.
  destruct (foldM_local_run _ _ _ _ _ _ (emit_lane_local _ _ _) H3) as [Hle3 Hb3].
  destruct (foldM_local_run _ _ _ _ _ _ (place_item_local _) H4) as [Hle4 Hb4].
  simpl in Hle3, Hb3, Hle4, Hb4. simpl.
  split; [lia|]. intro Ha.
  rewrite <- (Ha (drawn st)) by lia.
  rewrite Hb3 by (eapply agree_sub; [| | exact Ha]; lia). simpl.
  rewrite Hb4 by (eapply agree_sub; [| | exact Ha]; lia). reflexivity.
Qed.

Lemma edge_row_local n s tgts :
  agree n (n + List.length tgts) ->
  edge_row uuid_a n s tgts = edge_row uuid_b n s tgts.
Proof.
  revert n. induction tgts as [|t tgts IH]; intros n Ha; [reflexivity|].
  simpl in *. rewrite (Ha n) by lia. f_equal.
  apply IH. eapply agree_sub; [| | exact Ha]; lia.
Qed.

Lemma edges_between_local n srcs tgts :
  agree n (n + List.length srcs * List.length tgts) ->
  edges_between uuid_a n srcs tgts = edges_between uuid_b n srcs tgts.
Proof.
  revert n. induction srcs as [|s srcs IH]; intros n Ha; [reflexivity|].
  simpl in *. rewrite edge_row_local by (eapply agree_sub; [| | exact Ha]; lia).
  f_equal. apply IH. eapply agree_sub; [| | exact Ha]; lia.
Qed.

Lemma link_local item_id :
  local_step uuid_a uuid_b drawn (link uuid_a item_id) (link uuid_b item_id).
Proof.
  intros st target_id s' H. rewrite link_spec in H. rewrite link_spec.
  injection H as <-.
  destruct (dict_get item_id (id_map st)) as [cu|];
    [| split; [lia | reflexivity]].
  destruct (dict_get target_id (id_map st)) as [cv|];
    [| split; [lia | reflexivity]].
  simpl. rewrite edges_between_length. split; [lia|].
  intro Ha. rewrite (edges_between_local _ _ _ Ha). reflexivity.
Qed.

Lemma link_procedure_local :
  local_step uuid_a uuid_b drawn (link_procedure uuid_a) (link_procedure uuid_b).
Proof.
  intros st proc s' H. unfold link_procedure in *.
  apply (foldM_local_run drawn (link_item uuid_a) (link_item uuid_b)); [| exact H].
  intros s0 [item_id meta] s1 H1. unfold link_item in *.
  apply (foldM_local_run drawn (link uuid_a item_id) (link uuid_b item_id));
    [apply link_local | exact H1].
Qed.

(** A run with other identifiers that agree on the draws made returns the
    same state and the same document. *)
Lemma emit_run_local structured_data tooltips st :
  emit_run uuid_a rnd structured_data tooltips = Ret st ->
  agree 0 (drawn st) ->
  emit_run uuid_b rnd structured_data tooltips = Ret st
  /\ document uuid_a st = document uuid_b st.
Proof.
  unfold emit_run, layout_pass. intros H Ha.
  apply bind_ret_inv in H. destruct H as (st1 & H1 & H2).
  destruct (foldM_local_run _ _ _ _ _ _ (layout_procedure_local tooltips) H1)
    as [Hle1 Hb1].
  destruct (foldM_local_run _ _ _ _ _ _ link_procedure_local H2) as [Hle2 Hb2].
  simpl in Hle1, Hb1. split.
  - rewrite Hb1 by (eapply agree_sub; [| | exact Ha]; lia). simpl.
    apply Hb2. eapply agree_sub; [| | exact Ha]; lia.
  - unfold document. rewrite (Ha O) by lia. reflexivity.
Qed.

End LocalIdentifiers.

(* ================================================================== *)
(** * Two runs on the same text *)

(** Two runs that return the same document have made the same draws. *)
Lemma same_document_same_draws uuid_a uuid_b st_a st_b :
  ids_in_draw_order uuid_a st_a ->
  ids_in_draw_order uuid_b st_b ->
  document uuid_a st_a = document uuid_b st_b ->
  drawn st_a = drawn st_b
  /\ forall k, (k < drawn st_a)%nat -> uuid_a k = uuid_b k.
Proof.
  intros (Hpa & Hla & Hia) (Hpb & Hlb & Hib) Hdoc.
  unfold document in Hdoc. injection Hdoc as H0 Hroot.
  assert (Hd : drawn st_a = drawn st_b).
  { rewrite Hroot in Hla. rewrite Hla in Hlb. injection Hlb as Hlb. exact Hlb. }
  split; [exact Hd|].
  rewrite Hroot, Hib, <- Hd in Hia. injection Hia as Hmap.
  intros k Hk. destruct k as [|k]; [exact H0|].
  assert (H : forall a, In a (seq 1 (drawn st_a - 1)) -> uuid_b a = uuid_a a)
    by (apply map_ext_in_iff; exact Hmap).
  symmetry. apply H. apply in_seq. lia.
Qed.

(** C6, as the code has it. Two runs of the pipeline on the same text,
    each drawing its own identifiers from [uuid.uuid4()], return
    documents with the same colour bindings, the same lanes per item, and
    the same numbers of node copies and arrows. The documents themselves
    are equal exactly when both runs draw the same identifiers: every
    draw that a run makes names a cell of its document, so equal
    documents have equal draws, and a run reads no draw but those it
    makes, so equal draws give equal documents. *)
Theorem rerun_same_colors_and_counts (raw_data : string)
  (uuid_a uuid_b : nat -> string) (rnd : Q -> Q) :
  exists graph tips st_a st_b,
    parse_data raw_data = Ret (graph, tips)
    /\ emit_run uuid_a rnd graph tips = Ret st_a
    /\ emit_run uuid_b rnd graph tips = Ret st_b
    /\ create_drawio_xml uuid_a rnd graph tips = Ret (document uuid_a st_a)
    /\ create_drawio_xml uuid_b rnd graph tips = Ret (document uuid_b st_b)
    /\ multi_item_color st_a = multi_item_color st_b
    /\ count_elements is_node (root st_a) = count_elements is_node (root st_b)
    /\ count_elements is_edge (root st_a) = count_elements is_edge (root st_b)
    /\ summary st_a = sum_run graph
    /\ summary st_b = sum_run graph
    /\ (1 <= drawn st_a)%nat
    /\ (document uuid_a st_a = document uuid_b st_b <->
        forall k, (k < drawn st_a)%nat -> uuid_a k = uuid_b k)
    /\ (document uuid_a st_a = document uuid_b st_b ->
        drawn st_a = drawn st_b /\ st_a = st_b)
    /\ ((forall n, uuid_a n = uuid_b n) ->
        document uuid_a st_a = document uuid_b st_b).
Proof.
  destruct (parse_data_returns raw_data) as (graph & tips & Hparse).
  pose proof (parse_data_well_formed _ _ _ Hparse) as Hwf.
  destruct (emit_run_spec uuid_a rnd graph tips Hwf)
    as (sa1 & esa & _ & Hra & Hda & _ & _).
  destruct (emit_run_spec uuid_b rnd graph tips Hwf)
    as (sb1 & esb & _ & Hrb & Hdb & _ & _).
  exists graph, tips, (with_elements esa sa1), (with_elements esb sb1).
  pose proof (emit_run_summary _ _ _ _ _ Hra) as Hsa.
  pose proof (emit_run_summary _ _ _ _ _ Hrb) as Hsb.
  pose proof (ids_emit_run uuid_a rnd _ _ _ Hra) as Hja.
  pose proof (ids_emit_run uuid_b rnd _ _ _ Hrb) as Hjb.
  repeat (split; [assumption|]).
  assert (Heq : summary (with_elements esa sa1) = summary (with_elements esb sb1))
    by congruence.
  split; [exact (f_equal a_colors Heq)|].
  split; [exact (f_equal a_nodes Heq)|].
  split; [exact (f_equal a_edges Heq)|].
  split; [assumption | split; [assumption|]].
  split; [exact (proj1 Hja)|].
  assert (Hlocal : (forall k, (k < drawn (with_elements esa sa1))%nat ->
                              uuid_a k = uuid_b k) ->
                   with_elements esa sa1 = with_elements esb sb1
                   /\ document uuid_a (with_elements esa sa1)
                      = document uuid_b (with_elements esb sb1)).
  { intro Hsame.
    destruct (emit_run_local uuid_a uuid_b rnd graph tips _ Hra) as [Hrb' Hdoc].
    { intros k Hk. apply Hsame. lia. }
    assert (E : with_elements esa sa1 = with_elements esb sb1) by congruence.
    split; [exact E|]. rewrite <- E. exact Hdoc. }
  assert (Hdraws : document uuid_a (with_elements esa sa1)
                   = document uuid_b (with_elements esb sb1) ->
                   drawn (with_elements esa sa1) = drawn (with_elements esb sb1)
                   /\ forall k, (k < drawn (with_elements esa sa1))%nat ->
                                uuid_a k = uuid_b k).
  { apply same_document_same_draws; assumption. }
  split; [| split].
  - split; [intro Hdoc; apply Hdraws; exact Hdoc|].
    intro Hsame. apply Hlocal. exact Hsame.
  - intro Hdoc. destruct (Hdraws Hdoc) as [Hd Hsame].
    split; [exact Hd|]. apply Hlocal. exact Hsame.
  - intro Hsame. apply Hlocal. intros k _. apply Hsame.
Qed.

(* ================================================================== *)
(** * The pauses of the extraction loop *)

Section ExtractionFacts.

Variable Result : Type.
Variable extract : nat -> string -> outcome Result.
Variable sleep : nat -> Q -> outcome unit.
Variable sleep_secs : Q.

Lemma pauses_paused_between n i texts :
  pauses (paused_between sleep_secs n i texts) = (List.length texts - 1)%nat.
Proof.
  revert i. induction texts as [|t rest IH]; intro i; [reflexivity|].
  cbn [paused_between pauses]. destruct rest as [|t' rest]; [reflexivity|].
  cbn [pauses]. rewrite IH. simpl. lia.
Qed.

Lemma extraction_loop_returns n texts :
  (forall j, (S j < n)%nat -> sleep j sleep_secs = Ret tt) ->
  forall i all_results,
    (i + List.length texts = n)%nat ->
    (forall j t, nth_error texts j = Some t ->
                 exists r, extract (i + j) t = Ret r) ->
    exists results,
      extraction_loop Result extract sleep sleep_secs n i texts all_results
      = (paused_between sleep_secs n i texts, Ret (all_results ++ results))
      /\ List.length results = List.length texts
      /\ (forall j t, nth_error texts j = Some t ->
            exists r, extract (i + j)%nat t = Ret r
                      /\ nth_error results j = Some r).
Proof.
  intro Hsleep.
  induction texts as [|text rest IH]; intros i all_results Hn Hret.
  - exists []. rewrite app_nil_r. split; [reflexivity|]. split; [reflexivity|].
    intros [|j] t H; discriminate.
  - destruct (Hret O text eq_refl) as [r Hr]. rewrite Nat.add_0_r in Hr.
    cbn [List.length] in Hn.
    destruct (IH (S i) (all_results ++ [r])) as (rs & Hloop & Hlen & Hnth).
    { lia. }
    { intros j t Hj. destruct (Hret (S j) t Hj) as [r' Hr'].
      exists r'. rewrite <- Hr'. f_equal. lia. }
    exists (r :: rs). cbn [extraction_loop]. rewrite Hr.
    split; [| split].
    + destruct rest as [|t' rest]; cbn [List.length] in Hn;
        destruct (Z.ltb_spec (Z.of_nat i) (Z.of_nat n - 1)); try lia.
      * rewrite Hloop, <- app_assoc. reflexivity.
      * rewrite (Hsleep i) by lia.
        rewrite Hloop, <- app_assoc. reflexivity.
    + simpl. rewrite Hlen. reflexivity.
    + intros [|j] t Hj.
      * injection Hj as <-. exists r. rewrite Nat.add_0_r. auto.
      * destruct (Hnth j t Hj) as (r' & Hr' & Hj').
        exists r'. split; [| exact Hj'].
        rewrite <- Hr'. f_equal. lia.
Qed.

(** The run up to the text [k]: the texts before it are extracted, each
    followed by a pause. *)
Lemma extraction_loop_prefix n texts :
  forall i all_results k,
    (i + List.length texts = n)%nat ->
    (k < List.length texts)%nat ->
    (forall j t', (j < k)%nat -> nth_error texts j = Some t' ->
                  exists r, extract (i + j)%nat t' = Ret r) ->
    (forall j, (j < k)%nat -> sleep (i + j)%nat sleep_secs = Ret tt) ->
    exists results,
      extraction_loop Result extract sleep sleep_secs n i texts all_results
      = (let (events, out) :=
           extraction_loop Result extract sleep sleep_secs n (i + k)
             (skipn k texts) (all_results ++ results) in
         (paused_after sleep_secs n i (firstn k texts) ++ events, out)).
Proof.
  induction texts as [|text rest IH]; intros i all_results k Hn Hk Hret Hsleep.
  - simpl in Hk. lia.
  - cbn [List.length] in Hn, Hk. destruct k as [|k].
    + exists []. rewrite app_nil_r, Nat.add_0_r. cbn [skipn firstn paused_after app].
      destruct (extraction_loop Result extract sleep sleep_secs n i
                  (text :: rest) all_results).
      reflexivity.
    + destruct (Hret O text (Nat.lt_0_succ k) eq_refl) as [r Hr].
      rewrite Nat.add_0_r in Hr.
      pose proof (Hsleep O (Nat.lt_0_succ k)) as Hs. rewrite Nat.add_0_r in Hs.
      destruct (IH (S i) (all_results ++ [r]) k) as (rs & Hloop).
      * lia.
      * lia.
      * intros j t' Hj Hj'.
        destruct (Hret (S j) t' (proj1 (Nat.succ_lt_mono j k) Hj) Hj')
          as [r' Hr'].
        exists r'. rewrite <- Hr'. f_equal. lia.
      * intros j Hj.
        rewrite <- (Hsleep (S j) (proj1 (Nat.succ_lt_mono j k) Hj)).
        f_equal. lia.
      * exists (r :: rs). cbn [extraction_loop firstn skipn paused_after].
        rewrite Hr.
        destruct (Z.ltb_spec (Z.of_nat i) (Z.of_nat n - 1)); [| lia].
        rewrite Hs, Hloop.
        replace (S i + k)%nat with (i + S k)%nat by lia.
        rewrite <- app_assoc. cbn [app].
        match goal with
        | |- context [extraction_loop ?a ?b ?c ?d ?n0 ?i0 ?l0 ?r0] =>
            destruct (extraction_loop a b c d n0 i0 l0 r0)
        end.
        reflexivity.
Qed.

Lemma skipn_nth {A : Type} (l : list A) k x :
  nth_error l k = Some x -> exists l', skipn k l = x :: l' /\ l' = skipn (S k) l.
Proof.
  revert k. induction l as [|y l IH]; intros k Hk; [destruct k; discriminate|].
  destruct k as [|k]; simpl in *.
  - injection Hk as ->. exists l. split; reflexivity.
  - apply IH. assumption.
Qed.

Lemma pauses_app l1 l2 : pauses (l1 ++ l2) = (pauses l1 + pauses l2)%nat.
Proof.
  induction l1 as [|[| |] l1 IH]; simpl; rewrite ?IH; reflexivity.
Qed.

Lemma pauses_paused_after n i texts :
  pauses (paused_after sleep_secs n i texts) = List.length texts.
Proof.
  revert i. induction texts as [|t rest IH]; intro i; [reflexivity|].
  simpl. rewrite IH. reflexivity.
Qed.

Lemma pauses_interrupted n k texts (events : list Event) :
  (k < List.length texts)%nat ->
  pauses events = O ->
  pauses (paused_after sleep_secs n 0 (firstn k texts) ++ events) = k.
Proof.
  intros Hk He. rewrite pauses_app, pauses_paused_after, length_firstn, He.
  lia.
Qed.

End ExtractionFacts.

(** X17. When every call of [lx.extract] returns and every call of
    [time.sleep] returns, [run_extraction] returns the results in the
    order of the texts, one for each text. Each text is announced with
    its number and then extracted; there is a pause of [sleep_secs] after
    each text but the last, so the run of [n] texts pauses [n - 1] times,
    and not at all for no text or one, when [time.sleep] is not called. *)
Theorem run_extraction_pauses_between (Result : Type)
  (extract : nat -> string -> outcome Result)
  (sleep : nat -> Q -> outcome unit)
  (sleep_secs : Q) (milestone_texts : list string) :
  (forall i text, nth_error milestone_texts i = Some text ->
                  exists r, extract i text = Ret r) ->
  (forall i, (S i < List.length milestone_texts)%nat ->
             sleep i sleep_secs = Ret tt) ->
  exists all_results,
    run_extraction Result extract sleep sleep_secs milestone_texts
    = (paused_between sleep_secs (List.length milestone_texts) 0
         milestone_texts,
       Ret all_results)
    /\ List.length all_results = List.length milestone_texts
    /\ (forall i text,
          nth_error milestone_texts i = Some text ->
          exists r, extract i text = Ret r /\ nth_error all_results i = Some r)
    /\ pauses (paused_between sleep_secs (List.length milestone_texts) 0
                 milestone_texts)
       = (List.length milestone_texts - 1)%nat.
Proof.
  intros Hret Hsleep.
  destruct (extraction_loop_returns Result extract sleep sleep_secs
              (List.length milestone_texts) milestone_texts Hsleep O []
              eq_refl Hret)
    as (rs & Hloop & Hlen & Hnth).
  exists rs. split; [exact Hloop|]. split; [exact Hlen|].
  split; [exact Hnth|]. apply pauses_paused_between.
Qed.

Lemma run_extraction_pauses_between_witness :
  exists all_results,
    run_extraction nat (fun i text => Ret (i + String.length text)%nat)
      sleep_nonnegative 4 ["one"; "two"; "three"]
    = (paused_between 4 (List.length ["one"; "two"; "three"]) 0
         ["one"; "two"; "three"],
       Ret all_results)
    /\ List.length all_results = List.length ["one"; "two"; "three"]
    /\ (forall i text,
          nth_error ["one"; "two"; "three"] i = Some text ->
          exists r, (fun i text => Ret (i + String.length text)%nat) i text
                    = Ret r
                    /\ nth_error all_results i = Some r)
    /\ pauses (paused_between 4 (List.length ["one"; "two"; "three"]) 0
                 ["one"; "two"; "three"])
       = (List.length ["one"; "two"; "three"] - 1)%nat.
Proof.
  apply (run_extraction_pauses_between nat
           (fun i text => Ret (i + String.length text)%nat)
           sleep_nonnegative 4 ["one"; "two"; "three"]).
  - intros i text _. eexists. reflexivity.
  - intros i _. reflexivity.
Defined.

(** X18. When the call of [lx.extract] on the text [k] is the first call
    to raise, the calls of [lx.extract] and of [time.sleep] before it
    having returned, [run_extraction] raises the same exception and
    returns no result, also not those of the calls before. Until then it
    has announced and extracted the texts before [k], with a pause after
    each of them, and announced the text [k] and called [lx.extract] on
    it: [k] pauses, none after the failed call, and nothing for the texts
    after [k]. *)
Theorem run_extraction_stops_at_exception (Result : Type)
  (extract : nat -> string -> outcome Result)
  (sleep : nat -> Q -> outcome unit)
  (sleep_secs : Q) (milestone_texts : list string) (k : nat) (text : string)
  (e : exn) :
  nth_error milestone_texts k = Some text ->
  extract k text = Raise e ->
  (forall j t, (j < k)%nat -> nth_error milestone_texts j = Some t ->
               exists r, extract j t = Ret r) ->
  (forall j, (j < k)%nat -> sleep j sleep_secs = Ret tt) ->
  run_extraction Result extract sleep sleep_secs milestone_texts
  = (paused_after sleep_secs (List.length milestone_texts) 0
       (firstn k milestone_texts)
     ++ [Printed (Z.of_nat k + 1) (Z.of_nat (List.length milestone_texts));
         Extracted text],
     Raise e)
  /\ pauses (fst (run_extraction Result extract sleep sleep_secs
                    milestone_texts))
     = k.
Proof.
  intros Hk He Hret Hsleep.
  assert (Hlt : (k < List.length milestone_texts)%nat).
  { apply nth_error_Some. rewrite Hk. discriminate. }
  assert (Hrun : run_extraction Result extract sleep sleep_secs milestone_texts
                 = (paused_after sleep_secs (List.length milestone_texts) 0
                      (firstn k milestone_texts)
                    ++ [Printed (Z.of_nat k + 1)
                          (Z.of_nat (List.length milestone_texts));
                        Extracted text],
                    Raise e)).
  { unfold run_extraction.
    destruct (extraction_loop_prefix Result extract sleep sleep_secs
                (List.length milestone_texts) milestone_texts O [] k
                eq_refl Hlt Hret Hsleep) as (rs & ->).
    destruct (skipn_nth milestone_texts k text Hk) as (rest & -> & _).
    cbn [Nat.add extraction_loop]. rewrite He. reflexivity. }
  split; [exact Hrun|].
  rewrite Hrun. cbn [fst]. apply pauses_interrupted; [exact Hlt | reflexivity].
Qed.

Lemma run_extraction_stops_at_exception_witness :
  run_extraction nat
    (fun i text => if (i =? 2)%nat then Raise ValueError
                   else Ret (String.length text))
    sleep_nonnegative 4 ["one"; "two"; "three"; "four"]
  = (paused_after 4 (List.length ["one"; "two"; "three"; "four"]) 0
       (firstn 2 ["one"; "two"; "three"; "four"])
     ++ [Printed (Z.of_nat 2 + 1)
           (Z.of_nat (List.length ["one"; "two"; "three"; "four"]));
         Extracted "three"],
     Raise ValueError)
  /\ pauses (fst (run_extraction nat
                    (fun i text => if (i =? 2)%nat then Raise ValueError
                                   else Ret (String.length text))
                    sleep_nonnegative 4 ["one"; "two"; "three"; "four"]))
     = 2%nat.
Proof.
  apply (run_extraction_stops_at_exception nat
           (fun i text => if (i =? 2)%nat then Raise ValueError
                          else Ret (String.length text))
           sleep_nonnegative 4 ["one"; "two"; "three"; "four"] 2 "three"
           ValueError).
  - reflexivity.
  - reflexivity.
  - intros j t Hj _. destruct j as [|[|j]]; [eexists; reflexivity .. | lia].
  - intros j _. reflexivity.
Defined.

(** X19. When the call of [time.sleep] after the text [k] is the first
    call to raise, as the first pause does with [ValueError] for a
    negative [sleep_secs], [run_extraction] raises that exception and
    returns no result: it has extracted the texts up to [k], paused after
    each text before [k], and has neither announced nor extracted a text
    after [k]. There is such a call only when a text follows [k]. *)
Theorem run_extraction_stops_at_failed_pause (Result : Type)
  (extract : nat -> string -> outcome Result)
  (sleep : nat -> Q -> outcome unit)
  (sleep_secs : Q) (milestone_texts : list string) (k : nat) (text : string)
  (e : exn) :
  nth_error milestone_texts k = Some text ->
  (S k < List.length milestone_texts)%nat ->
  (forall j t, (j <= k)%nat -> nth_error milestone_texts j = Some t ->
               exists r, extract j t = Ret r) ->
  (forall j, (j < k)%nat -> sleep j sleep_secs = Ret tt) ->
  sleep k sleep_secs = Raise e ->
  run_extraction Result extract sleep sleep_secs milestone_texts
  = (paused_after sleep_secs (List.length milestone_texts) 0
       (firstn k milestone_texts)
     ++ [Printed (Z.of_nat k + 1) (Z.of_nat (List.length milestone_texts));
         Extracted text],
     Raise e)
  /\ pauses (fst (run_extraction Result extract sleep sleep_secs
                    milestone_texts))
     = k.
Proof.
  intros Hk Hnext Hret Hsleep Hs.
  assert (Hlt : (k < List.length milestone_texts)%nat) by lia.
  assert (Hrun : run_extraction Result extract sleep sleep_secs milestone_texts
                 = (paused_after sleep_secs (List.length milestone_texts) 0
                      (firstn k milestone_texts)
                    ++ [Printed (Z.of_nat k + 1)
                          (Z.of_nat (List.length milestone_texts));
                        Extracted text],
                    Raise e)).
  { unfold run_extraction.
    destruct (extraction_loop_prefix Result extract sleep sleep_secs
                (List.length milestone_texts) milestone_texts O [] k
                eq_refl Hlt) as (rs & ->).
    { intros j t Hj. apply Hret. lia. }
    { exact Hsleep. }
    destruct (skipn_nth milestone_texts k text Hk) as (rest & -> & _).
    destruct (Hret k text (Nat.le_refl k) Hk) as [r Hr].
    cbn [Nat.add extraction_loop]. rewrite Hr.
    destruct (Z.ltb_spec (Z.of_nat k)
                (Z.of_nat (List.length milestone_texts) - 1)); [| lia].
    rewrite Hs. reflexivity. }
  split; [exact Hrun|].
  rewrite Hrun. cbn [fst]. apply pauses_interrupted; [exact Hlt | reflexivity].
Qed.

Lemma run_extraction_stops_at_failed_pause_witness :
  run_extraction nat (fun _ text => Ret (String.length text))
    sleep_nonnegative (-1) ["one"; "two"; "three"]
  = (paused_after (-1) (List.length ["one"; "two"; "three"]) 0
       (firstn 0 ["one"; "two"; "three"])
     ++ [Printed (Z.of_nat 0 + 1)
           (Z.of_nat (List.length ["one"; "two"; "three"]));
         Extracted "one"],
     Raise ValueError)
  /\ pauses (fst (run_extraction nat (fun _ text => Ret (String.length text))
                    sleep_nonnegative (-1) ["one"; "two"; "three"]))
     = O.
Proof.
  apply (run_extraction_stops_at_failed_pause nat
           (fun _ text => Ret (String.length text)) sleep_nonnegative (-1)
           ["one"; "two"; "three"] 0 "one" ValueError).
  - reflexivity.
  - simpl. lia.
  - intros j t _ _. eexists. reflexivity.
  - intros j Hj. lia.
  - reflexivity.
Defined.

(** Three texts with a pause of 4: two pauses, none after the third. Two
    texts with a pause of -1: the first [time.sleep] raises, after one
    extraction. One text with a pause of -1: no [time.sleep], one
    result. *)
Example run_extraction_three :
  run_extraction nat (fun _ text => Ret (String.length text))
    sleep_nonnegative 4 ["one"; "two"; "three"]
  = ([Printed 1 3; Extracted "one"; Slept 4;
      Printed 2 3; Extracted "two"; Slept 4;
      Printed 3 3; Extracted "three"],
     Ret [3%nat; 3%nat; 5%nat])
  /\ run_extraction nat (fun _ text => Ret (String.length text))
       sleep_nonnegative (-1) ["one"; "two"]
     = ([Printed 1 2; Extracted "one"], Raise ValueError)
  /\ run_extraction nat (fun _ text => Ret (String.length text))
       sleep_nonnegative (-1) ["one"]
     = ([Printed 1 1; Extracted "one"], Ret [3%nat]).
Proof. repeat split; reflexivity. Qed.
